(** * CodeNexlify front end: component framework, event bus, registry,
      theme / i18n / navigation managers

    A shallow embedding of the browser-side modules of the CodeNexlify
    site, the properties its specification states about them, and further
    properties of the code: its edge cases, invariants and round trips.

    Conventions of the embedding.
    - JavaScript objects with an open set of keys ([this.state], event
      payloads) are finite maps from key to [jsval]; object spread
      [{...a, ...b}] is the left-biased union [b ∪ a].
    - A method is a function on an explicit system state that returns a
      [result] (normal completion, a thrown value, or exhaustion of the
      recursion budget) together with the state reached; state changes
      made before a [throw] persist, as in JavaScript.
    - [async] methods are run to completion in program order: the page is
      single threaded and the modelled methods only [await] their own
      callees.
    - Reads of the environment ([Date.now()], [Math.random()]) come from
      oracles kept in the bus and indexed by its tick counter.
    - Function values stored in listeners, hooks and children are elements
      of a type of callback descriptions, interpreted by a function [run]. *)

From stdpp Require Import gmap strings list fin_maps pretty.
From Stdlib Require Import ZArith Sorted Permutation.

#[local] Set Warnings "-register-all,-clear-no-such-hyp,-notation-for-abbreviation".
#[local] Open Scope string_scope.
#[local] Open Scope list_scope.

(** ** JavaScript values *)

Inductive jsval : Type :=
| VUndef
| VNull
| VBool (b : bool)
| VNum (n : Z)
| VStr (s : string)
| VErr (message : string)
| VRef (oid : string)
| VArr (items : list jsval)
| VSet (members : list string)
| VObj (fields : gmap string jsval).

(** ToBoolean. *)
Definition truthy (v : jsval) : bool :=
  match v with
  | VUndef | VNull => false
  | VBool b => b
  | VNum n => negb (n =? 0)%Z
  | VStr s => negb (String.eqb s EmptyString)
  | VErr _ | VRef _ | VArr _ | VSet _ | VObj _ => true
  end.

(** Property read [o.k]: a missing key reads as [undefined]. *)
Definition prop (o : gmap string jsval) (k : string) : jsval :=
  default VUndef (o !! k).

(** ToString, as applied by [setAttribute] and template literals. *)
Definition js_to_string (v : jsval) : string :=
  match v with
  | VUndef => "undefined"
  | VNull => "null"
  | VBool true => "true"
  | VBool false => "false"
  | VNum n => pretty n
  | VStr s => s
  | VErr m => "Error: " +:+ m
  | VRef _ | VObj _ => "[object Object]"
  | VArr _ => "[object Array]"
  | VSet _ => "[object Set]"
  end.

(** [error.message] of a caught value. *)
Definition error_message (e : jsval) : string :=
  match e with
  | VErr m => m
  | _ => "undefined"
  end.

(** ** Completions and the state-and-exception monad *)

Inductive result (A : Type) : Type :=
| Ok (a : A)
| Thrown (e : jsval)
| Diverged.
Arguments Ok {A} a.
Arguments Thrown {A} e.
Arguments Diverged {A}.

Definition is_ok {A} (r : result A) : bool :=
  match r with Ok _ => true | _ => false end.

Definition M (Σ A : Type) : Type := Σ → result A * Σ.

Definition m_ret {Σ A} (a : A) : M Σ A := λ s, (Ok a, s).

Definition m_bind {Σ A B} (m : M Σ A) (k : A → M Σ B) : M Σ B :=
  λ s, match m s with
       | (Ok a, s') => k a s'
       | (Thrown e, s') => (Thrown e, s')
       | (Diverged, s') => (Diverged, s')
       end.

Definition m_throw {Σ A} (e : jsval) : M Σ A := λ s, (Thrown e, s).

(** [act f]: a statement that only updates the state. *)
Definition act {Σ} (f : Σ → Σ) : M Σ () := λ s, (Ok (), f s).

(** [try { body } catch (e) { handler e }]. *)
Definition try_catch {Σ A} (body : M Σ A) (handler : jsval → M Σ A) : M Σ A :=
  λ s, match body s with
       | (Thrown e, s') => handler e s'
       | r => r
       end.

(** [try { body } finally { fin }]. *)
Definition try_finally {Σ A} (body : M Σ A) (fin : Σ → Σ) : M Σ A :=
  λ s, let '(r, s') := body s in (r, fin s').

Declare Scope js_scope.
Delimit Scope js_scope with js.
Notation "x ⇐ m ; k" := (m_bind m (λ x, k))
  (at level 20, m at level 100, k at level 200, right associativity,
   format "'[' x  ⇐  m ; '/' k ']'") : js_scope.
Notation "m ;;; k" := (m_bind m (λ _, k))
  (at level 100, k at level 200, right associativity) : js_scope.

(** [v === 'literal']. *)
Definition is_string (v : jsval) (t : string) : bool :=
  match v with
  | VStr u => String.eqb u t
  | _ => false
  end.

(** Member read [v.k]: throws on [undefined] and [null]. *)
Definition member (v : jsval) (k : string) : result jsval :=
  match v with
  | VObj o => Ok (prop o k)
  | VUndef | VNull =>
      Thrown (VErr ("TypeError: Cannot read properties of " +:+ js_to_string v))
  | _ => Ok VUndef
  end.

(** ** Logger ([utils/Logger.js]) *)

Inductive level := ERROR | WARN | INFO | DEBUG | SUCCESS.

Definition level_num (l : level) : nat :=
  match l with ERROR => 0 | WARN => 1 | INFO => 2 | DEBUG => 3 | SUCCESS => 4 end.

Record Logger := { context : string; currentLevel : nat }.

(** [development] stands for [process.env.NODE_ENV === 'development']. *)
Definition new_Logger (development : bool) (ctx : string) : Logger :=
  {| context := ctx;
     currentLevel := if development then level_num DEBUG else level_num INFO |}.

Definition shouldLog (lg : Logger) (l : level) : bool :=
  bool_decide (level_num l ≤ currentLevel lg)%nat.

Record LogData := { ld_level : level; ld_context : string; ld_message : string }.

(** [Logger.log]: the console, as the list of lines written so far. *)
Definition log (lg : Logger) (l : level) (message : string)
    (console : list LogData) : list LogData :=
  if shouldLog lg l
  then console ++ [{| ld_level := l; ld_context := context lg; ld_message := message |}]
  else console.

(** ** Event bus ([core/EventBus.js]) *)

Module EventBus.
Section Bus.

(** [C]: callback descriptions; [W]: the rest of the system the callbacks
    act on. *)
Context {C W : Type} `{EqDecision C}.

Record Listener := {
  callback : C;
  once : bool;
  priority : Z;
  lcontext : option string;
  id : string;
  added : Z;
  oid : nat
}.

Record Options := {
  opt_once : bool;
  opt_priority : Z;
  opt_context : option string
}.

Definition no_options : Options :=
  {| opt_once := false; opt_priority := 0; opt_context := None |}.

Record Bus := {
  events : gmap string (list Listener);
  maxListeners : nat;
  debugMode : bool;
  logger : Logger;
  console : list LogData;
  tick : nat;
  next_oid : nat;
  invoked : list nat;
  (** environment oracles: the values of the successive [Date.now()] and
      [Math.random().toString(36).substr(2, 9)] reads *)
  Date_now : nat → Z;
  Math_random : nat → string
}.

Definition new_EventBus (development : bool) (clock : nat → Z)
    (entropy : nat → string) : Bus :=
  {| events := ∅; maxListeners := 50; debugMode := development;
     logger := new_Logger development "EventBus"; console := [];
     tick := 0; next_oid := 0; invoked := [];
     Date_now := clock; Math_random := entropy |}.

Definition set_events (f : gmap string (list Listener) → gmap string (list Listener))
    (b : Bus) : Bus :=
  {| events := f (events b); maxListeners := maxListeners b;
     debugMode := debugMode b; logger := logger b; console := console b;
     tick := tick b; next_oid := next_oid b; invoked := invoked b;
     Date_now := Date_now b; Math_random := Math_random b |}.

Definition bus_log (l : level) (message : string) (b : Bus) : Bus :=
  {| events := events b; maxListeners := maxListeners b;
     debugMode := debugMode b; logger := logger b;
     console := log (logger b) l message (console b);
     tick := tick b; next_oid := next_oid b; invoked := invoked b;
     Date_now := Date_now b; Math_random := Math_random b |}.

Definition bus_debug (message : string) (b : Bus) : Bus :=
  if debugMode b then bus_log INFO message b else b.

Definition advance (ticks objects : nat) (b : Bus) : Bus :=
  {| events := events b; maxListeners := maxListeners b;
     debugMode := debugMode b; logger := logger b; console := console b;
     tick := (tick b + ticks)%nat; next_oid := (next_oid b + objects)%nat;
     invoked := invoked b;
     Date_now := Date_now b; Math_random := Math_random b |}.

Definition record_call (l : Listener) (b : Bus) : Bus :=
  {| events := events b; maxListeners := maxListeners b;
     debugMode := debugMode b; logger := logger b; console := console b;
     tick := tick b; next_oid := next_oid b;
     invoked := invoked b ++ [oid l];
     Date_now := Date_now b; Math_random := Math_random b |}.

Definition generateListenerId (b : Bus) : string :=
  "listener_" +:+ pretty (Date_now b (tick b)) +:+ "_" +:+ Math_random b (tick b).

(** [listeners.sort((a, b) => b.priority - a.priority)]: the sort is
    stable (ECMAScript 2019), so it is the stable insertion sort. *)
Fixpoint insert_by_priority (x : Listener) (l : list Listener) : list Listener :=
  match l with
  | [] => [x]
  | y :: l' =>
      if (priority y <? priority x)%Z then x :: y :: l'
      else y :: insert_by_priority x l'
  end.

Definition sort_by_priority (l : list Listener) : list Listener :=
  foldl (λ acc x, insert_by_priority x acc) [] l.

(** [on(eventName, callback, options)]. The callback argument is [None]
    when the caller passes something that is not a function; the method
    then returns the bus itself, rendered as [None]. *)
Definition on (eventName : string) (cb : option C) (options : Options)
    (b : Bus) : option string * Bus :=
  match cb with
  | None =>
      (None, bus_log ERROR
               ("❌ Callback for event '" +:+ eventName +:+ "' must be a function") b)
  | Some f =>
      let listeners := default [] (events b !! eventName) in
      let b1 :=
        if bool_decide (maxListeners b ≤ length listeners)%nat
        then bus_log WARN ("⚠️ Maximum listeners (" +:+ pretty (maxListeners b)
                           +:+ ") reached for event '" +:+ eventName +:+ "'") b
        else b in
      let listener :=
        {| callback := f;
           once := opt_once options;
           priority := opt_priority options;
           lcontext := opt_context options;
           id := generateListenerId b1;
           added := Date_now b1 (S (tick b1));
           oid := next_oid b1 |} in
      let b2 := set_events
                  <[eventName := sort_by_priority (listeners ++ [listener])]>
                  (advance 2 1 b1) in
      (Some (id listener),
       bus_debug ("📡 Event listener added: '" +:+ eventName +:+ "' (ID: "
                  +:+ id listener +:+ ")") b2)
  end.

(** [once(eventName, callback, options)]. *)
Definition once_ (eventName : string) (cb : option C) (options : Options)
    (b : Bus) : option string * Bus :=
  on eventName cb
     {| opt_once := true; opt_priority := opt_priority options;
        opt_context := opt_context options |} b.

(** [findIndex] followed by [splice(index, 1)]. *)
Fixpoint remove_first (p : Listener → bool) (l : list Listener) : option (list Listener) :=
  match l with
  | [] => None
  | x :: l' =>
      if p x then Some l'
      else match remove_first p l' with
           | Some r => Some (x :: r)
           | None => None
           end
  end.

Inductive off_arg :=
| ById (listenerId : string)
| ByCallback (f : C)
| Neither.

(** [off(eventName, callbackOrId)]. *)
Definition off (eventName : string) (callbackOrId : off_arg) (b : Bus) : bool * Bus :=
  match events b !! eventName with
  | None => (false, b)
  | Some listeners =>
      let '(removed, b1) :=
        match callbackOrId with
        | ById i =>
            match remove_first (λ l, String.eqb (id l) i) listeners with
            | Some r => (true, set_events <[eventName := r]> b)
            | None => (false, b)
            end
        | ByCallback f =>
            match remove_first (λ l, bool_decide (callback l = f)) listeners with
            | Some r => (true, set_events <[eventName := r]> b)
            | None => (false, b)
            end
        | Neither => (true, set_events (delete eventName) b)
        end in
      (removed,
       if removed
       then bus_debug ("🗑️ Event listener removed: '" +:+ eventName +:+ "'") b1
       else b1)
  end.

(** Interpretation of a callback: [run f this args s] is the thrown value,
    if any, and the state after the call. *)
Variable run : C → option string → list jsval → Bus * W → option jsval * (Bus * W).

(** The [for (const listener of listeners)] loop of [emit]. The loop runs
    over the listeners present when it starts: these are the listeners the
    program calls as long as no callback adds or removes a listener of the
    event while the loop runs. *)
Fixpoint dispatch (onError : Listener → jsval → Bus * W → Bus * W)
    (eventName : string) (args : list jsval) (listeners : list Listener)
    (hasError : bool) (listenersToRemove : list Listener) (s : Bus * W)
    : bool * list Listener * (Bus * W) :=
  match listeners with
  | [] => (hasError, listenersToRemove, s)
  | listener :: rest =>
      match run (callback listener) (lcontext listener) args
                (record_call listener s.1, s.2) with
      | (None, s') =>
          dispatch onError eventName args rest hasError
            (if once listener then listenersToRemove ++ [listener]
             else listenersToRemove) s'
      | (Some error, s') =>
          let s1 := (bus_log ERROR ("❌ Error in event listener for '"
                                    +:+ eventName +:+ "':") s'.1, s'.2) in
          dispatch onError eventName args rest true listenersToRemove
            (onError listener error s1)
      end
  end.

(** [listenersToRemove.forEach(...)]: [indexOf] compares object identity. *)
Definition remove_listeners (listenersToRemove listeners : list Listener) : list Listener :=
  foldl (λ acc l,
           default acc (remove_first (λ x, bool_decide (oid x = oid l)) acc))
        listeners listenersToRemove.

Definition emit_with (onError : Listener → jsval → Bus * W → Bus * W)
    (eventName : string) (args : list jsval) (s : Bus * W) : bool * (Bus * W) :=
  match events s.1 !! eventName with
  | None =>
      (false, (bus_debug ("📡 No listeners for event: '" +:+ eventName +:+ "'") s.1, s.2))
  | Some listeners =>
      let s0 := (bus_debug ("📡 Emitting event: '" +:+ eventName +:+ "' to "
                            +:+ pretty (length listeners) +:+ " listeners") s.1, s.2) in
      let '(hasError, listenersToRemove, s1) :=
        dispatch onError eventName args listeners false [] s0 in
      (negb hasError,
       (set_events (alter (remove_listeners listenersToRemove) eventName) s1.1, s1.2))
  end.

(** [emitError(originalEvent, error, listener)]: the nested emit of
    ['error'] cannot recurse, because of the guard on the event name. *)
Definition emitError (originalEvent : string) (error : jsval) (listener : Listener)
    (s : Bus * W) : Bus * W :=
  if String.eqb originalEvent "error" then s
  else
    let payload :=
      VObj (<["originalEvent" := VStr originalEvent]>
           (<["error" := error]>
           (<["listener" := VObj (<["id" := VStr (id listener)]>
                                  (<["added" := VNum (added listener)]> ∅))]>
           (<["timestamp" := VNum (Date_now s.1 (tick s.1))]> ∅)))) in
    (emit_with (λ _ _ s', s') "error" [payload] (advance 1 0 s.1, s.2)).2.

(** [emit(eventName, ...args)]. *)
Definition emit (eventName : string) (args : list jsval) (s : Bus * W) : bool * (Bus * W) :=
  emit_with (λ listener error, emitError eventName error listener) eventName args s.

Definition listenerCount (eventName : string) (b : Bus) : nat :=
  length (default [] (events b !! eventName)).

(** [removeAllListeners(eventName)]; [None] stands for a call without
    argument. An empty event name is falsy and clears everything too. *)
Definition removeAllListeners (eventName : option string) (b : Bus) : Bus :=
  match eventName with
  | Some e =>
      if String.eqb e EmptyString
      then bus_debug "🗑️ All event listeners removed" (set_events (λ _, ∅) b)
      else bus_debug ("🗑️ All listeners removed for event: '" +:+ e +:+ "'")
                     (set_events (delete e) b)
  | None => bus_debug "🗑️ All event listeners removed" (set_events (λ _, ∅) b)
  end.

End Bus.
Arguments Listener : clear implicits.
Arguments Bus : clear implicits.
Arguments off_arg : clear implicits.
End EventBus.

(** ** The browser environment shared by the modules *)

(** [window.localStorage]. Every access throws when storage is [denied]
    (disabled by the user or the embedding context); [setItem] throws when
    the quota is [full]. [touched] records the keys the program has named
    in calls, in call order. *)
Record Storage := {
  items : gmap string string;
  denied : bool;
  full : bool;
  touched : list string
}.

Definition touch (key : string) (st : Storage) : Storage :=
  {| items := items st; denied := denied st; full := full st;
     touched := touched st ++ [key] |}.

Definition getItem (key : string) (st : Storage) : result (option string) * Storage :=
  if denied st then (Thrown (VErr "SecurityError"), touch key st)
  else (Ok (items st !! key), touch key st).

Definition setItem (key value : string) (st : Storage) : result () * Storage :=
  if denied st then (Thrown (VErr "SecurityError"), touch key st)
  else if full st then (Thrown (VErr "QuotaExceededError"), touch key st)
  else (Ok (), {| items := <[key := value]> (items st); denied := denied st;
                  full := full st; touched := touched st ++ [key] |}).

Definition removeItem (key : string) (st : Storage) : result () * Storage :=
  if denied st then (Thrown (VErr "SecurityError"), touch key st)
  else (Ok (), {| items := delete key (items st); denied := denied st;
                  full := full st; touched := touched st ++ [key] |}).

(** Removal of the first occurrence of a name, [None] when absent. *)
Fixpoint remove_one (x : string) (l : list string) : option (list string) :=
  match l with
  | [] => None
  | y :: l' => if String.eqb y x then Some l' else cons y <$> remove_one x l'
  end.

(** ASCII white space: tab, line feed, form feed, carriage return and
    space. [classList.add(token)] throws an [InvalidCharacterError] for a
    token that holds one of them. *)
Definition ascii_whitespace (c : Ascii.ascii) : bool :=
  bool_decide (Ascii.N_of_ascii c ∈ [9; 10; 12; 13; 32]%N).

Fixpoint has_whitespace (token : string) : bool :=
  match token with
  | EmptyString => false
  | String c rest => ascii_whitespace c || has_whitespace rest
  end.

(** [classList.add] and [classList.remove], for tokens without white
    space. *)
Definition classList_add (c : string) (l : list string) : list string :=
  if bool_decide (c ∈ l) then l else l ++ [c].

Definition classList_remove (c : string) (l : list string) : list string :=
  filter (λ x, x ≠ c) l.

(** The theme toggle [<button>]. *)
Record Button := {
  textContent : string;
  aria_label : string;
  title : string;
  classList : list string
}.

(** Closures handed to [setTimeout], by the place that creates them. *)
Inductive TimerAction :=
| RemoveTransitioningClass
| EndTransition
| CheckForUpdates
| ReloadPage.

(** Targets of [addEventListener]. *)
Inductive EventTarget :=
| TargetDocument
| TargetWindow
| TargetToggleButton
| TargetMediaQuery
| TargetNode (n : nat).

(** Result of [document.querySelector(selector)]: a selector the parser
    rejects throws a [SyntaxError]; otherwise the first matching element,
    if any. *)
Inductive Selected :=
| Malformed
| Matched (node : option nat).

(** Result of one [fetch] followed by [response.json()]. *)
Inductive FetchOutcome :=
| NetworkError (message : string)
| HttpResponse (ok : bool) (status : Z) (json : option (gmap string string)).

Record Browser := {
  localStorage : Storage;
  (** [document.documentElement] attributes *)
  data_theme : option string;
  html_lang : option string;
  (** [document.body] *)
  body_classList : list string;
  body_children : list string;
  (** [<meta name=theme-color>] content, when the element exists *)
  meta_theme_color : option string;
  (** ids of the [<style>] elements in [document.head] *)
  head_styles : list string;
  (** generic nodes: [parentNode] of attached nodes, selector results *)
  parentNode : gmap nat nat;
  querySelector : string → Selected;
  next_node : nat;
  (** [window[name]] is truthy for these names *)
  window_globals : list string;
  (** [window.matchMedia('(prefers-color-scheme: dark)').matches];
      [None] when [matchMedia] is unavailable *)
  prefers_dark : option bool;
  (** pending [setTimeout] callbacks with their delays *)
  timers : list (Z * TimerAction);
  (** running [setInterval] callbacks with their periods *)
  intervals : list (Z * TimerAction);
  (** [navigator.serviceWorker] exists *)
  serviceWorker : bool;
  (** what the network answers to a request for a URL, and the requests
      made so far *)
  network : string → FetchOutcome;
  requests : list string;
  (** ids of the pending [requestAnimationFrame] callbacks *)
  animationFrames : list nat;
  next_frame : nat;
  (** [document.body.style.overflow], [window.scrollY], [window.innerWidth] *)
  body_overflow : string;
  scrollY : Z;
  innerWidth : Z
}.

Definition set_localStorage (f : Storage → Storage) (br : Browser) : Browser :=
  {| localStorage := f (localStorage br); data_theme := data_theme br;
     html_lang := html_lang br; body_classList := body_classList br;
     body_children := body_children br; meta_theme_color := meta_theme_color br;
     head_styles := head_styles br; parentNode := parentNode br;
     querySelector := querySelector br; next_node := next_node br;
     window_globals := window_globals br; prefers_dark := prefers_dark br;
     timers := timers br; intervals := intervals br;
     serviceWorker := serviceWorker br; network := network br; requests := requests br;
     animationFrames := animationFrames br;
     next_frame := next_frame br; body_overflow := body_overflow br;
     scrollY := scrollY br; innerWidth := innerWidth br |}.

Definition set_data_theme (v : string) (br : Browser) : Browser :=
  {| localStorage := localStorage br; data_theme := Some v;
     html_lang := html_lang br; body_classList := body_classList br;
     body_children := body_children br; meta_theme_color := meta_theme_color br;
     head_styles := head_styles br; parentNode := parentNode br;
     querySelector := querySelector br; next_node := next_node br;
     window_globals := window_globals br; prefers_dark := prefers_dark br;
     timers := timers br; intervals := intervals br;
     serviceWorker := serviceWorker br; network := network br; requests := requests br;
     animationFrames := animationFrames br;
     next_frame := next_frame br; body_overflow := body_overflow br;
     scrollY := scrollY br; innerWidth := innerWidth br |}.

Definition set_body_classList (f : list string → list string) (br : Browser) : Browser :=
  {| localStorage := localStorage br; data_theme := data_theme br;
     html_lang := html_lang br; body_classList := f (body_classList br);
     body_children := body_children br; meta_theme_color := meta_theme_color br;
     head_styles := head_styles br; parentNode := parentNode br;
     querySelector := querySelector br; next_node := next_node br;
     window_globals := window_globals br; prefers_dark := prefers_dark br;
     timers := timers br; intervals := intervals br;
     serviceWorker := serviceWorker br; network := network br; requests := requests br;
     animationFrames := animationFrames br;
     next_frame := next_frame br; body_overflow := body_overflow br;
     scrollY := scrollY br; innerWidth := innerWidth br |}.

Definition set_body_children (f : list string → list string) (br : Browser) : Browser :=
  {| localStorage := localStorage br; data_theme := data_theme br;
     html_lang := html_lang br; body_classList := body_classList br;
     body_children := f (body_children br); meta_theme_color := meta_theme_color br;
     head_styles := head_styles br; parentNode := parentNode br;
     querySelector := querySelector br; next_node := next_node br;
     window_globals := window_globals br; prefers_dark := prefers_dark br;
     timers := timers br; intervals := intervals br;
     serviceWorker := serviceWorker br; network := network br; requests := requests br;
     animationFrames := animationFrames br;
     next_frame := next_frame br; body_overflow := body_overflow br;
     scrollY := scrollY br; innerWidth := innerWidth br |}.

Definition set_meta_theme_color (v : string) (br : Browser) : Browser :=
  {| localStorage := localStorage br; data_theme := data_theme br;
     html_lang := html_lang br; body_classList := body_classList br;
     body_children := body_children br; meta_theme_color := Some v;
     head_styles := head_styles br; parentNode := parentNode br;
     querySelector := querySelector br; next_node := next_node br;
     window_globals := window_globals br; prefers_dark := prefers_dark br;
     timers := timers br; intervals := intervals br;
     serviceWorker := serviceWorker br; network := network br; requests := requests br;
     animationFrames := animationFrames br;
     next_frame := next_frame br; body_overflow := body_overflow br;
     scrollY := scrollY br; innerWidth := innerWidth br |}.

Definition set_head_styles (f : list string → list string) (br : Browser) : Browser :=
  {| localStorage := localStorage br; data_theme := data_theme br;
     html_lang := html_lang br; body_classList := body_classList br;
     body_children := body_children br; meta_theme_color := meta_theme_color br;
     head_styles := f (head_styles br); parentNode := parentNode br;
     querySelector := querySelector br; next_node := next_node br;
     window_globals := window_globals br; prefers_dark := prefers_dark br;
     timers := timers br; intervals := intervals br;
     serviceWorker := serviceWorker br; network := network br; requests := requests br;
     animationFrames := animationFrames br;
     next_frame := next_frame br; body_overflow := body_overflow br;
     scrollY := scrollY br; innerWidth := innerWidth br |}.

Definition set_nodes (f : gmap nat nat → gmap nat nat) (fresh : nat) (br : Browser) : Browser :=
  {| localStorage := localStorage br; data_theme := data_theme br;
     html_lang := html_lang br; body_classList := body_classList br;
     body_children := body_children br; meta_theme_color := meta_theme_color br;
     head_styles := head_styles br; parentNode := f (parentNode br);
     querySelector := querySelector br; next_node := (next_node br + fresh)%nat;
     window_globals := window_globals br; prefers_dark := prefers_dark br;
     timers := timers br; intervals := intervals br;
     serviceWorker := serviceWorker br; network := network br; requests := requests br;
     animationFrames := animationFrames br;
     next_frame := next_frame br; body_overflow := body_overflow br;
     scrollY := scrollY br; innerWidth := innerWidth br |}.

Definition set_querySelector (f : string → Selected) (br : Browser) : Browser :=
  {| localStorage := localStorage br; data_theme := data_theme br;
     html_lang := html_lang br; body_classList := body_classList br;
     body_children := body_children br; meta_theme_color := meta_theme_color br;
     head_styles := head_styles br; parentNode := parentNode br;
     querySelector := f; next_node := next_node br;
     window_globals := window_globals br; prefers_dark := prefers_dark br;
     timers := timers br; intervals := intervals br;
     serviceWorker := serviceWorker br; network := network br; requests := requests br;
     animationFrames := animationFrames br;
     next_frame := next_frame br; body_overflow := body_overflow br;
     scrollY := scrollY br; innerWidth := innerWidth br |}.

Definition set_timers (f : list (Z * TimerAction) → list (Z * TimerAction))
    (br : Browser) : Browser :=
  {| localStorage := localStorage br; data_theme := data_theme br;
     html_lang := html_lang br; body_classList := body_classList br;
     body_children := body_children br; meta_theme_color := meta_theme_color br;
     head_styles := head_styles br; parentNode := parentNode br;
     querySelector := querySelector br; next_node := next_node br;
     window_globals := window_globals br; prefers_dark := prefers_dark br;
     timers := f (timers br); intervals := intervals br;
     serviceWorker := serviceWorker br; network := network br; requests := requests br;
     animationFrames := animationFrames br;
     next_frame := next_frame br; body_overflow := body_overflow br;
     scrollY := scrollY br; innerWidth := innerWidth br |}.

Definition set_intervals (f : list (Z * TimerAction) → list (Z * TimerAction))
    (br : Browser) : Browser :=
  {| localStorage := localStorage br; data_theme := data_theme br;
     html_lang := html_lang br; body_classList := body_classList br;
     body_children := body_children br; meta_theme_color := meta_theme_color br;
     head_styles := head_styles br; parentNode := parentNode br;
     querySelector := querySelector br; next_node := next_node br;
     window_globals := window_globals br; prefers_dark := prefers_dark br;
     timers := timers br; intervals := f (intervals br);
     serviceWorker := serviceWorker br; network := network br; requests := requests br;
     animationFrames := animationFrames br;
     next_frame := next_frame br; body_overflow := body_overflow br;
     scrollY := scrollY br; innerWidth := innerWidth br |}.

Definition set_serviceWorker (v : bool) (br : Browser) : Browser :=
  {| localStorage := localStorage br; data_theme := data_theme br;
     html_lang := html_lang br; body_classList := body_classList br;
     body_children := body_children br; meta_theme_color := meta_theme_color br;
     head_styles := head_styles br; parentNode := parentNode br;
     querySelector := querySelector br; next_node := next_node br;
     window_globals := window_globals br; prefers_dark := prefers_dark br;
     timers := timers br; intervals := intervals br;
     serviceWorker := v; network := network br; requests := requests br;
     animationFrames := animationFrames br;
     next_frame := next_frame br; body_overflow := body_overflow br;
     scrollY := scrollY br; innerWidth := innerWidth br |}.

Definition set_html_lang (v : string) (br : Browser) : Browser :=
  {| localStorage := localStorage br; data_theme := data_theme br;
     html_lang := Some v; body_classList := body_classList br;
     body_children := body_children br; meta_theme_color := meta_theme_color br;
     head_styles := head_styles br; parentNode := parentNode br;
     querySelector := querySelector br; next_node := next_node br;
     window_globals := window_globals br; prefers_dark := prefers_dark br;
     timers := timers br; intervals := intervals br;
     serviceWorker := serviceWorker br; network := network br; requests := requests br;
     animationFrames := animationFrames br;
     next_frame := next_frame br; body_overflow := body_overflow br;
     scrollY := scrollY br; innerWidth := innerWidth br |}.

Definition set_animationFrames (f : list nat → list nat) (fresh : nat)
    (br : Browser) : Browser :=
  {| localStorage := localStorage br; data_theme := data_theme br;
     html_lang := html_lang br; body_classList := body_classList br;
     body_children := body_children br; meta_theme_color := meta_theme_color br;
     head_styles := head_styles br; parentNode := parentNode br;
     querySelector := querySelector br; next_node := next_node br;
     window_globals := window_globals br; prefers_dark := prefers_dark br;
     timers := timers br; intervals := intervals br;
     serviceWorker := serviceWorker br; network := network br; requests := requests br;
     animationFrames := f (animationFrames br);
     next_frame := (next_frame br + fresh)%nat; body_overflow := body_overflow br;
     scrollY := scrollY br; innerWidth := innerWidth br |}.

Definition set_body_overflow (v : string) (br : Browser) : Browser :=
  {| localStorage := localStorage br; data_theme := data_theme br;
     html_lang := html_lang br; body_classList := body_classList br;
     body_children := body_children br; meta_theme_color := meta_theme_color br;
     head_styles := head_styles br; parentNode := parentNode br;
     querySelector := querySelector br; next_node := next_node br;
     window_globals := window_globals br; prefers_dark := prefers_dark br;
     timers := timers br; intervals := intervals br;
     serviceWorker := serviceWorker br; network := network br; requests := requests br;
     animationFrames := animationFrames br; next_frame := next_frame br;
     body_overflow := v; scrollY := scrollY br; innerWidth := innerWidth br |}.

(** [fetch(url)]: the request is recorded and the network's answer
    returned. *)
Definition fetch (url : string) (br : Browser) : FetchOutcome * Browser :=
  (network br url,
   {| localStorage := localStorage br; data_theme := data_theme br;
      html_lang := html_lang br; body_classList := body_classList br;
      body_children := body_children br; meta_theme_color := meta_theme_color br;
      head_styles := head_styles br; parentNode := parentNode br;
      querySelector := querySelector br; next_node := next_node br;
      window_globals := window_globals br; prefers_dark := prefers_dark br;
      timers := timers br; intervals := intervals br;
     serviceWorker := serviceWorker br; network := network br;
      requests := requests br ++ [url];
      animationFrames := animationFrames br; next_frame := next_frame br;
      body_overflow := body_overflow br; scrollY := scrollY br;
      innerWidth := innerWidth br |}).

(** [container.appendChild(element)]: a node cannot be put into itself
    or into one of its descendants. [contains fuel parent e n]: [e] is [n]
    or one of the [fuel] nearest ancestors of [n]. *)
Fixpoint contains (fuel : nat) (parent : gmap nat nat) (e n : nat) : bool :=
  bool_decide (e = n) ||
  match fuel with
  | O => false
  | S fuel' =>
      match parent !! n with
      | Some p => contains fuel' parent e p
      | None => false
      end
  end.

Definition appendChild (n e : nat) (br : Browser) : result () * Browser :=
  if contains (size (parentNode br)) (parentNode br) e n
  then (Thrown (VErr "HierarchyRequestError: The new child element contains the parent."),
        br)
  else (Ok (), set_nodes <[e := n]> 0 br).

(** A page after [DOMContentLoaded] with nothing of the application in
    it, in a browser with service workers: no selector finds an element
    (only well-formed selectors are used on this page). *)
Definition blank_page (stored : gmap string string) (dark : option bool)
    (net : string → FetchOutcome) : Browser :=
  {| localStorage := {| items := stored; denied := false; full := false; touched := [] |};
     data_theme := None; html_lang := None; body_classList := [];
     body_children := []; meta_theme_color := None; head_styles := [];
     parentNode := ∅; querySelector := λ _, Matched None; next_node := 0;
     window_globals := []; prefers_dark := dark; timers := [];
     intervals := []; serviceWorker := true;
     network := net; requests := []; animationFrames := []; next_frame := 1;
     body_overflow := EmptyString; scrollY := 0; innerWidth := 1280 |}.

(** ** Base component ([core/BaseComponent.js]) *)

Module BaseComponent.
Section Base.

(** [C]: callback descriptions; [X]: the fields a subclass adds. *)
Context {C X : Type} `{EqDecision C}.

Record Config := {
  autoMount : bool;
  enableEvents : bool;
  enableStateTracking : bool;
  debugMode : bool
}.

Definition default_Config (development : bool) : Config :=
  {| autoMount := true; enableEvents := true; enableStateTracking := true;
     debugMode := development |}.

(** What [this.container] holds when it is truthy: an element, or a
    selector, which is a string that is not empty. The falsy values
    ([null], [undefined] and the empty string), which [if (container)],
    [if (!this.container)] and [options.container || null] treat alike,
    are the [None] of [option Container]. *)
Inductive Container :=
| ContainerElement (node : nat)
| ContainerSelector (first : Ascii.ascii) (rest : string).

(** The container a string stands for. *)
Definition container_of (selector : string) : option Container :=
  match selector with
  | EmptyString => None
  | String first rest => Some (ContainerSelector first rest)
  end.

Record DomListener := {
  target : EventTarget;
  eventType : string;
  handler : C
}.

Record Component := {
  id : string;
  name : string;
  logger : Logger;
  state : gmap string jsval;
  config : Config;
  element : option nat;
  container : option Container;
  (** [Map] from event name to listener ids, in insertion order *)
  eventListeners : list (string * list string);
  domEventListeners : list DomListener;
  (** child id and the child's [destroy] method, when it has one *)
  children : list (string * option C);
  dependencies : list string;
  hooks : gmap string (list C);
  ext : X
}.

Record World := {
  comp : Component;
  browser : Browser;
  console : list LogData
}.

Definition Sys : Type := EventBus.Bus C * World.

(** Updates of one part of the system. *)
Definition on_comp (f : Component → Component) (s : Sys) : Sys :=
  (s.1, {| comp := f (comp s.2); browser := browser s.2; console := console s.2 |}).

Definition on_browser (f : Browser → Browser) (s : Sys) : Sys :=
  (s.1, {| comp := comp s.2; browser := f (browser s.2); console := console s.2 |}).

Definition on_bus (f : EventBus.Bus C → EventBus.Bus C) (s : Sys) : Sys :=
  (f s.1, s.2).

Definition with_state (st : gmap string jsval) (c : Component) : Component :=
  {| id := id c; name := name c; logger := logger c; state := st;
     config := config c; element := element c; container := container c;
     eventListeners := eventListeners c; domEventListeners := domEventListeners c;
     children := children c; dependencies := dependencies c; hooks := hooks c;
     ext := ext c |}.

Definition with_config (cf : Config) (c : Component) : Component :=
  {| id := id c; name := name c; logger := logger c; state := state c;
     config := cf; element := element c; container := container c;
     eventListeners := eventListeners c; domEventListeners := domEventListeners c;
     children := children c; dependencies := dependencies c; hooks := hooks c;
     ext := ext c |}.

Definition with_element (e : option nat) (c : Component) : Component :=
  {| id := id c; name := name c; logger := logger c; state := state c;
     config := config c; element := e; container := container c;
     eventListeners := eventListeners c; domEventListeners := domEventListeners c;
     children := children c; dependencies := dependencies c; hooks := hooks c;
     ext := ext c |}.

Definition with_container (k : option Container) (c : Component) : Component :=
  {| id := id c; name := name c; logger := logger c; state := state c;
     config := config c; element := element c; container := k;
     eventListeners := eventListeners c; domEventListeners := domEventListeners c;
     children := children c; dependencies := dependencies c; hooks := hooks c;
     ext := ext c |}.

Definition with_eventListeners (l : list (string * list string)) (c : Component) : Component :=
  {| id := id c; name := name c; logger := logger c; state := state c;
     config := config c; element := element c; container := container c;
     eventListeners := l; domEventListeners := domEventListeners c;
     children := children c; dependencies := dependencies c; hooks := hooks c;
     ext := ext c |}.

Definition with_domEventListeners (l : list DomListener) (c : Component) : Component :=
  {| id := id c; name := name c; logger := logger c; state := state c;
     config := config c; element := element c; container := container c;
     eventListeners := eventListeners c; domEventListeners := l;
     children := children c; dependencies := dependencies c; hooks := hooks c;
     ext := ext c |}.

Definition with_children (l : list (string * option C)) (c : Component) : Component :=
  {| id := id c; name := name c; logger := logger c; state := state c;
     config := config c; element := element c; container := container c;
     eventListeners := eventListeners c; domEventListeners := domEventListeners c;
     children := l; dependencies := dependencies c; hooks := hooks c;
     ext := ext c |}.

Definition with_hooks (h : gmap string (list C)) (c : Component) : Component :=
  {| id := id c; name := name c; logger := logger c; state := state c;
     config := config c; element := element c; container := container c;
     eventListeners := eventListeners c; domEventListeners := domEventListeners c;
     children := children c; dependencies := dependencies c; hooks := h;
     ext := ext c |}.

Definition with_ext (x : X) (c : Component) : Component :=
  {| id := id c; name := name c; logger := logger c; state := state c;
     config := config c; element := element c; container := container c;
     eventListeners := eventListeners c; domEventListeners := domEventListeners c;
     children := children c; dependencies := dependencies c; hooks := hooks c;
     ext := x |}.

(** [this.logger.<level>(message)]. *)
Definition say (l : level) (message : string) (s : Sys) : Sys :=
  (s.1, {| comp := comp s.2; browser := browser s.2;
           console := log (logger (comp s.2)) l message (console s.2) |}).

(** Reads of [this.state.<key>] and of the configuration. *)
Definition flag (key : string) (s : Sys) : bool :=
  truthy (prop (state (comp s.2)) key).

Definition cfg (f : Config → bool) (s : Sys) : bool := f (config (comp s.2)).

Definition when (cond : Sys → bool) (m : M Sys ()) : M Sys () :=
  λ s, if cond s then m s else (Ok (), s).

(** [localStorage.getItem], [setItem], [removeItem] from inside a method. *)
Definition storage_get (key : string) : M Sys (option string) :=
  λ s, let '(r, st) := getItem key (localStorage (browser s.2)) in
       (r, on_browser (set_localStorage (λ _, st)) s).

Definition storage_set (key value : string) : M Sys () :=
  λ s, let '(r, st) := setItem key value (localStorage (browser s.2)) in
       (r, on_browser (set_localStorage (λ _, st)) s).

Definition storage_remove (key : string) : M Sys () :=
  λ s, let '(r, st) := removeItem key (localStorage (browser s.2)) in
       (r, on_browser (set_localStorage (λ _, st)) s).

(** The constructor. [options.id || this.generateId()] and
    [options.name || this.constructor.name] are resolved by the caller;
    timing data ([this.performance]) is not modelled. *)
Definition new (development : bool) (id' name' : string)
    (initialState : gmap string jsval) (config' : Config)
    (container' : option Container) (dependencies' : list string) (x : X)
    : Component :=
  {| id := id'; name := name'; logger := new_Logger development name';
     state := initialState ∪
              (<["initialized" := VBool false]>
              (<["mounted" := VBool false]>
              (<["destroyed" := VBool false]>
              (<["loading" := VBool false]>
              (<["error" := VNull]> ∅)))));
     config := config'; element := None; container := container';
     eventListeners := []; domEventListeners := []; children := [];
     dependencies := dependencies';
     hooks := <["beforeInit" := []]> (<["afterInit" := []]>
              (<["beforeMount" := []]> (<["afterMount" := []]>
              (<["beforeUpdate" := []]> (<["afterUpdate" := []]>
              (<["beforeDestroy" := []]> (<["afterDestroy" := []]> ∅)))))));
     ext := x |}.

Variable run : C → option string → list jsval → Sys → option jsval * Sys.

(** [emit(eventName, data)]: [{...data, source: this}] goes to the bus. *)
Definition emit (eventName : string) (data : gmap string jsval) (s : Sys) : bool * Sys :=
  EventBus.emit run eventName
    [VObj (<["source" := VRef (id (comp s.2))]> data)] s.

(** [setState(newState)]. *)
Definition setState (newState : gmap string jsval) (s : Sys) : Sys :=
  if negb (cfg enableStateTracking s) then s
  else
    let oldState := state (comp s.2) in
    let s1 := on_comp (with_state (newState ∪ oldState)) s in
    let s2 := if cfg debugMode s1 then say DEBUG "🔄 State updated:" s1 else s1 in
    (emit "state:changed"
       (<["component" := VRef (id (comp s2.2))]>
       (<["oldState" := VObj oldState]>
       (<["newState" := VObj (state (comp s2.2))]>
       (<["changes" := VObj newState]> ∅)))) s2).2.

(** [on(eventName, callback, options)]. *)
Definition on (eventName : string) (cb : C) (options : EventBus.Options)
    (s : Sys) : option string * Sys :=
  let '(listenerId, b) :=
    EventBus.on eventName (Some cb)
      {| EventBus.opt_once := EventBus.opt_once options;
         EventBus.opt_priority := EventBus.opt_priority options;
         EventBus.opt_context := Some (id (comp s.2)) |} s.1 in
  let ids := default EmptyString listenerId in
  let registry := eventListeners (comp s.2) in
  let registry' :=
    if bool_decide (eventName ∈ registry.*1)
    then (λ e, if String.eqb e.1 eventName then (e.1, e.2 ++ [ids]) else e) <$> registry
    else registry ++ [(eventName, [ids])] in
  (listenerId, on_comp (with_eventListeners registry') (b, s.2)).

(** [removeAllEventListeners()]. *)
Definition removeAllEventListeners (s : Sys) : Sys :=
  let b := foldl (λ b e,
                    foldl (λ b i, (EventBus.off e.1 (EventBus.ById i) b).2) b e.2)
                 s.1 (eventListeners (comp s.2)) in
  on_comp (with_eventListeners []) (b, s.2).

(** [addDOMEventListener(element, eventType, callback)]; the caller
    resolves the [if (!element) return] guard. *)
Definition addDOMEventListener (t : EventTarget) (ty : string) (f : C) (s : Sys) : Sys :=
  on_comp (λ c, with_domEventListeners
                  (domEventListeners c ++ [{| target := t; eventType := ty; handler := f |}]) c) s.

(** [removeAllDOMEventListeners()]. *)
Definition removeAllDOMEventListeners (s : Sys) : Sys :=
  on_comp (with_domEventListeners []) s.

(** [runHooks(hookName, data)]: a hook that throws is logged and skipped. *)
Definition runHooks (hookName : string) (data : gmap string jsval) (s : Sys) : Sys :=
  match hooks (comp s.2) !! hookName with
  | None => s
  | Some hs =>
      foldl (λ s hook,
               match run hook (Some (id (comp s.2))) [VObj data] s with
               | (None, s') => s'
               | (Some _, s') =>
                   say ERROR ("❌ Error in " +:+ hookName +:+ " hook:") s'
               end) s hs
  end.

(** [checkDependencies()]. *)
Definition checkDependencies : M Sys () :=
  λ s,
    match dependencies (comp s.2) with
    | [] => (Ok (), s)
    | deps =>
        let s1 := say DEBUG "🔍 Checking dependencies" s in
        match filter (λ d, d ∉ window_globals (browser s.2)) deps with
        | [] => (Ok (), s1)
        | d :: _ => (Thrown (VErr ("Missing dependency: " +:+ d)), s1)
        end
    end.

(** Methods a subclass overrides. *)
Record Methods := {
  onInit : M Sys ();
  setupEventListeners : M Sys ();
  createElement : M Sys ();
  onMount : M Sys ();
  setupDOMEventListeners : M Sys ();
  onUpdate : gmap string jsval → M Sys ();
  render : M Sys ();
  onDestroy : M Sys ()
}.

(** [createElement()] of the base class. *)
Definition base_createElement : M Sys () :=
  λ s, match element (comp s.2) with
       | Some _ => (Ok (), s)
       | None =>
           let n := next_node (browser s.2) in
           (Ok (), on_comp (with_element (Some n)) (on_browser (set_nodes (λ p, p) 1) s))
       end.

Definition base_Methods : Methods :=
  {| onInit := m_ret (); setupEventListeners := m_ret ();
     createElement := base_createElement; onMount := m_ret ();
     setupDOMEventListeners := m_ret (); onUpdate := λ _, m_ret ();
     render := base_createElement; onDestroy := m_ret () |}.

Variable methods : Methods.

Definition handle_failure (what : string) (rethrow : bool) (error : jsval) : M Sys () :=
  λ s,
    let s1 := say ERROR ("❌ Failed to " +:+ what +:+ " component: "
                         +:+ name (comp s.2)) s in
    let s2 := (emit "component:error"
                 (<["component" := VRef (id (comp s1.2))]> (<["error" := error]> ∅)) s1).2 in
    if rethrow then (Thrown error, s2) else (Ok (), s2).

(** [init()], given the method that [await this.mount()] calls. *)
Definition init_with (mount : M Sys ()) : M Sys () :=
  λ s,
    if flag "initialized" s
    then (Ok (), say WARN "⚠️ Component already initialized" s)
    else
      try_catch
        (act (λ s, say INFO ("🚀 Initializing component: " +:+ name (comp s.2)) s) ;;;
         act (runHooks "beforeInit" ∅) ;;;
         checkDependencies ;;;
         onInit methods ;;;
         when (cfg enableEvents) (setupEventListeners methods) ;;;
         act (setState {[ "initialized" := VBool true ]}) ;;;
         act (runHooks "afterInit" ∅) ;;;
         when (λ s, cfg autoMount s && bool_decide (is_Some (container (comp s.2)))) mount ;;;
         act (λ s, say SUCCESS ("✅ Component initialized: " +:+ name (comp s.2)) s) ;;;
         act (λ s, (emit "component:initialized"
                      {[ "component" := VRef (id (comp s.2)) ]} s).2))%js
        (λ error,
           act (setState {[ "error" := error ]}) ;;;
           handle_failure "initialize" true error)%js
        s.

(** The [appendChild] step of [mount()]: a selector is resolved first;
    it may be rejected, and it may resolve to nothing. *)
Definition resolve_container (k : Container) : M Sys (option nat) :=
  match k with
  | ContainerElement n => m_ret (Some n)
  | ContainerSelector first rest =>
      λ s, match querySelector (browser s.2) (String first rest) with
           | Malformed =>
               (Thrown (VErr ("SyntaxError: '" +:+ String first rest
                              +:+ "' is not a valid selector")), s)
           | Matched found =>
               (Ok found, on_comp (with_container (ContainerElement <$> found)) s)
           end
  end.

Definition append_to_container : M Sys () :=
  λ s,
    match element (comp s.2), container (comp s.2) with
    | Some e, Some k =>
        (resolved ⇐ resolve_container k;
         match resolved with
         | Some n =>
             λ s, let '(r, br) := appendChild n e (browser s.2) in
                  (r, on_browser (λ _, br) s)
         | None => m_ret ()
         end)%js s
    | _, _ => (Ok (), s)
    end.

(** The [try] block of [mount(container)], with its [catch]. *)
Definition mounting (container' : option Container) : M Sys () :=
  try_catch
    (act (λ s, say INFO ("📌 Mounting component: " +:+ name (comp s.2)) s) ;;;
     act (λ s, match container' with
               | Some k => on_comp (with_container (Some k)) s
               | None => s
               end) ;;;
     (λ s, match container (comp s.2) with
           | None => (Thrown (VErr "No container specified for mounting"), s)
           | Some _ => (Ok (), s)
           end) ;;;
     act (runHooks "beforeMount" ∅) ;;;
     createElement methods ;;;
     onMount methods ;;;
     append_to_container ;;;
     setupDOMEventListeners methods ;;;
     act (setState {[ "mounted" := VBool true ]}) ;;;
     act (runHooks "afterMount" ∅) ;;;
     act (λ s, say SUCCESS ("✅ Component mounted: " +:+ name (comp s.2)) s) ;;;
     act (λ s, (emit "component:mounted"
                  {[ "component" := VRef (id (comp s.2)) ]} s).2))%js
    (λ error,
       act (setState {[ "error" := error ]}) ;;;
       handle_failure "mount" true error)%js.

(** [mount(container)]. The budget bounds the mutual recursion between
    [mount] and [init]. *)
Fixpoint mount (budget : nat) (container' : option Container) : M Sys () :=
  match budget with
  | O => λ s, (Diverged, s)
  | S budget' =>
      λ s,
        if flag "mounted" s
        then (Ok (), say WARN "⚠️ Component already mounted" s)
        else
          (when (λ s, negb (flag "initialized" s)) (init_with (mount budget' None)) ;;;
           mounting container')%js s
  end.

(** [init()]. *)
Definition init (budget : nat) : M Sys () := init_with (mount budget None).

(** [update(newState)]. *)
Definition update (newState : gmap string jsval) : M Sys () :=
  λ s,
    if negb (flag "initialized" s)
    then (Ok (), say WARN "⚠️ Cannot update uninitialized component" s)
    else
      let oldState := state (comp s.2) in
      try_catch
        (act (λ s, say DEBUG ("🔄 Updating component: " +:+ name (comp s.2)) s) ;;;
         act (runHooks "beforeUpdate" {[ "newState" := VObj newState ]}) ;;;
         act (setState newState) ;;;
         onUpdate methods oldState ;;;
         when (flag "mounted") (render methods) ;;;
         act (λ s, runHooks "afterUpdate"
                     (<["oldState" := VObj oldState]>
                      {[ "newState" := VObj (state (comp s.2)) ]}) s) ;;;
         act (λ s, say DEBUG ("✅ Component updated: " +:+ name (comp s.2)) s) ;;;
         act (λ s, (emit "component:updated"
                      (<["component" := VRef (id (comp s.2))]>
                      (<["oldState" := VObj oldState]>
                       {[ "newState" := VObj (state (comp s.2)) ]})) s).2))%js
        (λ error,
           act (setState {[ "error" := error ]}) ;;;
           handle_failure "update" true error)%js
        s.

(** The loop of [destroy()] over [this.children]: a child without a
    [destroy] method is skipped, a child whose [destroy] throws ends the
    loop with that exception. *)
Fixpoint destroy_children (cs : list (string * option C)) : M Sys () :=
  match cs with
  | [] => m_ret ()
  | (childId, None) :: rest => destroy_children rest
  | (childId, Some d) :: rest =>
      λ s, match run d (Some childId) [] s with
           | (None, s') => destroy_children rest s'
           | (Some e, s') => (Thrown e, s')
           end
  end.

(** [element.parentNode.removeChild(element)], when attached. *)
Definition detach (s : Sys) : Sys :=
  match element (comp s.2) with
  | Some e => on_browser (set_nodes (delete e) 0) s
  | None => s
  end.

(** The first steps of the [try] block of [destroy()]: the hooks, the
    children and the clean-up of the subclass. *)
Definition cleanup : M Sys () :=
  (act (λ s, say INFO ("🗑️ Destroying component: " +:+ name (comp s.2)) s) ;;;
   act (runHooks "beforeDestroy" ∅) ;;;
   (λ s, destroy_children (children (comp s.2)) s) ;;;
   act (on_comp (with_children [])) ;;;
   onDestroy methods)%js.

(** [destroy()]. *)
Definition destroy : M Sys () :=
  λ s,
    if flag "destroyed" s
    then (Ok (), say WARN "⚠️ Component already destroyed" s)
    else
      try_catch
        (cleanup ;;;
         act detach ;;;
         act removeAllEventListeners ;;;
         act removeAllDOMEventListeners ;;;
         act (setState (<["destroyed" := VBool true]>
                       (<["mounted" := VBool false]>
                       (<["initialized" := VBool false]> ∅)))) ;;;
         act (runHooks "afterDestroy" ∅) ;;;
         act (λ s, say SUCCESS ("✅ Component destroyed: " +:+ name (comp s.2)) s) ;;;
         act (λ s, (emit "component:destroyed"
                      {[ "component" := VRef (id (comp s.2)) ]} s).2))%js
        (handle_failure "destroy" false)
        s.

(** [isReady()], [isMounted()], [hasError()]. *)
Definition isReady (s : Sys) : bool :=
  flag "initialized" s && negb (flag "destroyed" s) && negb (flag "error" s).

Definition isMounted (s : Sys) : bool :=
  flag "mounted" s && negb (flag "destroyed" s).

Definition hasError (s : Sys) : bool := flag "error" s.

End Base.
Arguments Component : clear implicits.
Arguments World : clear implicits.
Arguments Sys : clear implicits.
Arguments Methods : clear implicits.
Arguments DomListener : clear implicits.
End BaseComponent.

(** ** Theme manager ([components/ThemeManager.js]) *)

Module ThemeManager.

(** The functions the theme manager registers as listeners, and listeners
    registered by other code. An [External] listener observes the event
    and either returns or throws. *)
Inductive callback :=
| External (label : string) (throws : bool)
| OnThemeSet
| OnThemeToggle
| HandleStateChange
| ToggleTheme
| HandleSystemPreferenceChange
| HandleKeyboardShortcut.

#[global] Instance callback_eq_dec : EqDecision callback.
Proof. solve_decision. Defined.

Record ThemeConfig := {
  storageKey : string;
  transitionDuration : Z;
  enableTransitions : bool;
  enableSystemDetection : bool;
  themes : list string
}.

Record Fields := {
  tconfig : ThemeConfig;
  toggleButton : option Button;
  (** [this.mediaQuery] has been set *)
  mediaQuery : bool
}.

Import BaseComponent.

Abbreviation Sys := (BaseComponent.Sys callback Fields).
Abbreviation World := (BaseComponent.World callback Fields).

Definition theme_config (s : Sys) : ThemeConfig := tconfig (ext (comp s.2)).

Definition with_toggleButton (b : option Button) (s : Sys) : Sys :=
  on_comp (λ c, with_ext {| tconfig := tconfig (ext c); toggleButton := b;
                            mediaQuery := mediaQuery (ext c) |} c) s.

Definition with_mediaQuery (m : bool) (s : Sys) : Sys :=
  on_comp (λ c, with_ext {| tconfig := tconfig (ext c);
                            toggleButton := toggleButton (ext c);
                            mediaQuery := m |} c) s.

Definition with_themes (l : list string) (s : Sys) : Sys :=
  on_comp (λ c, with_ext
     {| tconfig := {| storageKey := storageKey (tconfig (ext c));
                      transitionDuration := transitionDuration (tconfig (ext c));
                      enableTransitions := enableTransitions (tconfig (ext c));
                      enableSystemDetection := enableSystemDetection (tconfig (ext c));
                      themes := l |};
        toggleButton := toggleButton (ext c);
        mediaQuery := mediaQuery (ext c) |} c) s.

(** [array.includes(v)] and [array.indexOf(v)] on an array of strings. *)
Definition includes (l : list string) (v : jsval) : bool :=
  match v with
  | VStr t => bool_decide (t ∈ l)
  | _ => false
  end.

Fixpoint index_of (l : list string) (t : string) : option nat :=
  match l with
  | [] => None
  | x :: l' => if String.eqb x t then Some 0%nat else S <$> index_of l' t
  end.

Definition indexOf (l : list string) (v : jsval) : option nat :=
  match v with
  | VStr t => index_of l t
  | _ => None
  end.

Section Methods.

(** Interpretation of the callbacks reached from inside a method. *)
Variable run : callback → option string → list jsval → Sys → option jsval * Sys.

Definition setState := BaseComponent.setState run.

(** [getEffectiveTheme()]. *)
Definition getEffectiveTheme (s : Sys) : jsval :=
  if is_string (prop (state (comp s.2)) "currentTheme") "auto"
  then prop (state (comp s.2)) "systemPreference"
  else prop (state (comp s.2)) "currentTheme".

(** Lookup in an object literal with string keys, [table[key] || dflt]. *)
Definition literal (table : list (string * string)) (key : jsval) (dflt : string) : string :=
  match (list_to_map table : gmap string string) !! js_to_string key with
  | Some v => if String.eqb v EmptyString then dflt else v
  | None => dflt
  end.

(** [updateToggleButton()]. *)
Definition updateToggleButton (s : Sys) : Sys :=
  match toggleButton (ext (comp s.2)) with
  | None => s
  | Some b =>
      let effectiveTheme := getEffectiveTheme s in
      let icons := [("light", "🌙"); ("dark", "☀️"); ("auto", "🌓")] in
      let labels := [("light", "Karanlık temaya geç"); ("dark", "Açık temaya geç");
                     ("auto", "Otomatik temaya geç")] in
      let label := literal labels effectiveTheme "Otomatik temaya geç" in
      let b1 := {| textContent := literal icons (prop (state (comp s.2)) "currentTheme") "🌓";
                   aria_label := label; title := label; classList := classList b |} in
      if flag "isTransitioning" s
      then
        on_browser
          (set_timers (λ t, t ++ [(transitionDuration (theme_config s),
                                    RemoveTransitioningClass)]))
          (with_toggleButton
             (Some {| textContent := textContent b1; aria_label := aria_label b1;
                      title := title b1;
                      classList := classList_add "transitioning" (classList b1) |}) s)
      else with_toggleButton (Some b1) s
  end.

(** [detectSystemPreference()]. *)
Definition detectSystemPreference (s : Sys) : Sys :=
  if negb (enableSystemDetection (theme_config s)) then s
  else
    match prefers_dark (browser s.2) with
    | Some matches =>
        let systemPreference := if matches then "dark" else "light" in
        let s1 := with_mediaQuery true s in
        let s2 := setState (<["systemPreference" := VStr systemPreference]>
                            {[ "supportsSystemPreference" := VBool true ]}) s1 in
        say INFO ("🔍 System preference detected: " +:+ systemPreference) s2
    | None => say WARN "⚠️ System preference detection not supported" s
    end.

(** [loadTheme()]. *)
Definition loadTheme : M Sys () :=
  try_catch
    (savedTheme ⇐ (λ s, storage_get (storageKey (theme_config s)) s);
     (λ s, match savedTheme with
           | Some t =>
               if negb (String.eqb t EmptyString) && includes (themes (theme_config s)) (VStr t)
               then (Ok (), setState {[ "currentTheme" := VStr t ]} s)
               else (Ok (), setState {[ "currentTheme" := VStr "auto" ]} s)
           | None => (Ok (), setState {[ "currentTheme" := VStr "auto" ]} s)
           end) ;;;
     act (λ s, say INFO ("📂 Theme loaded: "
                         +:+ js_to_string (prop (state (comp s.2)) "currentTheme")) s))%js
    (λ error,
       act (say WARN "⚠️ Failed to load theme from storage, using default") ;;;
       act (setState {[ "currentTheme" := VStr "auto" ]}))%js.

(** [saveTheme()]. *)
Definition saveTheme : M Sys () :=
  try_catch
    ((λ s, storage_set (storageKey (theme_config s))
                       (js_to_string (prop (state (comp s.2)) "currentTheme")) s) ;;;
     act (λ s, say INFO ("💾 Theme saved: "
                         +:+ js_to_string (prop (state (comp s.2)) "currentTheme")) s))%js
    (λ error, act (say WARN "⚠️ Failed to save theme to storage:")).

(** [styleToggleButton()]: the style sheet is added once. *)
Definition styleToggleButton (s : Sys) : Sys :=
  if bool_decide ("theme-toggle-styles" ∈ head_styles (browser s.2)) then s
  else on_browser (set_head_styles (λ l, l ++ ["theme-toggle-styles"])) s.

(** [createToggleButton()]. *)
Definition createToggleButton (s : Sys) : Sys :=
  let s1 := with_toggleButton
              (Some {| textContent := EmptyString; aria_label := "Tema değiştir";
                       title := "Tema değiştir"; classList := ["theme-toggle"] |}) s in
  let s2 := styleToggleButton s1 in
  let s3 := on_browser (set_body_children (λ l, l ++ ["theme-toggle"])) s2 in
  let s4 := updateToggleButton s3 in
  say INFO "🔘 Theme toggle button created" s4.

(** [setupEventListeners()]. *)
Definition setupEventListeners (s : Sys) : Sys :=
  let s1 := if bool_decide (is_Some (toggleButton (ext (comp s.2))))
            then addDOMEventListener TargetToggleButton "click" ToggleTheme s else s in
  let s2 := if mediaQuery (ext (comp s1.2))
            then addDOMEventListener TargetMediaQuery "change" HandleSystemPreferenceChange s1
            else s1 in
  let s3 := addDOMEventListener TargetDocument "keydown" HandleKeyboardShortcut s2 in
  let s4 := (BaseComponent.on "theme:set" OnThemeSet EventBus.no_options s3).2 in
  let s5 := (BaseComponent.on "theme:toggle" OnThemeToggle EventBus.no_options s4).2 in
  (BaseComponent.on "state:changed" HandleStateChange EventBus.no_options s5).2.

(** [updateMetaThemeColor(theme)]: the [<meta>] element is created when
    missing. *)
Definition updateMetaThemeColor (theme : jsval) (s : Sys) : Sys :=
  on_browser
    (set_meta_theme_color
       (literal [("light", "#667eea"); ("dark", "#1a202c")] theme "#667eea")) s.

(** [applyTheme(theme)], for an effective theme that makes a class name
    without white space ([classList.add] throws for the others, after the
    state and the attribute were written). *)
Definition applyTheme (theme : jsval) (s : Sys) : Sys :=
  let effectiveTheme :=
    if is_string theme "auto" then prop (state (comp s.2)) "systemPreference" else theme in
  let s1 := if enableTransitions (theme_config s)
            then setState {[ "isTransitioning" := VBool true ]} s else s in
  let s2 := on_browser (set_data_theme (js_to_string effectiveTheme)) s1 in
  let s3 := on_browser
              (set_body_classList
                 (λ l, classList_add ("theme-" +:+ js_to_string effectiveTheme)
                         (classList_remove "theme-dark" (classList_remove "theme-light" l))))
              s2 in
  let s4 := updateMetaThemeColor effectiveTheme s3 in
  let s5 := updateToggleButton s4 in
  let s6 := (BaseComponent.emit run "theme:changed"
               (<["theme" := prop (state (comp s5.2)) "currentTheme"]>
               (<["effectiveTheme" := effectiveTheme]>
               (<["systemPreference" := prop (state (comp s5.2)) "systemPreference"]>
                {[ "component" := VRef (id (comp s5.2)) ]}))) s5).2 in
  let s7 := if enableTransitions (theme_config s6)
            then on_browser
                   (set_timers (λ t, t ++ [(transitionDuration (theme_config s6),
                                             EndTransition)])) s6
            else s6 in
  say INFO ("🎨 Theme applied: " +:+ js_to_string effectiveTheme +:+ " (setting: "
            +:+ js_to_string (prop (state (comp s7.2)) "currentTheme") +:+ ")") s7.

(** [announceThemeChange(theme)]. *)
Definition announceThemeChange (theme : jsval) (s : Sys) : Sys :=
  (EventBus.emit run "announce"
     [VStr (literal [("light", "Açık tema aktif"); ("dark", "Karanlık tema aktif");
                     ("auto", "Otomatik tema aktif")] theme "Otomatik tema aktif")] s).2.

(** [setTheme(theme)]. *)
Definition setTheme (theme : jsval) (s : Sys) : bool * Sys :=
  if negb (includes (themes (theme_config s)) theme)
  then (false, say WARN ("⚠️ Invalid theme: " +:+ js_to_string theme) s)
  else
    let oldTheme := prop (state (comp s.2)) "currentTheme" in
    if is_string oldTheme (js_to_string theme)
    then (true, say DEBUG ("🔄 Theme already set: " +:+ js_to_string theme) s)
    else
      let s1 := setState {[ "currentTheme" := theme ]} s in
      let s2 := applyTheme theme s1 in
      let s3 := say INFO ("🔄 Theme changed: " +:+ js_to_string oldTheme +:+ " → "
                          +:+ js_to_string theme) s2 in
      (true, announceThemeChange theme s3).

(** [toggleTheme()]: with an empty theme list the index is [NaN] and the
    next theme [undefined]. *)
Definition nextTheme (s : Sys) : jsval :=
  let l := themes (theme_config s) in
  let nextIndex :=
    match indexOf l (prop (state (comp s.2)) "currentTheme") with
    | Some i => (S i) mod (length l)
    | None => 0%nat
    end in
  match l !! nextIndex with
  | Some t => VStr t
  | None => VUndef
  end.

Definition toggleTheme (s : Sys) : Sys := (setTheme (nextTheme s) s).2.

(** [handleStateChange(data)]. *)
Definition handleStateChange (args : list jsval) : M Sys () :=
  λ s,
    match member (default VUndef (args !! 0%nat)) "changes" with
    | Ok changes =>
        match member changes "currentTheme" with
        | Ok v =>
            if truthy v then saveTheme (updateToggleButton s) else (Ok (), s)
        | Thrown e => (Thrown e, s)
        | Diverged => (Diverged, s)
        end
    | Thrown e => (Thrown e, s)
    | Diverged => (Diverged, s)
    end.

(** [handleSystemPreferenceChange(e)]. *)
Definition handleSystemPreferenceChange (args : list jsval) : M Sys () :=
  λ s,
    match member (default VUndef (args !! 0%nat)) "matches" with
    | Ok m =>
        let systemPreference := if truthy m then "dark" else "light" in
        let s1 := setState {[ "systemPreference" := VStr systemPreference ]} s in
        let s2 := say INFO ("🔄 System preference changed: " +:+ systemPreference) s1 in
        if is_string (prop (state (comp s2.2)) "currentTheme") "auto"
        then (Ok (), applyTheme (VStr "auto") s2)
        else (Ok (), s2)
    | Thrown e => (Thrown e, s)
    | Diverged => (Diverged, s)
    end.

(** [handleKeyboardShortcut(e)]. *)
Definition handleKeyboardShortcut (args : list jsval) : M Sys () :=
  λ s,
    let e := default VUndef (args !! 0%nat) in
    match member e "ctrlKey", member e "metaKey", member e "shiftKey", member e "key" with
    | Ok ctrl, Ok meta, Ok shift, Ok key =>
        if (truthy ctrl || truthy meta) && truthy shift && is_string key "T"
        then (Ok (), toggleTheme s)
        else (Ok (), s)
    | _, _, _, _ => (Thrown (VErr "TypeError: Cannot read properties of undefined"), s)
    end.

(** [setupThemeTransitions()]. *)
Definition setupThemeTransitions (s : Sys) : Sys :=
  on_browser (set_head_styles (λ l, l ++ ["theme-transitions"])) s.

(** [onInit()]. *)
Definition onInit : M Sys () :=
  (act (say INFO "🎨 Initializing Theme Manager...") ;;;
   act detectSystemPreference ;;;
   loadTheme ;;;
   act createToggleButton ;;;
   act setupEventListeners ;;;
   act (λ s, applyTheme (prop (state (comp s.2)) "currentTheme") s) ;;;
   when (λ s, enableTransitions (theme_config s)) (act setupThemeTransitions))%js.

(** [onDestroy()]. *)
Definition onDestroy : M Sys () :=
  (act (λ s, match toggleButton (ext (comp s.2)) with
             | Some _ =>
                 on_browser (set_body_children
                               (λ l, default l (remove_one "theme-toggle" l))) s
             | None => s
             end) ;;;
   act (on_browser (set_head_styles
                      (λ l, default l (remove_one "theme-transitions" l)))) ;;;
   act (say INFO "🧹 Theme Manager cleaned up"))%js.

(** [isStorageAvailable()]. *)
Definition isStorageAvailable : M Sys bool :=
  try_catch
    (storage_set "__theme_test__" "__theme_test__" ;;;
     storage_remove "__theme_test__" ;;;
     m_ret true)%js
    (λ _, m_ret false).

Definition methods : BaseComponent.Methods callback Fields :=
  {| BaseComponent.onInit := onInit;
     BaseComponent.setupEventListeners := act setupEventListeners;
     BaseComponent.createElement := base_createElement;
     BaseComponent.onMount := m_ret ();
     BaseComponent.setupDOMEventListeners := m_ret ();
     BaseComponent.onUpdate := λ _, m_ret ();
     BaseComponent.render := base_createElement;
     BaseComponent.onDestroy := onDestroy |}.

(** One step of interpretation, the nested calls being interpreted by
    [run]. *)
Definition as_outcome {A} (r : result A * Sys) : option jsval * Sys :=
  match r with
  | (Ok _, s) => (None, s)
  | (Thrown e, s) => (Some e, s)
  | (Diverged, s) => (Some (VErr "RangeError: Maximum call stack size exceeded"), s)
  end.

Definition run_step (f : callback) (this : option string) (args : list jsval)
    (s : Sys) : option jsval * Sys :=
  match f with
  | External _ throws =>
      (if throws then Some (VErr "listener failed") else None, s)
  | OnThemeSet =>
      match member (default VUndef (args !! 0%nat)) "theme" with
      | Ok theme => (None, (setTheme theme s).2)
      | Thrown e => (Some e, s)
      | Diverged => (Some (VErr "RangeError: Maximum call stack size exceeded"), s)
      end
  | OnThemeToggle | ToggleTheme => (None, toggleTheme s)
  | HandleStateChange => as_outcome (handleStateChange args s)
  | HandleSystemPreferenceChange => as_outcome (handleSystemPreferenceChange args s)
  | HandleKeyboardShortcut => as_outcome (handleKeyboardShortcut args s)
  end.

End Methods.

(** The interpretation of callbacks, with a bound on the depth of nested
    calls: a call beyond the bound throws, like a call on a full stack. *)
Fixpoint run (depth : nat) : callback → option string → list jsval → Sys
                            → option jsval * Sys :=
  match depth with
  | O => λ _ _ _ s, (Some (VErr "RangeError: Maximum call stack size exceeded"), s)
  | S d => run_step (run d)
  end.

Definition default_ThemeConfig : ThemeConfig :=
  {| storageKey := "codenexlify-theme"; transitionDuration := 300;
     enableTransitions := true; enableSystemDetection := true;
     themes := ["light"; "dark"; "auto"] |}.

(** The constructor: the theme keys of the configuration overwrite what
    the options give; the options can still set the base switches. *)
Definition new (depth : nat) (development : bool) (id' : string)
    (initialState : gmap string jsval) (config' : BaseComponent.Config)
    (container' : option BaseComponent.Container) (dependencies' : list string)
    (bus : EventBus.Bus callback) (br : Browser) : Sys :=
  let c := BaseComponent.new development id' "ThemeManager" initialState config'
             container' dependencies'
             {| tconfig := default_ThemeConfig; toggleButton := None;
                mediaQuery := false |} in
  let s := say DEBUG ("🏗️ Component created: ThemeManager (ID: " +:+ id' +:+ ")")
               (bus, {| comp := c; browser := br; console := [] |}) in
  setState (run depth)
    (<["currentTheme" := VStr "light"]>
    (<["systemPreference" := VStr "light"]>
    (<["isTransitioning" := VBool false]>
     {[ "supportsSystemPreference" := VBool false ]}))) s.

(** [init()] of a theme manager. *)
Definition init (depth budget : nat) : M Sys () :=
  BaseComponent.init (run depth) (methods (run depth)) budget.

Definition destroy (depth : nat) : M Sys () :=
  BaseComponent.destroy (run depth) (methods (run depth)).

End ThemeManager.

(** ** Internationalization manager ([components/I18nManager.js]) *)

Module I18nManager.

Import BaseComponent.

Record I18nConfig := {
  fallbackLanguage : string;
  storageKey : string;
  translationsPath : string;
  autoDetect : bool;
  persistChoice : bool
}.

Definition default_I18nConfig : I18nConfig :=
  {| fallbackLanguage := "tr"; storageKey := "codenexlify-language";
     translationsPath := "/locales"; autoDetect := true; persistChoice := true |}.

Record Fields := {
  iconfig : I18nConfig;
  (** [Map] from language code to translation table *)
  translations : gmap string (gmap string string);
  fallbackTranslations : gmap string (gmap string string);
  languageToggle : option Button
}.

(** The literal table of [initializeDefaultTranslations()]. *)
Definition defaultTranslations : list (string * string) :=
  [("nav.home", "Ana Sayfa");
   ("nav.about", "Hakkımızda");
   ("nav.services", "Hizmetler");
   ("nav.contact", "İletişim");
   ("nav.blog", "Blog");
   ("common.loading", "Yükleniyor...");
   ("common.error", "Hata");
   ("common.success", "Başarılı");
   ("common.cancel", "İptal");
   ("common.save", "Kaydet");
   ("common.close", "Kapat");
   ("common.back", "Geri");
   ("common.next", "İleri");
   ("common.previous", "Önceki");
   ("common.submit", "Gönder");
   ("common.search", "Ara");
   ("common.filter", "Filtrele");
   ("common.sort", "Sırala");
   ("common.view_all", "Tümünü Gör");
   ("common.read_more", "Devamını Oku");
   ("hero.title", "Yenilikçi Teknoloji Çözümleri");
   ("hero.subtitle", "AI odaklı hizmetlerle geliştiricilere ve işletmelere ilham veriyoruz. Türkçe destekli çözümlerle yerel pazardan globale uzanan vizyonumuzla yanınızdayız.");
   ("hero.cta_primary", "Hizmetlerimizi Keşfedin");
   ("hero.cta_secondary", "İletişime Geçin");
   ("services.title", "Hizmetlerimiz");
   ("services.subtitle", "Modern teknolojilerle hayalinizdeki projeleri gerçeğe dönüştürüyoruz");
   ("services.web.title", "Web Siteleri");
   ("services.web.description", "SEO uyumlu, mobil dostu ve modern web çözümleri geliştiriyoruz.");
   ("services.mobile.title", "Mobil Uygulamalar");
   ("services.mobile.description", "Çapraz platform mobil uygulamalar ile her cihazda mükemmel deneyim.");
   ("services.desktop.title", "Masaüstü Araçlar");
   ("services.desktop.description", "Otomasyon ve IDE destekli yazılımlarla iş süreçlerinizi hızlandırın.");
   ("services.ai.title", "AI Eklentileri");
   ("services.ai.description", "NexlifyBuddy gibi AI destekli kodlama araçları ile verimliliğinizi artırın.");
   ("services.consulting.title", "Danışmanlık");
   ("services.consulting.description", "NGINX, API ve otomasyon konularında uzman rehberliği sağlıyoruz.");
   ("contact.title", "İletişim");
   ("contact.subtitle", "Projeleriniz için ücretsiz konsültasyon alın");
   ("contact.form.name", "Ad Soyad");
   ("contact.form.email", "E-posta");
   ("contact.form.phone", "Telefon");
   ("contact.form.service", "Hizmet Türü");
   ("contact.form.budget", "Bütçe Aralığı");
   ("contact.form.message", "Mesajınız");
   ("contact.form.submit", "Mesaj Gönder");
   ("footer.company", "Şirket");
   ("footer.services", "Hizmetler");
   ("footer.contact", "İletişim");
   ("footer.rights", "Tüm hakları saklıdır.");
   ("theme.toggle", "Tema değiştir");
   ("theme.light", "Açık tema");
   ("theme.dark", "Karanlık tema");
   ("theme.auto", "Otomatik tema");
   ("language.toggle", "Dil değiştir");
   ("language.turkish", "Türkçe");
   ("language.english", "English")].

(** The literal table of [loadBuiltInEnglishTranslations()]. *)
Definition englishTranslations : list (string * string) :=
  [("nav.home", "Home");
   ("nav.about", "About");
   ("nav.services", "Services");
   ("nav.contact", "Contact");
   ("nav.blog", "Blog");
   ("common.loading", "Loading...");
   ("common.error", "Error");
   ("common.success", "Success");
   ("common.cancel", "Cancel");
   ("common.save", "Save");
   ("common.close", "Close");
   ("common.back", "Back");
   ("common.next", "Next");
   ("common.previous", "Previous");
   ("common.submit", "Submit");
   ("common.search", "Search");
   ("common.filter", "Filter");
   ("common.sort", "Sort");
   ("common.view_all", "View All");
   ("common.read_more", "Read More");
   ("hero.title", "Innovative Technology Solutions");
   ("hero.subtitle", "We inspire developers and businesses with AI-focused services. With Turkish-supported solutions, we are with you with our vision extending from the local market to the global.");
   ("hero.cta_primary", "Discover Our Services");
   ("hero.cta_secondary", "Get In Touch");
   ("services.title", "Our Services");
   ("services.subtitle", "We turn your dream projects into reality with modern technologies");
   ("services.web.title", "Web Sites");
   ("services.web.description", "We develop SEO-friendly, mobile-friendly and modern web solutions.");
   ("services.mobile.title", "Mobile Applications");
   ("services.mobile.description", "Perfect experience on every device with cross-platform mobile applications.");
   ("services.desktop.title", "Desktop Tools");
   ("services.desktop.description", "Speed up your business processes with automation and IDE-supported software.");
   ("services.ai.title", "AI Plugins");
   ("services.ai.description", "Increase your productivity with AI-supported coding tools like NexlifyBuddy.");
   ("services.consulting.title", "Consulting");
   ("services.consulting.description", "We provide expert guidance on NGINX, API and automation.");
   ("contact.title", "Contact");
   ("contact.subtitle", "Get free consultation for your projects");
   ("contact.form.name", "Full Name");
   ("contact.form.email", "Email");
   ("contact.form.phone", "Phone");
   ("contact.form.service", "Service Type");
   ("contact.form.budget", "Budget Range");
   ("contact.form.message", "Your Message");
   ("contact.form.submit", "Send Message");
   ("footer.company", "Company");
   ("footer.services", "Services");
   ("footer.contact", "Contact");
   ("footer.rights", "All rights reserved.");
   ("theme.toggle", "Toggle theme");
   ("theme.light", "Light theme");
   ("theme.dark", "Dark theme");
   ("theme.auto", "Auto theme");
   ("language.toggle", "Change language");
   ("language.turkish", "Türkçe");
   ("language.english", "English")].

Section Methods.

Context {C : Type} `{EqDecision C}.

Abbreviation Sys := (BaseComponent.Sys C Fields).

Variable run : C → option string → list jsval → Sys → option jsval * Sys.

Definition i18n_config (s : Sys) : I18nConfig := iconfig (ext (comp s.2)).

Definition with_translations (f : gmap string (gmap string string)
                                  → gmap string (gmap string string)) (s : Sys) : Sys :=
  on_comp (λ c, with_ext {| iconfig := iconfig (ext c);
                            translations := f (translations (ext c));
                            fallbackTranslations := fallbackTranslations (ext c);
                            languageToggle := languageToggle (ext c) |} c) s.

Definition with_fallbackTranslations (f : gmap string (gmap string string)
                                          → gmap string (gmap string string))
    (s : Sys) : Sys :=
  on_comp (λ c, with_ext {| iconfig := iconfig (ext c);
                            translations := translations (ext c);
                            fallbackTranslations := f (fallbackTranslations (ext c));
                            languageToggle := languageToggle (ext c) |} c) s.

(** [initializeDefaultTranslations()]. *)
Definition initializeDefaultTranslations (s : Sys) : Sys :=
  with_fallbackTranslations <["tr" := list_to_map defaultTranslations]>
    (with_translations <["tr" := list_to_map defaultTranslations]> s).

(** The constructor. *)
Definition new (development : bool) (id' : string)
    (initialState : gmap string jsval) (config' : BaseComponent.Config)
    (container' : option BaseComponent.Container) (dependencies' : list string)
    (bus : EventBus.Bus C) (br : Browser) : Sys :=
  let c := BaseComponent.new development id' "I18nManager" initialState config'
             container' dependencies'
             {| iconfig := default_I18nConfig; translations := ∅;
                fallbackTranslations := ∅; languageToggle := None |} in
  let s := say DEBUG ("🏗️ Component created: I18nManager (ID: " +:+ id' +:+ ")")
               (bus, {| comp := c; browser := br; console := [] |}) in
  let s1 := BaseComponent.setState run
              (<["currentLanguage" := VStr "tr"]>
              (<["availableLanguages" := VArr [VStr "tr"; VStr "en"]]>
              (<["isLoading" := VBool false]>
               {[ "loadedLanguages" := VSet ["tr"] ]}))) s in
  initializeDefaultTranslations s1.

(** [this.state.availableLanguages.includes(v)]; [None] when the state
    does not hold an array there, where the call throws. *)
Definition available (s : Sys) (v : string) : option bool :=
  match prop (state (comp s.2)) "availableLanguages" with
  | VArr l => Some (existsb (λ x, is_string x v) l)
  | _ => None
  end.

(** [loadLanguagePreference()]. *)
Definition loadLanguagePreference : M Sys () :=
  λ s,
    if negb (persistChoice (i18n_config s)) then (Ok (), s)
    else
      try_catch
        (savedLanguage ⇐ storage_get (storageKey (i18n_config s));
         (λ s, match savedLanguage with
               | Some l =>
                   if String.eqb l EmptyString then (Ok (), s)
                   else match available s l with
                        | Some true =>
                            (Ok (), say INFO ("📂 Language preference loaded: " +:+ l)
                                      (BaseComponent.setState run
                                         {[ "currentLanguage" := VStr l ]} s))
                        | Some false => (Ok (), s)
                        | None => (Thrown (VErr "TypeError: includes is not a function"), s)
                        end
               | None => (Ok (), s)
               end))%js
        (λ error, act (say WARN "⚠️ Failed to load language preference:"))
        s.

(** [saveLanguagePreference()]. *)
Definition saveLanguagePreference : M Sys () :=
  λ s,
    if negb (persistChoice (i18n_config s)) then (Ok (), s)
    else
      try_catch
        ((λ s, storage_set (storageKey (i18n_config s))
                  (js_to_string (prop (state (comp s.2)) "currentLanguage")) s) ;;;
         act (λ s, say INFO ("💾 Language preference saved: "
                       +:+ js_to_string (prop (state (comp s.2)) "currentLanguage")) s))%js
        (λ error, act (say WARN "⚠️ Failed to save language preference:"))
        s.

(** The test [this.config.autoDetect &&
    !localStorage.getItem(this.config.storageKey)] of [onInit()]; the
    read is not inside a [try]. *)
Definition shouldDetectBrowserLanguage : M Sys bool :=
  λ s,
    if negb (autoDetect (i18n_config s)) then (Ok false, s)
    else (saved ⇐ storage_get (storageKey (i18n_config s));
          m_ret (match saved with
                 | Some v => String.eqb v EmptyString
                 | None => true
                 end))%js s.

(** [loadBuiltInEnglishTranslations()]. *)
Definition loadBuiltInEnglishTranslations (s : Sys) : Sys :=
  say INFO "📚 Built-in English translations loaded"
    (with_translations <["en" := list_to_map englishTranslations]> s).

(** The inner [try] of [loadTranslations]: the request, and the reading
    of the answer. *)
Definition fetchTranslations (language : string) : M Sys () :=
  λ s,
    let translationsUrl := translationsPath (i18n_config s) +:+ "/" +:+ language +:+ ".json" in
    let '(answer, br) := fetch translationsUrl (browser s.2) in
    let s1 := on_browser (λ _, br) s in
    match answer with
    | NetworkError m => (Thrown (VErr m), s1)
    | HttpResponse true _ (Some table) =>
        (Ok (), say SUCCESS ("✅ Translations loaded from file: " +:+ language)
                  (with_translations <[language := table]> s1))
    | HttpResponse true _ None => (Thrown (VErr "SyntaxError: Unexpected token"), s1)
    | HttpResponse false status _ => (Thrown (VErr ("HTTP " +:+ pretty status)), s1)
    end.

(** [this.state.loadedLanguages.add(language)]: the set is changed in
    place, without [setState]. *)
Definition markLoaded (language : string) : M Sys () :=
  λ s,
    match prop (state (comp s.2)) "loadedLanguages" with
    | VSet l =>
        (Ok (), on_comp (λ c, with_state
                   (<["loadedLanguages" :=
                        VSet (if bool_decide (language ∈ l) then l else l ++ [language])]>
                      (state c)) c) s)
    | _ => (Thrown (VErr "TypeError: Cannot read properties of undefined"), s)
    end.

(** [loadTranslations(language)]. *)
Definition loadTranslations (language : string) : M Sys () :=
  λ s,
    match prop (state (comp s.2)) "loadedLanguages" with
    | VSet l =>
        if bool_decide (language ∈ l)
        then (Ok (), say DEBUG ("📚 Translations already loaded for: " +:+ language) s)
        else
          try_finally
            (try_catch
               (act (say INFO ("📥 Loading translations for: " +:+ language)) ;;;
                try_catch
                  (fetchTranslations language)
                  (λ fetchError,
                     act (say WARN ("⚠️ Failed to load translations from file: "
                                    +:+ error_message fetchError)) ;;;
                     when (λ _, String.eqb language "en")
                          (act loadBuiltInEnglishTranslations)) ;;;
                markLoaded language)%js
               (λ error, act (say ERROR ("❌ Failed to load translations for "
                                         +:+ language +:+ ":"))))
            (BaseComponent.setState run {[ "isLoading" := VBool false ]})
            (BaseComponent.setState run {[ "isLoading" := VBool true ]} s)
    | _ => (Thrown (VErr "TypeError: Cannot read properties of undefined"), s)
    end.

(** [t(key)], without parameters. *)
Definition t (key : string) (s : Sys) : string :=
  let table_of (language : jsval) : option (gmap string string) :=
    match language with
    | VStr l => translations (ext (comp s.2)) !! l
    | _ => None
    end in
  let pick (table : option (gmap string string)) : option string :=
    match table with
    | Some tb => match tb !! key with
                 | Some v => if String.eqb v EmptyString then None else Some v
                 | None => None
                 end
    | None => None
    end in
  match pick (table_of (prop (state (comp s.2)) "currentLanguage")) with
  | Some v => v
  | None =>
      match pick (translations (ext (comp s.2)) !! fallbackLanguage (i18n_config s)) with
      | Some v => v
      | None => key
      end
  end.

End Methods.
End I18nManager.

(** ** Component registry ([core/ComponentRegistry.js]) *)

Module ComponentRegistry.
Section Registry.

(** [E]: the part of the page a component constructor can read and
    change. *)
Context {E : Type}.

(** A component class: [construct options args e] is the value thrown by
    [new ComponentClass(options, ...args)], if any, and the page after the
    call; [cleanup] is the instances' [cleanup] method, when they have
    one. *)
Record Class := {
  construct : jsval → list jsval → E → option jsval * E;
  cleanup : option (E → E)
}.

Record Registration := {
  ComponentClass : Class;
  options : jsval;
  registered : Z
}.

(** Instances are objects, identified by the order of their creation. *)
Record Registry := {
  components : gmap string Registration;
  instances : gmap string nat;
  next_object : nat;
  logger : Logger;
  console : list LogData
}.

Definition new_ComponentRegistry (development : bool) : Registry :=
  {| components := ∅; instances := ∅; next_object := 0;
     logger := new_Logger development "ComponentRegistry"; console := [] |}.

Definition say (l : level) (message : string) (r : Registry) : Registry :=
  {| components := components r; instances := instances r;
     next_object := next_object r; logger := logger r;
     console := log (logger r) l message (console r) |}.

(** [register(name, ComponentClass, options)]; [now] is [Date.now()]. *)
Definition register (name : string) (cls : Class) (opts : jsval) (now : Z)
    (r : Registry) : Registry :=
  let r1 := if bool_decide (is_Some (components r !! name))
            then say WARN ("⚠️ Component '" +:+ name
                           +:+ "' is already registered. Overwriting...") r
            else r in
  say INFO ("📦 Component '" +:+ name +:+ "' registered successfully")
    {| components := <[name := {| ComponentClass := cls; options := opts;
                                   registered := now |}]> (components r1);
       instances := instances r1; next_object := next_object r1;
       logger := logger r1; console := console r1 |}.

(** [has(name)]. *)
Definition has (name : string) (r : Registry) : bool :=
  bool_decide (is_Some (components r !! name)).

(** [getInstance(name, ...args)]; [None] is [null]. *)
Definition getInstance (name : string) (args : list jsval) (s : Registry * E)
    : option nat * (Registry * E) :=
  match components s.1 !! name with
  | None =>
      (None, (say ERROR ("❌ Component '" +:+ name +:+ "' is not registered") s.1, s.2))
  | Some reg =>
      match instances s.1 !! name with
      | Some instance => (Some instance, s)
      | None =>
          match construct (ComponentClass reg) (options reg) args s.2 with
          | (None, e') =>
              let instance := next_object s.1 in
              (Some instance,
               (say INFO ("🏗️ Component '" +:+ name +:+ "' instance created")
                  {| components := components s.1;
                     instances := <[name := instance]> (instances s.1);
                     next_object := S (next_object s.1);
                     logger := logger s.1; console := console s.1 |}, e'))
          | (Some error, e') =>
              (None, (say ERROR ("❌ Failed to create instance of '" +:+ name +:+ "':") s.1, e'))
          end
      end
  end.

(** [unregister(name)]. The [cleanup] method of a cached instance is taken
    from the class registered under the name, and taken to return. *)
Definition unregister (name : string) (s : Registry * E) : bool * (Registry * E) :=
  match components s.1 !! name with
  | None => (false, (say WARN ("⚠️ Component '" +:+ name +:+ "' is not registered") s.1, s.2))
  | Some reg =>
      let e' := match instances s.1 !! name, cleanup (ComponentClass reg) with
                | Some _, Some f => f s.2
                | _, _ => s.2
                end in
      (true,
       (say INFO ("🗑️ Component '" +:+ name +:+ "' unregistered successfully")
          {| components := delete name (components s.1);
             instances := delete name (instances s.1);
             next_object := next_object s.1;
             logger := logger s.1; console := console s.1 |}, e'))
  end.

End Registry.
Arguments Class : clear implicits.
Arguments Registration : clear implicits.
Arguments Registry : clear implicits.
End ComponentRegistry.

(** ** Application core ([core/App.js]): configuration and preferences *)

Module App.
Section App.

(** [JSON.parse] and [JSON.stringify]. *)
Variable JSON_parse : string → result jsval.
Variable JSON_stringify : jsval → string.

Record App := {
  state : gmap string jsval;
  config : gmap string jsval;
  logger : Logger;
  console : list LogData
}.

Definition Sys : Type := App * Storage.

Definition new_App (development online : bool) : App :=
  {| state := <["isInitialized" := VBool false]>
              (<["currentPage" := VNull]>
              (<["theme" := VStr "light"]>
              (<["language" := VStr "tr"]>
              (<["isOnline" := VBool online]> ∅))));
     config := <["version" := VStr "2.0.0"]>
               (<["name" := VStr "CodeNexlify"]>
               (<["debug" := VBool development]> ∅));
     logger := new_Logger development "App"; console := [] |}.

Definition say (l : level) (message : string) (s : Sys) : Sys :=
  ({| state := state s.1; config := config s.1; logger := logger s.1;
      console := log (logger s.1) l message (console s.1) |}, s.2).

Definition with_state (f : gmap string jsval → gmap string jsval) (s : Sys) : Sys :=
  ({| state := f (state s.1); config := config s.1; logger := logger s.1;
      console := console s.1 |}, s.2).

Definition with_config (f : gmap string jsval → gmap string jsval) (s : Sys) : Sys :=
  ({| state := state s.1; config := f (config s.1); logger := logger s.1;
      console := console s.1 |}, s.2).

Definition storage_get (key : string) : M Sys (option string) :=
  λ s, let '(r, st) := getItem key s.2 in (r, (s.1, st)).

Definition storage_set (key value : string) : M Sys () :=
  λ s, let '(r, st) := setItem key value s.2 in (r, (s.1, st)).

Definition lift {A} (r : result A) : M Sys A := λ s, (r, s).

(** The own enumerable properties copied by an object spread [{...v}]:
    the properties of an object, the elements of an array and the
    characters of a string under their indices (a character of the model
    is a character of the program for ASCII text), nothing for other
    values. *)
Definition spread (v : jsval) : gmap string jsval :=
  match v with
  | VObj o => o
  | VArr l => list_to_map (imap (λ i x, (pretty i, x)) l)
  | VStr text =>
      list_to_map (imap (λ i c, (pretty i, VStr (String c EmptyString)))
                        (String.list_ascii_of_string text))
  | _ => ∅
  end.

(** [loadConfig()]. *)
Definition loadConfig : M Sys () :=
  try_catch
    (savedConfig ⇐ storage_get "codenexlify-config";
     match savedConfig with
     | Some text =>
         if String.eqb text EmptyString then m_ret ()
         else (parsedConfig ⇐ lift (JSON_parse text);
               act (with_config (λ c, spread parsedConfig ∪ c)))
     | None => m_ret ()
     end ;;;
     act (say INFO "⚙️ Configuration loaded:"))%js
    (λ error, act (say WARN "⚠️ Failed to load configuration, using defaults")).

(** [parsed.k || dflt]. *)
Definition member_or (parsed : jsval) (k : string) (dflt : jsval) : result jsval :=
  match member parsed k with
  | Ok v => Ok (if truthy v then v else dflt)
  | Thrown e => Thrown e
  | Diverged => Diverged
  end.

(** [loadUserPreferences()]. *)
Definition loadUserPreferences : M Sys () :=
  try_catch
    (preferences ⇐ storage_get "codenexlify-preferences";
     match preferences with
     | Some text =>
         if String.eqb text EmptyString then m_ret ()
         else (parsed ⇐ lift (JSON_parse text);
               theme ⇐ lift (member_or parsed "theme" (VStr "light"));
               act (with_state <["theme" := theme]>) ;;;
               language ⇐ lift (member_or parsed "language" (VStr "tr"));
               act (with_state <["language" := language]>))
     | None => m_ret ()
     end)%js
    (λ error, act (say WARN "⚠️ Failed to load user preferences")).

(** [saveUserPreferences()]. *)
Definition saveUserPreferences : M Sys () :=
  try_catch
    (λ s,
       let preferences := VObj (<["theme" := prop (state s.1) "theme"]>
                               (<["language" := prop (state s.1) "language"]> ∅)) in
       storage_set "codenexlify-preferences" (JSON_stringify preferences) s)
    (λ error, act (say WARN "⚠️ Failed to save user preferences:")).

End App.
End App.

(** ** The stand-alone page script ([js/script.js]): theme toggle *)

Module PageScript.

(** The storage part of [setupThemeToggle()]: the saved theme is read and
    applied; the read is not inside a [try]. *)
Definition setupThemeToggle : M Browser () :=
  λ br,
    let '(r, st) := getItem "theme" (localStorage br) in
    let br1 := set_localStorage (λ _, st) br in
    match r with
    | Ok saved =>
        let savedTheme := match saved with
                          | Some v => if String.eqb v EmptyString then "light" else v
                          | None => "light"
                          end in
        (Ok (), set_data_theme savedTheme br1)
    | Thrown e => (Thrown e, br1)
    | Diverged => (Diverged, br1)
    end.

(** The click listener installed by [setupThemeToggle()]. *)
Definition themeToggle_click : M Browser () :=
  λ br,
    let newTheme := if bool_decide (data_theme br = Some "dark") then "light" else "dark" in
    let br1 := set_data_theme newTheme br in
    let '(r, st) := setItem "theme" newTheme (localStorage br1) in
    (r, set_localStorage (λ _, st) br1).

End PageScript.

(** ** Dependency graph and load order ([core/ComponentRegistry.js]) *)

Module DependencyGraph.

(** [array.forEach(f)], with the exceptions of [f]. *)
Fixpoint forEach {Σ A : Type} (f : A → M Σ ()) (l : list A) : M Σ () :=
  match l with
  | [] => m_ret ()
  | x :: l' => (f x ;;; forEach f l')%js
  end.

(** The members every object literal inherits from [Object.prototype]:
    [graph[name]] is truthy for these names also when the graph has no
    such entry. *)
Definition inherited : list string :=
  ["constructor"; "__defineGetter__"; "__defineSetter__"; "hasOwnProperty";
   "__lookupGetter__"; "__lookupSetter__"; "isPrototypeOf"; "propertyIsEnumerable";
   "toString"; "valueOf"; "__proto__"; "toLocaleString"].

(** *** The order of [Object.keys] *)

Definition digit (c : Ascii.ascii) : option N :=
  let n := Ascii.N_of_ascii c in
  if ((48 <=? n) && (n <=? 57))%N then Some (n - 48)%N else None.

Fixpoint number (s : string) (acc : N) : option N :=
  match s with
  | EmptyString => Some acc
  | String c s' =>
      match digit c with
      | Some d => number s' (10 * acc + d)%N
      | None => None
      end
  end.

(** The value of a key that is an array index: a canonical decimal numeral
    below [2^32 - 1]. *)
Definition array_index (k : string) : option N :=
  match k with
  | EmptyString => None
  | String c _ =>
      match number k 0 with
      | Some n =>
          let canonical := match digit c with
                           | Some 0%N => String.eqb k "0"
                           | _ => true
                           end in
          if canonical && (n <? 4294967295)%N then Some n else None
      | None => None
      end
  end.

Fixpoint insert_index (k : N * string) (l : list (N * string)) : list (N * string) :=
  match l with
  | [] => [k]
  | x :: l' => if (k.1 <=? x.1)%N then k :: l else x :: insert_index k l'
  end.

(** Own keys of an object whose properties were created in the order
    [names]: array indices in ascending order, then the other keys in the
    order of their creation. *)
Definition own_keys (names : list string) : list string :=
  (foldr insert_index [] (omap (λ k, (λ n, (n, k)) <$> array_index k) names)).*2
  ++ filter (λ k, array_index k = None) names.

(** *** The graph *)

Record Node := { dependencies : list string; dependents : list string }.

(** The graph object: its own entries, and their names in the order of
    creation. An instance named ['__proto__'] would replace the prototype
    of the object instead of adding an entry; this is not modelled. *)
Record Graph := { keys : list string; nodes : gmap string Node }.

Inductive Lookup :=
| Own (node : Node)
| Inherited
| Undefined.

(** [graph[name]]. *)
Definition get (graph : Graph) (name : string) : Lookup :=
  match nodes graph !! name with
  | Some node => Own node
  | None => if bool_decide (name ∈ inherited) then Inherited else Undefined
  end.

(** [Object.keys(graph)]. *)
Definition Object_keys (graph : Graph) : list string := own_keys (keys graph).

(** [graph[name] = { dependencies, dependents: [] }]. *)
Definition add_entry (graph : Graph) (entry : string * list string) : Graph :=
  {| keys := if bool_decide (entry.1 ∈ keys graph) then keys graph
             else keys graph ++ [entry.1];
     nodes := <[entry.1 := {| dependencies := entry.2; dependents := [] |}]>
                (nodes graph) |}.

(** [if (graph[dep]) { graph[dep].dependents.push(name) }]. *)
Definition add_dependent (name dep : string) : M Graph () :=
  λ graph,
    match get graph dep with
    | Own node =>
        (Ok (), {| keys := keys graph;
                   nodes := <[dep := {| dependencies := dependencies node;
                                         dependents := dependents node ++ [name] |}]>
                              (nodes graph) |})
    | Inherited =>
        (Thrown (VErr "TypeError: Cannot read properties of undefined (reading 'push')"),
         graph)
    | Undefined => (Ok (), graph)
    end.

(** [getDependencyGraph()]. [instances] lists the entries of
    [this.instances], a [Map], in the order of their insertion: the name
    and [instance.dependencies || []]. *)
Definition getDependencyGraph (instances : list (string * list string)) : result Graph :=
  let graph := foldl add_entry {| keys := []; nodes := ∅ |} instances in
  let '(r, graph') :=
    forEach (λ name,
               forEach (add_dependent name)
                 (match nodes graph !! name with
                  | Some data => dependencies data
                  | None => []
                  end))
      (Object_keys graph) graph in
  match r with
  | Ok _ => Ok graph'
  | Thrown e => Thrown e
  | Diverged => Diverged
  end.

(** *** The load order *)

(** The set [visited] and the array [loadOrder] of [getLoadOrder()]. *)
Record Walk := { visited : list string; loadOrder : list string }.

(** The closure [visit] of [getLoadOrder()]. *)
Fixpoint visit (fuel : nat) (graph : Graph) (name : string) : M Walk () :=
  match fuel with
  | O => λ w, (Diverged, w)
  | S fuel' =>
      λ w,
        if bool_decide (name ∈ visited w) then (Ok (), w)
        else
          (match get graph name with
           | Own component =>
               forEach (λ dep, match get graph dep with
                               | Undefined => m_ret ()
                               | _ => visit fuel' graph dep
                               end)
                 (dependencies component)
           | Inherited =>
               m_throw (VErr ("TypeError: Cannot read properties of undefined "
                              +:+ "(reading 'forEach')"))
           | Undefined => m_ret ()
           end ;;;
           act (λ w, {| visited := visited w; loadOrder := loadOrder w ++ [name] |}))%js
            {| visited := visited w ++ [name]; loadOrder := loadOrder w |}
  end.

(** [getLoadOrder()]. The recursion of [visit] is as deep as a chain of
    names not visited before, at most. *)
Definition getLoadOrder (instances : list (string * list string)) : result (list string) :=
  match getDependencyGraph instances with
  | Ok graph =>
      let '(r, w) :=
        forEach (visit (S (length (keys graph))) graph) (Object_keys graph)
          {| visited := []; loadOrder := [] |} in
      match r with
      | Ok _ => Ok (loadOrder w)
      | Thrown e => Thrown e
      | Diverged => Diverged
      end
  | Thrown e => Thrown e
  | Diverged => Diverged
  end.

End DependencyGraph.

(** ** Navigation manager ([components/NavigationManager.js]): menu state,
       scroll throttling and clean-up *)

Module NavigationManager.

Import BaseComponent.

Record NavConfig := {
  stickyOffset : Z;
  mobileBreakpoint : Z;
  smoothScroll : bool;
  autoHighlight : bool
}.

Definition default_NavConfig : NavConfig :=
  {| stickyOffset := 100; mobileBreakpoint := 768; smoothScroll := true;
     autoHighlight := true |}.

(** The [.navbar] element: its [style.transform] and its classes. *)
Record Navbar := { transform : string; navbar_classList : list string }.

Record Fields := {
  nconfig : NavConfig;
  navbar : option Navbar;
  (** classes of the [.hamburger] and [.nav-menu] elements, when found *)
  hamburger : option (list string);
  navMenu : option (list string);
  (** id of the pending animation frame; frame ids are never zero *)
  scrollThrottleId : option nat;
  lastScrollY : Z
}.

Section Methods.

Context {C : Type} `{EqDecision C}.

Abbreviation Sys := (BaseComponent.Sys C Fields).

Variable run : C → option string → list jsval → Sys → option jsval * Sys.

Definition fields (s : Sys) : Fields := ext (comp s.2).

Definition with_fields (f : Fields → Fields) (s : Sys) : Sys :=
  on_comp (λ c, with_ext (f (ext c)) c) s.

Definition set_navbar (n : option Navbar) (x : Fields) : Fields :=
  {| nconfig := nconfig x; navbar := n; hamburger := hamburger x;
     navMenu := navMenu x; scrollThrottleId := scrollThrottleId x;
     lastScrollY := lastScrollY x |}.

Definition set_menu (h m : option (list string)) (x : Fields) : Fields :=
  {| nconfig := nconfig x; navbar := navbar x; hamburger := h;
     navMenu := m; scrollThrottleId := scrollThrottleId x;
     lastScrollY := lastScrollY x |}.

Definition set_throttle (i : option nat) (y : Z) (x : Fields) : Fields :=
  {| nconfig := nconfig x; navbar := navbar x; hamburger := hamburger x;
     navMenu := navMenu x; scrollThrottleId := i; lastScrollY := y |}.

(** The constructor. *)
Definition new (development : bool) (id' : string)
    (initialState : gmap string jsval) (config' : BaseComponent.Config)
    (container' : option BaseComponent.Container) (dependencies' : list string)
    (bus : EventBus.Bus C) (br : Browser) : Sys :=
  let c := BaseComponent.new development id' "NavigationManager" initialState config'
             container' dependencies'
             {| nconfig := default_NavConfig; navbar := None; hamburger := None;
                navMenu := None; scrollThrottleId := None; lastScrollY := 0 |} in
  let s := say DEBUG ("🏗️ Component created: NavigationManager (ID: " +:+ id' +:+ ")")
               (bus, {| comp := c; browser := br; console := [] |}) in
  BaseComponent.setState run
    (<["mobileMenuOpen" := VBool false]>
    (<["currentPage" := VStr "home"]>
    (<["scrolled" := VBool false]>
     {[ "isSticky" := VBool false ]}))) s.

(** [openMobileMenu()] and [closeMobileMenu()]. *)
Definition openMobileMenu (s : Sys) : Sys :=
  let s1 := BaseComponent.setState run {[ "mobileMenuOpen" := VBool true ]} s in
  let s2 := with_fields (λ x, set_menu (classList_add "active" <$> hamburger x)
                                       (classList_add "active" <$> navMenu x) x) s1 in
  let s3 := on_browser (set_body_classList (classList_add "menu-open")) s2 in
  let s4 := on_browser (set_body_overflow "hidden") s3 in
  let s5 := (BaseComponent.emit run "navigation:menu:opened" ∅ s4).2 in
  say DEBUG "📱 Mobile menu opened" s5.

Definition closeMobileMenu (s : Sys) : Sys :=
  let s1 := BaseComponent.setState run {[ "mobileMenuOpen" := VBool false ]} s in
  let s2 := with_fields (λ x, set_menu (classList_remove "active" <$> hamburger x)
                                       (classList_remove "active" <$> navMenu x) x) s1 in
  let s3 := on_browser (set_body_classList (classList_remove "menu-open")) s2 in
  let s4 := on_browser (set_body_overflow EmptyString) s3 in
  let s5 := (BaseComponent.emit run "navigation:menu:closed" ∅ s4).2 in
  say DEBUG "📱 Mobile menu closed" s5.

(** [updateNavbarAppearance()]. *)
Definition updateNavbarAppearance (s : Sys) : Sys :=
  match navbar (fields s) with
  | None => s
  | Some n =>
      with_fields
        (set_navbar
           (Some {| transform := transform n;
                    navbar_classList :=
                      if flag "scrolled" s
                      then classList_add "scrolled" (navbar_classList n)
                      else classList_remove "scrolled" (navbar_classList n) |})) s
  end.

(** [handleMobileNavbarVisibility(direction, scrollY)]; [down] stands for
    [direction === 'down']. *)
Definition handleMobileNavbarVisibility (down : bool) (y : Z) (s : Sys) : Sys :=
  match navbar (fields s) with
  | None => s
  | Some n =>
      let shouldHide := down && bool_decide (200 < y)%Z && negb (flag "mobileMenuOpen" s) in
      with_fields
        (set_navbar
           (Some {| transform := if shouldHide then "translateY(-100%)" else "translateY(0)";
                    navbar_classList := navbar_classList n |})) s
  end.

(** The callback [handleScroll] hands to [requestAnimationFrame]. *)
Definition scrollFrame (s : Sys) : Sys :=
  let currentScrollY := scrollY (browser s.2) in
  let scrolled := bool_decide (stickyOffset (nconfig (fields s)) < currentScrollY)%Z in
  let down := bool_decide (lastScrollY (fields s) < currentScrollY)%Z in
  let changed := match prop (state (comp s.2)) "scrolled" with
                 | VBool b => negb (Bool.eqb b scrolled)
                 | _ => true
                 end in
  let s1 := if changed
            then updateNavbarAppearance
                   (BaseComponent.setState run {[ "scrolled" := VBool scrolled ]} s)
            else s in
  let s2 := if bool_decide (innerWidth (browser s1.2)
                            ≤ mobileBreakpoint (nconfig (fields s1)))%Z
            then handleMobileNavbarVisibility down currentScrollY s1 else s1 in
  let s3 := with_fields (set_throttle None currentScrollY) s2 in
  (BaseComponent.emit run "navigation:scroll"
     (<["scrollY" := VNum currentScrollY]>
     (<["direction" := VStr (if down then "down" else "up")]>
      {[ "scrolled" := VBool scrolled ]})) s3).2.

(** [handleScroll()]: at most one frame is requested at a time. *)
Definition handleScroll (s : Sys) : Sys :=
  match scrollThrottleId (fields s) with
  | Some _ => s
  | None =>
      let i := next_frame (browser s.2) in
      with_fields (λ x, set_throttle (Some i) (lastScrollY x) x)
        (on_browser (set_animationFrames (λ l, l ++ [i]) 1) s)
  end.

(** The browser runs the frame callback with id [i], if still pending. *)
Definition animationFrame (i : nat) (s : Sys) : Sys :=
  if bool_decide (i ∈ animationFrames (browser s.2))
  then scrollFrame (on_browser (set_animationFrames (filter (λ j, j ≠ i)) 0) s)
  else s.

(** [onDestroy()]. *)
Definition onDestroy : M Sys () :=
  (when (flag "mobileMenuOpen") (act closeMobileMenu) ;;;
   act (λ s, match scrollThrottleId (fields s) with
             | Some i => on_browser (set_animationFrames (filter (λ j, j ≠ i)) 0) s
             | None => s
             end) ;;;
   act (λ s, match navbar (fields s) with
             | Some n =>
                 with_fields
                   (set_navbar
                      (Some {| transform := EmptyString;
                               navbar_classList :=
                                 classList_remove "scrolled" (navbar_classList n) |})) s
             | None => s
             end) ;;;
   act (on_browser (set_body_classList (classList_remove "menu-open"))) ;;;
   act (on_browser (set_body_overflow EmptyString)) ;;;
   act (say INFO "🧹 Navigation Manager cleaned up"))%js.

End Methods.
End NavigationManager.

(** ** [EventBus.waitFor]: promises and timeouts *)

Module WaitFor.

(** Listeners of this page: plain listeners, and the closure [waitFor]
    registers, which clears the timeout and resolves the promise. *)
Inductive callback :=
| Plain (label : string) (throws : bool)
| Resolver (promise timeoutId : nat).

#[global] Instance callback_eq_dec : EqDecision callback.
Proof. solve_decision. Defined.

Inductive PromiseState :=
| Pending
| Fulfilled (value : list jsval)
| Rejected (reason : jsval).

(** The closure [waitFor] hands to [setTimeout]. *)
Record Timeout := {
  delay : Z;
  eventName : string;
  promise : nat;
  listenerId : option string
}.

(** Promises and pending timeouts of the page. *)
Record Loop := {
  promises : gmap nat PromiseState;
  timeouts : gmap nat Timeout;
  next_promise : nat;
  next_timeout : nat
}.

Definition empty_Loop : Loop :=
  {| promises := ∅; timeouts := ∅; next_promise := 0; next_timeout := 1 |}.

Abbreviation Sys := (EventBus.Bus callback * Loop)%type.

(** [resolve] and [reject] settle a promise once. *)
Definition settle (p : nat) (v : PromiseState) (l : Loop) : Loop :=
  match promises l !! p with
  | Some Pending =>
      {| promises := <[p := v]> (promises l); timeouts := timeouts l;
         next_promise := next_promise l; next_timeout := next_timeout l |}
  | _ => l
  end.

Definition clearTimeout (t : nat) (l : Loop) : Loop :=
  {| promises := promises l; timeouts := delete t (timeouts l);
     next_promise := next_promise l; next_timeout := next_timeout l |}.

Definition run (f : callback) (this : option string) (args : list jsval)
    (s : Sys) : option jsval * Sys :=
  match f with
  | Plain _ throws => (if throws then Some (VErr "listener failed") else None, s)
  | Resolver p t => (None, (s.1, settle p (Fulfilled args) (clearTimeout t s.2)))
  end.

Definition emit (eventName : string) (args : list jsval) (s : Sys) : bool * Sys :=
  EventBus.emit run eventName args s.

(** [waitFor(eventName, timeout)]: the new promise. *)
Definition waitFor (eventName' : string) (timeout : Z) (s : Sys) : nat * Sys :=
  let p := next_promise s.2 in
  let timeoutId := next_timeout s.2 in
  let '(listenerId', b) :=
    EventBus.once_ eventName' (Some (Resolver p timeoutId)) EventBus.no_options s.1 in
  (p, (b, {| promises := <[p := Pending]> (promises s.2);
             timeouts := <[timeoutId := {| delay := timeout; eventName := eventName';
                                            promise := p; listenerId := listenerId' |}]>
                           (timeouts s.2);
             next_promise := S p; next_timeout := S timeoutId |})).

(** The timeout with id [t] elapses: its callback runs, unless it was
    cleared. *)
Definition elapse (t : nat) (s : Sys) : Sys :=
  match timeouts s.2 !! t with
  | None => s
  | Some cb =>
      let b := match listenerId cb with
               | Some i => (EventBus.off (eventName cb) (EventBus.ById i) s.1).2
               | None => (EventBus.off (eventName cb) EventBus.Neither s.1).2
               end in
      (b, settle (promise cb)
            (Rejected (VErr ("Timeout waiting for event: " +:+ eventName cb)))
            (clearTimeout t s.2))
  end.

End WaitFor.

(** ** Progressive web app manager ([components/PWAManager.js]): updates
       and clean-up *)

Module PWAManager.

Import BaseComponent.

(** [this.swRegistration]: whether a worker is waiting, and the messages
    posted to it. *)
Record Registration := { waiting : bool; posted : list string }.

(** A banner element: its [style.display], and whether it has a parent. *)
Record Banner := { display : string; attached : bool }.

Record Fields := {
  swRegistration : option Registration;
  (** [this.deferredPrompt] is set *)
  deferredPrompt : bool;
  installBanner : option Banner;
  updateBanner : option Banner;
  (** listeners of ['message'] added to [navigator.serviceWorker] *)
  messageListeners : nat;
  (** [style.display] of the element that matches ['.offline-indicator'],
      when the document has one *)
  offlineIndicator : option string
}.

Section Methods.

Context {C : Type} `{EqDecision C}.

Abbreviation Sys := (BaseComponent.Sys C Fields).

Variable run : C → option string → list jsval → Sys → option jsval * Sys.

Definition fields (s : Sys) : Fields := ext (comp s.2).

Definition with_fields (f : Fields → Fields) (s : Sys) : Sys :=
  on_comp (λ c, with_ext (f (ext c)) c) s.

(** [setupUpdateHandling()]. *)
Definition setupUpdateHandling : M Sys () :=
  λ s,
    if negb (serviceWorker (browser s.2))
    then (Thrown (VErr ("TypeError: Cannot read properties of undefined "
                        +:+ "(reading 'addEventListener')")), s)
    else
      let s1 := with_fields
                  (λ x, {| swRegistration := swRegistration x;
                           deferredPrompt := deferredPrompt x;
                           installBanner := installBanner x;
                           updateBanner := updateBanner x;
                           messageListeners := S (messageListeners x);
                           offlineIndicator := offlineIndicator x |}) s in
      match swRegistration (fields s1) with
      | Some _ =>
          (Ok (), on_browser (set_intervals (λ l, l ++ [(60000%Z, CheckForUpdates)])) s1)
      | None => (Ok (), s1)
      end.

(** [hideUpdateBanner()]. *)
Definition hideUpdateBanner (s : Sys) : Sys :=
  match updateBanner (fields s) with
  | Some b =>
      say INFO "🔄 Update banner hidden"
        (with_fields
           (λ x, {| swRegistration := swRegistration x;
                    deferredPrompt := deferredPrompt x;
                    installBanner := installBanner x;
                    updateBanner := Some {| display := "none"; attached := attached b |};
                    messageListeners := messageListeners x;
                    offlineIndicator := offlineIndicator x |}) s)
  | None => s
  end.

(** [applyUpdate()]. *)
Definition applyUpdate (s : Sys) : Sys :=
  match swRegistration (fields s) with
  | Some r =>
      if negb (flag "swUpdateReady" s) then say WARN "⚠️ No update available" s
      else
        let s1 := say INFO "🔄 Applying service worker update..." s in
        let s2 := if waiting r
                  then with_fields
                         (λ x, {| swRegistration :=
                                    Some {| waiting := waiting r;
                                            posted := posted r ++ ["SKIP_WAITING"] |};
                                  deferredPrompt := deferredPrompt x;
                                  installBanner := installBanner x;
                                  updateBanner := updateBanner x;
                                  messageListeners := messageListeners x;
                                  offlineIndicator := offlineIndicator x |}) s1
                  else s1 in
        let s3 := hideUpdateBanner s2 in
        let s4 := on_browser (set_timers (λ t, t ++ [(1000%Z, ReloadPage)])) s3 in
        (BaseComponent.emit run "pwa:update:applied" ∅ s4).2
  | None => say WARN "⚠️ No update available" s
  end.

(** [hideOfflineIndicator()]. *)
Definition hideOfflineIndicator (s : Sys) : Sys :=
  match offlineIndicator (fields s) with
  | Some _ =>
      with_fields
        (λ x, {| swRegistration := swRegistration x;
                 deferredPrompt := deferredPrompt x;
                 installBanner := installBanner x;
                 updateBanner := updateBanner x;
                 messageListeners := messageListeners x;
                 offlineIndicator := Some "none" |}) s
  | None => s
  end.

(** [parentNode.removeChild(banner)], when the banner has a parent. *)
Definition removeBanner (b : option Banner) : option Banner :=
  match b with
  | Some b' => Some {| display := display b'; attached := false |}
  | None => None
  end.

(** [onDestroy()]. *)
Definition onDestroy : M Sys () :=
  (act (with_fields
          (λ x, {| swRegistration := swRegistration x;
                   deferredPrompt := deferredPrompt x;
                   installBanner := removeBanner (installBanner x);
                   updateBanner := removeBanner (updateBanner x);
                   messageListeners := messageListeners x;
                   offlineIndicator := offlineIndicator x |})) ;;;
   act hideOfflineIndicator ;;;
   act (with_fields
          (λ x, {| swRegistration := swRegistration x;
                   deferredPrompt := false;
                   installBanner := installBanner x;
                   updateBanner := updateBanner x;
                   messageListeners := messageListeners x;
                   offlineIndicator := offlineIndicator x |})) ;;;
   act (say INFO "🧹 PWA Manager cleaned up"))%js.

End Methods.
End PWAManager.

(** ** States of a running theme manager *)

Module Reach.

Import BaseComponent ThemeManager.

(** The states a theme manager goes through on a page: it is constructed
    and initialized on some page with some bus, then its theme is set or
    toggled, and the system preference may change. *)
Inductive Reachable (depth : nat) : ThemeManager.Sys → Prop :=
| reach_init development id' config' bus br budget s :
    ThemeManager.init depth budget
      (ThemeManager.new depth development id' ∅ config' None [] bus br) = (Ok (), s) →
    Reachable depth s
| reach_setTheme theme s :
    Reachable depth s →
    Reachable depth (setTheme (run depth) theme s).2
| reach_toggleTheme s :
    Reachable depth s →
    Reachable depth (toggleTheme (run depth) s)
| reach_systemPreference matches s :
    Reachable depth s →
    Reachable depth
      (handleSystemPreferenceChange (run depth)
         [VObj {[ "matches" := VBool matches ]}] s).2.

End Reach.

(** ** Concrete pages used as examples *)

Module Scenario.

Definition clock (n : nat) : Z := (1700000000000 + Z.of_nat n)%Z.
Definition entropy (n : nat) : string := "r" +:+ pretty n.
Definition offline (url : string) : FetchOutcome := NetworkError "Failed to fetch".

(** A bus with a single one-time listener, whose callback throws. *)
Definition flaky_bus : EventBus.Bus WaitFor.callback * WaitFor.Loop :=
  ((EventBus.once_ "ready" (Some (WaitFor.Plain "boot" true)) EventBus.no_options
      (EventBus.new_EventBus false clock entropy)).2,
   WaitFor.empty_Loop).

(** The same bus after ['ready'] was emitted [n] times. *)
Definition flaky_bus_after (n : nat) : EventBus.Bus WaitFor.callback * WaitFor.Loop :=
  Nat.iter n (λ s, (WaitFor.emit "ready" [] s).2) flaky_bus.

(** A theme manager initialized on a page whose visitor chose 'dark'
    before and whose system prefers dark. *)
Definition dark_manager : ThemeManager.Sys :=
  (ThemeManager.init 3 3
     (ThemeManager.new 3 false "theme" ∅ (BaseComponent.default_Config false) None []
        (EventBus.new_EventBus false clock entropy)
        (blank_page {[ "codenexlify-theme" := "dark" ]} (Some true) offline))).2.

(** A theme manager initialized on a first visit: nothing is stored. *)
Definition first_visit : ThemeManager.Sys :=
  (ThemeManager.init 3 3
     (ThemeManager.new 3 false "theme" ∅ (BaseComponent.default_Config false) None []
        (EventBus.new_EventBus false clock entropy)
        (blank_page ∅ (Some false) offline))).2.

(** The first-visit manager on a page reloaded with the storage that
    [setTheme('light')] leaves on the page of [dark_manager]. *)
Definition returning : ThemeManager.Sys :=
  BaseComponent.on_browser
    (set_localStorage
       (λ _, localStorage
               (BaseComponent.browser
                  (ThemeManager.setTheme (ThemeManager.run 3) (VStr "light")
                     dark_manager).2.2)))
    first_visit.

(** A page in a context that refuses every access to storage. *)
Definition private_page : Browser :=
  set_localStorage
    (λ st, {| items := items st; denied := true; full := full st;
              touched := touched st |})
    (blank_page ∅ (Some false) offline).

(** A component class whose constructor needs something of the page that
    its first call only prepares: the first [new] throws, later ones
    succeed. *)
Definition late_class : ComponentRegistry.Class bool :=
  {| ComponentRegistry.construct :=
       λ _ _ (prepared : bool),
         if prepared then (None, true)
         else (Some (VErr "container not found"), true);
     ComponentRegistry.cleanup := None |}.

Definition late_registry : ComponentRegistry.Registry bool * bool :=
  (ComponentRegistry.register "widget" late_class VUndef (clock 0)
     (ComponentRegistry.new_ComponentRegistry false), false).

(** A page without listeners: no callback does anything. *)
Definition inert {X : Type} (c : unit) (this : option string) (args : list jsval)
    (s : BaseComponent.Sys unit X) : option jsval * BaseComponent.Sys unit X :=
  (None, s).

(** A plain component that depends on a global the page does not
    define. *)
Definition needs_gtag : BaseComponent.Sys unit unit :=
  (EventBus.new_EventBus false clock entropy,
   {| BaseComponent.comp :=
        BaseComponent.new false "widget" "Widget" ∅ (BaseComponent.default_Config false)
          None ["gtag"] tt;
      BaseComponent.browser := blank_page ∅ None offline;
      BaseComponent.console := [] |}).

(** A page that holds one element, the node 0. *)
Definition framed_page : Browser := set_nodes (λ p, p) 1 (blank_page ∅ None offline).

(** A plain component with that element as its container and nothing it
    depends on. *)
Definition widget : BaseComponent.Sys unit unit :=
  (EventBus.new_EventBus false clock entropy,
   {| BaseComponent.comp :=
        BaseComponent.new false "widget" "Widget" ∅ (BaseComponent.default_Config false)
          (Some (BaseComponent.ContainerElement 0)) [] tt;
      BaseComponent.browser := framed_page;
      BaseComponent.console := [] |}).

(** A plain component without a container, on a page whose parser
    rejects the selector 'div['. *)
Definition strict_widget : BaseComponent.Sys unit unit :=
  (EventBus.new_EventBus false clock entropy,
   {| BaseComponent.comp :=
        BaseComponent.new false "widget" "Widget" ∅ (BaseComponent.default_Config false)
          None [] tt;
      BaseComponent.browser :=
        set_querySelector
          (λ selector, if String.eqb selector "div[" then Malformed else Matched None)
          framed_page;
      BaseComponent.console := [] |}).

(** The methods of a subclass whose clean-up fails. *)
Definition failing_cleanup : BaseComponent.Methods unit unit :=
  {| BaseComponent.onInit := m_ret ();
     BaseComponent.setupEventListeners := m_ret ();
     BaseComponent.createElement := BaseComponent.base_createElement;
     BaseComponent.onMount := m_ret ();
     BaseComponent.setupDOMEventListeners := m_ret ();
     BaseComponent.onUpdate := λ _, m_ret ();
     BaseComponent.render := BaseComponent.base_createElement;
     BaseComponent.onDestroy := m_throw (VErr "cleanup failed") |}.

(** The widget after [init()], which mounts it. *)
Definition mounted_widget : BaseComponent.Sys unit unit :=
  (BaseComponent.init inert failing_cleanup 3 widget).2.

(** An internationalization manager on a page without network. *)
Definition i18n : BaseComponent.Sys unit I18nManager.Fields :=
  I18nManager.new inert false "i18n" ∅ (BaseComponent.default_Config false) None []
    (EventBus.new_EventBus false clock entropy) (blank_page ∅ None offline).

(** The same manager on a page that refuses every access to storage. *)
Definition private_i18n : BaseComponent.Sys unit I18nManager.Fields :=
  I18nManager.new inert false "i18n" ∅ (BaseComponent.default_Config false) None []
    (EventBus.new_EventBus false clock entropy) private_page.

(** An internationalization manager constructed with state tracking
    switched off: the [setState] of its constructor does nothing, its
    state has no set of loaded languages. *)
Definition untracked_i18n : BaseComponent.Sys unit I18nManager.Fields :=
  I18nManager.new inert false "i18n" ∅
    {| BaseComponent.autoMount := true; BaseComponent.enableEvents := true;
       BaseComponent.enableStateTracking := false;
       BaseComponent.debugMode := false |}
    None [] (EventBus.new_EventBus false clock entropy) (blank_page ∅ None offline).

(** The application core, with empty storage. *)
Definition app : App.Sys :=
  (App.new_App false true,
   {| items := ∅; denied := false; full := false; touched := [] |}).

(** A page on which [waitFor('ready')] was called with the default
    timeout. *)
Definition waiting : EventBus.Bus WaitFor.callback * WaitFor.Loop :=
  (WaitFor.waitFor "ready" 5000
     (EventBus.new_EventBus false clock entropy, WaitFor.empty_Loop)).2.

(** A navigation manager as its constructor leaves it. *)
Definition navigation : BaseComponent.Sys unit NavigationManager.Fields :=
  NavigationManager.new inert false "nav" ∅ (BaseComponent.default_Config false) None []
    (EventBus.new_EventBus false clock entropy) (blank_page ∅ None offline).

(** A navigation manager after a scroll event: a frame is pending. *)
Definition scrolling : BaseComponent.Sys unit NavigationManager.Fields :=
  NavigationManager.handleScroll
    (NavigationManager.new inert false "nav" ∅ (BaseComponent.default_Config false) None []
       (EventBus.new_EventBus false clock entropy) (blank_page ∅ None offline)).

(** A bus with two listeners of ['tick'] that return normally: a
    permanent one of priority 1 and a one-time one of priority 5. *)
Definition ticking : EventBus.Bus WaitFor.callback * WaitFor.Loop :=
  ((EventBus.on "tick" (Some (WaitFor.Plain "late" false))
      {| EventBus.opt_once := true; EventBus.opt_priority := 5;
         EventBus.opt_context := None |}
      (EventBus.on "tick" (Some (WaitFor.Plain "early" false))
         {| EventBus.opt_once := false; EventBus.opt_priority := 1;
            EventBus.opt_context := None |}
         (EventBus.new_EventBus false clock entropy)).2).2,
   WaitFor.empty_Loop).

(** A bus on which the first listener of ['tick'] throws and the second
    returns normally. *)
Definition faulty : EventBus.Bus WaitFor.callback * WaitFor.Loop :=
  ((EventBus.on "tick" (Some (WaitFor.Plain "broken" true))
      {| EventBus.opt_once := false; EventBus.opt_priority := 5;
         EventBus.opt_context := None |}
      (EventBus.on "tick" (Some (WaitFor.Plain "sound" false))
         {| EventBus.opt_once := false; EventBus.opt_priority := 1;
            EventBus.opt_context := None |}
         (EventBus.new_EventBus false clock entropy)).2).2,
   WaitFor.empty_Loop).

(** The widget with state tracking switched off. *)
Definition untracked_widget : BaseComponent.Sys unit unit :=
  (EventBus.new_EventBus false clock entropy,
   {| BaseComponent.comp :=
        BaseComponent.new false "widget" "Widget" ∅
          {| BaseComponent.autoMount := true; BaseComponent.enableEvents := true;
             BaseComponent.enableStateTracking := false;
             BaseComponent.debugMode := false |}
          (Some (BaseComponent.ContainerElement 0)) [] tt;
      BaseComponent.browser := framed_page;
      BaseComponent.console := [] |}).

(** The instances of a page: the application depends on the navigation,
    the theme manager and an analytics component that was not created;
    navigation and internationalization depend on the theme manager. *)
Definition site : list (string * list string) :=
  [("app", ["navigation"; "theme"; "analytics"]);
   ("navigation", ["theme"]);
   ("theme", []);
   ("i18n", ["theme"])].

(** The layer of a component of the page: a component depends on lower
    layers only. *)
Definition layer (name : string) : nat :=
  if String.eqb name "app" then 2
  else if String.eqb name "theme" then 0
  else 1.

(** A component that names the method [toString] as a dependency. *)
Definition printer : list (string * list string) :=
  [("printer", ["toString"])].

End Scenario.

(** ** Predicates used to state the properties *)

Module Spec.
Section Bus.
Context {C : Type}.

(** Non-increasing priority along a listener list. *)
Definition by_priority (l : list (EventBus.Listener C)) : Prop :=
  StronglySorted (λ a b, (EventBus.priority b ≤ EventBus.priority a)%Z) l.

(** Every listener list of the bus is sorted. *)
Definition bus_sorted (b : EventBus.Bus C) : Prop :=
  ∀ ev ls, EventBus.events b !! ev = Some ls → by_priority ls.

(** All listeners registered for [ev] have a callback in [good]. *)
Definition good_on (good : C → Prop) (b : EventBus.Bus C) (ev : string) : Prop :=
  ∀ ls, EventBus.events b !! ev = Some ls →
        Forall (λ l, good (EventBus.callback l)) ls.

Definition keeps_good (good : C → Prop) (b b' : EventBus.Bus C) : Prop :=
  ∀ ev, good_on good b ev → good_on good b' ev.

(** The id that the next [on] gives its listener is not the id of a
    listener of the event. Ids are made of the clock and a random number:
    nothing else keeps two listeners from sharing one, and [off] by id
    removes the first listener with the id. *)
Definition fresh_id (ev : string) (b : EventBus.Bus C) : Prop :=
  Forall (λ l, EventBus.id l ≠ EventBus.generateListenerId b)
         (default [] (EventBus.events b !! ev)).

(** The callbacks leave the listener lists of the bus alone. The loop of
    [emit] runs over the array of listeners itself: a callback that adds
    or removes a listener of the event changes the loop that called it.
    What is said of an operation that emits is said for callbacks that do
    not. *)
Definition lists_kept {W : Type}
    (run : C → option string → list jsval → EventBus.Bus C * W
           → option jsval * (EventBus.Bus C * W)) : Prop :=
  ∀ c ctx a s, EventBus.events (run c ctx a s).2.1 = EventBus.events s.1.

End Bus.

(** Between [st] and [st'], storage was accessed under the keys [keys]
    only. *)
Definition only_keys (keys : list string) (st st' : Storage) : Prop :=
  ∃ ks, touched st' = touched st ++ ks ∧ Forall (λ k, k ∈ keys) ks.

(** The pending work of the page is what it was: its timers, its
    intervals and its animation frames. *)
Definition same_schedule (br br' : Browser) : Prop :=
  timers br' = timers br ∧ intervals br' = intervals br ∧
  animationFrames br' = animationFrames br.

Section Outcome.
Context {Σ : Type}.

(** [m] relates every state to the state it leaves, whatever its
    outcome. *)
Definition keeps {A} (R : Σ → Σ → Prop) (m : M Σ A) : Prop := ∀ s, R s (m s).2.

(** From [P], [m] returns normally and establishes [Q]. *)
Definition returns {A} (P : Σ → Prop) (m : M Σ A) (Q : Σ → Prop) : Prop :=
  ∀ s, P s → is_ok (m s).1 = true ∧ Q (m s).2.

(** From [P], [m] establishes [Q] whenever it returns normally. *)
Definition yields {A} (P : Σ → Prop) (m : M Σ A) (Q : Σ → Prop) : Prop :=
  ∀ s, P s → is_ok (m s).1 = true → Q (m s).2.

(** From [P], [m] returns normally and establishes [Q], or throws a value
    in [E]. *)
Definition passes {A} (E : jsval → Prop) (P : Σ → Prop) (m : M Σ A) (Q : Σ → Prop)
    : Prop :=
  ∀ s, P s → (is_ok (m s).1 = true ∧ Q (m s).2) ∨ (∃ e, (m s).1 = Thrown e ∧ E e).

(** From [P], [m] never returns: the computation does not end. *)
Definition diverges {A} (P : Σ → Prop) (m : M Σ A) : Prop :=
  ∀ s, P s → (m s).1 = Diverged.

End Outcome.

Section Lifecycle.
Import BaseComponent.
Context {C X : Type}.

(** [lifecycle w w']: what subclass methods, hooks and listeners are
    taken to leave alone for the lifecycle of a component: its
    configuration, children, dependencies and the three lifecycle
    flags. *)
Definition lifecycle (w w' : World C X) : Prop :=
  config (comp w') = config (comp w) ∧
  children (comp w') = children (comp w) ∧
  dependencies (comp w') = dependencies (comp w) ∧
  prop (state (comp w')) "initialized" = prop (state (comp w)) "initialized" ∧
  prop (state (comp w')) "mounted" = prop (state (comp w)) "mounted" ∧
  prop (state (comp w')) "destroyed" = prop (state (comp w)) "destroyed".

Definition lifecycle_step (s s' : Sys C X) : Prop := lifecycle s.2 s'.2.

(** The overridable methods leave the lifecycle alone. *)
Definition lifecycle_methods (m : Methods C X) : Prop :=
  keeps lifecycle_step (onInit m) ∧
  keeps lifecycle_step (setupEventListeners m) ∧
  keeps lifecycle_step (createElement m) ∧
  keeps lifecycle_step (onMount m) ∧
  keeps lifecycle_step (setupDOMEventListeners m) ∧
  keeps lifecycle_step (onDestroy m).

(** The methods [init] and [mount] call return normally. *)
Definition methods_return (m : Methods C X) : Prop :=
  (∀ s, (onInit m s).1 = Ok ()) ∧
  (∀ s, (setupEventListeners m s).1 = Ok ()) ∧
  (∀ s, (createElement m s).1 = Ok ()) ∧
  (∀ s, (onMount m s).1 = Ok ()) ∧
  (∀ s, (setupDOMEventListeners m s).1 = Ok ()).

(** Component configuration and lifecycle flags of a state. *)
Definition tracking (s : Sys C X) : Prop := cfg enableStateTracking s = true.

Definition initialized (s : Sys C X) : Prop := flag "initialized" s = true.

Definition mounted (s : Sys C X) : Prop := flag "mounted" s = true.

(** The component depends on nothing. *)
Definition independent (s : Sys C X) : Prop := dependencies (comp s.2) = [].

(** A container is given to [mount(container)] or held by the
    component. *)
Definition contained (k : option Container) (s : Sys C X) : Prop :=
  is_Some k ∨ is_Some (container (comp s.2)).

(** The [destroy] methods of the children return normally. *)
Definition quiet_children
    (run : C → option string → list jsval → Sys C X → option jsval * Sys C X)
    (cs : list (string * option C)) : Prop :=
  ∀ i d, (i, Some d) ∈ cs → ∀ ctx a s, (run d ctx a s).1 = None.

(** [frozen w w']: what keeps [init] and [mount] calling each other:
    the configuration, the container, the dependencies and the two flags
    they test. *)
Definition frozen (w w' : World C X) : Prop :=
  config (comp w') = config (comp w) ∧
  container (comp w') = container (comp w) ∧
  dependencies (comp w') = dependencies (comp w) ∧
  prop (state (comp w')) "initialized" = prop (state (comp w)) "initialized" ∧
  prop (state (comp w')) "mounted" = prop (state (comp w)) "mounted".

Definition frozen_step (s s' : Sys C X) : Prop := frozen s.2 s'.2.

(** A component that cannot record its own initialization: state
    tracking is off, and [init] mounts automatically. *)
Definition untracked (s : Sys C X) : Prop :=
  cfg enableStateTracking s = false ∧
  cfg autoMount s = true ∧
  is_Some (container (comp s.2)) ∧
  dependencies (comp s.2) = [] ∧
  flag "initialized" s = false ∧
  flag "mounted" s = false.

(** [observed w w']: the component and the page are what they were, only
    the console may differ: what listeners that only observe leave. *)
Definition observed (w w' : World C X) : Prop :=
  comp w' = comp w ∧ browser w' = browser w.

(** The errors of the document in the [appendChild] step of [mount()]:
    the selector is rejected, or the container is inside the element. *)
Definition dom_error (e : jsval) : Prop :=
  (∃ selector,
     e = VErr ("SyntaxError: '" +:+ selector +:+ "' is not a valid selector")) ∨
  e = VErr "HierarchyRequestError: The new child element contains the parent.".

(** The three lifecycle flags are what they were. *)
Definition same_flags (s s' : Sys C X) : Prop :=
  prop (state (comp s'.2)) "destroyed" = prop (state (comp s.2)) "destroyed" ∧
  prop (state (comp s'.2)) "mounted" = prop (state (comp s.2)) "mounted" ∧
  prop (state (comp s'.2)) "initialized" = prop (state (comp s.2)) "initialized".

(** The flags [destroy()] leaves. *)
Definition destroyed (s : Sys C X) : Prop :=
  prop (state (comp s.2)) "destroyed" = VBool true ∧
  prop (state (comp s.2)) "mounted" = VBool false ∧
  prop (state (comp s.2)) "initialized" = VBool false.

End Lifecycle.

Section Theme.
Import BaseComponent ThemeManager.

(** Listeners that only observe: listeners of other code, and the theme
    manager's own [handleStateChange]. *)
Definition passive (c : callback) : Prop :=
  match c with
  | External _ _ | HandleStateChange => True
  | _ => False
  end.

(** The events emitted while a theme is set. *)
Definition theme_events : list string :=
  ["state:changed"; "theme:changed"; "announce"; "error"].

Definition passive_bus (b : EventBus.Bus callback) : Prop :=
  ∀ ev, ev ∈ theme_events → good_on passive b ev.

(** The configuration of the manager and the availability of storage. *)
Definition static (w : World) :=
  (config (comp w), id (comp w), tconfig (ext (comp w)),
   denied (localStorage (browser w)), full (localStorage (browser w))).

(** The stored value is the current theme. *)
Definition saved (w : World) : Prop :=
  items (localStorage (browser w)) !! storageKey (tconfig (ext (comp w)))
  = Some (js_to_string (prop (state (comp w)) "currentTheme")).

(** [observes w w']: what a passive listener leaves unchanged. *)
Definition observes (w w' : World) : Prop :=
  static w' = static w ∧
  state (comp w') = state (comp w) ∧
  data_theme (browser w') = data_theme (browser w) ∧
  (saved w → saved w').

(** [steady w w']: the theme choice is kept, other state keys and the
    document may change. *)
Definition steady (w w' : World) : Prop :=
  static w' = static w ∧
  prop (state (comp w')) "currentTheme" = prop (state (comp w)) "currentTheme" ∧
  prop (state (comp w')) "systemPreference" = prop (state (comp w)) "systemPreference" ∧
  (saved w → saved w').

(** Steps between two states of the system with a bus of passive
    listeners. *)
Definition observing (s s' : ThemeManager.Sys) : Prop :=
  passive_bus s.1 → passive_bus s'.1 ∧ observes s.2 s'.2.

Definition steadying (s s' : ThemeManager.Sys) : Prop :=
  passive_bus s.1 → passive_bus s'.1 ∧ steady s.2 s'.2.

(** The effective theme [applyTheme(theme)] computes. *)
Definition effective (theme : jsval) (w : World) : jsval :=
  if is_string theme "auto" then prop (state (comp w)) "systemPreference" else theme.

(** [footprint w w']: between [w] and [w'] the manager's configuration
    is kept, storage was accessed under the manager's key only, and
    pending timers were added but not removed. *)
Definition footprint (w w' : World) : Prop :=
  tconfig (ext (comp w')) = tconfig (ext (comp w)) ∧
  (∃ ks, touched (localStorage (browser w')) = touched (localStorage (browser w)) ++ ks ∧
         Forall (λ k, k = storageKey (tconfig (ext (comp w)))) ks) ∧
  (∃ ts, timers (browser w') = timers (browser w) ++ ts).

(** [handleStateChange] is registered for ['state:changed']. *)
Definition handler_registered (b : EventBus.Bus callback) : Prop :=
  ∃ ls l, EventBus.events b !! "state:changed" = Some ls ∧ l ∈ ls ∧
          EventBus.callback l = HandleStateChange.

End Theme.

Section I18n.
Import BaseComponent I18nManager.
Context {C : Type}.

(** [i18n_quiet w w']: what the listeners of an i18n manager's events are
    taken to leave alone: the manager's fields and configuration, its set
    of loaded languages, storage and the network. *)
Definition i18n_quiet (w w' : BaseComponent.World C I18nManager.Fields) : Prop :=
  ext (comp w') = ext (comp w) ∧
  config (comp w') = config (comp w) ∧
  prop (state (comp w')) "loadedLanguages" = prop (state (comp w)) "loadedLanguages" ∧
  localStorage (browser w') = localStorage (browser w) ∧
  requests (browser w') = requests (browser w) ∧
  network (browser w') = network (browser w).

(** The URL [loadTranslations(language)] requests. *)
Definition translationsUrl (s : BaseComponent.Sys C I18nManager.Fields)
    (language : string) : string :=
  translationsPath (iconfig (ext (comp s.2))) +:+ "/" +:+ language +:+ ".json".

(** The table [loadTranslations] leaves for a language, by the answer of
    the network. *)
Definition table_after (answer : FetchOutcome) (language : string)
    (before : gmap string (gmap string string)) : gmap string (gmap string string) :=
  match answer with
  | HttpResponse true _ (Some table) => <[language := table]> before
  | _ => if String.eqb language "en"
         then <["en" := list_to_map englishTranslations]> before
         else before
  end.

(** The request failed: no answer with an ok status and a body that
    parses. *)
Definition failed (answer : FetchOutcome) : Prop :=
  ∀ status table, answer ≠ HttpResponse true status (Some table).

(** The built-in table in use for a language after a failed request: the
    English one for 'en', the Turkish one of the fallback language
    otherwise. *)
Definition builtin (language : string) : list (string * string) :=
  if String.eqb language "en" then englishTranslations else defaultTranslations.

End I18n.
Section Waiting.
Import WaitFor.

(** A callback other than the closures that resolve promise [p]. *)
Definition foreign (p : nat) (c : callback) : Prop := ∀ t, c ≠ Resolver p t.

(** No listener of the bus resolves promise [p]: the promise is yet to be
    created. *)
Definition fresh_promise (p : nat) (b : EventBus.Bus callback) : Prop :=
  ∀ ev, good_on (foreign p) b ev.

(** [undisturbed p t l l']: promise [p] is in the state it was in, and
    timeout [t] is not pending when it was not. *)
Definition undisturbed (p t : nat) (l l' : Loop) : Prop :=
  promises l' !! p = promises l !! p ∧
  (timeouts l !! t = None → timeouts l' !! t = None).

(** Promise [p] is pending, or was fulfilled with [args] after its
    timeout [t] was cleared. *)
Definition resolved (p t : nat) (args : list jsval) (l : Loop) : Prop :=
  promises l !! p = Some (Fulfilled args) ∧ timeouts l !! t = None.

Definition resolvable (p t : nat) (args : list jsval) (l : Loop) : Prop :=
  promises l !! p = Some Pending ∨ resolved p t args l.

End Waiting.

Section LoadOrder.
Import DependencyGraph.

(** The names of the instances are distinct, as the keys of a [Map] are,
    none is ['__proto__'], and a dependency named like a member of
    [Object.prototype] is the name of an instance. *)
Definition plain (instances : list (string * list string)) : Prop :=
  NoDup (instances.*1) ∧
  ("__proto__" ∉ instances.*1) ∧
  ∀ name deps dep, (name, deps) ∈ instances → dep ∈ deps → dep ∈ inherited →
                   dep ∈ (instances.*1).

(** No instance depends on itself through a chain of instances: along
    every dependency between instances, [rank] decreases. *)
Definition acyclic (rank : string → nat) (instances : list (string * list string)) : Prop :=
  ∀ name deps dep, (name, deps) ∈ instances → dep ∈ deps → dep ∈ (instances.*1) →
                   (rank dep < rank name)%nat.

(** [a] comes before [b] in [order]. *)
Definition before (a b : string) (order : list string) : Prop :=
  ∃ o1 o2, order = o1 ++ b :: o2 ∧ a ∈ o1.

(** The dependencies of [name] in the graph. *)
Definition dependencies_of (graph : Graph) (name : string) : option (list string) :=
  dependencies <$> nodes graph !! name.

(** Two graphs with the same entries, up to the lists of dependents. *)
Definition same_entries (graph graph' : Graph) : Prop :=
  keys graph' = keys graph ∧
  ∀ name, dependencies_of graph' name = dependencies_of graph name.

(** In [order], the dependencies that are entries of the graph come
    before the entries that depend on them. *)
Definition dependencies_first (graph : Graph) (order : list string) : Prop :=
  ∀ name deps dep, dependencies_of graph name = Some deps → dep ∈ deps →
                   is_Some (nodes graph !! dep) → name ∈ order → before dep name order.

(** The state of [getLoadOrder] while the calls of [visit] for the names
    of [stack] are in progress: the visited names are entries of the
    graph, those of [loadOrder], which has each name once, and those of
    [stack]. *)
Definition walk_inv (graph : Graph) (stack : list string) (w : Walk) : Prop :=
  NoDup (loadOrder w) ∧
  (∀ x, x ∈ visited w ↔ x ∈ loadOrder w ∨ x ∈ stack) ∧
  (∀ x, x ∈ stack → x ∉ loadOrder w) ∧
  (∀ x, x ∈ visited w → is_Some (nodes graph !! x)).

(** [loadOrder] has grown at its end. *)
Definition extends (w w' : Walk) : Prop :=
  ∃ added, loadOrder w' = loadOrder w ++ added.

(** [visited] has grown. *)
Definition grows (w w' : Walk) : Prop := visited w ⊆ visited w'.

(** The entries of the graph that were not visited yet. *)
Definition unvisited (graph : Graph) (w : Walk) : gset string :=
  dom (nodes graph) ∖ list_to_set (visited w).

(** No lookup of a dependency in the graph finds an inherited member. *)
Definition closed (graph : Graph) : Prop :=
  ∀ name deps dep, dependencies_of graph name = Some deps → dep ∈ deps →
                   get graph dep ≠ Inherited.

End LoadOrder.

End Spec.

(** * Properties *)

(** ** Event bus: priority order and one-time listeners *)

Section BusFacts.
Context {C W : Type} `{EqDecision C}.
Variable run : C → option string → list jsval
               → EventBus.Bus C * W → option jsval * (EventBus.Bus C * W).

Import EventBus.

Abbreviation Listener := (EventBus.Listener C).
Abbreviation Bus := (EventBus.Bus C).
Abbreviation by_priority := (@Spec.by_priority C).
Abbreviation bus_sorted := (@Spec.bus_sorted C).

Lemma insert_by_priority_elem (x y : Listener) (l : list Listener) :
  y ∈ insert_by_priority x l ↔ y = x ∨ y ∈ l.
Proof.
  induction l as [|z l IH]; simpl.
  - set_solver.
  - destruct (priority z <? priority x)%Z; set_solver.
Qed.

Lemma insert_by_priority_sorted (x : Listener) (l : list Listener) :
  by_priority l → by_priority (insert_by_priority x l).
Proof.
  unfold by_priority. induction 1 as [|z l Hs IH Hall]; simpl.
  - repeat constructor.
  - destruct (priority z <? priority x)%Z eqn:E.
    + apply Z.ltb_lt in E. constructor; [by constructor|].
      constructor; [lia|]. eapply Forall_impl; [exact Hall|]. simpl. lia.
    + apply Z.ltb_ge in E. constructor; [exact IH|].
      apply Forall_forall. intros y Hy.
      apply insert_by_priority_elem in Hy as [->|Hy]; [exact E|].
      by eapply Forall_forall in Hall.
Qed.

Lemma foldl_insert_sorted (l acc : list Listener) :
  by_priority acc → by_priority (foldl (λ acc x, insert_by_priority x acc) acc l).
Proof.
  revert acc. induction l as [|x l IH]; intros acc Hacc; simpl; [done|].
  apply IH. by apply insert_by_priority_sorted.
Qed.

Lemma sort_by_priority_sorted (l : list Listener) : by_priority (sort_by_priority l).
Proof. apply foldl_insert_sorted. constructor. Qed.

Lemma insert_by_priority_perm (x : Listener) (l : list Listener) : insert_by_priority x l ≡ₚ x :: l.
Proof.
  induction l as [|z l IH]; simpl; [done|].
  destruct (priority z <? priority x)%Z; [done|].
  rewrite IH. apply Permutation_swap.
Qed.

Lemma foldl_insert_perm (l acc : list Listener) :
  foldl (λ acc x, insert_by_priority x acc) acc l ≡ₚ (acc ++ l)%list.
Proof.
  revert acc. induction l as [|x l IH]; intros acc; simpl.
  - by rewrite app_nil_r.
  - rewrite IH, insert_by_priority_perm. simpl. apply Permutation_middle.
Qed.

Lemma sort_by_priority_perm (l : list Listener) : sort_by_priority l ≡ₚ l.
Proof. unfold sort_by_priority. by rewrite foldl_insert_perm. Qed.

(** Sorting a sorted list with one listener appended puts the newcomer
    after every listener of the same or a higher priority. *)
Lemma sort_by_priority_sorted_id (l : list Listener) :
  by_priority l → sort_by_priority l = l.
Proof.
  intros Hl.
  assert (G : ∀ acc, by_priority (acc ++ l)%list →
              foldl (λ acc y, insert_by_priority y acc) acc l = (acc ++ l)%list).
  { clear Hl. induction l as [|y l IH]; intros acc Hs; simpl.
    - by rewrite app_nil_r.
    - assert (E : insert_by_priority y acc = (acc ++ [y])%list).
      { clear IH. induction acc as [|a acc IHa]; simpl; [done|].
        simpl in Hs. apply StronglySorted_inv in Hs as [Hs Ha].
        rewrite Forall_app, Forall_cons in Ha. destruct Ha as (_ & Hay & _).
        destruct (priority a <? priority y)%Z eqn:E; [apply Z.ltb_lt in E; lia|].
        by rewrite IHa. }
      rewrite E, IH; rewrite <- app_assoc; done. }
  apply (G []). exact Hl.
Qed.

Lemma bus_log_events l m (b : Bus) : events (bus_log l m b) = events b.
Proof. done. Qed.

Lemma bus_debug_events m (b : Bus) : events (bus_debug m b) = events b.
Proof. unfold bus_debug. by destruct (debugMode b). Qed.

(** [on] leaves every listener list sorted. *)
Lemma on_sorted ev cb opts (b : Bus) :
  bus_sorted b → bus_sorted (on ev cb opts b).2.
Proof.
  intros Hb ev' ls. unfold on. destruct cb as [f|]; simpl.
  - rewrite bus_debug_events. simpl.
    destruct (decide (ev = ev')) as [->|Hne].
    + rewrite lookup_insert_eq. intros [= <-]. apply sort_by_priority_sorted.
    + rewrite lookup_insert_ne by done.
      case_bool_decide; simpl; apply Hb.
  - apply Hb.
Qed.

Lemma remove_first_sorted p (l r : list Listener) :
  remove_first p l = Some r → by_priority l → by_priority r.
Proof.
  revert r. induction l as [|x l IH]; intros r; simpl; [done|].
  destruct (p x).
  - intros [= <-] Hs. by apply StronglySorted_inv in Hs as [Hs _].
  - destruct (remove_first p l) as [r'|] eqn:E; [|done].
    intros [= <-] Hs. apply StronglySorted_inv in Hs as [Hs Hx].
    constructor; [by apply IH|].
    apply Forall_forall. intros y Hy. eapply Forall_forall in Hx; [exact Hx|].
    clear -E Hy. revert r' E Hy. induction l as [|z l IHl]; intros r' E Hy; simpl in *; [done|].
    destruct (p z); [injection E as <-; set_solver|].
    destruct (remove_first p l) as [r''|]; [|done].
    injection E as <-. set_solver.
Qed.

(** [off] leaves every listener list sorted. *)
Lemma off_sorted ev arg (b : Bus) :
  bus_sorted b → bus_sorted (off ev arg b).2.
Proof.
  intros Hb. unfold off. destruct (events b !! ev) as [ls|] eqn:E; [|done].
  assert (Hls := Hb _ _ E).
  assert (G : ∀ p r, remove_first p ls = Some r →
              bus_sorted (set_events <[ev := r]> b)).
  { intros p r Hr ev' ls'. simpl. destruct (decide (ev = ev')) as [->|Hne].
    - rewrite lookup_insert_eq. intros [= <-]. by eapply remove_first_sorted.
    - rewrite lookup_insert_ne by done. apply Hb. }
  destruct arg as [i|f|].
  - destruct (remove_first _ ls) as [r|] eqn:Hr; simpl.
    + intros ev' ls'. rewrite bus_debug_events. by eapply G.
    + done.
  - destruct (remove_first _ ls) as [r|] eqn:Hr; simpl.
    + intros ev' ls'. rewrite bus_debug_events. by eapply G.
    + done.
  - simpl. intros ev' ls'. rewrite bus_debug_events. simpl.
    intros Hl. apply lookup_delete_Some in Hl as [_ Hl]. by eapply Hb.
Qed.

Lemma remove_listeners_sorted rm (l : list Listener) :
  by_priority l → by_priority (remove_listeners rm l).
Proof.
  unfold remove_listeners. revert l. induction rm as [|x rm IH]; intros l Hl; simpl; [done|].
  apply IH. destruct (remove_first _ l) as [r|] eqn:E; simpl; [|done].
  by eapply remove_first_sorted.
Qed.

Lemma bus_sorted_ext (b b' : Bus) :
  events b' = events b → bus_sorted b → bus_sorted b'.
Proof. unfold bus_sorted. intros ->. done. Qed.

Lemma bus_sorted_alter_remove rm ev (b : Bus) :
  bus_sorted b → bus_sorted (set_events (alter (remove_listeners rm) ev) b).
Proof.
  intros Hb ev' ls. simpl. destruct (decide (ev = ev')) as [->|Hne].
  - rewrite lookup_alter_eq. destruct (events b !! ev') as [l|] eqn:E; simpl; [|done].
    intros [= <-]. apply remove_listeners_sorted. by eapply Hb.
  - rewrite lookup_alter_ne by done. apply Hb.
Qed.

Section Emit.
(** Callbacks may re-enter the bus; they are assumed to leave its
    listener lists sorted, as every bus operation does. *)
Hypothesis run_sorted : ∀ c ctx a s,
  bus_sorted s.1 → bus_sorted (run c ctx a s).2.1.

Lemma dispatch_sorted onError ev args ls hasError rm (s : Bus * W) :
  (∀ l e s', bus_sorted s'.1 → bus_sorted (onError l e s').1) →
  bus_sorted s.1 →
  bus_sorted (dispatch run onError ev args ls hasError rm s).2.1.
Proof.
  intros HonError. revert hasError rm s.
  induction ls as [|l ls IH]; intros hasError rm s Hs; simpl; [done|].
  destruct (run _ _ _ _) as [[e|] s'] eqn:E.
  - apply IH. apply HonError. simpl.
    eapply bus_sorted_ext; [|eapply (run_sorted (callback l) (lcontext l) args
                                       (record_call l s.1, s.2)); exact Hs].
    by rewrite E.
  - apply IH.
    pose proof (run_sorted (callback l) (lcontext l) args (record_call l s.1, s.2) Hs) as G.
    by rewrite E in G.
Qed.

Lemma emit_with_sorted onError ev args (s : Bus * W) :
  (∀ l e s', bus_sorted s'.1 → bus_sorted (onError l e s').1) →
  bus_sorted s.1 →
  bus_sorted (emit_with run onError ev args s).2.1.
Proof.
  intros HonError Hs. unfold emit_with.
  destruct (events s.1 !! ev) as [ls|] eqn:E; simpl.
  - destruct (dispatch _ _ _ _ _ _ _ _) as [[hasError rm] s1] eqn:D. simpl.
    apply bus_sorted_alter_remove.
    pose proof (dispatch_sorted onError ev args ls false []
      (bus_debug ("📡 Emitting event: '" +:+ ev +:+ "' to "
                  +:+ pretty (length ls) +:+ " listeners") s.1, s.2) HonError) as G.
    rewrite D in G. apply G. simpl.
    eapply bus_sorted_ext; [apply bus_debug_events|done].
  - eapply bus_sorted_ext; [apply bus_debug_events|done].
Qed.

Lemma emitError_sorted ev e l (s : Bus * W) :
  bus_sorted s.1 → bus_sorted (emitError run ev e l s).1.
Proof.
  intros Hs. unfold emitError. destruct (String.eqb ev "error"); [done|].
  apply emit_with_sorted; [done|]. done.
Qed.

(** [emit] leaves every listener list sorted. *)
Lemma emit_sorted ev args (s : Bus * W) :
  bus_sorted s.1 → bus_sorted (emit run ev args s).2.1.
Proof.
  intros Hs. apply emit_with_sorted; [|done].
  intros l e s' Hs'. by apply emitError_sorted.
Qed.

End Emit.

Section QuietListeners.
(** Listeners that do not touch the bus and return normally. *)
Hypothesis run_bus : ∀ c ctx a s, (run c ctx a s).2.1 = s.1.

Lemma dispatch_quiet onError ev args ls hasError rm (s : Bus * W) :
  (∀ l : Listener, l ∈ ls → ∀ s', (run (callback l) (lcontext l) args s').1 = None) →
  let r := dispatch run onError ev args ls hasError rm s in
  r.1.1 = hasError ∧
  r.1.2 = (rm ++ filter (λ l, once l = true) ls)%list ∧
  events r.2.1 = events s.1 ∧
  invoked r.2.1 = (invoked s.1 ++ (oid <$> ls))%list.
Proof.
  revert rm s. induction ls as [|l ls IH]; intros rm s Hq; simpl.
  - by rewrite !app_nil_r.
  - pose proof (Hq l ltac:(set_solver) (record_call l s.1, s.2)) as Hn.
    pose proof (run_bus (callback l) (lcontext l) args (record_call l s.1, s.2)) as Hb.
    destruct (run _ _ _ _) as [[e|] s'] eqn:E; simpl in Hn, Hb; [done|].
    destruct (IH (if once l then (rm ++ [l])%list else rm) s'
                 ltac:(intros; apply Hq; set_solver)) as (H1 & H2 & H3 & H4).
    split; [done|]. split; [|split].
    + rewrite H2. destruct (once l) eqn:Ho.
      * rewrite filter_cons_True by done. by rewrite <- app_assoc.
      * rewrite filter_cons_False by (rewrite Ho; done). done.
    + rewrite H3, Hb. done.
    + rewrite H4, Hb. simpl. by rewrite <- app_assoc.
Qed.

Lemma remove_first_oid_head (l : Listener) (ls : list Listener) :
  remove_first (λ x, bool_decide (oid x = oid l)) (l :: ls) = Some ls.
Proof. simpl. by rewrite bool_decide_eq_true_2. Qed.

Lemma remove_listeners_filter (ls : list Listener) :
  NoDup (oid <$> ls) →
  remove_listeners (filter (λ l, once l = true) ls) ls
  = filter (λ l, once l = false) ls.
Proof.
  unfold remove_listeners.
  assert (G : ∀ (pre : list Listener),
    Forall (λ l, once l = false) pre →
    NoDup (oid <$> (pre ++ ls)%list) →
    foldl (λ acc l, default acc (remove_first (λ x, bool_decide (oid x = oid l)) acc))
          (pre ++ ls)%list (filter (λ l, once l = true) ls)
    = (pre ++ filter (λ l, once l = false) ls)%list).
  { induction ls as [|l ls IH]; intros pre Hpre Hnd; simpl; [done|].
    destruct (once l) eqn:Ho.
    - rewrite filter_cons_True by done.
      rewrite filter_cons_False by (rewrite Ho; done). simpl.
      assert (R : remove_first (λ x, bool_decide (oid x = oid l)) (pre ++ l :: ls)%list
                  = Some (pre ++ ls)%list).
      { clear IH. induction pre as [|p pre IHp]; simpl.
        - by rewrite bool_decide_eq_true_2.
        - simpl in Hnd. apply NoDup_cons in Hnd as [Hp Hnd].
          rewrite bool_decide_eq_false_2.
          + apply Forall_cons in Hpre as [_ Hpre]. by rewrite IHp.
          + intros Heq. apply Hp. rewrite Heq, fmap_app. set_solver. }
      rewrite R. simpl. apply IH; [done|].
      rewrite fmap_app in Hnd |- *. simpl in Hnd.
      apply NoDup_app in Hnd as (H1 & H2 & H3). apply NoDup_cons in H3 as [H3 H4].
      apply NoDup_app. split; [done|]. split; [|done]. set_solver.
    - rewrite filter_cons_False by (rewrite Ho; done).
      rewrite filter_cons_True by done.
      specialize (IH (pre ++ [l])%list). rewrite <- !app_assoc in IH. simpl in IH.
      apply IH; [|done]. apply Forall_app. split; [done|]. by constructor. }
  intros Hnd. apply (G [] ltac:(constructor) Hnd).
Qed.

(** When no listener throws, one [emit] calls the registered listeners in
    list order, and afterwards exactly the one-time listeners are gone. *)
Lemma emit_quiet ev args ls (s : Bus * W) :
  events s.1 !! ev = Some ls →
  NoDup (oid <$> ls) →
  (∀ l : Listener, l ∈ ls → ∀ s', (run (callback l) (lcontext l) args s').1 = None) →
  let r := emit run ev args s in
  r.1 = true ∧
  events r.2.1 = <[ev := filter (λ l, once l = false) ls]> (events s.1) ∧
  invoked r.2.1 = (invoked s.1 ++ (oid <$> ls))%list.
Proof.
  intros Hev Hnd Hq. unfold emit, emit_with. rewrite Hev.
  pose proof (dispatch_quiet (λ listener error, emitError run ev error listener)
    ev args ls false []
    (bus_debug ("📡 Emitting event: '" +:+ ev +:+ "' to "
                +:+ pretty (length ls) +:+ " listeners") s.1, s.2) Hq) as G.
  destruct (dispatch _ _ _ _ _ _ _ _) as [[hasError rm] s1].
  simpl in G. destruct G as (-> & -> & He & Hi). simpl.
  split; [done|]. split.
  - rewrite He, bus_debug_events.
    apply map_eq. intros k. destruct (decide (ev = k)) as [<-|Hne].
    + rewrite lookup_alter_eq, lookup_insert_eq, Hev. simpl.
      by rewrite remove_listeners_filter.
    + by rewrite lookup_alter_ne, lookup_insert_ne.
  - rewrite Hi. f_equal. unfold bus_debug. by destruct (debugMode s.1).
Qed.

End QuietListeners.

(** *** What one [emit] can change

    [R] relates the rest of the system before and after; it is reflexive
    and transitive. *)
Section EmitRel.
Variable R : W → W → Prop.
Context `{!PreOrder R}.

(** Every callback respects [R], whatever the bus. *)
Section AllCallbacks.
Hypothesis run_rel : ∀ c ctx a b w, R w (run c ctx a (b, w)).2.2.

Lemma dispatch_rel onError ev args ls hasError rm (s : Bus * W) :
  (∀ l e s', R s'.2 (onError l e s').2) →
  R s.2 (dispatch run onError ev args ls hasError rm s).2.2.
Proof.
  intros HonError. revert hasError rm s.
  induction ls as [|l ls IH]; intros hasError rm s; simpl; [done|].
  pose proof (run_rel (callback l) (lcontext l) args (record_call l s.1) s.2) as Hr.
  destruct (run _ _ _ _) as [[e|] s'] eqn:E; simpl in Hr.
  - etrans; [exact Hr|]. etrans; [|apply IH].
    apply (HonError l e (bus_log ERROR _ s'.1, s'.2)).
  - etrans; [exact Hr|]. apply IH.
Qed.

Lemma emit_with_rel onError ev args (s : Bus * W) :
  (∀ l e s', R s'.2 (onError l e s').2) →
  R s.2 (emit_with run onError ev args s).2.2.
Proof.
  intros HonError. unfold emit_with.
  destruct (events s.1 !! ev) as [ls|]; simpl; [|done].
  pose proof (dispatch_rel onError ev args ls false []
    (bus_debug ("📡 Emitting event: '" +:+ ev +:+ "' to "
                +:+ pretty (length ls) +:+ " listeners") s.1, s.2) HonError) as G.
  destruct (dispatch _ _ _ _ _ _ _ _) as [[hasError rm] s1]. exact G.
Qed.

Lemma emitError_rel ev e l (s : Bus * W) : R s.2 (emitError run ev e l s).2.
Proof.
  unfold emitError. destruct (String.eqb ev "error"); [done|].
  apply (emit_with_rel (λ _ _ s', s') "error" _ (advance 1 0 s.1, s.2)). done.
Qed.

(** [emit] respects [R]. *)
Lemma emit_rel ev args (s : Bus * W) : R s.2 (emit run ev args s).2.2.
Proof. apply emit_with_rel. intros l e s'. apply emitError_rel. Qed.

End AllCallbacks.

(** The callbacks in [good] leave the bus alone and respect [R]; the
    listeners of the emitted event and of ['error'] are all [good]. *)
Section GoodCallbacks.
Variable good : C → Prop.
Hypothesis run_good : ∀ c, good c → ∀ ctx a b w,
  (run c ctx a (b, w)).2.1 = b ∧ R w (run c ctx a (b, w)).2.2.

Abbreviation good_on := (Spec.good_on good).
Abbreviation keeps_good := (Spec.keeps_good good).

Lemma keeps_good_refl b : keeps_good b b.
Proof. by intros ev. Qed.

Lemma keeps_good_trans b1 b2 b3 :
  keeps_good b1 b2 → keeps_good b2 b3 → keeps_good b1 b3.
Proof. intros H1 H2 ev Hev. by apply H2, H1. Qed.

Lemma keeps_good_events (b b' : Bus) : events b' = events b → keeps_good b b'.
Proof. intros He ev Hev ls. rewrite He. apply Hev. Qed.

Lemma remove_first_Forall (P : Listener → Prop) p (l r : list Listener) :
  remove_first p l = Some r → Forall P l → Forall P r.
Proof.
  revert r. induction l as [|x l IH]; intros r; simpl; [done|].
  destruct (p x).
  - intros [= <-] Hl. by apply Forall_cons in Hl as [_ Hl].
  - destruct (remove_first p l) as [r'|]; [|done].
    intros [= <-] Hl. apply Forall_cons in Hl as [Hx Hl].
    constructor; [done|]. by apply IH.
Qed.

Lemma remove_listeners_Forall (P : Listener → Prop) rm (l : list Listener) :
  Forall P l → Forall P (remove_listeners rm l).
Proof.
  unfold remove_listeners. revert l.
  induction rm as [|x rm IH]; intros l Hl; simpl; [done|].
  apply IH. destruct (remove_first _ l) as [r|] eqn:E; simpl; [|done].
  by eapply remove_first_Forall.
Qed.

Lemma keeps_good_remove rm ev (b : Bus) :
  keeps_good b (set_events (alter (remove_listeners rm) ev) b).
Proof.
  intros ev' Hev ls. simpl. destruct (decide (ev = ev')) as [->|Hne].
  - rewrite lookup_alter_eq. destruct (events b !! ev') as [l|] eqn:E; simpl; [|done].
    intros [= <-]. apply remove_listeners_Forall. by apply Hev.
  - rewrite lookup_alter_ne by done. apply Hev.
Qed.

Lemma dispatch_good onError ev args ls hasError rm (s : Bus * W) :
  (∀ l e (s' : Bus * W), good_on s'.1 "error" →
     R s'.2 (onError l e s').2 ∧ keeps_good s'.1 (onError l e s').1) →
  Forall (λ l, good (callback l)) ls →
  good_on s.1 "error" →
  let r := dispatch run onError ev args ls hasError rm s in
  R s.2 r.2.2 ∧ keeps_good s.1 r.2.1.
Proof.
  intros HonError. revert hasError rm s.
  induction ls as [|l ls IH]; intros hasError rm s Hls Herr; simpl.
  - split; [done|apply keeps_good_refl].
  - apply Forall_cons in Hls as [Hl Hls].
    destruct (run_good _ Hl (lcontext l) args (record_call l s.1) s.2) as [Hb Hr].
    destruct (run _ _ _ _) as [[e|] s'] eqn:E; simpl in Hb, Hr.
    + assert (K : keeps_good s.1 (bus_log ERROR ("❌ Error in event listener for '"
                                                  +:+ ev +:+ "':") s'.1)).
      { apply keeps_good_events. rewrite Hb. done. }
      destruct (HonError l e (bus_log ERROR ("❌ Error in event listener for '"
                                            +:+ ev +:+ "':") s'.1, s'.2)
                  (K _ Herr)) as [H1 H2].
      destruct (IH true rm _ Hls (H2 _ (K _ Herr))) as [H3 H4].
      split.
      * etrans; [exact Hr|]. etrans; [exact H1|exact H3].
      * eapply keeps_good_trans; [exact K|].
        eapply keeps_good_trans; [exact H2|exact H4].
    + assert (K : keeps_good s.1 s'.1).
      { apply keeps_good_events. rewrite Hb. done. }
      destruct (IH hasError (if once l then rm ++ [l] else rm) s' Hls (K _ Herr))
        as [H3 H4].
      split; [by etrans|]. by eapply keeps_good_trans.
Qed.

Lemma emit_with_good onError ev args (s : Bus * W) :
  (∀ l e (s' : Bus * W), good_on s'.1 "error" →
     R s'.2 (onError l e s').2 ∧ keeps_good s'.1 (onError l e s').1) →
  good_on s.1 ev →
  good_on s.1 "error" →
  let r := emit_with run onError ev args s in
  R s.2 r.2.2 ∧ keeps_good s.1 r.2.1.
Proof.
  intros HonError Hev Herr. unfold emit_with.
  destruct (events s.1 !! ev) as [ls|] eqn:E; simpl.
  - assert (K : keeps_good s.1 (bus_debug ("📡 Emitting event: '" +:+ ev +:+ "' to "
                +:+ pretty (length ls) +:+ " listeners") s.1))
      by apply keeps_good_events, bus_debug_events.
    pose proof (dispatch_good onError ev args ls false []
      (bus_debug ("📡 Emitting event: '" +:+ ev +:+ "' to "
                  +:+ pretty (length ls) +:+ " listeners") s.1, s.2)
      HonError (Hev _ E) (K _ Herr)) as G.
    destruct (dispatch _ _ _ _ _ _ _ _) as [[hasError rm] s1]. simpl in G.
    destruct G as [G1 G2]. split; [exact G1|].
    eapply keeps_good_trans; [exact K|].
    eapply keeps_good_trans; [exact G2|]. apply keeps_good_remove.
  - split; [done|]. apply keeps_good_events, bus_debug_events.
Qed.

Lemma emitError_good ev e l (s : Bus * W) :
  good_on s.1 "error" →
  R s.2 (emitError run ev e l s).2 ∧ keeps_good s.1 (emitError run ev e l s).1.
Proof.
  intros Herr. unfold emitError. destruct (String.eqb ev "error").
  - split; [done|apply keeps_good_refl].
  - apply (emit_with_good (λ _ _ s', s') "error" _ (advance 1 0 s.1, s.2)).
    + intros l' e' s' _. split; [done|apply keeps_good_refl].
    + exact Herr.
    + exact Herr.
Qed.

(** [emit] to good listeners respects [R] and keeps listeners good. *)
Lemma emit_good ev args (s : Bus * W) :
  good_on s.1 ev →
  good_on s.1 "error" →
  R s.2 (emit run ev args s).2.2 ∧ keeps_good s.1 (emit run ev args s).2.1.
Proof.
  intros Hev Herr. apply emit_with_good; [|done|done].
  intros l e s' Hs'. by apply emitError_good.
Qed.

(** If one of the listeners establishes [Post] from [Pre], and both are
    stable under [R], then [emit] establishes [Post] from [Pre]. *)
Lemma dispatch_establishes (Pre Post : W → Prop) onError ev args ls hasError rm
    (s : Bus * W) (l0 : Listener) :
  (∀ w w', R w w' → Pre w → Pre w') →
  (∀ w w', R w w' → Post w → Post w') →
  (∀ ctx b w, Pre w → Post (run (callback l0) ctx args (b, w)).2.2) →
  (∀ l e (s' : Bus * W), good_on s'.1 "error" →
     R s'.2 (onError l e s').2 ∧ keeps_good s'.1 (onError l e s').1) →
  Forall (λ l, good (callback l)) ls →
  good_on s.1 "error" →
  l0 ∈ ls →
  Pre s.2 →
  Post (dispatch run onError ev args ls hasError rm s).2.2.
Proof.
  intros HPre HPost Hl0 HonError. revert hasError rm s.
  induction ls as [|l ls IH]; intros hasError rm s Hls Herr Hin Hpre; simpl.
  - by apply elem_of_nil in Hin.
  - apply Forall_cons in Hls as [Hl Hls].
    destruct (run_good _ Hl (lcontext l) args (record_call l s.1) s.2) as [Hb Hr].
    assert (Hpost : l0 = l → Post (run (callback l) (lcontext l) args
                                       (record_call l s.1, s.2)).2.2).
    { intros <-. by apply Hl0. }
    destruct (run _ _ _ _) as [[e|] s'] eqn:E; simpl in Hb, Hr, Hpost.
    + assert (K : keeps_good s.1 (bus_log ERROR ("❌ Error in event listener for '"
                                                  +:+ ev +:+ "':") s'.1)).
      { apply keeps_good_events. rewrite Hb. done. }
      destruct (HonError l e (bus_log ERROR ("❌ Error in event listener for '"
                                            +:+ ev +:+ "':") s'.1, s'.2)
                  (K _ Herr)) as [H1 H2].
      apply elem_of_cons in Hin as [Heq|Hin].
      * destruct (dispatch_good onError ev args ls true rm
                    (onError l e (bus_log ERROR ("❌ Error in event listener for '"
                                                 +:+ ev +:+ "':") s'.1, s'.2))
                    HonError Hls (H2 _ (K _ Herr))) as [H3 _].
        eapply HPost; [exact H3|]. eapply HPost; [exact H1|]. by apply Hpost.
      * apply IH; [done|by apply H2, K|done|].
        eapply HPre; [exact H1|]. by eapply HPre.
    + assert (K : keeps_good s.1 s'.1).
      { apply keeps_good_events. rewrite Hb. done. }
      apply elem_of_cons in Hin as [Heq|Hin].
      * destruct (dispatch_good onError ev args ls hasError
                    (if once l then rm ++ [l] else rm) s' HonError Hls (K _ Herr))
          as [H3 _].
        eapply HPost; [exact H3|]. by apply Hpost.
      * apply IH; [done|by apply K|done|]. by eapply HPre.
Qed.

Lemma emit_establishes (Pre Post : W → Prop) ev args ls (s : Bus * W) (l0 : Listener) :
  (∀ w w', R w w' → Pre w → Pre w') →
  (∀ w w', R w w' → Post w → Post w') →
  (∀ ctx b w, Pre w → Post (run (callback l0) ctx args (b, w)).2.2) →
  events s.1 !! ev = Some ls →
  l0 ∈ ls →
  good_on s.1 ev →
  good_on s.1 "error" →
  Pre s.2 →
  Post (emit run ev args s).2.2.
Proof.
  intros HPre HPost Hl0 E Hin Hev Herr Hpre. unfold emit, emit_with. rewrite E.
  pose proof (dispatch_establishes Pre Post
    (λ listener error, emitError run ev error listener) ev args ls false []
    (bus_debug ("📡 Emitting event: '" +:+ ev +:+ "' to "
                +:+ pretty (length ls) +:+ " listeners") s.1, s.2) l0
    HPre HPost Hl0) as G.
  destruct (dispatch _ _ _ _ _ _ _ _) as [[hasError rm] s1]. simpl in *.
  apply G; [|by apply Hev| |done|done].
  - intros l e s' Hs'. by apply emitError_good.
  - intros ls'. rewrite bus_debug_events. apply Herr.
Qed.

End GoodCallbacks.
End EmitRel.

End BusFacts.

(** ** The first observations *)

(** C8. A one-time listener whose callback throws is not removed: it
    stays registered and is called again by the next [emit]. The listener
    of [flaky_bus] (object 0) has been called twice after two emits and is
    still registered. *)
Theorem once_listener_called_again_after_throw :
  EventBus.invoked (Scenario.flaky_bus_after 2).1 = [0; 0]%nat ∧
  EventBus.listenerCount "ready" (Scenario.flaky_bus_after 2).1 = 1%nat ∧
  (EventBus.once <$> default [] (EventBus.events (Scenario.flaky_bus_after 2).1 !! "ready"))
  = [true].
Proof. vm_compute. done. Qed.

(** ** Theme manager *)

Section ThemeFacts.

Import BaseComponent ThemeManager.

Implicit Types (s : ThemeManager.Sys) (t : string).

(** C10. [setTheme] with a name that is not in [config.themes] returns
    [false] and leaves the current theme, the stored value and the
    [data-theme] attribute as they were: it only logs a warning. *)
Theorem setTheme_invalid_is_atomic run t s :
  t ∉ themes (theme_config s) →
  (setTheme run (VStr t) s).1 = false ∧
  state (comp (setTheme run (VStr t) s).2.2) = state (comp s.2) ∧
  localStorage (browser (setTheme run (VStr t) s).2.2) = localStorage (browser s.2) ∧
  data_theme (browser (setTheme run (VStr t) s).2.2) = data_theme (browser s.2) ∧
  (setTheme run (VStr t) s).2 = say WARN ("⚠️ Invalid theme: " +:+ t) s.
Proof.
  intros Ht. unfold setTheme. simpl.
  rewrite bool_decide_eq_false_2 by done. simpl. done.
Qed.

Lemma setTheme_invalid_is_atomic_witness :
  ("solarized" ∉ themes (theme_config Scenario.dark_manager)) ∧
  (setTheme (run 3) (VStr "solarized") Scenario.dark_manager).1 = false.
Proof.
  assert (H : "solarized" ∉ themes (theme_config Scenario.dark_manager)).
  { vm_compute. intros H. repeat (apply elem_of_cons in H as [H|H]; [discriminate H|]).
    by apply elem_of_nil in H. }
  split; [exact H|].
  exact (proj1 (setTheme_invalid_is_atomic (run 3) "solarized" Scenario.dark_manager H)).
Defined.

(** C6, as stated, fails: on a page that stores 'dark' and whose system
    prefers dark, the manager is in a reachable state in which
    [toggleTheme()] moves from 'dark' to 'auto' and writes the same
    [data-theme] value again. *)
Lemma toggleTheme_may_keep_attribute :
  Reach.Reachable 3 Scenario.dark_manager ∧
  data_theme (browser Scenario.dark_manager.2) = Some "dark" ∧
  data_theme (browser (toggleTheme (run 3) Scenario.dark_manager).2) = Some "dark" ∧
  prop (state (comp (toggleTheme (run 3) Scenario.dark_manager).2)) "currentTheme"
  = VStr "auto".
Proof.
  split.
  - eapply (Reach.reach_init 3 false "theme" (default_Config false)
              (EventBus.new_EventBus false Scenario.clock Scenario.entropy)
              (blank_page {[ "codenexlify-theme" := "dark" ]} (Some true) Scenario.offline) 3).
    unfold Scenario.dark_manager.
    destruct (ThemeManager.init 3 3 _) as [r s'] eqn:E.
    assert (Hr : r = Ok ()) by (apply (f_equal fst) in E; vm_compute in E; congruence).
    by rewrite Hr.
  - vm_compute. done.
Qed.


End ThemeFacts.

(** ** Theme manager: setting a theme when listeners only observe *)

Section ThemePassive.

Import BaseComponent ThemeManager.

Implicit Types (s : ThemeManager.Sys) (w : ThemeManager.World) (t : string).

Lemma prop_insert_eq (o : gmap string jsval) k v : prop (<[k := v]> o) k = v.
Proof. unfold prop. by rewrite lookup_insert_eq. Qed.

Lemma prop_insert_ne (o : gmap string jsval) k k' v :
  k ≠ k' → prop (<[k := v]> o) k' = prop o k'.
Proof. intros H. unfold prop. by rewrite lookup_insert_ne. Qed.

Lemma prop_union_l (o1 o2 : gmap string jsval) k v :
  o1 !! k = Some v → prop (o1 ∪ o2) k = v.
Proof. intros H. unfold prop. by rewrite (lookup_union_Some_l _ _ _ _ H). Qed.

Lemma prop_union_r (o1 o2 : gmap string jsval) k :
  o1 !! k = None → prop (o1 ∪ o2) k = prop o2 k.
Proof. intros H. unfold prop. by rewrite lookup_union_r. Qed.

#[local] Instance observes_preorder : PreOrder Spec.observes.
Proof.
  split.
  - intros w. by repeat split.
  - intros w1 w2 w3 (A1 & B1 & C1 & D1) (A2 & B2 & C2 & D2).
    repeat split; [congruence..|]. intros H. by apply D2, D1.
Qed.

#[local] Instance steady_preorder : PreOrder Spec.steady.
Proof.
  split.
  - intros w. by repeat split.
  - intros w1 w2 w3 (A1 & B1 & C1 & D1) (A2 & B2 & C2 & D2).
    repeat split; [congruence..|]. intros H. by apply D2, D1.
Qed.

Lemma observes_steady w w' : Spec.observes w w' → Spec.steady w w'.
Proof. intros (A & B & C & D). repeat split; [done|by rewrite B..|done]. Qed.

(** Console output does not matter. *)
Lemma say_observes l m s : Spec.observes s.2 (say l m s).2.
Proof. by repeat split. Qed.

Lemma updateToggleButton_observes s :
  (updateToggleButton s).1 = s.1 ∧ Spec.observes s.2 (updateToggleButton s).2.
Proof.
  unfold updateToggleButton. destruct (toggleButton _); [|by repeat split].
  destruct (flag _ _); by repeat split.
Qed.

Lemma saveTheme_observes s :
  (saveTheme s).2.1 = s.1 ∧ Spec.observes s.2 (saveTheme s).2.2.
Proof.
  unfold saveTheme, try_catch, m_bind, storage_set, setItem, act.
  destruct (denied (localStorage (browser s.2))) eqn:Hd; simpl.
  { split; [done|]. repeat split; simpl; rewrite ?Hd; done. }
  destruct (full (localStorage (browser s.2))) eqn:Hf; simpl.
  { split; [done|]. repeat split; simpl; rewrite ?Hd, ?Hf; done. }
  split; [done|]. split; [|split; [done|split; [done|]]].
  - unfold Spec.static. simpl. by rewrite Hd, Hf.
  - intros _. unfold Spec.saved. simpl. unfold theme_config. by rewrite lookup_insert_eq.
Qed.

(** When storage works, [saveTheme] stores the current theme. *)
Lemma saveTheme_saves s :
  denied (localStorage (browser s.2)) = false →
  full (localStorage (browser s.2)) = false →
  Spec.saved (saveTheme s).2.2.
Proof.
  intros Hd Hf. unfold saveTheme, try_catch, m_bind, storage_set, setItem, act.
  rewrite Hd, Hf. simpl. unfold Spec.saved. simpl. unfold theme_config.
  by rewrite lookup_insert_eq.
Qed.

Lemma handleStateChange_observes args s :
  (handleStateChange args s).2.1 = s.1 ∧
  Spec.observes s.2 (handleStateChange args s).2.2.
Proof.
  unfold handleStateChange.
  destruct (member _ "changes") as [changes| |]; [|by repeat split..].
  destruct (member changes "currentTheme") as [v| |]; [|by repeat split..].
  destruct (truthy v); [|by repeat split].
  destruct (updateToggleButton_observes s) as [H1 H2].
  destruct (saveTheme_observes (updateToggleButton s)) as [H3 H4].
  split; [congruence|]. by etrans.
Qed.

(** A passive listener leaves the bus alone and only observes. *)
Lemma run_passive depth c :
  Spec.passive c → ∀ ctx a b w,
  (run depth c ctx a (b, w)).2.1 = b ∧ Spec.observes w (run depth c ctx a (b, w)).2.2.
Proof.
  intros Hc ctx a b w. destruct depth as [|d]; simpl; [by repeat split|].
  destruct c; simpl in Hc; try done; simpl.
  destruct (handleStateChange_observes a (b, w)) as [H1 H2].
  unfold as_outcome. destruct (handleStateChange _ _) as [[x|e|] s']; simpl in *; done.
Qed.

Lemma passive_bus_keeps (b b' : EventBus.Bus callback) :
  Spec.keeps_good Spec.passive b b' → Spec.passive_bus b → Spec.passive_bus b'.
Proof. intros K Hb ev Hev. by apply K, Hb. Qed.

(** An [emit] of one of the theme events to passive listeners. *)
Lemma emit_passive depth ev args s :
  ev ∈ Spec.theme_events →
  Spec.passive_bus s.1 →
  Spec.passive_bus (EventBus.emit (run depth) ev args s).2.1 ∧
  Spec.observes s.2 (EventBus.emit (run depth) ev args s).2.2.
Proof.
  intros Hev Hb.
  destruct (emit_good (run depth) Spec.observes Spec.passive (run_passive depth)
              ev args s (Hb ev Hev) (Hb "error" ltac:(set_solver))) as [H1 H2].
  split; [by eapply passive_bus_keeps|done].
Qed.

(** [setState] when listeners only observe: the new keys are merged
    into the state and nothing else of the theme changes. *)
Lemma setState_passive depth new s :
  cfg enableStateTracking s = true →
  Spec.passive_bus s.1 →
  Spec.passive_bus (setState (run depth) new s).1 ∧
  Spec.observes (on_comp (with_state (new ∪ state (comp s.2))) s).2
                (setState (run depth) new s).2.
Proof.
  intros Ht Hb. unfold setState, BaseComponent.setState. rewrite Ht. simpl.
  unfold BaseComponent.emit.
  match goal with |- context [EventBus.emit _ _ ?a ?s0] =>
    set (args := a); set (s1 := s0)
  end.
  assert (E1 : s1.1 = s.1) by (subst s1; by destruct (cfg debugMode _)).
  assert (E2 : Spec.observes (on_comp (with_state (new ∪ state (comp s.2))) s).2 s1.2)
    by (subst s1; by destruct (cfg debugMode _)).
  clearbody args s1.
  destruct (emit_passive depth "state:changed" args s1 ltac:(set_solver)) as [H1 H2].
  { by rewrite E1. }
  split; [exact H1|]. by etrans.
Qed.

Lemma setState_disabled run new s :
  cfg enableStateTracking s = false → setState run new s = s.
Proof. intros Ht. unfold setState, BaseComponent.setState. by rewrite Ht. Qed.

(** [setState] with a new current theme has the registered
    [handleStateChange] store it. *)
Lemma setState_saves depth new s :
  cfg enableStateTracking s = true →
  Spec.passive_bus s.1 →
  Spec.handler_registered s.1 →
  denied (localStorage (browser s.2)) = false →
  full (localStorage (browser s.2)) = false →
  truthy (prop new "currentTheme") = true →
  Spec.saved (setState (run (S depth)) new s).2.
Proof.
  intros Ht Hb (ls & l0 & Hls & Hin & Hcb) Hd Hf Hnew.
  unfold setState, BaseComponent.setState. rewrite Ht. simpl.
  unfold BaseComponent.emit.
  match goal with |- context [EventBus.emit _ _ ?a ?s0] =>
    set (args := a); set (s1 := s0)
  end.
  assert (E1 : s1.1 = s.1) by (subst s1; by destruct (cfg debugMode _)).
  assert (Ed : denied (localStorage (browser s1.2)) = false)
    by (subst s1; by destruct (cfg debugMode _)).
  assert (Ef : full (localStorage (browser s1.2)) = false)
    by (subst s1; by destruct (cfg debugMode _)).
  assert (Ha : member (default VUndef (args !! 0%nat)) "changes" = Ok (VObj new)).
  { subst args. simpl. rewrite !prop_insert_ne by done.
    by rewrite prop_insert_eq. }
  clearbody args s1.
  apply (emit_establishes (run (S depth)) Spec.observes Spec.passive
           (run_passive (S depth))
           (λ w, denied (localStorage (browser w)) = false ∧
                 full (localStorage (browser w)) = false)
           Spec.saved "state:changed" args ls s1 l0).
  - intros w w' (A & _) [H1 H2]. unfold Spec.static in A.
    injection A as _ _ _ A1 A2. by rewrite A1, A2.
  - intros w w' (_ & _ & _ & D). exact D.
  - intros ctx b w [H1 H2]. rewrite Hcb. simpl.
    unfold handleStateChange. rewrite Ha. simpl. rewrite Hnew.
    pose proof (saveTheme_saves (updateToggleButton (b, w))) as G.
    destruct (updateToggleButton_observes (b, w)) as [_ (A & _)].
    unfold Spec.static in A. injection A as _ _ _ A1 A2.
    specialize (G ltac:(by rewrite A1) ltac:(by rewrite A2)).
    destruct (saveTheme _) as [[x|e|] s']; exact G.
  - by rewrite E1.
  - exact Hin.
  - rewrite E1. apply Hb. set_solver.
  - rewrite E1. apply Hb. set_solver.
  - done.
Qed.

Lemma observing_refl s : Spec.observing s s.
Proof. intros Hb. split; [done|reflexivity]. Qed.

Lemma observing_trans s1 s2 s3 :
  Spec.observing s1 s2 → Spec.observing s2 s3 → Spec.observing s1 s3.
Proof.
  intros H1 H2 Hb. destruct (H1 Hb) as [A B]. destruct (H2 A) as [A' B'].
  split; [done|by etrans].
Qed.

Lemma steadying_refl s : Spec.steadying s s.
Proof. intros Hb. split; [done|reflexivity]. Qed.

Lemma steadying_trans s1 s2 s3 :
  Spec.steadying s1 s2 → Spec.steadying s2 s3 → Spec.steadying s1 s3.
Proof.
  intros H1 H2 Hb. destruct (H1 Hb) as [A B]. destruct (H2 A) as [A' B'].
  split; [done|by etrans].
Qed.

Lemma observing_steadying s s' : Spec.observing s s' → Spec.steadying s s'.
Proof. intros H Hb. destruct (H Hb). split; [done|by apply observes_steady]. Qed.

Lemma say_obs l m s : Spec.observing s (say l m s).
Proof. intros Hb. split; [done|apply say_observes]. Qed.

Lemma browser_obs (f : Browser → Browser) s :
  (∀ br, localStorage (f br) = localStorage br ∧ data_theme (f br) = data_theme br) →
  Spec.observing s (on_browser f s).
Proof.
  intros Hf Hb. split; [done|]. destruct (Hf (browser s.2)) as [H1 H2].
  unfold Spec.observes, Spec.static, Spec.saved. simpl. rewrite H1, H2. done.
Qed.

Lemma toggle_obs s : Spec.observing s (updateToggleButton s).
Proof.
  intros Hb. destruct (updateToggleButton_observes s) as [H1 H2].
  split; [by rewrite H1|done].
Qed.

Lemma emit_obs depth ev args s :
  ev ∈ Spec.theme_events → Spec.observing s (EventBus.emit (run depth) ev args s).2.
Proof. intros Hev Hb. by apply emit_passive. Qed.

Lemma component_emit_obs depth ev data s :
  ev ∈ Spec.theme_events →
  Spec.observing s (BaseComponent.emit (run depth) ev data s).2.
Proof. intros Hev. unfold BaseComponent.emit. by apply emit_obs. Qed.

Lemma setState_steady depth new s :
  new !! "currentTheme" = None →
  new !! "systemPreference" = None →
  Spec.steadying s (setState (run depth) new s).
Proof.
  intros N1 N2 Hb. destruct (cfg enableStateTracking s) eqn:Ht.
  - destruct (setState_passive depth new s Ht Hb) as [H1 H2].
    split; [done|]. etrans; [|apply observes_steady, H2].
    unfold Spec.steady, Spec.static, Spec.saved. simpl.
    rewrite !prop_union_r by done. done.
  - rewrite setState_disabled by done. by apply steadying_refl.
Qed.

Lemma data_theme_steady v s : Spec.steadying s (on_browser (set_data_theme v) s).
Proof. intros Hb. split; [done|]. by repeat split. Qed.

(** Membership in the list of theme events. *)
Ltac theme_event :=
  unfold Spec.theme_events;
  repeat first [apply list_elem_of_here | apply list_elem_of_further].

(** Peel the last step of a chain of operations off the goal. *)
Ltac peel_step :=
  lazymatch goal with
  | |- Spec.observing _ (say _ _ _) =>
      eapply observing_trans; [|apply say_obs]
  | |- Spec.observing _ (updateToggleButton _) =>
      eapply observing_trans; [|apply toggle_obs]
  | |- Spec.observing _ (updateMetaThemeColor _ _) =>
      unfold updateMetaThemeColor
  | |- Spec.observing _ (snd (BaseComponent.emit _ _ _ _)) =>
      eapply observing_trans; [|apply component_emit_obs; theme_event]
  | |- Spec.observing _ (snd (EventBus.emit _ _ _ _)) =>
      eapply observing_trans; [|apply emit_obs; theme_event]
  | |- Spec.observing _ (on_browser _ _) =>
      eapply observing_trans; [|apply browser_obs; intros br; by split]
  end.

(** [applyTheme] with passive listeners: the theme choice is kept and
    the attribute is set to the effective theme. *)
Lemma applyTheme_passive depth theme s :
  Spec.passive_bus s.1 →
  Spec.passive_bus (applyTheme (run depth) theme s).1 ∧
  Spec.steady s.2 (applyTheme (run depth) theme s).2 ∧
  data_theme (browser (applyTheme (run depth) theme s).2)
  = Some (js_to_string (Spec.effective theme s.2)).
Proof.
  intros Hb. unfold applyTheme. cbv zeta.
  set (v := js_to_string _).
  assert (Hv : v = js_to_string (Spec.effective theme s.2)) by done.
  clearbody v.
  set (s1 := if enableTransitions (theme_config s)
             then setState (run depth) {[ "isTransitioning" := VBool true ]} s else s).
  assert (S1 : Spec.steadying s s1).
  { subst s1. destruct (enableTransitions _); [|apply steadying_refl].
    apply setState_steady; by rewrite lookup_singleton_ne. }
  clearbody s1.
  set (s2 := on_browser (set_data_theme v) s1).
  assert (S2 : Spec.steadying s s2).
  { eapply steadying_trans; [exact S1|apply data_theme_steady]. }
  assert (D2 : data_theme (browser s2.2) = Some v) by done.
  clearbody s2.
  match goal with |- context [say INFO ?m ?x] => set (msg := m); set (s7 := x) end.
  assert (O : Spec.observing s2 (say INFO msg s7)).
  { subst s7. clearbody msg. peel_step.
    destruct (enableTransitions _); repeat peel_step; apply observing_refl. }
  clearbody msg s7.
  destruct (S2 Hb) as [B2 T2]. destruct (O B2) as [B7 T7].
  split; [done|]. split.
  - etrans; [exact T2|]. by apply observes_steady.
  - destruct T7 as (_ & _ & E & _). by rewrite E, D2, Hv.
Qed.

(** The part of [setTheme] that follows the state update. *)
Lemma setTheme_tail depth theme m s :
  Spec.passive_bus s.1 →
  Spec.passive_bus
    (announceThemeChange (run depth) theme (say INFO m (applyTheme (run depth) theme s))).1 ∧
  Spec.steady s.2
    (announceThemeChange (run depth) theme (say INFO m (applyTheme (run depth) theme s))).2 ∧
  data_theme (browser
    (announceThemeChange (run depth) theme (say INFO m (applyTheme (run depth) theme s))).2)
  = Some (js_to_string (Spec.effective theme s.2)).
Proof.
  intros Hb. destruct (applyTheme_passive depth theme s Hb) as (B & T & D).
  assert (O : Spec.observing (applyTheme (run depth) theme s)
                (announceThemeChange (run depth) theme
                   (say INFO m (applyTheme (run depth) theme s)))).
  { unfold announceThemeChange. do 2 peel_step. apply observing_refl. }
  destruct (O B) as [B' T']. split; [done|]. split.
  - etrans; [exact T|]. by apply observes_steady.
  - destruct T' as (_ & _ & E & _). by rewrite E.
Qed.

Lemma includes_listed (l : list string) t : t ∈ l → includes l (VStr t) = true.
Proof. intros H. unfold includes. by rewrite bool_decide_eq_true_2. Qed.

(** The shape of [setTheme] when the theme is listed and not current. *)
Lemma setTheme_unfold run theme s :
  includes (themes (theme_config s)) theme = true →
  is_string (prop (state (comp s.2)) "currentTheme") (js_to_string theme) = false →
  setTheme run theme s
  = (true,
     announceThemeChange run theme
       (say INFO ("🔄 Theme changed: "
                  +:+ js_to_string (prop (state (comp s.2)) "currentTheme") +:+ " → "
                  +:+ js_to_string theme)
          (applyTheme run theme (setState run {[ "currentTheme" := theme ]} s)))).
Proof. intros H1 H2. unfold setTheme. by rewrite H1, H2. Qed.

(** [setTheme(t)] for a listed theme other than the current one, when
    listeners only observe. *)
Lemma setTheme_changes depth t s :
  t ∈ themes (theme_config s) →
  is_string (prop (state (comp s.2)) "currentTheme") t = false →
  cfg enableStateTracking s = true →
  Spec.passive_bus s.1 →
  (setTheme (run depth) (VStr t) s).1 = true ∧
  Spec.passive_bus (setTheme (run depth) (VStr t) s).2.1 ∧
  Spec.static (setTheme (run depth) (VStr t) s).2.2 = Spec.static s.2 ∧
  prop (state (comp (setTheme (run depth) (VStr t) s).2.2)) "currentTheme" = VStr t ∧
  prop (state (comp (setTheme (run depth) (VStr t) s).2.2)) "systemPreference"
  = prop (state (comp s.2)) "systemPreference" ∧
  data_theme (browser (setTheme (run depth) (VStr t) s).2.2)
  = Some (js_to_string (Spec.effective (VStr t) s.2)).
Proof.
  intros Hin Hcur Ht Hb.
  rewrite (setTheme_unfold (run depth) (VStr t) s (includes_listed _ _ Hin) Hcur).
  cbn [fst snd].
  destruct (setState_passive depth {[ "currentTheme" := VStr t ]} s Ht Hb) as [B1 O1].
  set (s1 := setState (run depth) {[ "currentTheme" := VStr t ]} s) in *.
  match goal with |- context [announceThemeChange _ _ (say INFO ?m _)] =>
    destruct (setTheme_tail depth (VStr t) m s1 B1) as (B & T & D)
  end.
  clearbody s1.
  split; [done|]. split; [done|].
  destruct O1 as (A1 & A2 & A3 & A4). destruct T as (T1 & T2 & T3 & T4).
  cbn [fst snd on_comp comp with_state state] in A1, A2.
  split; [|split; [|split]].
  - rewrite T1, A1. done.
  - rewrite T2, A2. by apply prop_union_l, lookup_singleton_eq.
  - rewrite T3, A2. by apply prop_union_r, lookup_singleton_ne.
  - rewrite D. unfold Spec.effective. rewrite A2.
    by rewrite (prop_union_r _ _ "systemPreference") by by apply lookup_singleton_ne.
Qed.

(** ... and when [handleStateChange] is registered and storage works,
    the new theme is stored. *)
Lemma setTheme_saves depth t s :
  t ∈ themes (theme_config s) →
  is_string (prop (state (comp s.2)) "currentTheme") t = false →
  t ≠ EmptyString →
  cfg enableStateTracking s = true →
  Spec.passive_bus s.1 →
  Spec.handler_registered s.1 →
  denied (localStorage (browser s.2)) = false →
  full (localStorage (browser s.2)) = false →
  Spec.saved (setTheme (run (S depth)) (VStr t) s).2.2.
Proof.
  intros Hin Hcur Hne Ht Hb Hh Hd Hf.
  rewrite (setTheme_unfold (run (S depth)) (VStr t) s (includes_listed _ _ Hin) Hcur).
  cbn [fst snd].
  destruct (setState_passive (S depth) {[ "currentTheme" := VStr t ]} s Ht Hb) as [B1 O1].
  assert (S1 : Spec.saved (setState (run (S depth)) {[ "currentTheme" := VStr t ]} s).2).
  { apply setState_saves; try done.
    unfold prop. rewrite lookup_singleton_eq. cbn [default truthy].
    apply negb_true_iff, String.eqb_neq. exact Hne. }
  set (s1 := setState (run (S depth)) {[ "currentTheme" := VStr t ]} s) in *.
  match goal with |- context [announceThemeChange _ _ (say INFO ?m _)] =>
    destruct (setTheme_tail (S depth) (VStr t) m s1 B1) as (B & T & D)
  end.
  clearbody s1. destruct T as (_ & _ & _ & T4). by apply T4.
Qed.

(** *** [loadTheme] and [saveTheme], case by case *)

Lemma theme_config_browser f s : theme_config (on_browser f s) = theme_config s.
Proof. reflexivity. Qed.

(** The storage access of [loadTheme] and [saveTheme] as seen in the
    page: the key is recorded. *)
Lemma loadTheme_denied run s :
  denied (localStorage (browser s.2)) = true →
  loadTheme run s
  = (Ok (),
     setState run {[ "currentTheme" := VStr "auto" ]}
       (say WARN "⚠️ Failed to load theme from storage, using default"
          (on_browser (set_localStorage
                         (λ _, touch (storageKey (theme_config s))
                                 (localStorage (browser s.2)))) s))).
Proof.
  intros Hd. unfold loadTheme, try_catch, m_bind, storage_get, getItem.
  rewrite Hd. reflexivity.
Qed.

Lemma loadTheme_found run s t :
  denied (localStorage (browser s.2)) = false →
  items (localStorage (browser s.2)) !! storageKey (theme_config s) = Some t →
  t ≠ EmptyString →
  t ∈ themes (theme_config s) →
  loadTheme run s
  = (Ok (),
     say INFO ("📂 Theme loaded: " +:+
               js_to_string (prop (state (comp
                  (setState run {[ "currentTheme" := VStr t ]}
                     (on_browser (set_localStorage
                                    (λ _, touch (storageKey (theme_config s))
                                            (localStorage (browser s.2)))) s)).2))
                  "currentTheme"))
       (setState run {[ "currentTheme" := VStr t ]}
          (on_browser (set_localStorage
                         (λ _, touch (storageKey (theme_config s))
                                 (localStorage (browser s.2)))) s))).
Proof.
  intros Hd Hi Hne Hin. unfold loadTheme, try_catch, m_bind, storage_get, getItem.
  rewrite Hd, Hi.
  assert (Hne' : negb (String.eqb t EmptyString) = true)
    by (apply negb_true_iff, String.eqb_neq; exact Hne).
  cbn [fst snd]. rewrite Hne'. cbn [andb].
  rewrite theme_config_browser, (includes_listed _ _ Hin). reflexivity.
Qed.

(** [loadTheme] never throws. *)
Lemma loadTheme_returns run s : (loadTheme run s).1 = Ok ().
Proof.
  unfold loadTheme, try_catch, m_bind, storage_get, getItem.
  destruct (denied _); [reflexivity|]. cbn [fst snd].
  destruct (items _ !! _) as [t|]; [|reflexivity].
  destruct (_ && _); reflexivity.
Qed.

(** [saveTheme] never throws; when storage refuses the write it logs a
    warning and changes nothing else. *)
Lemma saveTheme_returns s : (saveTheme s).1 = Ok ().
Proof.
  unfold saveTheme, try_catch, m_bind, storage_set, setItem.
  destruct (denied _); [reflexivity|]. destruct (full _); reflexivity.
Qed.

Lemma saveTheme_refused s :
  denied (localStorage (browser s.2)) || full (localStorage (browser s.2)) = true →
  saveTheme s
  = (Ok (),
     say WARN "⚠️ Failed to save theme to storage:"
       (on_browser (set_localStorage
                      (λ _, touch (storageKey (theme_config s))
                              (localStorage (browser s.2)))) s)).
Proof.
  intros H. unfold saveTheme, try_catch, m_bind, storage_set, setItem.
  destruct (denied _); [reflexivity|]. destruct (full _); [reflexivity|done].
Qed.

End ThemePassive.

(** ** Theme manager: the claims about toggling and persistence *)

Section ThemeClaims.

Import BaseComponent ThemeManager.

Implicit Types (s : ThemeManager.Sys) (t : string).

Lemma nextTheme_listed s t : nextTheme s = VStr t → t ∈ themes (theme_config s).
Proof.
  unfold nextTheme. destruct (themes (theme_config s) !! _) as [x|] eqn:E; [|done].
  intros [= <-]. by eapply list_elem_of_lookup_2.
Qed.

(** C6, amended. [toggleTheme()] moves the setting to the next entry of
    [config.themes] and sets [data-theme] to the effective theme of that
    entry ('auto' resolves to the system preference). The attribute
    therefore changes exactly when that effective theme differs from the
    value the attribute had. *)
Theorem toggleTheme_applies_next_theme depth t s :
  nextTheme s = VStr t →
  is_string (prop (state (comp s.2)) "currentTheme") t = false →
  cfg enableStateTracking s = true →
  Spec.passive_bus s.1 →
  prop (state (comp (toggleTheme (run depth) s).2)) "currentTheme" = VStr t ∧
  data_theme (browser (toggleTheme (run depth) s).2)
  = Some (js_to_string (Spec.effective (VStr t) s.2)) ∧
  (data_theme (browser (toggleTheme (run depth) s).2) ≠ data_theme (browser s.2)
   ↔ data_theme (browser s.2) ≠ Some (js_to_string (Spec.effective (VStr t) s.2))).
Proof.
  intros Hn Hcur Ht Hb. unfold toggleTheme. rewrite Hn.
  destruct (setTheme_changes depth t s (nextTheme_listed s t Hn) Hcur Ht Hb)
    as (_ & _ & _ & H1 & _ & H2).
  split; [exact H1|]. split; [exact H2|]. rewrite H2. split; intros H E; by apply H.
Qed.


Lemma good_on_by_callbacks {C} (good : C → Prop) (b : EventBus.Bus C) ev cs :
  EventBus.callback <$> default [] (EventBus.events b !! ev) = cs →
  Forall good cs →
  Spec.good_on good b ev.
Proof.
  intros Hcs Hall ls Hls. rewrite Hls in Hcs. cbn [default] in Hcs. subst cs.
  apply Forall_forall. intros l Hl. eapply Forall_forall in Hall; [exact Hall|].
  by apply list_elem_of_fmap_2.
Defined.

Lemma passive_bus_intro (b : EventBus.Bus callback) :
  Spec.good_on Spec.passive b "state:changed" →
  Spec.good_on Spec.passive b "theme:changed" →
  Spec.good_on Spec.passive b "announce" →
  Spec.good_on Spec.passive b "error" →
  Spec.passive_bus b.
Proof.
  intros H1 H2 H3 H4 ev Hev. unfold Spec.theme_events in Hev.
  apply elem_of_cons in Hev as [->|Hev]; [exact H1|].
  apply elem_of_cons in Hev as [->|Hev]; [exact H2|].
  apply elem_of_cons in Hev as [->|Hev]; [exact H3|].
  apply elem_of_cons in Hev as [->|Hev]; [exact H4|].
  by apply elem_of_nil in Hev.
Defined.

Lemma dark_manager_passive : Spec.passive_bus Scenario.dark_manager.1.
Proof.
  apply passive_bus_intro.
  - apply (good_on_by_callbacks _ _ _ [HandleStateChange; HandleStateChange]).
    + vm_compute. reflexivity.
    + repeat constructor.
  - apply (good_on_by_callbacks _ _ _ []); [vm_compute; reflexivity|constructor].
  - apply (good_on_by_callbacks _ _ _ []); [vm_compute; reflexivity|constructor].
  - apply (good_on_by_callbacks _ _ _ []); [vm_compute; reflexivity|constructor].
Defined.

Lemma handler_registered_by_callbacks (b : EventBus.Bus callback) cs :
  EventBus.callback <$> default [] (EventBus.events b !! "state:changed")
  = HandleStateChange :: cs →
  Spec.handler_registered b.
Proof.
  intros Hcs. unfold Spec.handler_registered.
  destruct (EventBus.events b !! "state:changed") as [[|l ls]|]; [done| |done].
  exists (l :: ls), l. split; [done|]. split; [left|].
  cbn in Hcs. congruence.
Defined.

Lemma dark_manager_handler : Spec.handler_registered Scenario.dark_manager.1.
Proof.
  apply (handler_registered_by_callbacks _ [HandleStateChange]).
  vm_compute. reflexivity.
Defined.

Lemma toggleTheme_applies_next_theme_witness :
  prop (state (comp (toggleTheme (run 3) Scenario.dark_manager).2)) "currentTheme"
  = VStr "auto".
Proof.
  refine (proj1 (toggleTheme_applies_next_theme 3 "auto" Scenario.dark_manager _ _ _
                   dark_manager_passive)); vm_compute; reflexivity.
Defined.

Lemma returning_passive : Spec.passive_bus Scenario.returning.1.
Proof.
  apply passive_bus_intro.
  - apply (good_on_by_callbacks _ _ _ [HandleStateChange; HandleStateChange]).
    + vm_compute. reflexivity.
    + repeat constructor.
  - apply (good_on_by_callbacks _ _ _ []); [vm_compute; reflexivity|constructor].
  - apply (good_on_by_callbacks _ _ _ []); [vm_compute; reflexivity|constructor].
  - apply (good_on_by_callbacks _ _ _ []); [vm_compute; reflexivity|constructor].
Defined.


End ThemeClaims.

(** ** Component registry *)

Section RegistryFacts.

Import ComponentRegistry.

Context {E : Type}.
Implicit Types (r : Registry E) (e : E) (name : string).

(** C9, as stated, fails for a registered class whose constructor
    throws: nothing is cached, the next call constructs again, and the two
    calls need not return the same thing. *)
Lemma getInstance_retries_after_failure :
  has "widget" Scenario.late_registry.1 = true ∧
  (getInstance "widget" [] Scenario.late_registry).1 = None ∧
  (getInstance "widget" [] (getInstance "widget" [] Scenario.late_registry).2).1
  = Some 0%nat.
Proof. vm_compute. done. Qed.

(** C9, amended. [getInstance(name)] returns [null] for a name that is
    not registered and caches nothing. For a registered name without a
    cached instance whose constructor returns normally, it returns the new
    instance and caches it, and every later call returns that same
    instance without running the constructor; more generally a call for a
    name with a cached instance returns that instance and changes
    nothing, so once a call has returned an instance every later call
    returns it. When the constructor throws, the call logs the error,
    returns [null] and caches nothing, and the next call runs the
    constructor again: it returns a new instance if the constructor now
    returns, and [null] if it throws again. *)
Theorem getInstance_memoizes name args r e :
  (components r !! name = None →
     (getInstance name args (r, e)).1 = None ∧
     instances (getInstance name args (r, e)).2.1 = instances r ∧
     (getInstance name args (r, e)).2.2 = e) ∧
  (∀ reg e',
     components r !! name = Some reg →
     instances r !! name = None →
     construct (ComponentClass reg) (options reg) args e = (None, e') →
     (getInstance name args (r, e)).1 = Some (next_object r) ∧
     instances (getInstance name args (r, e)).2.1 = <[name := next_object r]> (instances r) ∧
     (getInstance name args (r, e)).2.2 = e' ∧
     ∀ args' e'',
       getInstance name args' ((getInstance name args (r, e)).2.1, e'')
       = (Some (next_object r), ((getInstance name args (r, e)).2.1, e''))) ∧
  (∀ i, is_Some (components r !! name) →
     instances r !! name = Some i →
     getInstance name args (r, e) = (Some i, (r, e))) ∧
  (∀ i, is_Some (components r !! name) →
     (getInstance name args (r, e)).1 = Some i →
     ∀ args' e',
       getInstance name args' ((getInstance name args (r, e)).2.1, e')
       = (Some i, ((getInstance name args (r, e)).2.1, e'))) ∧
  (∀ reg error e',
     components r !! name = Some reg →
     instances r !! name = None →
     construct (ComponentClass reg) (options reg) args e = (Some error, e') →
     (getInstance name args (r, e)).1 = None ∧
     instances (getInstance name args (r, e)).2.1 = instances r ∧
     components (getInstance name args (r, e)).2.1 = components r ∧
     (getInstance name args (r, e)).2.2 = e' ∧
     ∀ args' e'',
       (getInstance name args' ((getInstance name args (r, e)).2.1, e'')).1
       = match (construct (ComponentClass reg) (options reg) args' e'').1 with
         | Some _ => None
         | None => Some (next_object r)
         end ∧
       (getInstance name args' ((getInstance name args (r, e)).2.1, e'')).2.2
       = (construct (ComponentClass reg) (options reg) args' e'').2).
Proof.
  split; [|split; [|split; [|split]]].
  - intros Hc. unfold getInstance. simpl. by rewrite Hc.
  - intros reg e' Hc Hi Hk. unfold getInstance. cbn [fst snd].
    rewrite Hc, Hi, Hk. cbn [fst snd say components instances].
    split; [done|]. split; [done|]. split; [done|].
    intros args' e''. by rewrite Hc, lookup_insert_eq.
  - intros i [reg Hc] Hi. unfold getInstance. cbn [fst snd]. rewrite Hc, Hi.
    by destruct r.
  - intros i [reg Hc] Hi args' e'. unfold getInstance in *. simpl in *.
    rewrite Hc in *. destruct (instances r !! name) as [j|] eqn:Hj; simpl in *.
    + rewrite Hc, Hj. congruence.
    + destruct (construct _ _ _ _) as [[err|] e1]; simpl in *; [done|].
      rewrite Hc. rewrite lookup_insert_eq. congruence.
  - intros reg error e' Hc Hi Hk. unfold getInstance. cbn [fst snd].
    rewrite Hc, Hi, Hk. cbn [fst snd say components instances].
    split; [done|]. split; [done|]. split; [done|]. split; [done|].
    intros args' e''. rewrite Hc, Hi.
    by destruct (construct (ComponentClass reg) (options reg) args' e'') as [[err|] e1].
Qed.

End RegistryFacts.

Lemma getInstance_memoizes_witness :
  (ComponentRegistry.getInstance "widget" [] (Scenario.late_registry.1, true)).1
  = Some 0%nat ∧
  ComponentRegistry.getInstance "widget" []
    ((ComponentRegistry.getInstance "widget" [] (Scenario.late_registry.1, true)).2.1, false)
  = (Some 0%nat,
     ((ComponentRegistry.getInstance "widget" [] (Scenario.late_registry.1, true)).2.1,
      false)).
Proof.
  refine ((λ H, conj (proj1 H) (proj2 (proj2 (proj2 H)) [] false))
            (proj1 (proj2 (getInstance_memoizes "widget" [] Scenario.late_registry.1 true))
               {| ComponentRegistry.ComponentClass := Scenario.late_class;
                  ComponentRegistry.options := VUndef;
                  ComponentRegistry.registered := Scenario.clock 0 |} true _ _ _));
    vm_compute; reflexivity.
Defined.

(** ** Theme manager: what its operations touch *)

Section ThemeFootprint.

Import BaseComponent ThemeManager.

Implicit Types (s : ThemeManager.Sys) (w : ThemeManager.World) (t : string).

#[local] Instance footprint_preorder : PreOrder Spec.footprint.
Proof.
  split.
  - intros w. split; [done|]. split; [exists []|exists []]; by rewrite ?app_nil_r.
  - intros w1 w2 w3 (A1 & (k1 & B1 & C1) & (t1 & D1)) (A2 & (k2 & B2 & C2) & (t2 & D2)).
    split; [congruence|]. split.
    + exists (k1 ++ k2). rewrite B2, B1, app_assoc. split; [done|].
      apply Forall_app. split; [done|]. by rewrite <- A1.
    + exists (t1 ++ t2). by rewrite D2, D1, app_assoc.
Qed.

Lemma footprint_browser (f : Browser → Browser) s :
  (∀ br, localStorage (f br) = localStorage br ∧ timers (f br) = timers br) →
  Spec.footprint s.2 (on_browser f s).2.
Proof.
  intros Hf. destruct (Hf (browser s.2)) as [H1 H2].
  split; [done|]. simpl. rewrite H1, H2.
  split; [exists []|exists []]; by rewrite ?app_nil_r.
Qed.

Lemma footprint_timer d a s :
  Spec.footprint s.2 (on_browser (set_timers (λ l, l ++ [(d, a)])) s).2.
Proof.
  split; [done|]. split; [exists []; by rewrite app_nil_r|]. by exists [(d, a)].
Qed.

Lemma footprint_say l m s : Spec.footprint s.2 (say l m s).2.
Proof. split; [done|]. split; [exists []|exists []]; by rewrite ?app_nil_r. Qed.

Lemma footprint_state st s : Spec.footprint s.2 (on_comp (with_state st) s).2.
Proof. split; [done|]. split; [exists []|exists []]; by rewrite ?app_nil_r. Qed.

Lemma footprint_button b s : Spec.footprint s.2 (with_toggleButton b s).2.
Proof. split; [done|]. split; [exists []|exists []]; by rewrite ?app_nil_r. Qed.

Lemma footprint_updateToggleButton s : Spec.footprint s.2 (updateToggleButton s).2.
Proof.
  unfold updateToggleButton. destruct (toggleButton _); [|reflexivity].
  destruct (flag _ _).
  - etrans; [apply footprint_button|]. apply footprint_timer.
  - apply footprint_button.
Qed.

Lemma footprint_storage (st : Storage) s :
  touched st = touched (localStorage (browser s.2)) ++ [storageKey (theme_config s)] →
  Spec.footprint s.2 (on_browser (set_localStorage (λ _, st)) s).2.
Proof.
  intros Ht. split; [done|]. simpl. rewrite Ht. split.
  - exists [storageKey (theme_config s)]. split; [done|]. by constructor.
  - exists []. by rewrite app_nil_r.
Qed.

Lemma footprint_saveTheme s : Spec.footprint s.2 (saveTheme s).2.2.
Proof.
  unfold saveTheme, try_catch, m_bind, storage_set, setItem, act.
  destruct (denied (localStorage (browser s.2))) eqn:Hd; cbv beta iota zeta; cbn [fst snd].
  { etrans; [|apply footprint_say]. apply footprint_storage; reflexivity. }
  destruct (full (localStorage (browser s.2))) eqn:Hf; cbv beta iota zeta; cbn [fst snd].
  { etrans; [|apply footprint_say]. apply footprint_storage; reflexivity. }
  etrans; [|apply footprint_say]. apply footprint_storage; reflexivity.
Qed.

Lemma footprint_handleStateChange args s :
  Spec.footprint s.2 (handleStateChange args s).2.2.
Proof.
  unfold handleStateChange.
  destruct (member _ "changes") as [changes| |]; [|reflexivity..].
  destruct (member changes "currentTheme") as [v| |]; [|reflexivity..].
  destruct (truthy v); [|reflexivity].
  etrans; [apply footprint_updateToggleButton|apply footprint_saveTheme].
Qed.

(** The methods, for an interpretation of callbacks that respects the
    footprint. *)
Section Step.
Variable run : callback → option string → list jsval → ThemeManager.Sys
               → option jsval * ThemeManager.Sys.
Hypothesis run_footprint : ∀ c ctx a b w, Spec.footprint w (run c ctx a (b, w)).2.2.

Lemma footprint_emit ev args s : Spec.footprint s.2 (EventBus.emit run ev args s).2.2.
Proof. exact (emit_rel run Spec.footprint run_footprint ev args s). Qed.

Lemma footprint_component_emit ev data s :
  Spec.footprint s.2 (BaseComponent.emit run ev data s).2.2.
Proof. unfold BaseComponent.emit. apply footprint_emit. Qed.

Lemma footprint_setState new s : Spec.footprint s.2 (setState run new s).2.
Proof.
  unfold setState, BaseComponent.setState. destruct (negb _); [reflexivity|].
  cbv zeta. etrans; [|apply footprint_component_emit].
  destruct (cfg debugMode _).
  - etrans; [apply footprint_state|apply footprint_say].
  - apply footprint_state.
Qed.

Lemma footprint_applyTheme theme s : Spec.footprint s.2 (applyTheme run theme s).2.
Proof.
  unfold applyTheme. cbv zeta.
  etrans; [|apply footprint_say].
  match goal with |- context [if enableTransitions (theme_config ?x) then
                                on_browser _ _ else _] =>
    set (s6 := x)
  end.
  assert (H6 : Spec.footprint s.2 s6.2).
  { subst s6. etrans; [|apply footprint_component_emit].
    etrans; [|apply footprint_updateToggleButton].
    unfold updateMetaThemeColor.
    etrans; [|apply footprint_browser; intros br; by split].
    etrans; [|apply footprint_browser; intros br; by split].
    etrans; [|apply footprint_browser; intros br; by split].
    destruct (enableTransitions _); [apply footprint_setState|reflexivity]. }
  clearbody s6. destruct (enableTransitions _); [|done].
  etrans; [exact H6|apply footprint_timer].
Qed.

Lemma footprint_setTheme theme s : Spec.footprint s.2 (setTheme run theme s).2.2.
Proof.
  unfold setTheme. destruct (negb _); [apply footprint_say|].
  cbv zeta. destruct (is_string _ _); [apply footprint_say|]. cbn [fst snd].
  unfold announceThemeChange.
  etrans; [|apply footprint_emit]. etrans; [|apply footprint_say].
  etrans; [|apply footprint_applyTheme]. apply footprint_setState.
Qed.

Lemma footprint_toggleTheme s : Spec.footprint s.2 (toggleTheme run s).2.
Proof. apply footprint_setTheme. Qed.

Lemma footprint_loadTheme s : Spec.footprint s.2 (loadTheme run s).2.2.
Proof.
  unfold loadTheme, try_catch, m_bind, storage_get, getItem, act.
  destruct (denied (localStorage (browser s.2))) eqn:Hd; cbv beta iota zeta; cbn [fst snd].
  - etrans; [|apply footprint_setState]. etrans; [|apply footprint_say].
    apply footprint_storage; reflexivity.
  - destruct (items _ !! _) as [v|]; [destruct (_ && _)|];
      cbv beta iota zeta; cbn [fst snd];
      (etrans; [|apply footprint_say]); (etrans; [|apply footprint_setState]);
      apply (footprint_storage (touch _ _)); reflexivity.
Qed.

Lemma footprint_handleSystemPreferenceChange args s :
  Spec.footprint s.2 (handleSystemPreferenceChange run args s).2.2.
Proof.
  unfold handleSystemPreferenceChange.
  destruct (member _ "matches") as [m| |]; [|reflexivity..].
  cbv zeta.
  assert (H : Spec.footprint s.2
    (say INFO ("🔄 System preference changed: " +:+ (if truthy m then "dark" else "light"))
       (setState run {[ "systemPreference" := VStr (if truthy m then "dark" else "light") ]}
          s)).2).
  { etrans; [apply footprint_setState|apply footprint_say]. }
  destruct (is_string _ _); cbn [fst snd]; [|exact H].
  etrans; [exact H|apply footprint_applyTheme].
Qed.

Lemma footprint_handleKeyboardShortcut args s :
  Spec.footprint s.2 (handleKeyboardShortcut run args s).2.2.
Proof.
  unfold handleKeyboardShortcut. cbv zeta.
  destruct (member _ "ctrlKey") as [c| |]; [|reflexivity..].
  destruct (member _ "metaKey") as [m| |]; [|reflexivity..].
  destruct (member _ "shiftKey") as [sh| |]; [|reflexivity..].
  destruct (member _ "key") as [k| |]; [|reflexivity..].
  destruct (_ && _); [apply footprint_toggleTheme|reflexivity].
Qed.

Lemma footprint_run_step c ctx a b w :
  Spec.footprint w (run_step run c ctx a (b, w)).2.2.
Proof.
  destruct c; unfold run_step; cbn [fst snd].
  - reflexivity.
  - destruct (member _ "theme") as [theme| |]; [|reflexivity..].
    apply (footprint_setTheme theme (b, w)).
  - apply (footprint_toggleTheme (b, w)).
  - pose proof (footprint_handleStateChange a (b, w)) as H.
    unfold as_outcome. by destruct (handleStateChange _ _) as [[x|e|] s'].
  - apply (footprint_toggleTheme (b, w)).
  - pose proof (footprint_handleSystemPreferenceChange a (b, w)) as H.
    unfold as_outcome. by destruct (handleSystemPreferenceChange _ _ _) as [[x|e|] s'].
  - pose proof (footprint_handleKeyboardShortcut a (b, w)) as H.
    unfold as_outcome. by destruct (handleKeyboardShortcut _ _ _) as [[x|e|] s'].
Qed.

End Step.

(** Every callback of the theme manager respects the footprint, at every
    depth of nesting. *)
Lemma footprint_run depth c ctx a b w :
  Spec.footprint w (run depth c ctx a (b, w)).2.2.
Proof.
  revert c ctx a b w. induction depth as [|d IH]; intros c ctx a b w; cbn [run fst snd].
  - reflexivity.
  - by apply footprint_run_step.
Qed.

End ThemeFootprint.

(** ** Internationalization manager *)

Section I18nFacts.

Import BaseComponent I18nManager.

Context {C : Type} `{EqDecision C}.
Variable run : C → option string → list jsval → BaseComponent.Sys C Fields
               → option jsval * BaseComponent.Sys C Fields.
Hypothesis run_quiet : ∀ c ctx a b w, Spec.i18n_quiet w (run c ctx a (b, w)).2.2.

Implicit Types (s : BaseComponent.Sys C Fields).

#[local] Instance i18n_quiet_preorder : PreOrder (@Spec.i18n_quiet C).
Proof.
  split.
  - intros w. by repeat split.
  - intros w1 w2 w3 (A1 & B1 & C1 & D1 & E1 & F1) (A2 & B2 & C2 & D2 & E2 & F2).
    repeat split; congruence.
Qed.

Lemma quiet_say l m s : Spec.i18n_quiet s.2 (say l m s).2.
Proof. by repeat split. Qed.

Lemma quiet_setState new s :
  new !! "loadedLanguages" = None →
  Spec.i18n_quiet s.2 (BaseComponent.setState run new s).2.
Proof.
  intros Hn. unfold BaseComponent.setState. destruct (negb _); [reflexivity|].
  cbv zeta. unfold BaseComponent.emit.
  etrans; [|apply (emit_rel run Spec.i18n_quiet run_quiet)].
  assert (Q : Spec.i18n_quiet s.2 (on_comp (with_state (new ∪ state (comp s.2))) s).2).
  { repeat split; simpl; try done. by apply prop_union_r. }
  destruct (cfg debugMode _); [|exact Q]. etrans; [exact Q|apply quiet_say].
Qed.

(** The language was loaded before: nothing is requested. *)
Lemma loadTranslations_cached language l s :
  prop (state (comp s.2)) "loadedLanguages" = VSet l →
  language ∈ l →
  loadTranslations run language s
  = (Ok (), say DEBUG ("📚 Translations already loaded for: " +:+ language) s).
Proof.
  intros Hl Hin. unfold loadTranslations. rewrite Hl.
  by rewrite bool_decide_eq_true_2.
Qed.

(** The body of the outer [try] of [loadTranslations], from a state in
    which the language is not loaded. *)
Lemma loadTranslations_body language l s :
  prop (state (comp s.2)) "loadedLanguages" = VSet l →
  language ∉ l →
  let r := try_catch
             (act (say INFO ("📥 Loading translations for: " +:+ language)) ;;;
              try_catch
                (fetchTranslations language)
                (λ fetchError,
                   act (say WARN ("⚠️ Failed to load translations from file: "
                                  +:+ error_message fetchError)) ;;;
                   when (λ _, String.eqb language "en")
                        (act loadBuiltInEnglishTranslations)) ;;;
              markLoaded language)%js
             (λ error, act (say ERROR ("❌ Failed to load translations for "
                                       +:+ language +:+ ":"))) s in
  r.1 = Ok () ∧
  translations (ext (comp r.2.2))
  = Spec.table_after (network (browser s.2) (Spec.translationsUrl s language))
      language (translations (ext (comp s.2))) ∧
  requests (browser r.2.2) = requests (browser s.2) ++ [Spec.translationsUrl s language] ∧
  prop (state (comp r.2.2)) "loadedLanguages" = VSet (l ++ [language]).
Proof.
  intros Hl Hin.
  unfold try_catch, m_bind, act, when, fetchTranslations, fetch, markLoaded,
    loadBuiltInEnglishTranslations, Spec.table_after, Spec.translationsUrl, i18n_config.
  generalize (list_to_map (M := gmap string string) englishTranslations). intros en.
  cbn -[pretty String.append prop insert].
  destruct (network (browser s.2) _) as [m|[] status [table|]];
    [destruct (String.eqb language "en")
    | | destruct (String.eqb language "en")
    | destruct (String.eqb language "en") | destruct (String.eqb language "en") ];
    cbn -[pretty String.append prop insert]; rewrite Hl;
    cbn -[pretty String.append prop insert];
    rewrite bool_decide_eq_false_2 by done;
    cbn -[pretty String.append prop insert]; rewrite ?prop_insert_eq; done.
Qed.

(** The language was not loaded before: one request, and the table that
    results from its answer. *)
Lemma loadTranslations_fresh language l s :
  prop (state (comp s.2)) "loadedLanguages" = VSet l →
  language ∉ l →
  let r := loadTranslations run language s in
  r.1 = Ok () ∧
  requests (browser r.2.2) = requests (browser s.2) ++ [Spec.translationsUrl s language] ∧
  prop (state (comp r.2.2)) "loadedLanguages" = VSet (l ++ [language]) ∧
  translations (ext (comp r.2.2))
  = Spec.table_after (network (browser s.2) (Spec.translationsUrl s language)) language
      (translations (ext (comp s.2))).
Proof.
  intros Hl Hin. unfold loadTranslations. rewrite Hl.
  rewrite bool_decide_eq_false_2 by done. unfold try_finally.
  pose proof (quiet_setState {[ "isLoading" := VBool true ]} s
                ltac:(by apply lookup_singleton_ne)) as Q1.
  set (s1 := BaseComponent.setState run {[ "isLoading" := VBool true ]} s) in *.
  clearbody s1. destruct Q1 as (X1 & X2 & X3 & X4 & X5 & X6).
  assert (Hl1 : prop (state (comp s1.2)) "loadedLanguages" = VSet l) by congruence.
  pose proof (loadTranslations_body language l s1 Hl1 Hin) as B.
  cbv zeta in B.
  destruct (try_catch _ _ s1) as [r s2]. cbn [fst snd] in B |- *.
  destruct B as (B1 & B2 & B3 & B4).
  pose proof (quiet_setState {[ "isLoading" := VBool false ]} s2
                ltac:(by apply lookup_singleton_ne)) as Q2.
  set (s3 := BaseComponent.setState run {[ "isLoading" := VBool false ]} s2) in *.
  clearbody s3. destruct Q2 as (Y1 & Y2 & Y3 & Y4 & Y5 & Y6).
  assert (U : Spec.translationsUrl s1 language = Spec.translationsUrl s language).
  { unfold Spec.translationsUrl. by rewrite X1. }
  rewrite U in B2, B3.
  split; [done|]. split; [by rewrite Y5, B3, X5|].
  split; [by rewrite Y3|].
  by rewrite Y1, B2, X6, X1.
Qed.

End I18nFacts.

(** ** Failures: what is caught and what reaches the caller *)

Section Failures.

Import BaseComponent.

(** [loadTranslations] returns normally whatever the network answers. *)
Lemma loadTranslations_returns {C : Type} `{EqDecision C}
    (run : C → option string → list jsval → BaseComponent.Sys C I18nManager.Fields
           → option jsval * BaseComponent.Sys C I18nManager.Fields)
    language l (s : BaseComponent.Sys C I18nManager.Fields) :
  prop (state (comp s.2)) "loadedLanguages" = VSet l →
  (I18nManager.loadTranslations run language s).1 = Ok ().
Proof.
  intros Hl. unfold I18nManager.loadTranslations. rewrite Hl.
  destruct (bool_decide _); [reflexivity|].
  unfold try_finally.
  set (s1 := BaseComponent.setState run {[ "isLoading" := VBool true ]} s).
  clearbody s1.
  unfold try_catch, m_bind, act, when, I18nManager.fetchTranslations, fetch,
    I18nManager.markLoaded.
  cbn [fst snd].
  destruct (network _ _) as [m|[] status [table|]]; cbn [fst snd];
    repeat (match goal with
            | |- context [if ?b then _ else _] => destruct b
            | |- context [match prop ?o ?k with _ => _ end] => destruct (prop o k)
            end; cbn [fst snd]); reflexivity.
Qed.

Section Component.
Context {C X : Type} `{EqDecision C}.
Variable run : C → option string → list jsval → BaseComponent.Sys C X
               → option jsval * BaseComponent.Sys C X.
Implicit Types (s : BaseComponent.Sys C X).

Lemma bind_act {A} (f : BaseComponent.Sys C X → BaseComponent.Sys C X)
    (k : () → M (BaseComponent.Sys C X) A) s :
  m_bind (act f) k s = k () (f s).
Proof. reflexivity. Qed.

Lemma bind_thrown {A B} (m : M (BaseComponent.Sys C X) A)
    (k : A → M (BaseComponent.Sys C X) B) s e s' :
  m s = (Thrown e, s') → m_bind m k s = (Thrown e, s').
Proof. intros Hm. unfold m_bind. by rewrite Hm. Qed.

Lemma bind_ok {A B} (m : M (BaseComponent.Sys C X) A)
    (k : A → M (BaseComponent.Sys C X) B) s x s' :
  m s = (Ok x, s') → m_bind m k s = k x s'.
Proof. intros Hm. unfold m_bind. by rewrite Hm. Qed.

Lemma runHooks_nil h data s :
  hooks (comp s.2) !! h = Some [] → runHooks run h data s = s.
Proof. intros Hh. unfold runHooks. by rewrite Hh. Qed.

Lemma checkDependencies_missing s d :
  head (filter (λ d, d ∉ window_globals (browser s.2)) (dependencies (comp s.2))) = Some d →
  checkDependencies s
  = (Thrown (VErr ("Missing dependency: " +:+ d)), say DEBUG "🔍 Checking dependencies" s).
Proof.
  intros Hd. unfold checkDependencies.
  destruct (dependencies (comp s.2)) as [|d0 ds]; [done|].
  destruct (filter _ (d0 :: ds)) as [|d' ?]; [done|]. by injection Hd as ->.
Qed.

(** [init()] of a component with a missing dependency: the error reaches
    the caller. *)
Lemma init_missing_dependency (methods : Methods C X) budget s d :
  flag "initialized" s = false →
  hooks (comp s.2) !! "beforeInit" = Some [] →
  head (filter (λ d, d ∉ window_globals (browser s.2)) (dependencies (comp s.2))) = Some d →
  (BaseComponent.init run methods budget s).1 = Thrown (VErr ("Missing dependency: " +:+ d)).
Proof.
  intros Hi Hh Hd. unfold BaseComponent.init, init_with. rewrite Hi.
  unfold try_catch. rewrite !bind_act.
  rewrite (runHooks_nil "beforeInit" ∅ (say INFO _ s) Hh).
  rewrite (bind_thrown _ _ _ _ _ (checkDependencies_missing (say INFO _ s) d Hd)).
  rewrite bind_act. reflexivity.
Qed.

End Component.

(** [loadTranslations] on a manager whose state has no set of loaded
    languages: the test before the [try] block throws. *)
Lemma loadTranslations_without_set {C : Type} `{EqDecision C}
    (run : C → option string → list jsval → BaseComponent.Sys C I18nManager.Fields
           → option jsval * BaseComponent.Sys C I18nManager.Fields)
    language (s : BaseComponent.Sys C I18nManager.Fields) :
  prop (state (comp s.2)) "loadedLanguages" = VUndef →
  I18nManager.loadTranslations run language s
  = (Thrown (VErr "TypeError: Cannot read properties of undefined"), s).
Proof. intros Hl. unfold I18nManager.loadTranslations. by rewrite Hl. Qed.

(** The test of [I18nManager.onInit()] that reads the saved language
    throws when storage does. *)
Lemma shouldDetectBrowserLanguage_denied {C : Type}
    (s : BaseComponent.Sys C I18nManager.Fields) :
  I18nManager.autoDetect (I18nManager.i18n_config s) = true →
  denied (localStorage (browser s.2)) = true →
  (I18nManager.shouldDetectBrowserLanguage s).1 = Thrown (VErr "SecurityError").
Proof.
  intros Ha Hd. unfold I18nManager.shouldDetectBrowserLanguage. rewrite Ha.
  unfold m_bind, storage_get, getItem. by rewrite Hd.
Qed.

(** The page script reads the saved theme outside any [try]. *)
Lemma setupThemeToggle_denied br :
  denied (localStorage br) = true →
  (PageScript.setupThemeToggle br).1 = Thrown (VErr "SecurityError").
Proof. intros Hd. unfold PageScript.setupThemeToggle, getItem. by rewrite Hd. Qed.

End Failures.

(** ** Outcomes of statements in sequence *)

Section OutcomeRules.
Context {Σ : Type}.
Implicit Types (P Q R : Σ → Prop).

Lemma is_ok_unit (r : result ()) : is_ok r = true → r = Ok ().
Proof. by destruct r as [[]| |]. Qed.

Lemma yields_bind {A B} P Q R (m : M Σ A) (k : A → M Σ B) :
  Spec.yields P m Q → (∀ x, Spec.yields Q (k x) R) → Spec.yields P (m_bind m k) R.
Proof.
  intros Hm Hk s HP. specialize (Hm s HP). unfold m_bind.
  destruct (m s) as [[x|e|] s']; cbn [fst snd] in *; [|done..].
  intros Hok. by apply (Hk x s' (Hm eq_refl)).
Qed.

Lemma yields_act P Q (f : Σ → Σ) : (∀ s, P s → Q (f s)) → Spec.yields P (act f) Q.
Proof. intros Hf s HP _. by apply Hf. Qed.

Lemma yields_weaken {A} P P' Q Q' (m : M Σ A) :
  (∀ s, P' s → P s) → (∀ s, Q s → Q' s) → Spec.yields P m Q → Spec.yields P' m Q'.
Proof. intros HP HQ Hm s Hs Hok. apply HQ, Hm; [by apply HP|done]. Qed.

Lemma yields_keeps {A} (Rel : Σ → Σ → Prop) P (m : M Σ A) :
  (∀ s s', Rel s s' → P s → P s') → Spec.keeps Rel m → Spec.yields P m P.
Proof. intros Hst Hm s HP _. exact (Hst s _ (Hm s) HP). Qed.

(** A handler that throws again: the block returns only if its body
    does. *)
Lemma yields_try_rethrow {A} P Q (body : M Σ A) (handler : jsval → M Σ A) :
  (∀ e s, is_ok (handler e s).1 = false) →
  Spec.yields P body Q → Spec.yields P (try_catch body handler) Q.
Proof.
  intros Hh Hb s HP. specialize (Hb s HP). unfold try_catch.
  destruct (body s) as [[x|e|] s']; cbn [fst snd] in *; [done| |done].
  rewrite Hh. done.
Qed.

Lemma returns_bind {A B} P Q R (m : M Σ A) (k : A → M Σ B) :
  Spec.returns P m Q → (∀ x, Spec.returns Q (k x) R) → Spec.returns P (m_bind m k) R.
Proof.
  intros Hm Hk s HP. destruct (Hm s HP) as [Hok HQ]. unfold m_bind.
  destruct (m s) as [[x|e|] s']; cbn [fst snd] in *; [|done..].
  by apply Hk.
Qed.

Lemma returns_act P Q (f : Σ → Σ) : (∀ s, P s → Q (f s)) → Spec.returns P (act f) Q.
Proof. intros Hf s HP. split; [done|]. by apply Hf. Qed.

Lemma returns_weaken {A} P P' Q Q' (m : M Σ A) :
  (∀ s, P' s → P s) → (∀ s, Q s → Q' s) → Spec.returns P m Q → Spec.returns P' m Q'.
Proof.
  intros HP HQ Hm s Hs. destruct (Hm s (HP s Hs)) as [Hok H]. split; [done|]. by apply HQ.
Qed.

Lemma returns_keeps {A} (Rel : Σ → Σ → Prop) P (m : M Σ A) :
  (∀ s s', Rel s s' → P s → P s') → Spec.keeps Rel m →
  (∀ s, is_ok (m s).1 = true) → Spec.returns P m P.
Proof. intros Hst Hm Hok s HP. split; [apply Hok|]. exact (Hst s _ (Hm s) HP). Qed.

(** A body that returns is not affected by its handler. *)
Lemma returns_try {A} P Q (body : M Σ A) (handler : jsval → M Σ A) :
  Spec.returns P body Q → Spec.returns P (try_catch body handler) Q.
Proof.
  intros Hb s HP. destruct (Hb s HP) as [Hok HQ]. unfold try_catch.
  by destruct (body s) as [[x|e|] s'].
Qed.

Lemma keeps_act (Rel : Σ → Σ → Prop) (f : Σ → Σ) :
  (∀ s, Rel s (f s)) → Spec.keeps Rel (act f).
Proof. intros Hf s. apply Hf. Qed.

Lemma passes_returns {A} (E : jsval → Prop) P Q (m : M Σ A) :
  Spec.returns P m Q → Spec.passes E P m Q.
Proof. intros Hm s HP. left. by apply Hm. Qed.

Lemma passes_bind {A B} (E : jsval → Prop) P Q R (m : M Σ A) (k : A → M Σ B) :
  Spec.passes E P m Q → (∀ x, Spec.passes E Q (k x) R) → Spec.passes E P (m_bind m k) R.
Proof.
  intros Hm Hk s HP. unfold m_bind. destruct (Hm s HP) as [[Hok HQ]|(e & He & HE)].
  - destruct (m s) as [[x|e|] s']; cbn [fst snd] in *; [|done..]. by apply Hk.
  - right. exists e. destruct (m s) as [[x|e'|] s']; cbn [fst snd] in *;
      [discriminate He| |discriminate He].
    injection He as ->. by split.
Qed.

Lemma passes_weaken {A} (E : jsval → Prop) P P' Q Q' (m : M Σ A) :
  (∀ s, P' s → P s) → (∀ s, Q s → Q' s) → Spec.passes E P m Q → Spec.passes E P' m Q'.
Proof.
  intros HP HQ Hm s Hs. destruct (Hm s (HP s Hs)) as [[Hok H]|H]; [left|by right].
  split; [done|]. by apply HQ.
Qed.

(** A handler that throws what it caught: the block throws what its body
    throws. *)
Lemma passes_try_rethrow {A} (E : jsval → Prop) P Q (body : M Σ A)
    (handler : jsval → M Σ A) :
  (∀ e s, (handler e s).1 = Thrown e) →
  Spec.passes E P body Q → Spec.passes E P (try_catch body handler) Q.
Proof.
  intros Hh Hb s HP. unfold try_catch.
  destruct (Hb s HP) as [[Hok HQ]|(e & He & HE)].
  - left. by destruct (body s) as [[x|e|] s'].
  - right. exists e. destruct (body s) as [[x|e'|] s']; cbn [fst snd] in *;
      [discriminate He| |discriminate He].
    injection He as ->. by rewrite Hh.
Qed.

End OutcomeRules.

(** ** Component lifecycle *)

Section LifecycleFacts.

Import BaseComponent.

Context {C X : Type} `{EqDecision C}.
Variable run : C → option string → list jsval → BaseComponent.Sys C X
               → option jsval * BaseComponent.Sys C X.
Variable methods : Methods C X.

(** Hooks, listeners and the methods of the subclass leave the lifecycle
    alone. *)
Hypothesis run_lifecycle : ∀ c ctx a b w, Spec.lifecycle w (run c ctx a (b, w)).2.2.
Hypothesis methods_lifecycle : Spec.lifecycle_methods methods.

Implicit Types (s : BaseComponent.Sys C X).

#[local] Instance lifecycle_preorder : PreOrder (@Spec.lifecycle C X).
Proof.
  split.
  - intros w. by repeat split.
  - intros w1 w2 w3 (A1 & B1 & C1 & D1 & E1 & F1) (A2 & B2 & C2 & D2 & E2 & F2).
    repeat split; congruence.
Qed.

#[local] Instance lifecycle_step_preorder : PreOrder (@Spec.lifecycle_step C X).
Proof.
  split.
  - intros s. unfold Spec.lifecycle_step. reflexivity.
  - intros s1 s2 s3 H1 H2. unfold Spec.lifecycle_step in *. by etrans.
Qed.

Lemma life_say l m s : Spec.lifecycle_step s (say l m s).
Proof. by repeat split. Qed.

Lemma life_browser (f : Browser → Browser) s : Spec.lifecycle_step s (on_browser f s).
Proof. by repeat split. Qed.

Lemma life_comp (f : Component C X → Component C X) s :
  (∀ c, config (f c) = config c ∧ children (f c) = children c ∧
        dependencies (f c) = dependencies c ∧ state (f c) = state c) →
  Spec.lifecycle_step s (on_comp f s).
Proof.
  intros Hf. destruct (Hf (comp s.2)) as (H1 & H2 & H3 & H4).
  unfold Spec.lifecycle_step, Spec.lifecycle, on_comp. cbn [fst snd comp].
  rewrite H1, H2, H3, H4. by repeat split.
Qed.

Lemma life_run c ctx a s : Spec.lifecycle_step s (run c ctx a s).2.
Proof. destruct s as [b w]. apply run_lifecycle. Qed.

Lemma life_bus (b : EventBus.Bus C) s : Spec.lifecycle_step s (b, s.2).
Proof. by repeat split. Qed.

Lemma life_emit ev data s : Spec.lifecycle_step s (BaseComponent.emit run ev data s).2.
Proof.
  unfold BaseComponent.emit.
  exact (emit_rel run Spec.lifecycle run_lifecycle ev _ s).
Qed.

Lemma life_runHooks h data s : Spec.lifecycle_step s (runHooks run h data s).
Proof.
  unfold runHooks. destruct (hooks (comp s.2) !! h) as [hs|]; [|reflexivity].
  assert (G : ∀ s0 s1, Spec.lifecycle_step s0 s1 →
    Spec.lifecycle_step s0
      (foldl (λ s2 hook,
                match run hook (Some (id (comp s2.2))) [VObj data] s2 with
                | (None, s') => s'
                | (Some _, s') => say ERROR ("❌ Error in " +:+ h +:+ " hook:") s'
                end) s1 hs)).
  { induction hs as [|hook hs IH]; intros s0 s1 H01; cbn [foldl]; [done|].
    apply IH. etrans; [exact H01|].
    pose proof (life_run hook (Some (id (comp s1.2))) [VObj data] s1) as Hr.
    destruct (run hook _ _ s1) as [[e|] s']; cbn [snd] in Hr; [|done].
    etrans; [exact Hr|apply life_say]. }
  apply G. reflexivity.
Qed.

Lemma life_checkDependencies : Spec.keeps Spec.lifecycle_step (@checkDependencies C X).
Proof.
  intros s. unfold checkDependencies.
  destruct (dependencies (comp s.2)); [reflexivity|].
  destruct (filter _ _); apply life_say.
Qed.

Lemma life_appendChild n e s :
  Spec.lifecycle_step s (on_browser (λ _, (appendChild n e (browser s.2)).2) s).
Proof. apply life_browser. Qed.

Lemma life_append_to_container : Spec.keeps Spec.lifecycle_step (@append_to_container C X).
Proof.
  intros s. unfold append_to_container.
  destruct (element (comp s.2)) as [e|]; [|reflexivity].
  destruct (container (comp s.2)) as [k|]; [|reflexivity].
  unfold m_bind, resolve_container.
  destruct k as [n|first rest].
  - cbn [m_ret fst snd]. pose proof (life_appendChild n e s) as L.
    by destruct (appendChild n e (browser s.2)) as [r br].
  - destruct (querySelector (browser s.2) (String first rest)) as [|[n|]];
      [reflexivity| |].
    + match goal with |- context [on_comp ?f s] =>
        assert (H1 : Spec.lifecycle_step s (on_comp f s)) by (by apply life_comp);
        set (s1 := on_comp f s) in *
      end.
      pose proof (life_appendChild n e s1) as L.
      destruct (appendChild n e (browser s1.2)) as [r br].
      cbn [fst snd] in *. by etrans.
    + cbn [m_ret fst snd]. by apply life_comp.
Qed.

(** The step returns, or it throws an error of the document. *)
Lemma append_to_container_outcome s :
  (append_to_container s).1 = Ok () ∨
  ∃ e, (append_to_container (C := C) (X := X) s).1 = Thrown e ∧ Spec.dom_error e.
Proof.
  unfold append_to_container.
  destruct (element (comp s.2)) as [e|]; [|by left].
  destruct (container (comp s.2)) as [k|]; [|by left].
  assert (A : ∀ n s0,
            (let '(r, br) := appendChild n e (browser s0.2) in
             (r, on_browser (λ _, br) s0)).1 = Ok () ∨
            ∃ e0, (let '(r, br) := appendChild n e (browser s0.2) in
                   (r, on_browser (λ _, br) s0)).1 = Thrown e0 ∧ Spec.dom_error e0).
  { intros n s0. unfold appendChild. destruct (contains _ _ _ _); [|by left].
    right. eexists. split; [reflexivity|]. by right. }
  unfold m_bind, resolve_container. destruct k as [n|first rest].
  - apply A.
  - destruct (querySelector (browser s.2) (String first rest)) as [|[n|]].
    + right. eexists. split; [reflexivity|]. left. by eexists.
    + apply A.
    + by left.
Qed.

Lemma life_detach s : Spec.lifecycle_step s (detach s).
Proof. unfold detach. destruct (element _); [apply life_browser|reflexivity]. Qed.

Lemma life_removeAllEventListeners s : Spec.lifecycle_step s (removeAllEventListeners s).
Proof.
  unfold removeAllEventListeners. etrans; [|by apply life_comp]. apply life_bus.
Qed.

Lemma life_removeAllDOMEventListeners s :
  Spec.lifecycle_step s (removeAllDOMEventListeners s).
Proof. unfold removeAllDOMEventListeners. by apply life_comp. Qed.

(** [setState]: the keys it is given are set when state tracking is on,
    the other keys and the rest of the component are kept. *)
Lemma setState_config new s :
  config (comp (setState run new s).2) = config (comp s.2) ∧
  children (comp (setState run new s).2) = children (comp s.2) ∧
  dependencies (comp (setState run new s).2) = dependencies (comp s.2).
Proof.
  unfold setState. destruct (negb _); [done|]. cbv zeta.
  match goal with |- context [(BaseComponent.emit run ?ev ?d ?x).2] =>
    destruct (life_emit ev d x) as (H1 & H2 & H3 & _); rewrite H1, H2, H3
  end.
  by destruct (cfg debugMode _).
Qed.

Lemma setState_sets new s k v :
  Spec.tracking s → new !! k = Some v →
  k ∈ ["initialized"; "mounted"; "destroyed"] →
  prop (state (comp (setState run new s).2)) k = v.
Proof.
  unfold Spec.tracking. intros Ht Hk Hin. unfold setState. rewrite Ht. cbv zeta.
  cbn [negb].
  match goal with |- context [(BaseComponent.emit run ?ev ?d ?x).2] =>
    destruct (life_emit ev d x) as (_ & _ & _ & H1 & H2 & H3)
  end.
  assert (E : ∀ y, y = on_comp (with_state (new ∪ state (comp s.2))) s ∨
                   y = say DEBUG "🔄 State updated:"
                         (on_comp (with_state (new ∪ state (comp s.2))) s) →
                   prop (state (comp y.2)) k = v).
  { intros y [->| ->]; cbn [fst snd comp state on_comp with_state say];
      by apply prop_union_l. }
  apply elem_of_cons in Hin as [->|Hin]; [rewrite H1|
    apply elem_of_cons in Hin as [->|Hin]; [rewrite H2|
      apply elem_of_cons in Hin as [->|Hin]; [rewrite H3|by apply elem_of_nil in Hin]]];
    apply E; destruct (cfg debugMode _); auto.
Qed.

Lemma setState_other new s k :
  new !! k = None →
  k ∈ ["initialized"; "mounted"; "destroyed"] →
  prop (state (comp (setState run new s).2)) k = prop (state (comp s.2)) k.
Proof.
  intros Hk Hin. unfold setState. destruct (negb _); [done|]. cbv zeta.
  match goal with |- context [(BaseComponent.emit run ?ev ?d ?x).2] =>
    destruct (life_emit ev d x) as (_ & _ & _ & H1 & H2 & H3)
  end.
  assert (E : ∀ y, y = on_comp (with_state (new ∪ state (comp s.2))) s ∨
                   y = say DEBUG "🔄 State updated:"
                         (on_comp (with_state (new ∪ state (comp s.2))) s) →
                   prop (state (comp y.2)) k = prop (state (comp s.2)) k).
  { intros y [->| ->]; cbn [fst snd comp state on_comp with_state say];
      by apply prop_union_r. }
  apply elem_of_cons in Hin as [->|Hin]; [rewrite H1|
    apply elem_of_cons in Hin as [->|Hin]; [rewrite H2|
      apply elem_of_cons in Hin as [->|Hin]; [rewrite H3|by apply elem_of_nil in Hin]]];
    apply E; destruct (cfg debugMode _); auto.
Qed.

(** What a lifecycle-preserving step keeps. *)
Lemma stable_tracking s s' : Spec.lifecycle_step s s' → Spec.tracking s → Spec.tracking s'.
Proof. intros (H & _). unfold Spec.tracking, cfg. by rewrite H. Qed.

Lemma stable_initialized s s' :
  Spec.lifecycle_step s s' → Spec.initialized s → Spec.initialized s'.
Proof. intros (_ & _ & _ & H & _). unfold Spec.initialized, flag. by rewrite H. Qed.

Lemma stable_mounted s s' : Spec.lifecycle_step s s' → Spec.mounted s → Spec.mounted s'.
Proof. intros (_ & _ & _ & _ & H & _). unfold Spec.mounted, flag. by rewrite H. Qed.

Lemma stable_destroyed s s' :
  Spec.lifecycle_step s s' → Spec.destroyed s → Spec.destroyed s'.
Proof.
  intros (_ & _ & _ & H1 & H2 & H3). unfold Spec.destroyed. by rewrite H1, H2, H3.
Qed.

Lemma stable_dependencies s s' :
  Spec.lifecycle_step s s' → dependencies (comp s.2) = [] → dependencies (comp s'.2) = [].
Proof. intros (_ & _ & H & _). by rewrite H. Qed.

Lemma stable_children cs s s' :
  Spec.lifecycle_step s s' → children (comp s.2) = cs → children (comp s'.2) = cs.
Proof. intros (_ & H & _). by rewrite H. Qed.

Lemma keeps_when (cond : BaseComponent.Sys C X → bool) (m : M (BaseComponent.Sys C X) ()) :
  Spec.keeps Spec.lifecycle_step m → Spec.keeps Spec.lifecycle_step (when cond m).
Proof. intros Hm s. unfold when. destruct (cond s); [apply Hm|reflexivity]. Qed.

Lemma yields_when P Q (cond : BaseComponent.Sys C X → bool) (m : M (BaseComponent.Sys C X) ()) :
  Spec.yields (λ s, P s ∧ cond s = true) m Q →
  (∀ s, P s → cond s = false → Q s) →
  Spec.yields P (when cond m) Q.
Proof.
  intros Hm Hs s HP. unfold when. destruct (cond s) eqn:E.
  - by apply Hm.
  - intros _. by apply Hs.
Qed.

Lemma returns_when P Q (cond : BaseComponent.Sys C X → bool) (m : M (BaseComponent.Sys C X) ()) :
  Spec.returns (λ s, P s ∧ cond s = true) m Q →
  (∀ s, P s → cond s = false → Q s) →
  Spec.returns P (when cond m) Q.
Proof.
  intros Hm Hs s HP. unfold when. destruct (cond s) eqn:E.
  - by apply Hm.
  - split; [done|]. by apply Hs.
Qed.

(** The [catch] blocks of [init] and [mount] throw again. *)
Lemma rethrows what e s :
  is_ok ((act (setState run {[ "error" := e ]}) ;;; handle_failure run what true e)%js s).1
  = false.
Proof. reflexivity. Qed.

Lemma rethrows_same what e s :
  ((act (setState run {[ "error" := e ]}) ;;; handle_failure run what true e)%js s).1
  = Thrown e.
Proof. reflexivity. Qed.

Ltac life :=
  first
    [ apply life_checkDependencies
    | apply keeps_when; life
    | apply keeps_act; intros ?; life
    | apply life_say | apply life_runHooks | apply life_emit
    | apply life_append_to_container | apply life_detach
    | apply life_removeAllEventListeners | apply life_removeAllDOMEventListeners
    | apply life_browser
    | by apply life_comp
    | apply (proj1 methods_lifecycle)
    | apply (proj1 (proj2 methods_lifecycle))
    | apply (proj1 (proj2 (proj2 methods_lifecycle)))
    | apply (proj1 (proj2 (proj2 (proj2 methods_lifecycle))))
    | apply (proj1 (proj2 (proj2 (proj2 (proj2 methods_lifecycle)))))
    | apply (proj2 (proj2 (proj2 (proj2 (proj2 methods_lifecycle)))))
    | reflexivity ].

Ltac stable_goal :=
  lazymatch goal with
  | |- _ ∧ _ => split; stable_goal
  | |- _ =>
      eauto using stable_tracking, stable_initialized, stable_mounted, stable_destroyed,
                  stable_dependencies, stable_children
  end.

Ltac stable :=
  let s := fresh "s" in let s' := fresh "s" in let H := fresh "H" in
  intros s s' H; intros;
  repeat match goal with
         | H' : _ ∧ _ |- _ => destruct H'
         end;
  unfold Spec.independent in *;
  stable_goal.

(** One step that keeps the lifecycle, when the block returns. *)
Ltac keep P :=
  eapply (yields_bind P P);
  [ apply (yields_keeps Spec.lifecycle_step); [stable|life] | intros _ ].

Ltac keep_last P :=
  apply (yields_keeps Spec.lifecycle_step P); [stable|life].

(** *** [init] and [mount], when they return *)

Lemma init_with_yields (mount' : M (BaseComponent.Sys C X) ()) :
  Spec.yields (λ s, Spec.tracking s ∧ Spec.initialized s) mount'
              (λ s, Spec.tracking s ∧ Spec.initialized s) →
  Spec.yields Spec.tracking (init_with run methods mount')
              (λ s, Spec.tracking s ∧ Spec.initialized s).
Proof.
  intros Hm s Ht. unfold init_with. destruct (flag "initialized" s) eqn:Hi.
  - intros _. cbn [snd]. split.
    + by eapply stable_tracking; [apply life_say|].
    + by eapply stable_initialized; [apply life_say|].
  - refine (yields_try_rethrow Spec.tracking
              (λ s, Spec.tracking s ∧ Spec.initialized s) _ _
              (rethrows "initialize") _ s Ht).
    keep (@Spec.tracking C X). keep (@Spec.tracking C X). keep (@Spec.tracking C X).
    keep (@Spec.tracking C X). keep (@Spec.tracking C X).
    eapply (yields_bind _ (λ s, Spec.tracking s ∧ Spec.initialized s)).
    { apply yields_act. intros s0 H0. split.
      - unfold Spec.tracking, cfg. by rewrite (proj1 (setState_config _ s0)).
      - unfold Spec.initialized, flag.
        rewrite (setState_sets _ s0 "initialized" (VBool true) H0); [done| |].
        + apply lookup_singleton_eq.
        + repeat constructor. }
    intros _. keep (λ s : BaseComponent.Sys C X, Spec.tracking s ∧ Spec.initialized s).
    eapply (yields_bind _ (λ s, Spec.tracking s ∧ Spec.initialized s)).
    { apply yields_when.
      - eapply yields_weaken; [| |exact Hm]; [by intros ? [? _]|done].
      - done. }
    intros _. keep (λ s : BaseComponent.Sys C X, Spec.tracking s ∧ Spec.initialized s).
    keep_last (λ s : BaseComponent.Sys C X, Spec.tracking s ∧ Spec.initialized s).
Qed.

Lemma setState_flag k v (P : BaseComponent.Sys C X → Prop) s :
  Spec.tracking s →
  k ∈ ["initialized"; "mounted"; "destroyed"] →
  Spec.tracking (setState run {[ k := v ]} s) ∧
  prop (state (comp (setState run {[ k := v ]} s).2)) k = v ∧
  (∀ k', k' ≠ k → k' ∈ ["initialized"; "mounted"; "destroyed"] →
         prop (state (comp (setState run {[ k := v ]} s).2)) k'
         = prop (state (comp s.2)) k') ∧
  dependencies (comp (setState run {[ k := v ]} s).2) = dependencies (comp s.2).
Proof.
  intros Ht Hk. split; [|split; [|split]].
  - unfold Spec.tracking, cfg. by rewrite (proj1 (setState_config _ s)).
  - apply setState_sets; [done| |done]. apply lookup_singleton_eq.
  - intros k' Hne Hk'. apply setState_other; [|done]. by apply lookup_singleton_ne.
  - apply setState_config.
Qed.

Lemma mounting_yields k :
  Spec.yields (λ s, Spec.tracking s ∧ Spec.initialized s) (mounting run methods k)
              (λ s, Spec.tracking s ∧ Spec.initialized s ∧ Spec.mounted s).
Proof.
  unfold mounting. apply (yields_try_rethrow _ _ _ _ (rethrows "mount")).
  keep (λ s : BaseComponent.Sys C X, Spec.tracking s ∧ Spec.initialized s).
  eapply (yields_bind _ (λ s, Spec.tracking s ∧ Spec.initialized s)).
  { apply (yields_keeps Spec.lifecycle_step); [stable|].
    apply keeps_act. intros s. destruct k; [by apply life_comp|reflexivity]. }
  intros _.
  eapply (yields_bind _ (λ s, Spec.tracking s ∧ Spec.initialized s)).
  { apply (yields_keeps Spec.lifecycle_step); [stable|].
    intros s. destruct (container (comp s.2)); reflexivity. }
  intros _.
  keep (λ s : BaseComponent.Sys C X, Spec.tracking s ∧ Spec.initialized s).
  keep (λ s : BaseComponent.Sys C X, Spec.tracking s ∧ Spec.initialized s).
  keep (λ s : BaseComponent.Sys C X, Spec.tracking s ∧ Spec.initialized s).
  keep (λ s : BaseComponent.Sys C X, Spec.tracking s ∧ Spec.initialized s).
  keep (λ s : BaseComponent.Sys C X, Spec.tracking s ∧ Spec.initialized s).
  eapply (yields_bind _ (λ s, Spec.tracking s ∧ Spec.initialized s ∧ Spec.mounted s)).
  { apply yields_act. intros s0 [H0 H1].
    destruct (setState_flag "mounted" (VBool true) (λ _, True) s0 H0)
      as (G1 & G2 & G3 & _); [repeat constructor|].
    split; [done|]. unfold Spec.initialized, Spec.mounted, flag.
    rewrite G2, G3; [done..|repeat constructor]. }
  intros _.
  keep (λ s : BaseComponent.Sys C X, Spec.tracking s ∧ Spec.initialized s ∧ Spec.mounted s).
  keep (λ s : BaseComponent.Sys C X, Spec.tracking s ∧ Spec.initialized s ∧ Spec.mounted s).
  keep_last (λ s : BaseComponent.Sys C X,
               Spec.tracking s ∧ Spec.initialized s ∧ Spec.mounted s).
Qed.

(** [mount] establishes both flags whenever it returns. *)
Lemma mount_yields budget k :
  Spec.yields (λ s, Spec.tracking s ∧ (Spec.mounted s → Spec.initialized s))
              (mount run methods budget k)
              (λ s, Spec.tracking s ∧ Spec.initialized s ∧ Spec.mounted s).
Proof.
  revert k. induction budget as [|budget IH]; intros k s [Ht Hmi]; [done|].
  cbn [mount]. destruct (flag "mounted" s) eqn:Hm.
  - intros _. cbn [snd]. specialize (Hmi Hm).
    split; [|split].
    + by eapply stable_tracking; [apply life_say|].
    + by eapply stable_initialized; [apply life_say|].
    + by eapply stable_mounted; [apply life_say|].
  - refine (yields_bind Spec.tracking (λ s, Spec.tracking s ∧ Spec.initialized s)
              (λ s, Spec.tracking s ∧ Spec.initialized s ∧ Spec.mounted s)
              _ _ _ _ s Ht).
    + apply yields_when.
      * eapply yields_weaken; [| |apply init_with_yields].
        -- by intros ? [? _].
        -- done.
        -- eapply yields_weaken; [| |apply (IH None)].
           ++ intros s0 [H0 H1]. by split.
           ++ intros s0 (H0 & H1 & H2). by split.
      * intros s0 H0 Hc. split; [done|]. unfold Spec.initialized.
        by apply negb_false_iff.
    + intros _. apply mounting_yields.
Qed.

(** *** [mount], with enough budget *)

Ltac returning :=
  intros ?;
  first
    [ reflexivity
    | match goal with
      | Hr : Spec.methods_return _ |- _ =>
          destruct Hr as (?R1 & ?R2 & ?R3 & ?R4 & ?R5); unfold when;
          try match goal with |- context [if ?c then _ else _] => destruct c end;
          rewrite ?R1, ?R2, ?R3, ?R4, ?R5; reflexivity
      end ].

Ltac pass P :=
  eapply (returns_bind P P);
  [ apply (returns_keeps Spec.lifecycle_step); [stable|life|returning] | intros _ ].

Ltac pass_last P :=
  apply (returns_keeps Spec.lifecycle_step P); [stable|life|returning].

(** The same steps in a block that may end with an error of the
    document. *)
Ltac go P :=
  eapply (passes_bind Spec.dom_error P P);
  [ apply passes_returns, (returns_keeps Spec.lifecycle_step); [stable|life|returning]
  | intros _ ].

Ltac go_last P :=
  apply passes_returns, (returns_keeps Spec.lifecycle_step P); [stable|life|returning].

Lemma append_to_container_passes (P : BaseComponent.Sys C X → Prop) :
  (∀ s s', Spec.lifecycle_step s s' → P s → P s') →
  Spec.passes Spec.dom_error P append_to_container P.
Proof.
  intros Hst s HP. destruct (append_to_container_outcome s) as [Hok|He]; [left|by right].
  split; [by rewrite Hok|]. exact (Hst s _ (life_append_to_container s) HP).
Qed.

Lemma init_with_passes (mount' : M (BaseComponent.Sys C X) ()) :
  Spec.methods_return methods →
  Spec.passes Spec.dom_error
    (λ s, (Spec.tracking s ∧ Spec.independent s ∧ Spec.initialized s) ∧
          is_Some (container (comp s.2)))
    mount'
    (λ s, Spec.tracking s ∧ Spec.independent s ∧ Spec.initialized s) →
  Spec.passes Spec.dom_error
    (λ s, Spec.tracking s ∧ Spec.independent s)
    (init_with run methods mount')
    (λ s, Spec.tracking s ∧ Spec.independent s ∧ Spec.initialized s).
Proof.
  intros Hret Hm s HP. unfold init_with. destruct (flag "initialized" s) eqn:Hi.
  - left. split; [done|]. cbn [snd]. destruct HP as [H1 H2]. split; [|split].
    + by eapply stable_tracking; [apply life_say|].
    + by eapply stable_dependencies; [apply life_say|].
    + by eapply stable_initialized; [apply life_say|].
  - refine (passes_try_rethrow Spec.dom_error
              (λ s, Spec.tracking s ∧ Spec.independent s)
              (λ s, Spec.tracking s ∧ Spec.independent s ∧ Spec.initialized s)
              _ _ (rethrows_same "initialize") _ s HP).
    go (λ s : BaseComponent.Sys C X, Spec.tracking s ∧ Spec.independent s).
    go (λ s : BaseComponent.Sys C X, Spec.tracking s ∧ Spec.independent s).
    eapply (passes_bind _ _ (λ s, Spec.tracking s ∧ Spec.independent s)).
    { apply passes_returns. intros s0 [H0 H1]. unfold checkDependencies.
      unfold Spec.independent in H1. rewrite H1. done. }
    intros _.
    go (λ s : BaseComponent.Sys C X, Spec.tracking s ∧ Spec.independent s).
    go (λ s : BaseComponent.Sys C X, Spec.tracking s ∧ Spec.independent s).
    eapply (passes_bind _ _
              (λ s, Spec.tracking s ∧ Spec.independent s ∧ Spec.initialized s)).
    { apply passes_returns, returns_act. intros s0 [H0 H1].
      destruct (setState_flag "initialized" (VBool true) (λ _, True) s0 H0)
        as (G1 & G2 & G3 & G4); [repeat constructor|].
      split; [done|]. split.
      - unfold Spec.independent. by rewrite G4.
      - unfold Spec.initialized, flag. by rewrite G2. }
    intros _.
    go (λ s : BaseComponent.Sys C X,
          Spec.tracking s ∧ Spec.independent s ∧ Spec.initialized s).
    eapply (passes_bind _ _
              (λ s, Spec.tracking s ∧ Spec.independent s ∧ Spec.initialized s)).
    { intros s0 H0. unfold when.
      destruct (cfg autoMount s0 && bool_decide (is_Some (container (comp s0.2))))
        eqn:Hc; [|by left].
      apply Hm. split; [done|].
      apply andb_true_iff in Hc as [_ Hc]. by apply bool_decide_eq_true in Hc. }
    intros _.
    go (λ s : BaseComponent.Sys C X,
          Spec.tracking s ∧ Spec.independent s ∧ Spec.initialized s).
    go_last (λ s : BaseComponent.Sys C X,
               Spec.tracking s ∧ Spec.independent s ∧ Spec.initialized s).
Qed.

Lemma mounting_passes k :
  Spec.methods_return methods →
  Spec.passes Spec.dom_error
    (λ s, (Spec.tracking s ∧ Spec.independent s ∧ Spec.initialized s) ∧
          Spec.contained k s)
    (mounting run methods k)
    (λ s, Spec.tracking s ∧ Spec.independent s ∧ Spec.initialized s ∧ Spec.mounted s).
Proof.
  intros Hret. unfold mounting.
  apply (passes_try_rethrow _ _ _ _ _ (rethrows_same "mount")).
  eapply (passes_bind _ _
            (λ s, (Spec.tracking s ∧ Spec.independent s ∧ Spec.initialized s) ∧
                  Spec.contained k s)).
  { apply passes_returns, returns_act. intros s0 [(H0 & H1 & H2) Hc]. split; [|exact Hc].
    split; [|split].
    - by eapply stable_tracking; [apply life_say|].
    - by eapply stable_dependencies; [apply life_say|].
    - by eapply stable_initialized; [apply life_say|]. }
  intros _.
  eapply (passes_bind _ _
            (λ s, (Spec.tracking s ∧ Spec.independent s ∧ Spec.initialized s) ∧
                  is_Some (container (comp s.2)))).
  { apply passes_returns, returns_act. intros s0 [(H0 & H1 & H2) Hc].
    destruct k as [c|].
    - split; [|by eexists].
      assert (L : Spec.lifecycle_step s0 (on_comp (with_container (Some c)) s0))
        by (by apply life_comp).
      split; [|split].
      + by eapply stable_tracking.
      + by eapply stable_dependencies.
      + by eapply stable_initialized.
    - split; [done|]. destruct Hc as [Hc|Hc]; [by destruct Hc|done]. }
  intros _.
  eapply (passes_bind _ _
            (λ s, Spec.tracking s ∧ Spec.independent s ∧ Spec.initialized s)).
  { apply passes_returns. intros s0 [H0 [c Hc]]. rewrite Hc. done. }
  intros _.
  go (λ s : BaseComponent.Sys C X,
        Spec.tracking s ∧ Spec.independent s ∧ Spec.initialized s).
  go (λ s : BaseComponent.Sys C X,
        Spec.tracking s ∧ Spec.independent s ∧ Spec.initialized s).
  go (λ s : BaseComponent.Sys C X,
        Spec.tracking s ∧ Spec.independent s ∧ Spec.initialized s).
  eapply (passes_bind _ _
            (λ s, Spec.tracking s ∧ Spec.independent s ∧ Spec.initialized s)).
  { apply append_to_container_passes. stable. }
  intros _.
  go (λ s : BaseComponent.Sys C X,
        Spec.tracking s ∧ Spec.independent s ∧ Spec.initialized s).
  eapply (passes_bind _ _
            (λ s, Spec.tracking s ∧ Spec.independent s ∧ Spec.initialized s ∧
                  Spec.mounted s)).
  { apply passes_returns, returns_act. intros s0 (H0 & H1 & H2).
    destruct (setState_flag "mounted" (VBool true) (λ _, True) s0 H0)
      as (G1 & G2 & G3 & G4); [repeat constructor|].
    split; [done|]. split; [|split].
    - unfold Spec.independent. by rewrite G4.
    - unfold Spec.initialized, flag. rewrite G3; [done..|repeat constructor].
    - unfold Spec.mounted, flag. by rewrite G2. }
  intros _.
  go (λ s : BaseComponent.Sys C X,
        Spec.tracking s ∧ Spec.independent s ∧ Spec.initialized s ∧ Spec.mounted s).
  go (λ s : BaseComponent.Sys C X,
        Spec.tracking s ∧ Spec.independent s ∧ Spec.initialized s ∧ Spec.mounted s).
  go_last (λ s : BaseComponent.Sys C X,
             Spec.tracking s ∧ Spec.independent s ∧ Spec.initialized s ∧ Spec.mounted s).
Qed.

Lemma mount_passes_initialized budget k :
  Spec.methods_return methods →
  Spec.passes Spec.dom_error
    (λ s, (Spec.tracking s ∧ Spec.independent s ∧ Spec.initialized s) ∧
          Spec.contained k s)
    (mount run methods (S budget) k)
    (λ s, Spec.tracking s ∧ Spec.independent s ∧ Spec.initialized s ∧ Spec.mounted s).
Proof.
  intros Hret s [(H0 & H1 & H2) Hc]. cbn [mount]. destruct (flag "mounted" s) eqn:Hm.
  - left. split; [done|]. cbn [snd]. split; [|split; [|split]].
    + by eapply stable_tracking; [apply life_say|].
    + by eapply stable_dependencies; [apply life_say|].
    + by eapply stable_initialized; [apply life_say|].
    + by eapply stable_mounted; [apply life_say|].
  - refine (passes_bind Spec.dom_error
              (λ s, (Spec.tracking s ∧ Spec.independent s ∧ Spec.initialized s) ∧
                    Spec.contained k s)
              (λ s, (Spec.tracking s ∧ Spec.independent s ∧ Spec.initialized s) ∧
                    Spec.contained k s)
              (λ s, Spec.tracking s ∧ Spec.independent s ∧ Spec.initialized s ∧
                    Spec.mounted s)
              _ _ _ _ s (conj (conj H0 (conj H1 H2)) Hc)).
    + apply passes_returns. intros s0 [(G0 & G1 & G2) Gc]. unfold when.
      unfold Spec.initialized in G2. rewrite G2. done.
    + intros _. by apply mounting_passes.
Qed.

(** [mount(container)], with a budget of two, returns unless the document
    refuses the container. *)
Lemma mount_passes budget k :
  Spec.methods_return methods →
  is_Some k →
  Spec.passes Spec.dom_error
    (λ s, Spec.tracking s ∧ Spec.independent s ∧ (Spec.mounted s → Spec.initialized s))
    (mount run methods (S (S budget)) k)
    (λ s, Spec.tracking s ∧ Spec.independent s ∧ Spec.initialized s ∧ Spec.mounted s).
Proof.
  intros Hret Hk s (H0 & H1 & H2). cbn [mount]. destruct (flag "mounted" s) eqn:Hm.
  - left. split; [done|]. cbn [snd]. specialize (H2 Hm). split; [|split; [|split]].
    + by eapply stable_tracking; [apply life_say|].
    + by eapply stable_dependencies; [apply life_say|].
    + by eapply stable_initialized; [apply life_say|].
    + by eapply stable_mounted; [apply life_say|].
  - refine (passes_bind Spec.dom_error
              (λ s, Spec.tracking s ∧ Spec.independent s)
              (λ s, Spec.tracking s ∧ Spec.independent s ∧ Spec.initialized s)
              (λ s, Spec.tracking s ∧ Spec.independent s ∧ Spec.initialized s ∧
                    Spec.mounted s)
              _ _ _ _ s (conj H0 H1)).
    + intros s0 [G0 G1]. unfold when. destruct (negb (flag "initialized" s0)) eqn:Gi.
      * apply (init_with_passes _ Hret); [|by split].
        eapply passes_weaken; [| |apply (mount_passes_initialized budget None Hret)].
        -- intros s1 [G Gc]. split; [done|]. by right.
        -- intros s1 (G2 & G3 & G4 & G5). done.
      * left. split; [done|]. split; [done|]. split; [done|].
        unfold Spec.initialized. by apply negb_false_iff.
    + intros _. eapply passes_weaken; [| |apply (mounting_passes k Hret)]; [|done].
      intros s0 G. split; [done|]. by left.
Qed.

(** [mount()] without a container. *)
Lemma mount_without_container budget s :
  flag "mounted" s = false →
  flag "initialized" s = true →
  container (comp s.2) = None →
  (mount run methods (S budget) None s).1
  = Thrown (VErr "No container specified for mounting").
Proof.
  intros Hm Hi Hc. cbn [mount]. rewrite Hm. unfold m_bind at 1, when. rewrite Hi.
  cbn [negb fst snd]. unfold mounting, try_catch.
  unfold m_bind at 1. cbn [act fst snd]. unfold m_bind at 1. cbn [act fst snd].
  unfold m_bind at 1. cbn [say fst snd comp]. by rewrite Hc.
Qed.

(** *** [destroy] *)

Lemma destroy_children_returns cs :
  Spec.quiet_children run cs →
  Spec.returns Spec.tracking (destroy_children run cs) Spec.tracking.
Proof.
  induction cs as [|[i [d|]] cs IH]; intros Hq s Ht; cbn [destroy_children].
  - done.
  - pose proof (Hq i d ltac:(left) (Some i) [] s) as Hr.
    pose proof (life_run d (Some i) [] s) as Hl.
    destruct (run d (Some i) [] s) as [[e|] s']; cbn [fst snd] in *; [done|].
    apply IH.
    + intros i' d' Hin. apply (Hq i' d'). by right.
    + by eapply stable_tracking.
  - apply IH; [|done]. intros i' d' Hin. apply (Hq i' d'). by right.
Qed.

Lemma cleanup_returns s :
  Spec.quiet_children run (children (comp s.2)) →
  (∀ s', (onDestroy methods s').1 = Ok ()) →
  Spec.returns (λ s', Spec.tracking s' ∧ children (comp s'.2) = children (comp s.2))
               (cleanup run methods) Spec.tracking.
Proof.
  intros Hq Hod. unfold cleanup.
  pass (λ s' : BaseComponent.Sys C X,
          Spec.tracking s' ∧ children (comp s'.2) = children (comp s.2)).
  pass (λ s' : BaseComponent.Sys C X,
          Spec.tracking s' ∧ children (comp s'.2) = children (comp s.2)).
  eapply (returns_bind _ Spec.tracking).
  { intros s0 [H0 H1]. rewrite H1. by apply destroy_children_returns. }
  intros _.
  eapply (returns_bind _ Spec.tracking).
  { apply returns_act. intros s0 H0. exact H0. }
  intros _.
  apply (returns_keeps Spec.lifecycle_step); [stable|life|].
  intros s0. by rewrite Hod.
Qed.

Lemma destroy_returns s :
  Spec.tracking s →
  flag "destroyed" s = false →
  Spec.quiet_children run (children (comp s.2)) →
  (∀ s', (onDestroy methods s').1 = Ok ()) →
  (destroy run methods s).1 = Ok () ∧ Spec.destroyed (destroy run methods s).2.
Proof.
  intros Ht Hd Hq Hod. unfold destroy. rewrite Hd.
  match goal with |- context [try_catch ?body ?handler s] =>
    assert (G : Spec.returns
                  (λ s', Spec.tracking s' ∧ children (comp s'.2) = children (comp s.2))
                  (try_catch body handler) Spec.destroyed)
  end.
  { apply returns_try.
    eapply (returns_bind _ Spec.tracking); [by apply cleanup_returns|]. intros _.
    pass (@Spec.tracking C X). pass (@Spec.tracking C X). pass (@Spec.tracking C X).
    eapply (returns_bind _ Spec.destroyed).
    { apply returns_act. intros s0 H0. unfold Spec.destroyed.
      rewrite (setState_sets _ s0 "destroyed" (VBool true) H0);
        [|done|repeat constructor].
      rewrite (setState_sets _ s0 "mounted" (VBool false) H0);
        [|done|repeat constructor].
      rewrite (setState_sets _ s0 "initialized" (VBool false) H0);
        [|done|repeat constructor].
      done. }
    intros _.
    pass (@Spec.destroyed C X). pass (@Spec.destroyed C X).
    pass_last (@Spec.destroyed C X). }
  destruct (G s (conj Ht eq_refl)) as [G1 G2]. split; [|exact G2].
  apply is_ok_unit. exact G1.
Qed.

(** The lifecycle flags through the steps of the clean-up. *)
Lemma life_destroy_children cs : Spec.keeps Spec.lifecycle_step (destroy_children run cs).
Proof.
  induction cs as [|[i [d|]] cs IH]; intros s; cbn [destroy_children];
    [reflexivity| |apply IH].
  pose proof (life_run d (Some i) [] s) as Hl.
  destruct (run d (Some i) [] s) as [[e|] s']; cbn [fst snd] in *; [done|].
  etrans; [exact Hl|apply IH].
Qed.

Lemma flags_step s s' : Spec.lifecycle_step s s' → Spec.same_flags s s'.
Proof. intros (_ & _ & _ & H1 & H2 & H3). by repeat split. Qed.

#[local] Instance same_flags_preorder : PreOrder (@Spec.same_flags C X).
Proof.
  split.
  - intros s. by repeat split.
  - intros s1 s2 s3 (A1 & A2 & A3) (B1 & B2 & B3). unfold Spec.same_flags.
    by rewrite B1, B2, B3.
Qed.

Lemma keeps_bind {A B} (Rel : BaseComponent.Sys C X → BaseComponent.Sys C X → Prop)
    `{!PreOrder Rel} (m : M (BaseComponent.Sys C X) A)
    (k : A → M (BaseComponent.Sys C X) B) :
  Spec.keeps Rel m → (∀ x, Spec.keeps Rel (k x)) → Spec.keeps Rel (m_bind m k).
Proof.
  intros Hm Hk s. unfold m_bind. specialize (Hm s).
  destruct (m s) as [[x|e|] s']; cbn [fst snd] in *; [|done..].
  etrans; [exact Hm|apply Hk].
Qed.

Lemma flags_cleanup : Spec.keeps Spec.same_flags (cleanup run methods).
Proof.
  unfold cleanup.
  apply keeps_bind; [tc_solve|apply keeps_act; intros s; apply flags_step, life_say|].
  intros _.
  apply keeps_bind; [tc_solve|apply keeps_act; intros s; apply flags_step, life_runHooks|].
  intros _.
  apply keeps_bind; [tc_solve|intros s; apply flags_step, life_destroy_children|].
  intros _.
  apply keeps_bind; [tc_solve| |].
  { apply keeps_act. intros s. by repeat split. }
  intros _ s. apply flags_step.
  apply (proj2 (proj2 (proj2 (proj2 (proj2 methods_lifecycle))))).
Qed.

(** When the clean-up throws, [destroy()] logs the error and returns,
    and the flags are what they were. *)
Lemma destroy_swallows s e :
  flag "destroyed" s = false →
  (cleanup run methods s).1 = Thrown e →
  (destroy run methods s).1 = Ok () ∧ Spec.same_flags s (destroy run methods s).2.
Proof.
  intros Hd He. unfold destroy. rewrite Hd. unfold try_catch.
  pose proof (flags_cleanup s) as Fc.
  destruct (cleanup run methods s) as [r s1] eqn:Ec. cbn [fst snd] in He, Fc. subst r.
  rewrite (bind_thrown _ _ s e s1 Ec).
  unfold handle_failure. cbn [fst snd]. split; [done|].
  etrans; [exact Fc|].
  match goal with |- Spec.same_flags s1 (BaseComponent.emit run ?ev ?d ?x).2 =>
    etrans; [|exact (flags_step _ _ (life_emit ev d x))]; apply flags_step, life_say
  end.
Qed.


End LifecycleFacts.


Lemma inert_lifecycle (c : unit) ctx a (b : EventBus.Bus unit)
    (w : BaseComponent.World unit unit) :
  Spec.lifecycle w (Scenario.inert c ctx a (b, w)).2.2.
Proof. by repeat split. Defined.

Lemma inert_lists_kept {X : Type} : Spec.lists_kept (@Scenario.inert X).
Proof. intros c ctx a s. reflexivity. Defined.

Lemma base_Methods_lifecycle :
  Spec.lifecycle_methods (@BaseComponent.base_Methods unit unit).
Proof.
  assert (H : Spec.keeps Spec.lifecycle_step (@BaseComponent.base_createElement unit unit)).
  { intros s. unfold BaseComponent.base_createElement.
    destruct (BaseComponent.element _); by repeat split. }
  unfold Spec.lifecycle_methods. repeat apply conj; try exact H;
    intros ?; by repeat split.
Defined.

Lemma base_Methods_return : Spec.methods_return (@BaseComponent.base_Methods unit unit).
Proof.
  unfold Spec.methods_return. repeat apply conj; intros ?; try reflexivity.
  cbn. unfold BaseComponent.base_createElement. by destruct (BaseComponent.element _).
Defined.

(** [mount] with a selector the document rejects, and with the element
    itself as the container. *)
Example mount_refused_by_document :
  (BaseComponent.mount Scenario.inert BaseComponent.base_Methods 2
     (BaseComponent.container_of "div[") Scenario.strict_widget).1
  = Thrown (VErr "SyntaxError: 'div[' is not a valid selector") ∧
  (BaseComponent.mount Scenario.inert BaseComponent.base_Methods 2
     (Some (BaseComponent.ContainerElement 1)) Scenario.widget).1
  = Thrown (VErr "HierarchyRequestError: The new child element contains the parent.").
Proof. vm_compute. done. Qed.


(** ** Storage keys *)

Section StorageKeys.

Import BaseComponent.

Lemma only_keys_one keys k (st st' : Storage) :
  k ∈ keys → touched st' = touched st ++ [k] → Spec.only_keys keys st st'.
Proof. intros Hk Ht. exists [k]. split; [done|]. by constructor. Qed.

Lemma only_keys_refl keys (st : Storage) : Spec.only_keys keys st st.
Proof. exists []. split; [by rewrite app_nil_r|constructor]. Qed.

Lemma only_keys_trans keys (st1 st2 st3 : Storage) :
  Spec.only_keys keys st1 st2 → Spec.only_keys keys st2 st3 → Spec.only_keys keys st1 st3.
Proof.
  intros (k1 & H1 & F1) (k2 & H2 & F2). exists (k1 ++ k2).
  split; [by rewrite H2, H1, app_assoc|]. by apply Forall_app.
Qed.

Lemma getItem_key key (st : Storage) : touched (getItem key st).2 = touched st ++ [key].
Proof. unfold getItem. by destruct (denied st). Qed.

Lemma setItem_key key v (st : Storage) : touched (setItem key v st).2 = touched st ++ [key].
Proof. unfold setItem. destruct (denied st); [done|]. by destruct (full st). Qed.

Lemma removeItem_key key (st : Storage) :
  touched (removeItem key st).2 = touched st ++ [key].
Proof. unfold removeItem. by destruct (denied st). Qed.

(** The application core. *)
Lemma loadConfig_key parse (s : App.Sys) :
  touched (App.loadConfig parse s).2.2 = touched s.2 ++ ["codenexlify-config"].
Proof.
  unfold App.loadConfig, try_catch, m_bind, App.storage_get.
  pose proof (getItem_key "codenexlify-config" s.2) as Hk.
  destruct (getItem _ _) as [[[text|]|e|] st]; cbn [fst snd] in *; try done.
  destruct (String.eqb text EmptyString); [done|].
  unfold App.lift. by destruct (parse text).
Qed.

Lemma loadUserPreferences_key parse (s : App.Sys) :
  touched (App.loadUserPreferences parse s).2.2
  = touched s.2 ++ ["codenexlify-preferences"].
Proof.
  unfold App.loadUserPreferences, try_catch, m_bind, App.storage_get.
  pose proof (getItem_key "codenexlify-preferences" s.2) as Hk.
  destruct (getItem _ _) as [[[text|]|e|] st]; cbn [fst snd] in *; try done.
  destruct (String.eqb text EmptyString); [done|].
  unfold App.lift. destruct (parse text) as [v| |]; [|done..].
  destruct (App.member_or v "theme" _); [|done..].
  cbn [act fst snd]. by destruct (App.member_or v "language" _).
Qed.

Lemma saveUserPreferences_key stringify (s : App.Sys) :
  touched (App.saveUserPreferences stringify s).2.2
  = touched s.2 ++ ["codenexlify-preferences"].
Proof.
  unfold App.saveUserPreferences, try_catch, App.storage_set.
  match goal with |- context [setItem ?k ?v ?st] =>
    pose proof (setItem_key k v st) as Hk; destruct (setItem k v st) as [[[]|e|] st']
  end; done.
Qed.

(** The stand-alone page script. *)
Lemma setupThemeToggle_key (br : Browser) :
  touched (localStorage (PageScript.setupThemeToggle br).2)
  = touched (localStorage br) ++ ["theme"].
Proof.
  unfold PageScript.setupThemeToggle.
  pose proof (getItem_key "theme" (localStorage br)) as Hk.
  by destruct (getItem _ _) as [[v|e|] st].
Qed.

Lemma themeToggle_click_key (br : Browser) :
  touched (localStorage (PageScript.themeToggle_click br).2)
  = touched (localStorage br) ++ ["theme"].
Proof.
  unfold PageScript.themeToggle_click.
  match goal with |- context [setItem ?k ?v ?st] =>
    pose proof (setItem_key k v st) as Hk; destruct (setItem k v st) as [r st']
  end. done.
Qed.

(** The theme manager's probe of storage. *)
Lemma isStorageAvailable_key (s : ThemeManager.Sys) :
  Spec.only_keys ["__theme_test__"] (localStorage (browser s.2))
    (localStorage (browser (ThemeManager.isStorageAvailable s).2.2)).
Proof.
  unfold ThemeManager.isStorageAvailable, try_catch, m_bind, storage_set, storage_remove.
  pose proof (setItem_key "__theme_test__" "__theme_test__" (localStorage (browser s.2)))
    as Hk.
  assert (Hin : "__theme_test__" ∈ ["__theme_test__"]) by left.
  destruct (setItem _ _ _) as [[[]|e|] st]; cbn [fst snd] in *;
    try (by eapply only_keys_one).
  pose proof (removeItem_key "__theme_test__" st) as Hr.
  cbn [on_browser fst snd browser localStorage set_localStorage].
  destruct (removeItem _ _) as [[[]|e|] st']; cbn [fst snd] in *;
    (eapply only_keys_trans; [by eapply only_keys_one|]; by eapply only_keys_one).
Qed.

(** The internationalization manager. *)
Lemma saveLanguagePreference_key {C : Type} (s : BaseComponent.Sys C I18nManager.Fields) :
  Spec.only_keys [I18nManager.storageKey (I18nManager.i18n_config s)]
    (localStorage (browser s.2))
    (localStorage (browser (I18nManager.saveLanguagePreference s).2.2)).
Proof.
  unfold I18nManager.saveLanguagePreference.
  destruct (negb _); [apply only_keys_refl|].
  unfold try_catch, m_bind, storage_set.
  match goal with |- context [setItem ?k ?v ?st] =>
    pose proof (setItem_key k v st) as Hk; destruct (setItem k v st) as [[[]|e|] st']
  end; cbn [fst snd] in *; (eapply only_keys_one; [left|exact Hk]).
Qed.

Lemma shouldDetectBrowserLanguage_key {C : Type}
    (s : BaseComponent.Sys C I18nManager.Fields) :
  Spec.only_keys [I18nManager.storageKey (I18nManager.i18n_config s)]
    (localStorage (browser s.2))
    (localStorage (browser (I18nManager.shouldDetectBrowserLanguage s).2.2)).
Proof.
  unfold I18nManager.shouldDetectBrowserLanguage.
  destruct (negb _); [apply only_keys_refl|].
  unfold m_bind, storage_get.
  match goal with |- context [getItem ?k ?st] =>
    pose proof (getItem_key k st) as Hk; destruct (getItem k st) as [[v|e|] st']
  end; cbn [fst snd] in *; (eapply only_keys_one; [left|exact Hk]).
Qed.

Lemma loadLanguagePreference_key {C : Type}
    (run : C → option string → list jsval → BaseComponent.Sys C I18nManager.Fields
           → option jsval * BaseComponent.Sys C I18nManager.Fields)
    (s : BaseComponent.Sys C I18nManager.Fields) :
  (∀ c ctx a b w, Spec.i18n_quiet w (run c ctx a (b, w)).2.2) →
  Spec.only_keys [I18nManager.storageKey (I18nManager.i18n_config s)]
    (localStorage (browser s.2))
    (localStorage (browser (I18nManager.loadLanguagePreference run s).2.2)).
Proof.
  intros Hq. unfold I18nManager.loadLanguagePreference.
  destruct (negb _); [apply only_keys_refl|].
  unfold try_catch, m_bind, storage_get.
  match goal with |- context [getItem ?k ?st] =>
    pose proof (getItem_key k st) as Hk; destruct (getItem k st) as [[[v|]|e|] st']
  end; cbn [fst snd] in *; try (eapply only_keys_one; [left|exact Hk]).
  destruct (String.eqb v EmptyString); [eapply only_keys_one; [left|exact Hk]|].
  destruct (I18nManager.available _ v) as [[]|]; cbn [fst snd];
    try (eapply only_keys_one; [left|exact Hk]).
  match goal with |- context [BaseComponent.setState run ?new ?x] =>
    destruct (quiet_setState run Hq new x ltac:(by apply lookup_singleton_ne))
      as (_ & _ & _ & Hs & _)
  end.
  cbn [say fst snd browser]. rewrite Hs.
  eapply only_keys_one; [left|exact Hk].
Qed.

End StorageKeys.

(** C4, as stated, fails: the application core reads its configuration
    under 'codenexlify-config' and writes the preferences under
    'codenexlify-preferences', whatever [JSON.parse] and [JSON.stringify]
    return. *)
Lemma app_uses_other_keys :
  (∀ parse, touched (App.loadConfig parse Scenario.app).2.2 = ["codenexlify-config"]) ∧
  (∀ stringify,
     touched (App.saveUserPreferences stringify Scenario.app).2.2
     = ["codenexlify-preferences"]).
Proof.
  split.
  - intros parse. apply (loadConfig_key parse Scenario.app).
  - intros stringify. apply (saveUserPreferences_key stringify Scenario.app).
Qed.

(** C4, amended. Local storage is accessed under six keys, each by its
    own module: the theme manager's operations and listeners use its
    configured key ('codenexlify-theme') and its probe of storage uses
    '__theme_test__'; the internationalization manager uses its
    configured key ('codenexlify-language'); the application core uses
    'codenexlify-config' and 'codenexlify-preferences'; the stand-alone
    page script uses 'theme'. *)
Theorem storage_keys_by_module :
  ThemeManager.storageKey ThemeManager.default_ThemeConfig = "codenexlify-theme" ∧
  I18nManager.storageKey I18nManager.default_I18nConfig = "codenexlify-language" ∧
  (∀ depth c ctx a b w, Spec.footprint w (ThemeManager.run depth c ctx a (b, w)).2.2) ∧
  (∀ depth theme s,
     Spec.footprint s.2 (ThemeManager.setTheme (ThemeManager.run depth) theme s).2.2) ∧
  (∀ depth s, Spec.footprint s.2 (ThemeManager.toggleTheme (ThemeManager.run depth) s).2) ∧
  (∀ depth s, Spec.footprint s.2 (ThemeManager.loadTheme (ThemeManager.run depth) s).2.2) ∧
  (∀ s, Spec.footprint s.2 (ThemeManager.saveTheme s).2.2) ∧
  (∀ s, Spec.only_keys ["__theme_test__"] (localStorage (BaseComponent.browser s.2))
          (localStorage (BaseComponent.browser (ThemeManager.isStorageAvailable s).2.2))) ∧
  (∀ (s : BaseComponent.Sys unit I18nManager.Fields),
     Spec.only_keys [I18nManager.storageKey (I18nManager.i18n_config s)]
       (localStorage (BaseComponent.browser s.2))
       (localStorage (BaseComponent.browser (I18nManager.saveLanguagePreference s).2.2))) ∧
  (∀ (s : BaseComponent.Sys unit I18nManager.Fields),
     Spec.only_keys [I18nManager.storageKey (I18nManager.i18n_config s)]
       (localStorage (BaseComponent.browser s.2))
       (localStorage (BaseComponent.browser
                        (I18nManager.shouldDetectBrowserLanguage s).2.2))) ∧
  (∀ run (s : BaseComponent.Sys unit I18nManager.Fields),
     (∀ c ctx a b w, Spec.i18n_quiet w (run c ctx a (b, w)).2.2) →
     Spec.only_keys [I18nManager.storageKey (I18nManager.i18n_config s)]
       (localStorage (BaseComponent.browser s.2))
       (localStorage (BaseComponent.browser
                        (I18nManager.loadLanguagePreference run s).2.2))) ∧
  (∀ parse s, touched (App.loadConfig parse s).2.2
              = touched s.2 ++ ["codenexlify-config"]) ∧
  (∀ parse s, touched (App.loadUserPreferences parse s).2.2
              = touched s.2 ++ ["codenexlify-preferences"]) ∧
  (∀ stringify s, touched (App.saveUserPreferences stringify s).2.2
                  = touched s.2 ++ ["codenexlify-preferences"]) ∧
  (∀ br, touched (localStorage (PageScript.setupThemeToggle br).2)
         = touched (localStorage br) ++ ["theme"]) ∧
  (∀ br, touched (localStorage (PageScript.themeToggle_click br).2)
         = touched (localStorage br) ++ ["theme"]).
Proof.
  repeat apply conj; try reflexivity.
  - apply footprint_run.
  - intros depth. apply footprint_setTheme. apply footprint_run.
  - intros depth. apply footprint_toggleTheme. apply footprint_run.
  - intros depth. apply footprint_loadTheme. apply footprint_run.
  - apply footprint_saveTheme.
  - apply isStorageAvailable_key.
  - apply saveLanguagePreference_key.
  - apply shouldDetectBrowserLanguage_key.
  - intros run s Hq. by apply loadLanguagePreference_key.
  - apply loadConfig_key.
  - apply loadUserPreferences_key.
  - apply saveUserPreferences_key.
  - apply setupThemeToggle_key.
  - apply themeToggle_click_key.
Qed.

Lemma inert_quiet (c : unit) ctx a (b : EventBus.Bus unit)
    (w : BaseComponent.World unit I18nManager.Fields) :
  Spec.i18n_quiet w (Scenario.inert c ctx a (b, w)).2.2.
Proof. by repeat split. Defined.

Lemma storage_keys_by_module_witness :
  Spec.only_keys [I18nManager.storageKey (I18nManager.i18n_config Scenario.i18n)]
    (localStorage (BaseComponent.browser Scenario.i18n.2))
    (localStorage (BaseComponent.browser
                     (I18nManager.loadLanguagePreference Scenario.inert Scenario.i18n).2.2)).
Proof.
  destruct storage_keys_by_module as (_ & _ & _ & _ & _ & _ & _ & _ & _ & _ & H & _).
  exact (H Scenario.inert Scenario.i18n inert_quiet).
Defined.

(** ** Timeouts and cancellation *)

Section Timeouts.

Import EventBus.

Lemma remove_first_length {C : Type} p (l r : list (Listener C)) :
  remove_first p l = Some r → length l = S (length r).
Proof.
  revert r. induction l as [|x l IH]; intros r; cbn [remove_first]; [done|].
  destruct (p x); [by intros [= ->]|].
  destruct (remove_first p l) as [r'|]; [|done].
  intros [= <-]. cbn [length]. by rewrite (IH r').
Qed.

Lemma remove_first_found {C : Type} p (l : list (Listener C)) x :
  x ∈ l → p x = true → is_Some (remove_first p l).
Proof.
  intros Hin Hp. induction l as [|y l IH]; [by apply elem_of_nil in Hin|].
  cbn [remove_first]. destruct (p y) eqn:Hy; [by eexists|].
  apply elem_of_cons in Hin as [->|Hin]; [congruence|].
  destruct (IH Hin) as [r ->]. by eexists.
Qed.

(** A listener added by [on] and removed by its id with [off]: as many
    listeners as before. *)
Lemma on_off_count {C : Type} `{EqDecision C} ev (f : C) opts (b : Bus C) i b1 :
  on ev (Some f) opts b = (Some i, b1) →
  listenerCount ev (off ev (ById i) b1).2 = listenerCount ev b.
Proof.
  unfold on. intros [= Hi Hb1]. subst b1.
  match goal with |- context [bus_debug ?m ?x] =>
    set (msg := m); set (b2 := x) in *
  end.
  assert (Hev : events (bus_debug msg b2) !! ev
                = Some (sort_by_priority
                          (default [] (events b !! ev) ++
                           [{| callback := f; once := opt_once opts;
                               priority := opt_priority opts;
                               lcontext := opt_context opts; id := i;
                               added := Date_now b (S (tick b)); oid := next_oid b |}]))).
  { rewrite bus_debug_events. subst b2. cbn [events set_events advance].
    destruct (bool_decide _); cbn [events bus_log]; rewrite lookup_insert_eq;
      cbn [Date_now tick next_oid bus_log]; by rewrite <- Hi. }
  unfold off. rewrite Hev.
  match goal with |- context [remove_first ?p ?l] =>
    destruct (remove_first_found p l
                {| callback := f; once := opt_once opts; priority := opt_priority opts;
                   lcontext := opt_context opts; id := i;
                   added := Date_now b (S (tick b)); oid := next_oid b |})
      as [r Hr]
  end.
  { rewrite sort_by_priority_perm. apply elem_of_app. right. by left. }
  { cbn [id]. apply String.eqb_refl. }
  rewrite Hr. cbn [fst snd]. unfold listenerCount.
  rewrite bus_debug_events. cbn [events set_events]. rewrite lookup_insert_eq.
  cbn [default]. apply remove_first_length in Hr.
  rewrite (Permutation_length (sort_by_priority_perm _)) in Hr.
  rewrite length_app in Hr. cbn [length] in Hr. unfold Datatypes.id.
  rewrite Nat.add_1_r in Hr. by injection Hr.
Qed.

(** A listener put into a sorted list by [on] and taken out by its id,
    which no other listener of the event has: the list is what it was. *)
Lemma remove_first_insert {C : Type} p (x : Listener C) l :
  p x = true → Forall (λ y, p y = false) l →
  remove_first p (insert_by_priority x l) = Some l.
Proof.
  intros Hx Hl. induction l as [|y l IH]; cbn [insert_by_priority remove_first].
  - by rewrite Hx.
  - apply Forall_cons in Hl as [Hy Hl].
    destruct (priority y <? priority x)%Z; cbn [remove_first].
    + by rewrite Hx.
    + by rewrite Hy, (IH Hl).
Qed.

Lemma sort_by_priority_snoc {C : Type} (x : Listener C) l :
  Spec.by_priority l → sort_by_priority (l ++ [x]) = insert_by_priority x l.
Proof.
  intros Hl. unfold sort_by_priority. rewrite foldl_app. cbn [foldl].
  f_equal. by apply sort_by_priority_sorted_id.
Qed.

Lemma on_off_restores {C : Type} `{EqDecision C} ev (f : C) opts (b : Bus C) i b1 :
  Spec.bus_sorted b →
  Spec.fresh_id ev b →
  on ev (Some f) opts b = (Some i, b1) →
  (∃ l, default [] (events b1 !! ev) ≡ₚ default [] (events b !! ev) ++ [l] ∧
        callback l = f ∧ once l = opt_once opts ∧ id l = i) ∧
  default [] (events (off ev (ById i) b1).2 !! ev) = default [] (events b !! ev).
Proof.
  intros Hb Hfresh. unfold on. intros [= Hi Hb1]. subst b1.
  assert (Hs : Spec.by_priority (default [] (events b !! ev))).
  { destruct (events b !! ev) as [ls|] eqn:E; [by apply (Hb ev)|constructor]. }
  match goal with |- context [bus_debug ?m ?x] =>
    set (msg := m); set (b2 := x) in *
  end.
  set (x := {| callback := f; once := opt_once opts; priority := opt_priority opts;
               lcontext := opt_context opts; id := i;
               added := Date_now b (S (tick b)); oid := next_oid b |}).
  assert (Hev : events (bus_debug msg b2) !! ev
                = Some (insert_by_priority x (default [] (events b !! ev)))).
  { rewrite bus_debug_events. subst b2. cbn [events set_events advance].
    rewrite <- (sort_by_priority_snoc x _ Hs). subst x.
    destruct (bool_decide _); cbn [events bus_log]; rewrite lookup_insert_eq;
      cbn [Date_now tick next_oid bus_log]; by rewrite <- Hi. }
  split.
  - exists x. rewrite Hev. cbn [default]. split; [|done].
    rewrite insert_by_priority_perm. by rewrite Permutation_cons_append.
  - unfold off. rewrite Hev.
    rewrite (remove_first_insert _ x).
    + cbn [fst snd]. rewrite bus_debug_events. cbn [events set_events].
      by rewrite lookup_insert_eq.
    + cbn [id]. apply String.eqb_refl.
    + unfold Spec.fresh_id in Hfresh. eapply Forall_impl; [exact Hfresh|].
      intros y Hy. cbn beta. apply String.eqb_neq.
      intros E. apply Hy. rewrite E, <- Hi.
      by destruct (bool_decide _).
Qed.

(** [waitFor(eventName, timeout)] and the elapsing of its timeout. *)
Lemma waitFor_timeout ev t (s : WaitFor.Sys) :
  Spec.bus_sorted s.1 →
  Spec.fresh_id ev s.1 →
  WaitFor.promises (WaitFor.waitFor ev t s).2.2 !! WaitFor.next_promise s.2
  = Some WaitFor.Pending ∧
  WaitFor.delay <$> WaitFor.timeouts (WaitFor.waitFor ev t s).2.2 !! WaitFor.next_timeout s.2
  = Some t ∧
  (∃ l, default [] (events (WaitFor.waitFor ev t s).2.1 !! ev)
        ≡ₚ default [] (events s.1 !! ev) ++ [l] ∧
        callback l = WaitFor.Resolver (WaitFor.next_promise s.2) (WaitFor.next_timeout s.2) ∧
        once l = true) ∧
  WaitFor.promises (WaitFor.elapse (WaitFor.next_timeout s.2) (WaitFor.waitFor ev t s).2).2
    !! WaitFor.next_promise s.2
  = Some (WaitFor.Rejected (VErr ("Timeout waiting for event: " +:+ ev))) ∧
  WaitFor.timeouts (WaitFor.elapse (WaitFor.next_timeout s.2) (WaitFor.waitFor ev t s).2).2
    !! WaitFor.next_timeout s.2 = None ∧
  default [] (events (WaitFor.elapse (WaitFor.next_timeout s.2)
                        (WaitFor.waitFor ev t s).2).1 !! ev)
  = default [] (events s.1 !! ev).
Proof.
  intros Hb Hfresh. unfold WaitFor.waitFor, once_.
  destruct (on ev _ _ s.1) as [li b1] eqn:E.
  assert (Hli : ∃ i, li = Some i).
  { unfold on in E. injection E as <- _. by eexists. }
  destruct Hli as [i ->]. cbn [fst snd WaitFor.promises WaitFor.timeouts].
  destruct (on_off_restores ev _ _ s.1 i b1 Hb Hfresh E) as [(l & P1 & P2 & P3 & _) R].
  split; [by rewrite lookup_insert_eq|].
  split; [by rewrite lookup_insert_eq|].
  split; [by exists l|].
  unfold WaitFor.elapse. cbn [fst snd WaitFor.timeouts]. rewrite lookup_insert_eq.
  cbn [WaitFor.listenerId WaitFor.promise WaitFor.eventName fst snd].
  unfold WaitFor.settle, WaitFor.clearTimeout. cbn [WaitFor.promises WaitFor.timeouts].
  rewrite lookup_insert_eq. cbn [WaitFor.promises WaitFor.timeouts].
  split; [by rewrite lookup_insert_eq|]. split; [by rewrite lookup_delete_eq|].
  exact R.
Qed.

(** [NavigationManager.onDestroy()] with a closed menu and a pending
    frame: the frame is cancelled, its callback never runs. *)
Lemma onDestroy_cancels_frame {C : Type} `{EqDecision C}
    (run : C → option string → list jsval
           → BaseComponent.Sys C NavigationManager.Fields
           → option jsval * BaseComponent.Sys C NavigationManager.Fields)
    (s : BaseComponent.Sys C NavigationManager.Fields) i :
  BaseComponent.flag "mobileMenuOpen" s = false →
  NavigationManager.scrollThrottleId (NavigationManager.fields s) = Some i →
  (NavigationManager.onDestroy run s).1 = Ok () ∧
  animationFrames (BaseComponent.browser (NavigationManager.onDestroy run s).2.2)
  = filter (λ j, j ≠ i) (animationFrames (BaseComponent.browser s.2)) ∧
  NavigationManager.animationFrame run i (NavigationManager.onDestroy run s).2
  = (NavigationManager.onDestroy run s).2.
Proof.
  intros Hm Hi.
  assert (E : (NavigationManager.onDestroy run s).1 = Ok () ∧
              animationFrames (BaseComponent.browser (NavigationManager.onDestroy run s).2.2)
              = filter (λ j, j ≠ i) (animationFrames (BaseComponent.browser s.2))).
  { unfold NavigationManager.onDestroy, m_bind, act, BaseComponent.when.
    rewrite Hm. cbn [fst snd]. rewrite Hi.
    unfold NavigationManager.fields, NavigationManager.with_fields.
    by destruct (NavigationManager.navbar _). }
  destruct E as [E1 E2]. split; [done|]. split; [done|].
  unfold NavigationManager.animationFrame. rewrite E2.
  rewrite bool_decide_eq_false_2; [done|].
  intros Hin. apply list_elem_of_filter in Hin as [Hne _]. by apply Hne.
Qed.

End Timeouts.

(** C7, as stated, fails: the promise of [waitFor('ready')] is rejected
    when its timeout elapses before the event, and the listener it had
    registered is removed. *)
Lemma waitFor_rejects_after_timeout :
  WaitFor.promises Scenario.waiting.2 !! 0%nat = Some WaitFor.Pending ∧
  EventBus.listenerCount "ready" Scenario.waiting.1 = 1%nat ∧
  WaitFor.promises (WaitFor.elapse 1 Scenario.waiting).2 !! 0%nat
  = Some (WaitFor.Rejected (VErr "Timeout waiting for event: ready")) ∧
  EventBus.listenerCount "ready" (WaitFor.elapse 1 Scenario.waiting).1 = 0%nat.
Proof. vm_compute. done. Qed.

(** ** Event bus: registration, removal and dispatch *)

Section BusOperations.
Context {C W : Type} `{EqDecision C}.
Variable run : C → option string → list jsval
               → EventBus.Bus C * W → option jsval * (EventBus.Bus C * W).

Import EventBus.

Implicit Types (b : EventBus.Bus C) (s : EventBus.Bus C * W).

(** X1. [on] with a function registers one more listener for the event,
    returns its id, leaves the lists of the other events as they were and
    keeps every list ordered by non-increasing priority. The new list
    holds the listeners that were there and the new one. *)
Theorem on_registers_by_priority ev (f : C) opts b :
  Spec.bus_sorted b →
  is_Some (on ev (Some f) opts b).1 ∧
  Spec.bus_sorted (on ev (Some f) opts b).2 ∧
  listenerCount ev (on ev (Some f) opts b).2 = S (listenerCount ev b) ∧
  (∃ l, default [] (events (on ev (Some f) opts b).2 !! ev)
        ≡ₚ default [] (events b !! ev) ++ [l] ∧
        callback l = f ∧ priority l = opt_priority opts ∧ once l = opt_once opts ∧
        (on ev (Some f) opts b).1 = Some (id l)) ∧
  (∀ ev', ev' ≠ ev → events (on ev (Some f) opts b).2 !! ev' = events b !! ev').
Proof.
  intros Hb. split; [by eexists|]. split; [by apply on_sorted|].
  unfold on, listenerCount. cbn [fst snd]. rewrite !bus_debug_events.
  cbn [events set_events advance]. rewrite lookup_insert_eq. cbn [default].
  unfold Datatypes.id. split; [|split].
  - rewrite (Permutation_length (sort_by_priority_perm _)), length_app.
    cbn [length]. by rewrite Nat.add_1_r.
  - eexists. split; [apply sort_by_priority_perm|]. done.
  - intros ev' Hne. rewrite lookup_insert_ne by done. by destruct (bool_decide _).
Qed.

(** X2. [off(eventName, id)] keeps every list ordered; when it returns
    [true] the event has exactly one listener less, and when it returns
    [false] no list has changed. The lists of other events are never
    touched. *)
Theorem off_by_id_removes_one ev i b :
  Spec.bus_sorted b →
  Spec.bus_sorted (off ev (ById i) b).2 ∧
  ((off ev (ById i) b).1 = true →
     listenerCount ev b = S (listenerCount ev (off ev (ById i) b).2)) ∧
  ((off ev (ById i) b).1 = false → events (off ev (ById i) b).2 = events b) ∧
  (∀ ev', ev' ≠ ev → events (off ev (ById i) b).2 !! ev' = events b !! ev').
Proof.
  intros Hb. split; [by apply off_sorted|].
  unfold off, listenerCount. destruct (events b !! ev) as [ls|] eqn:E; [|done].
  destruct (remove_first _ ls) as [r|] eqn:Hr; cbn [fst snd].
  - rewrite bus_debug_events. cbn [events set_events]. rewrite lookup_insert_eq.
    split; [|split; [done|]].
    + intros _. cbn [default]. unfold Datatypes.id. by eapply remove_first_length.
    + intros ev' Hne. by rewrite lookup_insert_ne.
  - done.
Qed.

Lemma on_off_removed ev (f : C) opts b i b1 :
  on ev (Some f) opts b = (Some i, b1) → (off ev (ById i) b1).1 = true.
Proof.
  unfold on. intros [= Hi Hb1]. subst b1.
  unfold off. rewrite bus_debug_events. cbn [events set_events advance].
  rewrite lookup_insert_eq.
  match goal with |- context [remove_first ?p (sort_by_priority (?old ++ [?l]))] =>
    destruct (remove_first_found p (sort_by_priority (old ++ [l])) l) as [r Hr]
  end.
  - rewrite sort_by_priority_perm. apply elem_of_app. right. by left.
  - cbn [id]. rewrite Hi. apply String.eqb_refl.
  - by rewrite Hr.
Qed.

(** X3. [on] followed by [off] with the returned id: [off] returns
    [true] and the event has as many listeners as before. *)
Theorem on_then_off_restores_count ev (f : C) opts b i b1 :
  on ev (Some f) opts b = (Some i, b1) →
  (off ev (ById i) b1).1 = true ∧
  listenerCount ev (off ev (ById i) b1).2 = listenerCount ev b.
Proof.
  intros Hon. split; [by eapply on_off_removed|by eapply on_off_count].
Qed.

(** X4. [removeAllListeners(eventName)] leaves the event without
    listeners and the other events as they were; called without argument,
    or with the empty string, it leaves no listener at all. *)
Theorem removeAllListeners_clears b :
  (∀ e, e ≠ EmptyString →
     listenerCount e (removeAllListeners (Some e) b) = 0%nat ∧
     ∀ e', e' ≠ e → events (removeAllListeners (Some e) b) !! e' = events b !! e') ∧
  (∀ e', listenerCount e' (removeAllListeners None b) = 0%nat) ∧
  (∀ e', listenerCount e' (removeAllListeners (Some EmptyString) b) = 0%nat).
Proof.
  unfold removeAllListeners, listenerCount. split; [|split].
  - intros e He. apply String.eqb_neq in He. rewrite He.
    rewrite bus_debug_events. cbn [events set_events]. split.
    + by rewrite lookup_delete_eq.
    + intros e' Hne. by rewrite lookup_delete_ne.
  - intros e'. rewrite bus_debug_events. cbn [events set_events].
    by rewrite lookup_empty.
  - intros e'. cbn [String.eqb]. rewrite bus_debug_events. cbn [events set_events].
    by rewrite lookup_empty.
Qed.

(** X5. [emit] keeps every listener list ordered by priority, when the
    callbacks it runs do. *)
Theorem emit_keeps_priority_order ev args s :
  (∀ c ctx a s', Spec.bus_sorted s'.1 → Spec.bus_sorted (run c ctx a s').2.1) →
  Spec.bus_sorted s.1 →
  Spec.bus_sorted (emit run ev args s).2.1.
Proof. intros Hrun Hs. by apply emit_sorted. Qed.

(** X6. When the listeners of an event leave the bus alone and return
    normally, [emit] returns [true], has called them once each in the
    order of the list, and afterwards exactly the one-time listeners are
    gone. *)
Theorem emit_calls_in_order_and_drops_once ev args ls s :
  (∀ c ctx a s', (run c ctx a s').2.1 = s'.1) →
  events s.1 !! ev = Some ls →
  NoDup (oid <$> ls) →
  (∀ l, l ∈ ls → ∀ s', (run (callback l) (lcontext l) args s').1 = None) →
  (emit run ev args s).1 = true ∧
  events (emit run ev args s).2.1 = <[ev := filter (λ l, once l = false) ls]> (events s.1) ∧
  invoked (emit run ev args s).2.1 = invoked s.1 ++ (oid <$> ls).
Proof. intros Hbus Hev Hnd Hq. by apply emit_quiet. Qed.

Section Throwing.
(** Listeners that leave the bus alone. *)
Hypothesis run_bus : ∀ c ctx a s', (run c ctx a s').2.1 = s'.1.

Lemma bus_debug_invoked m b : invoked (bus_debug m b) = invoked b.
Proof. unfold bus_debug. by destruct (debugMode b). Qed.

Lemma dispatch_invokes onError ev args (ls : list (Listener C)) hasError rm s :
  (∀ l e s' x, x ∈ invoked s'.1 → x ∈ invoked (onError l e s').1) →
  (∀ x, x ∈ invoked s.1 →
        x ∈ invoked (dispatch run onError ev args ls hasError rm s).2.1) ∧
  (∀ l, l ∈ ls → oid l ∈ invoked (dispatch run onError ev args ls hasError rm s).2.1) ∧
  (hasError = true → (dispatch run onError ev args ls hasError rm s).1.1 = true) ∧
  (∀ l, l ∈ ls → (∀ s', (run (callback l) (lcontext l) args s').1 ≠ None) →
        (dispatch run onError ev args ls hasError rm s).1.1 = true).
Proof.
  intros HonError. revert hasError rm s.
  induction ls as [|l ls IH]; intros hasError rm s; cbn [dispatch].
  - split; [done|]. split; [intros l Hl; by apply elem_of_nil in Hl|].
    split; [done|]. intros l Hl. by apply elem_of_nil in Hl.
  - pose proof (run_bus (callback l) (lcontext l) args (record_call l s.1, s.2)) as Hb.
    assert (Hrec : ∀ x, x ∈ invoked s.1 ∨ x = oid l →
                        x ∈ invoked (record_call l s.1)).
    { intros x [Hx| ->]; cbn [invoked record_call]; apply elem_of_app;
        [by left|right; by left]. }
    destruct (run (callback l) (lcontext l) args (record_call l s.1, s.2))
      as [[e|] s'] eqn:E; cbn [fst snd] in Hb.
    + match goal with |- context [dispatch run onError ev args ls true rm ?x] =>
        destruct (IH true rm x) as (I1 & I2 & I3 & I4);
        assert (Hx : ∀ y, y ∈ invoked s.1 ∨ y = oid l → y ∈ invoked x.1)
      end.
      { intros y Hy. apply (HonError l e). cbn [fst invoked bus_log].
        rewrite Hb. by apply Hrec. }
      split; [intros x Hin; apply I1, Hx; by left|].
      split; [|split; [intros _; by apply I3|intros l' _ _; by apply I3]].
      intros l' Hl'. apply elem_of_cons in Hl' as [->|Hl']; [|by apply I2].
      apply I1, Hx. by right.
    + match goal with |- context [dispatch run onError ev args ls hasError ?rm' s'] =>
        destruct (IH hasError rm' s') as (I1 & I2 & I3 & I4)
      end.
      split; [intros x Hin; apply I1; rewrite Hb; apply Hrec; by left|].
      split; [|split; [done|]].
      * intros l' Hl'. apply elem_of_cons in Hl' as [->|Hl']; [|by apply I2].
        apply I1. rewrite Hb. apply Hrec. by right.
      * intros l' Hl' Hthrow.
        apply elem_of_cons in Hl' as [->|Hl']; [|exact (I4 l' Hl' Hthrow)].
        exfalso. apply (Hthrow (record_call l s.1, s.2)). by rewrite E.
Qed.

Lemma emitError_invoked ev e (l : Listener C) s x :
  x ∈ invoked s.1 → x ∈ invoked (emitError run ev e l s).1.
Proof.
  intros Hx. unfold emitError. destruct (String.eqb ev "error"); [done|].
  unfold emit_with. cbn [fst snd].
  destruct (events (advance 1 0 s.1) !! "error") as [ls|]; cbn [fst snd].
  - match goal with |- context [dispatch run ?oe ?ev' ?a ls false [] ?x0] =>
      destruct (dispatch_invokes oe ev' a ls false [] x0 ltac:(done)) as [I1 _];
      specialize (I1 x);
      destruct (dispatch run oe ev' a ls false [] x0) as [[h rm] s1]
    end.
    cbn [fst snd invoked set_events] in *. apply I1.
    by rewrite bus_debug_invoked.
  - by rewrite bus_debug_invoked.
Qed.

(** X7. A listener that throws does not keep the others from running:
    when listeners leave the bus alone and one of them throws, [emit]
    returns [false] and has still called every listener of the event. *)
Theorem emit_continues_after_throw ev args (ls : list (Listener C)) s l0 :
  events s.1 !! ev = Some ls →
  l0 ∈ ls →
  (∀ s', (run (callback l0) (lcontext l0) args s').1 ≠ None) →
  (emit run ev args s).1 = false ∧
  ∀ l, l ∈ ls → oid l ∈ invoked (emit run ev args s).2.1.
Proof.
  intros Hev Hin Hthrow. unfold emit, emit_with. rewrite Hev.
  match goal with |- context [dispatch run ?oe ev args ls false [] ?x0] =>
    destruct (dispatch_invokes oe ev args ls false [] x0) as (_ & I2 & _ & I4);
    [intros l e s' x; apply emitError_invoked|];
    specialize (I4 l0 Hin Hthrow);
    destruct (dispatch run oe ev args ls false [] x0) as [[h rm] s1]
  end.
  cbn [fst snd invoked set_events] in *. by rewrite I4.
Qed.

End Throwing.

End BusOperations.

Lemma waitFor_run_bus c ctx a (s : WaitFor.Sys) : (WaitFor.run c ctx a s).2.1 = s.1.
Proof. by destruct c. Defined.

Lemma new_bus_sorted {C : Type} development clock entropy :
  Spec.bus_sorted (@EventBus.new_EventBus C development clock entropy).
Proof. intros ev ls H. cbn in H. by rewrite lookup_empty in H. Defined.

Lemma on_registers_by_priority_witness :
  EventBus.listenerCount "tick"
    (EventBus.on "tick" (Some (WaitFor.Plain "early" false)) EventBus.no_options
       (EventBus.new_EventBus false Scenario.clock Scenario.entropy)).2 = 1%nat.
Proof.
  exact (proj1 (proj2 (proj2
           (on_registers_by_priority "tick" (WaitFor.Plain "early" false)
              EventBus.no_options _
              (new_bus_sorted false Scenario.clock Scenario.entropy))))).
Defined.

Lemma ticking_sorted : Spec.bus_sorted Scenario.ticking.1.
Proof. apply on_sorted, on_sorted, new_bus_sorted. Defined.

Lemma off_by_id_removes_one_witness :
  Spec.bus_sorted (EventBus.off "tick" (EventBus.ById "unknown") Scenario.ticking.1).2.
Proof.
  exact (proj1 (off_by_id_removes_one "tick" "unknown" Scenario.ticking.1 ticking_sorted)).
Defined.

Lemma on_then_off_restores_count_witness :
  EventBus.listenerCount "tick"
    (EventBus.off "tick" (EventBus.ById "listener_1700000000000_r0")
       (EventBus.on "tick" (Some (WaitFor.Plain "early" false)) EventBus.no_options
          (EventBus.new_EventBus false Scenario.clock Scenario.entropy)).2).2
  = 0%nat.
Proof.
  refine (proj2 (on_then_off_restores_count "tick" (WaitFor.Plain "early" false)
                   EventBus.no_options
                   (EventBus.new_EventBus false Scenario.clock Scenario.entropy)
                   "listener_1700000000000_r0"
                   (EventBus.on "tick" (Some (WaitFor.Plain "early" false))
                      EventBus.no_options
                      (EventBus.new_EventBus false Scenario.clock Scenario.entropy)).2 _)).
  apply injective_projections; [vm_compute; reflexivity|reflexivity].
Defined.

Lemma removeAllListeners_clears_witness :
  EventBus.listenerCount "tick"
    (EventBus.removeAllListeners (Some "tick") Scenario.ticking.1) = 0%nat.
Proof.
  refine (proj1 (proj1 (removeAllListeners_clears Scenario.ticking.1) "tick" _)).
  discriminate.
Defined.

Lemma emit_keeps_priority_order_witness :
  Spec.bus_sorted (WaitFor.emit "tick" [] Scenario.ticking).2.1.
Proof.
  apply (emit_keeps_priority_order WaitFor.run "tick" [] Scenario.ticking).
  - intros c ctx a s' Hs. by rewrite waitFor_run_bus.
  - exact ticking_sorted.
Defined.

Lemma emit_calls_in_order_and_drops_once_witness :
  EventBus.invoked (WaitFor.emit "tick" [] Scenario.ticking).2.1 = [1; 0]%nat ∧
  EventBus.listenerCount "tick" (WaitFor.emit "tick" [] Scenario.ticking).2.1 = 1%nat.
Proof.
  destruct (emit_calls_in_order_and_drops_once WaitFor.run "tick" []
              (default [] (EventBus.events Scenario.ticking.1 !! "tick"))
              Scenario.ticking waitFor_run_bus) as (_ & H2 & H3).
  - vm_compute. reflexivity.
  - vm_compute. repeat constructor; set_solver.
  - intros l Hl s'. vm_compute in Hl.
    repeat (apply elem_of_cons in Hl as [->|Hl]; [reflexivity|]).
    by apply elem_of_nil in Hl.
  - unfold WaitFor.emit. split.
    + rewrite H3. vm_compute. reflexivity.
    + unfold EventBus.listenerCount. rewrite H2, lookup_insert_eq.
      vm_compute. reflexivity.
Defined.

Lemma emit_continues_after_throw_witness :
  (WaitFor.emit "tick" [] Scenario.faulty).1 = false.
Proof.
  refine (proj1 (emit_continues_after_throw WaitFor.run waitFor_run_bus "tick" []
                   (default [] (EventBus.events Scenario.faulty.1 !! "tick"))
                   Scenario.faulty
                   (default {| EventBus.callback := WaitFor.Plain "broken" true;
                               EventBus.once := false; EventBus.priority := 0;
                               EventBus.lcontext := None; EventBus.id := EmptyString;
                               EventBus.added := 0; EventBus.oid := 0 |}
                      (head (default [] (EventBus.events Scenario.faulty.1 !! "tick"))))
                   _ _ _)).
  - vm_compute. reflexivity.
  - vm_compute. left.
  - intros s'. vm_compute. discriminate.
Defined.

(** ** Component registry: registration and removal *)

Section RegistryOperations.

Import ComponentRegistry.

Context {E : Type}.
Implicit Types (r : Registry E) (e : E) (name : string).

Lemma say_components l m r : components (say l m r) = components r.
Proof. done. Qed.

(** X8. After [register(name, Class, options)] the name is registered and
    the other registrations are as before. [register] does not touch the
    cached instances: when the name had none, the next [getInstance] runs
    the constructor of the new class with the new options; when it had
    one, [getInstance] keeps returning that old instance and the new class
    is never constructed. *)
Theorem register_then_getInstance name cls opts now r e args :
  has name (register name cls opts now r) = true ∧
  (∀ name', name' ≠ name →
     has name' (register name cls opts now r) = has name' r) ∧
  instances (register name cls opts now r) = instances r ∧
  (instances r !! name = None →
     (getInstance name args (register name cls opts now r, e)).1
     = match (construct cls opts args e).1 with
       | Some _ => None
       | None => Some (next_object r)
       end ∧
     (getInstance name args (register name cls opts now r, e)).2.2
     = (construct cls opts args e).2) ∧
  (∀ i, instances r !! name = Some i →
     (getInstance name args (register name cls opts now r, e)).1 = Some i ∧
     (getInstance name args (register name cls opts now r, e)).2.2 = e).
Proof.
  assert (Hc : components (register name cls opts now r)
               = <[name := {| ComponentClass := cls; options := opts;
                              registered := now |}]> (components r)).
  { unfold register. rewrite say_components. cbn [components].
    by destruct (bool_decide _). }
  assert (Hi : instances (register name cls opts now r) = instances r).
  { unfold register. cbn [instances say]. by destruct (bool_decide _). }
  assert (Hn : next_object (register name cls opts now r) = next_object r).
  { unfold register. cbn [next_object say]. by destruct (bool_decide _). }
  split; [|split; [|split; [done|split]]].
  - unfold has. rewrite Hc, lookup_insert_eq. by apply bool_decide_eq_true_2.
  - intros name' Hne. unfold has. by rewrite Hc, lookup_insert_ne.
  - intros Hnone. unfold getInstance. cbn [fst snd].
    rewrite Hc, lookup_insert_eq, Hi, Hnone. cbn [ComponentClass options].
    destruct (construct cls opts args e) as [[err|] e']; cbn [fst snd]; [done|].
    by rewrite Hn.
  - intros i Hsome. unfold getInstance. cbn [fst snd].
    by rewrite Hc, lookup_insert_eq, Hi, Hsome.
Qed.

(** X9. [unregister(name)] returns [false] for a name that is not
    registered and changes nothing but the log. For a registered name
    without a cached instance it returns [true], removes the registration
    and leaves the page and the other names alone; [getInstance] then
    returns [null]. *)
Theorem unregister_removes name r e :
  (components r !! name = None →
     (unregister name (r, e)).1 = false ∧
     components (unregister name (r, e)).2.1 = components r ∧
     instances (unregister name (r, e)).2.1 = instances r ∧
     (unregister name (r, e)).2.2 = e) ∧
  (∀ reg, components r !! name = Some reg →
     instances r !! name = None →
     (unregister name (r, e)).1 = true ∧
     has name (unregister name (r, e)).2.1 = false ∧
     instances (unregister name (r, e)).2.1 !! name = None ∧
     (unregister name (r, e)).2.2 = e ∧
     (∀ name', name' ≠ name →
        components (unregister name (r, e)).2.1 !! name' = components r !! name' ∧
        instances (unregister name (r, e)).2.1 !! name' = instances r !! name') ∧
     (∀ args, (getInstance name args (unregister name (r, e)).2).1 = None)).
Proof.
  split.
  - intros Hc. unfold unregister. cbn [fst snd]. by rewrite Hc.
  - intros reg Hc Hclean. unfold has, getInstance, unregister. cbn [fst snd].
    rewrite Hc. cbn [fst snd components instances say].
    rewrite !lookup_delete_eq.
    split; [done|]. split; [|split; [|split; [|split]]].
    + apply bool_decide_eq_false_2. by intros [? ?].
    + done.
    + by rewrite Hclean.
    + intros name' Hne. by rewrite !lookup_delete_ne.
    + done.
Qed.

End RegistryOperations.

Lemma unregister_removes_witness :
  ComponentRegistry.has "widget"
    (ComponentRegistry.unregister "widget" Scenario.late_registry).2.1 = false.
Proof.
  refine (proj1 (proj2 (proj2 (unregister_removes "widget" Scenario.late_registry.1
                                 Scenario.late_registry.2)
                          {| ComponentRegistry.ComponentClass := Scenario.late_class;
                             ComponentRegistry.options := VUndef;
                             ComponentRegistry.registered := Scenario.clock 0 |} _ _)));
    vm_compute; reflexivity.
Defined.

Lemma register_then_getInstance_witness :
  (ComponentRegistry.getInstance "widget" []
     (ComponentRegistry.register "widget" Scenario.late_class VNull 0
        (ComponentRegistry.getInstance "widget" [] (Scenario.late_registry.1, true)).2.1,
      false)).1 = Some 0%nat.
Proof.
  refine (proj1 (proj2 (proj2 (proj2 (proj2
            (register_then_getInstance "widget" Scenario.late_class VNull 0
               (ComponentRegistry.getInstance "widget" []
                  (Scenario.late_registry.1, true)).2.1 false [])))) 0%nat _)).
  vm_compute. reflexivity.
Defined.

(** ** Base component: state, clean-up and the recursion of [init] *)

Section OutcomeDiverges.
Context {Σ : Type}.

Lemma diverges_bind_l {A B} (P : Σ → Prop) (m : M Σ A) (k : A → M Σ B) :
  Spec.diverges P m → Spec.diverges P (m_bind m k).
Proof. intros Hm s HP. unfold m_bind. specialize (Hm s HP). by destruct (m s) as [[]]. Qed.

Lemma diverges_bind_r {A B} (P Q : Σ → Prop) (m : M Σ A) (k : A → M Σ B) :
  Spec.returns P m Q → (∀ x, Spec.diverges Q (k x)) → Spec.diverges P (m_bind m k).
Proof.
  intros Hm Hk s HP. unfold m_bind. destruct (Hm s HP) as [Hok HQ].
  destruct (m s) as [[x|e|] s']; cbn [fst snd] in *; [|done..]. by apply Hk.
Qed.

Lemma diverges_try {A} (P : Σ → Prop) (body : M Σ A) handler :
  Spec.diverges P body → Spec.diverges P (try_catch body handler).
Proof.
  intros Hb s HP. unfold try_catch. specialize (Hb s HP).
  by destruct (body s) as [[]].
Qed.

(** Statements that cannot diverge. *)
Lemma bind_ends {A B} (m : M Σ A) (k : A → M Σ B) :
  (∀ s, (m s).1 ≠ Diverged) → (∀ x s, (k x s).1 ≠ Diverged) →
  ∀ s, (m_bind m k s).1 ≠ Diverged.
Proof.
  intros Hm Hk s. unfold m_bind. specialize (Hm s).
  destruct (m s) as [[x|e|] s']; cbn [fst snd] in *; [apply Hk|done..].
Qed.

End OutcomeDiverges.

Section ComponentFacts.

Import BaseComponent.

Context {C X : Type} `{EqDecision C}.
Variable run : C → option string → list jsval → BaseComponent.Sys C X
               → option jsval * BaseComponent.Sys C X.
Variable methods : Methods C X.

Implicit Types (s : BaseComponent.Sys C X).

Lemma destroy_children_ends cs s : (destroy_children run cs s).1 ≠ Diverged.
Proof.
  revert s. induction cs as [|[i [d|]] cs IH]; intros s; cbn [destroy_children];
    [done| |apply IH].
  destruct (run d (Some i) [] s) as [[e|] s']; [done|apply IH].
Qed.


(** *** [setState] *)

Section StateKept.
(** Listeners that leave the state of the component alone. *)
Hypothesis run_state : ∀ c ctx a b w,
  state (comp (run c ctx a (b, w)).2.2) = state (comp w).

(** X11. [setState(newState)] with state tracking on: the new state is
    the old one overwritten by the keys of [newState], when the listeners
    of 'state:changed' leave the state alone. With state tracking off
    [setState] does nothing at all. *)
Theorem setState_merges new s :
  (cfg enableStateTracking s = true →
     state (comp (setState run new s).2) = new ∪ state (comp s.2)) ∧
  (cfg enableStateTracking s = false → setState run new s = s).
Proof.
  split; intros Ht; unfold setState; rewrite Ht; cbn [negb]; [|done].
  cbv zeta. unfold BaseComponent.emit.
  match goal with |- context [EventBus.emit run ?ev ?a ?x] =>
    pose proof (emit_rel run (λ w w', state (comp w') = state (comp w))
                  (PreOrder0 := ltac:(split; [by intros ?|intros ? ? ? H1 H2; congruence]))
                  run_state ev a x) as He
  end.
  etrans; [exact He|]. by destruct (cfg debugMode _).
Qed.

End StateKept.

(** *** The component's own listeners *)

(** X12. A listener registered through the component's [on] is
    registered on the bus for that event and recorded by the component;
    [removeAllEventListeners()], which [destroy()] calls, takes it off
    the bus again and empties the record. *)
Theorem component_listener_removed ev (cb : C) opts s :
  eventListeners (comp s.2) = [] →
  EventBus.listenerCount ev (on ev cb opts s).2.1 = S (EventBus.listenerCount ev s.1) ∧
  EventBus.listenerCount ev (removeAllEventListeners (on ev cb opts s).2).1
  = EventBus.listenerCount ev s.1 ∧
  eventListeners (comp (removeAllEventListeners (on ev cb opts s).2).2) = [].
Proof.
  intros Hl. unfold on. rewrite Hl.
  destruct (EventBus.on ev (Some cb) _ s.1) as [li b1] eqn:E.
  assert (Hli : ∃ i, li = Some i).
  { unfold EventBus.on in E. injection E as <- _. by eexists. }
  destruct Hli as [i ->].
  rewrite bool_decide_eq_false_2 by (intros Hin; by apply elem_of_nil in Hin).
  cbn [fst snd app default]. unfold Datatypes.id.
  split; [|split; [|done]].
  - pose proof (on_off_count ev cb _ s.1 i b1 E) as Hc.
    pose proof (on_off_removed ev cb _ s.1 i b1 E) as Hr.
    unfold on_comp. cbn [fst snd].
    revert Hc Hr. unfold EventBus.off, EventBus.listenerCount.
    destruct (EventBus.events b1 !! ev) as [ls|]; [|done].
    destruct (EventBus.remove_first _ ls) as [r|] eqn:Er; cbn [fst snd]; [|done].
    rewrite bus_debug_events. cbn [EventBus.events EventBus.set_events].
    rewrite lookup_insert_eq. cbn [default]. unfold Datatypes.id.
    intros <- _. by eapply remove_first_length.
  - unfold removeAllEventListeners, on_comp. cbn [fst snd comp eventListeners
      with_eventListeners foldl].
    exact (on_off_count ev cb _ s.1 i b1 E).
Qed.

End ComponentFacts.

(** *** [init] and [mount] without state tracking *)

Section Untracked.

Import BaseComponent.

Context {C X : Type} `{EqDecision C}.
Variable run : C → option string → list jsval → BaseComponent.Sys C X
               → option jsval * BaseComponent.Sys C X.
Variable methods : Methods C X.

(** Hooks, listeners and the two methods [init] calls leave the
    configuration, the container, the dependencies and the flags alone,
    and the two methods return. *)
Hypothesis run_frozen : ∀ c ctx a b w, Spec.frozen w (run c ctx a (b, w)).2.2.
Hypothesis onInit_frozen : Spec.keeps Spec.frozen_step (onInit methods).
Hypothesis setup_frozen : Spec.keeps Spec.frozen_step (setupEventListeners methods).
Hypothesis onInit_returns : ∀ s, (onInit methods s).1 = Ok ().
Hypothesis setup_returns : ∀ s, (setupEventListeners methods s).1 = Ok ().

Implicit Types (s : BaseComponent.Sys C X).

#[local] Instance frozen_preorder : PreOrder (@Spec.frozen C X).
Proof.
  split.
  - intros w. by repeat split.
  - intros w1 w2 w3 (A1 & B1 & C1 & D1 & E1) (A2 & B2 & C2 & D2 & E2).
    repeat split; congruence.
Qed.

Lemma untracked_stable s s' : Spec.frozen_step s s' → Spec.untracked s → Spec.untracked s'.
Proof.
  intros (H1 & H2 & H3 & H4 & H5). unfold Spec.untracked, cfg, flag.
  by rewrite H1, H2, H3, H4, H5.
Qed.

Lemma frozen_say l m s : Spec.frozen_step s (say l m s).
Proof. by repeat split. Qed.

Lemma frozen_runHooks h data s : Spec.frozen_step s (runHooks run h data s).
Proof.
  unfold runHooks. destruct (hooks (comp s.2) !! h) as [hs|]; [|by repeat split].
  assert (G : ∀ s0 s1, Spec.frozen_step s0 s1 →
    Spec.frozen_step s0
      (foldl (λ s2 hook,
                match run hook (Some (id (comp s2.2))) [VObj data] s2 with
                | (None, s') => s'
                | (Some _, s') => say ERROR ("❌ Error in " +:+ h +:+ " hook:") s'
                end) s1 hs)).
  { induction hs as [|hook hs IH]; intros s0 s1 H01; cbn [foldl]; [done|].
    apply IH. unfold Spec.frozen_step in *. etrans; [exact H01|].
    pose proof (run_frozen hook (Some (id (comp s1.2))) [VObj data] s1.1 s1.2) as Hr.
    destruct s1 as [b1 w1]. cbn [fst snd] in *.
    destruct (run hook _ _ (b1, w1)) as [[e|] s']; cbn [snd] in Hr; [|done].
    etrans; [exact Hr|apply frozen_say]. }
  apply G. by repeat split.
Qed.

(** The body of [init] never gets past its call of [mount], when that
    call does not return. *)
Lemma init_with_diverges (mount' : M (BaseComponent.Sys C X) ()) :
  Spec.diverges Spec.untracked mount' →
  Spec.diverges Spec.untracked (init_with run methods mount').
Proof.
  intros Hm s Hs. unfold init_with.
  destruct Hs as (U1 & U2 & U3 & U4 & U5 & U6). rewrite U5.
  refine (diverges_try Spec.untracked _ _ _ s
            (conj U1 (conj U2 (conj U3 (conj U4 (conj U5 U6)))))).
  eapply (diverges_bind_r _ Spec.untracked).
  { apply returns_act. intros s0 H0. eapply untracked_stable; [apply frozen_say|done]. }
  intros _. eapply (diverges_bind_r _ Spec.untracked).
  { apply returns_act. intros s0 H0.
    eapply untracked_stable; [apply frozen_runHooks|done]. }
  intros _. eapply (diverges_bind_r _ Spec.untracked).
  { intros s0 H0. unfold checkDependencies.
    destruct H0 as (V1 & V2 & V3 & V4 & V5 & V6). rewrite V4. by repeat split. }
  intros _. eapply (diverges_bind_r _ Spec.untracked).
  { apply (returns_keeps Spec.frozen_step);
      [apply untracked_stable|exact onInit_frozen|].
    intros s0. by rewrite onInit_returns. }
  intros _. eapply (diverges_bind_r _ Spec.untracked).
  { intros s0 H0. unfold when. destruct (cfg enableEvents s0); [|done].
    split; [by rewrite setup_returns|].
    eapply untracked_stable; [apply setup_frozen|done]. }
  intros _. eapply (diverges_bind_r _ Spec.untracked).
  { apply returns_act. intros s0 H0. unfold setState.
    destruct H0 as (V1 & V2 & V3 & V4 & V5 & V6). rewrite V1. by repeat split. }
  intros _. eapply (diverges_bind_r _ Spec.untracked).
  { apply returns_act. intros s0 H0.
    eapply untracked_stable; [apply frozen_runHooks|done]. }
  intros _. apply diverges_bind_l.
  intros s0 H0. unfold when.
  destruct H0 as (V1 & V2 & V3 & V4 & V5 & V6).
  unfold cfg in V2 |- *. rewrite V2, (bool_decide_eq_true_2 _ V3). cbn [andb].
  apply Hm. by repeat split.
Qed.

Lemma mount_diverges budget : Spec.diverges Spec.untracked (mount run methods budget None).
Proof.
  induction budget as [|budget IH]; intros s Hs; [done|].
  cbn [mount]. destruct Hs as (U1 & U2 & U3 & U4 & U5 & U6). rewrite U6.
  refine (diverges_bind_l Spec.untracked _ _ _ s
            (conj U1 (conj U2 (conj U3 (conj U4 (conj U5 U6)))))).
  intros s0 H0. unfold when.
  destruct H0 as (V1 & V2 & V3 & V4 & V5 & V6). rewrite V5. cbn [negb].
  apply init_with_diverges; [exact IH|by repeat split].
Qed.

(** X13. With state tracking off, [init()] of a component that mounts
    automatically into its container never returns: [init] cannot record
    that it ran, so [mount] calls [init] again, which calls [mount]
    again, at every budget. *)
Theorem init_never_returns_untracked budget s :
  Spec.untracked s →
  (init run methods budget s).1 = Diverged.
Proof.
  intros Hs. unfold init. by apply init_with_diverges; [apply mount_diverges|].
Qed.

End Untracked.

Lemma inert_state (c : unit) ctx a (b : EventBus.Bus unit)
    (w : BaseComponent.World unit unit) :
  BaseComponent.state (BaseComponent.comp (Scenario.inert c ctx a (b, w)).2.2)
  = BaseComponent.state (BaseComponent.comp w).
Proof. reflexivity. Defined.


Lemma setState_merges_witness :
  BaseComponent.state (BaseComponent.comp
    (BaseComponent.setState Scenario.inert {[ "loading" := VBool true ]}
       Scenario.widget).2)
  = {[ "loading" := VBool true ]}
    ∪ BaseComponent.state (BaseComponent.comp Scenario.widget.2).
Proof.
  refine (proj1 (setState_merges Scenario.inert inert_state
                   {[ "loading" := VBool true ]} Scenario.widget) _).
  vm_compute. reflexivity.
Defined.

Lemma component_listener_removed_witness :
  EventBus.listenerCount "tick"
    (BaseComponent.removeAllEventListeners
       (BaseComponent.on "tick" tt EventBus.no_options Scenario.widget).2).1
  = EventBus.listenerCount "tick" Scenario.widget.1.
Proof.
  refine (proj1 (proj2 (component_listener_removed "tick" tt EventBus.no_options
                          Scenario.widget _))).
  vm_compute. reflexivity.
Defined.

Lemma init_never_returns_untracked_witness :
  (BaseComponent.init Scenario.inert BaseComponent.base_Methods 5
     Scenario.untracked_widget).1 = Diverged.
Proof.
  apply (init_never_returns_untracked Scenario.inert BaseComponent.base_Methods).
  - intros c ctx a b w. by repeat split.
  - intros s. by repeat split.
  - intros s. by repeat split.
  - done.
  - done.
  - unfold Spec.untracked. repeat apply conj; try (vm_compute; reflexivity).
    by eexists.
Defined.

(** ** Theme manager: cycling, the system preference and clean-up *)

Section ThemeOperations.

Import BaseComponent ThemeManager.

Implicit Types (s : ThemeManager.Sys) (t : string) (l : list string).

Lemma index_of_lookup l i t : NoDup l → l !! i = Some t → index_of l t = Some i.
Proof.
  revert i. induction l as [|x l IH]; intros i Hnd Hi; [done|].
  apply NoDup_cons in Hnd as [Hx Hnd]. cbn [index_of].
  destruct i as [|i]; cbn in Hi.
  - injection Hi as ->. by rewrite String.eqb_refl.
  - destruct (String.eqb x t) eqn:E.
    + apply String.eqb_eq in E as ->. exfalso. apply Hx.
      by eapply list_elem_of_lookup_2.
    + by rewrite (IH i Hnd Hi).
Qed.

Lemma nextTheme_at s l i t :
  themes (theme_config s) = l → NoDup l → l !! i = Some t →
  prop (state (comp s.2)) "currentTheme" = VStr t →
  ∃ t', l !! (S i mod length l) = Some t' ∧ nextTheme s = VStr t'.
Proof.
  intros Hl Hnd Hi Hcur. unfold nextTheme. rewrite Hl, Hcur. cbn [indexOf].
  rewrite (index_of_lookup l i t Hnd Hi).
  assert (Hlt : (i < length l)%nat) by (by eapply lookup_lt_Some).
  assert (Hm : (S i mod length l < length l)%nat) by (apply Nat.mod_upper_bound; lia).
  destruct (lookup_lt_is_Some_2 l _ Hm) as [t' Ht']. exists t'. by rewrite Ht'.
Qed.

(** One [toggleTheme()] on a manager whose listeners only observe. *)
Lemma toggleTheme_step depth s l i t :
  themes (theme_config s) = l → NoDup l → l !! i = Some t →
  prop (state (comp s.2)) "currentTheme" = VStr t →
  cfg enableStateTracking s = true →
  Spec.passive_bus s.1 →
  themes (theme_config (toggleTheme (run depth) s)) = l ∧
  cfg enableStateTracking (toggleTheme (run depth) s) = true ∧
  Spec.passive_bus (toggleTheme (run depth) s).1 ∧
  ∃ t', l !! (S i mod length l) = Some t' ∧
        prop (state (comp (toggleTheme (run depth) s).2)) "currentTheme" = VStr t'.
Proof.
  intros Hl Hnd Hi Hcur Ht Hb.
  destruct (nextTheme_at s l i t Hl Hnd Hi Hcur) as (t' & Ht' & Hn).
  unfold toggleTheme. rewrite Hn.
  assert (Hin : t' ∈ themes (theme_config s))
    by (rewrite Hl; by eapply list_elem_of_lookup_2).
  destruct (String.eqb t t') eqn:E.
  - apply String.eqb_eq in E as <-.
    unfold setTheme. rewrite (includes_listed _ _ Hin). cbn [negb]. cbv zeta.
    rewrite Hcur. cbn [is_string js_to_string]. rewrite String.eqb_refl.
    cbn [fst snd]. split; [done|]. split; [done|]. split; [done|].
    exists t. by split.
  - destruct (setTheme_changes depth t' s Hin) as (_ & B & S & C & _); try done.
    { by rewrite Hcur. }
    unfold Spec.static in S. injection S as S1 _ S3 _ _.
    split; [unfold theme_config; by rewrite S3|]. split; [unfold cfg; by rewrite S1|].
    split; [done|]. by exists t'.
Qed.

(** X14. [toggleTheme()] cycles through [config.themes] in order: on a
    manager whose theme list has no duplicates and whose listeners only
    observe, [k] toggles move the current theme [k] places further in the
    list, wrapping around; as many toggles as there are themes lead back
    to the theme one started from. *)
Theorem toggleTheme_cycles depth s l i t :
  themes (theme_config s) = l → NoDup l → l !! i = Some t →
  prop (state (comp s.2)) "currentTheme" = VStr t →
  cfg enableStateTracking s = true →
  Spec.passive_bus s.1 →
  (∀ k, ∃ t', l !! ((i + k) mod length l) = Some t' ∧
              prop (state (comp (Nat.iter k (toggleTheme (run depth)) s).2)) "currentTheme"
              = VStr t') ∧
  prop (state (comp (Nat.iter (length l) (toggleTheme (run depth)) s).2)) "currentTheme"
  = VStr t.
Proof.
  intros Hl Hnd Hi Hcur Ht Hb.
  assert (Hlt : (i < length l)%nat) by (by eapply lookup_lt_Some).
  assert (G : ∀ k,
    themes (theme_config (Nat.iter k (toggleTheme (run depth)) s)) = l ∧
    cfg enableStateTracking (Nat.iter k (toggleTheme (run depth)) s) = true ∧
    Spec.passive_bus (Nat.iter k (toggleTheme (run depth)) s).1 ∧
    ∃ t', l !! ((i + k) mod length l) = Some t' ∧
          prop (state (comp (Nat.iter k (toggleTheme (run depth)) s).2)) "currentTheme"
          = VStr t').
  { induction k as [|k IH]; cbn [Nat.iter].
    - rewrite Nat.add_0_r, Nat.mod_small by done. split; [done|]. split; [done|].
      split; [done|]. by exists t.
    - destruct IH as (I1 & I2 & I3 & t1 & I4 & I5).
      destruct (toggleTheme_step depth _ l _ t1 I1 Hnd I4 I5 I2 I3)
        as (J1 & J2 & J3 & t2 & J4 & J5).
      split; [done|]. split; [done|]. split; [done|]. exists t2. split; [|done].
      rewrite <- J4. f_equal.
      replace (i + S k)%nat with (S (i + k)) by lia.
      change (S ((i + k) mod length l)) with (1 + (i + k) mod length l)%nat.
      change (S (i + k)) with (1 + (i + k))%nat.
      by rewrite Nat.Div0.add_mod_idemp_r. }
  split.
  - intros k. by destruct (G k) as (_ & _ & _ & H).
  - destruct (G (length l)) as (_ & _ & _ & t' & H1 & H2).
    rewrite H2. f_equal.
    replace ((i + length l) mod length l) with i in H1; [congruence|].
    rewrite <- Nat.Div0.add_mod_idemp_r, Nat.Div0.mod_same, Nat.add_0_r.
    by rewrite Nat.mod_small.
Qed.

(** X15. A change of the system preference is recorded in the state;
    it changes the [data-theme] attribute of the document exactly when
    the current theme is 'auto', and never the current theme itself
    (state tracking on, listeners that only observe). *)
Theorem system_preference_followed_when_auto depth args v s :
  member (default VUndef (args !! 0%nat)) "matches" = Ok v →
  cfg enableStateTracking s = true →
  Spec.passive_bus s.1 →
  (handleSystemPreferenceChange (run depth) args s).1 = Ok () ∧
  prop (state (comp (handleSystemPreferenceChange (run depth) args s).2.2))
    "systemPreference" = VStr (if truthy v then "dark" else "light") ∧
  prop (state (comp (handleSystemPreferenceChange (run depth) args s).2.2)) "currentTheme"
  = prop (state (comp s.2)) "currentTheme" ∧
  (is_string (prop (state (comp s.2)) "currentTheme") "auto" = true →
     data_theme (browser (handleSystemPreferenceChange (run depth) args s).2.2)
     = Some (if truthy v then "dark" else "light")) ∧
  (is_string (prop (state (comp s.2)) "currentTheme") "auto" = false →
     data_theme (browser (handleSystemPreferenceChange (run depth) args s).2.2)
     = data_theme (browser s.2)).
Proof.
  intros Hv Ht Hb. unfold handleSystemPreferenceChange. rewrite Hv. cbv zeta.
  set (pref := if truthy v then "dark" else "light").
  destruct (setState_passive depth {[ "systemPreference" := VStr pref ]} s Ht Hb)
    as [B1 (O1 & O2 & O3 & O4)].
  set (s1 := setState (run depth) {[ "systemPreference" := VStr pref ]} s) in *.
  clearbody s1. cbn [fst snd on_comp comp with_state state browser] in O1, O2, O3.
  assert (Hcur : prop (state (comp s1.2)) "currentTheme"
                 = prop (state (comp s.2)) "currentTheme").
  { rewrite O2. by apply prop_union_r, lookup_singleton_ne. }
  assert (Hpref : prop (state (comp s1.2)) "systemPreference" = VStr pref).
  { rewrite O2. by apply prop_union_l, lookup_singleton_eq. }
  cbn [say fst snd comp]. rewrite Hcur.
  destruct (is_string (prop (state (comp s.2)) "currentTheme") "auto") eqn:Ha;
    cbn [fst snd].
  - destruct (applyTheme_passive depth (VStr "auto")
                (say INFO ("🔄 System preference changed: " +:+ pref) s1) B1)
      as (_ & (T1 & T2 & T3 & _) & D).
    cbn [say fst snd comp] in T2, T3, D.
    split; [done|]. split; [by rewrite T3|]. split; [by rewrite T2|].
    split; [|done]. intros _. rewrite D. unfold Spec.effective.
    cbn [is_string String.eqb Ascii.eqb Bool.eqb comp]. by rewrite Hpref.
  - split; [done|]. split; [done|]. split; [done|]. split; [done|].
    intros _. exact O3.
Qed.

(** X16. [loadTheme()] with working storage and nothing usable stored,
    that is no value, an empty one, or one that is not in
    [config.themes]: the current theme becomes 'auto' (state tracking on,
    listeners that only observe). *)
Theorem loadTheme_unusable_value depth s :
  denied (localStorage (browser s.2)) = false →
  match items (localStorage (browser s.2)) !! storageKey (theme_config s) with
  | Some t => t = EmptyString ∨ t ∉ themes (theme_config s)
  | None => True
  end →
  cfg enableStateTracking s = true →
  Spec.passive_bus s.1 →
  (loadTheme (run depth) s).1 = Ok () ∧
  prop (state (comp (loadTheme (run depth) s).2.2)) "currentTheme" = VStr "auto".
Proof.
  intros Hd Hst Ht Hb. split; [apply loadTheme_returns|].
  unfold loadTheme, try_catch, m_bind, storage_get, getItem, act. rewrite Hd.
  cbn [fst snd].
  set (s0 := on_browser _ s).
  assert (Ht0 : cfg enableStateTracking s0 = true) by done.
  assert (Hb0 : Spec.passive_bus s0.1) by done.
  destruct (setState_passive depth {[ "currentTheme" := VStr "auto" ]} s0 Ht0 Hb0)
    as [_ (_ & O2 & _)].
  cbn [fst snd on_comp comp with_state state] in O2.
  assert (G : prop (state (comp (setState (run depth)
                                   {[ "currentTheme" := VStr "auto" ]} s0).2))
                "currentTheme" = VStr "auto").
  { rewrite O2. by apply prop_union_l, lookup_singleton_eq. }
  assert (Hinc : ∀ t, t = EmptyString ∨ t ∉ themes (theme_config s) →
                      negb (String.eqb t EmptyString)
                      && includes (themes (theme_config s0)) (VStr t) = false).
  { intros t [->|Hn]; [done|]. apply andb_false_iff. right.
    unfold includes. by apply bool_decide_eq_false_2. }
  clearbody s0.
  destruct (items _ !! _) as [t|]; [rewrite (Hinc t Hst)|]; cbn [fst snd say comp];
    exact G.
Qed.

Lemma remove_one_other (x y : string) (l : list string) :
  x ∈ l → x ≠ y → x ∈ default l (remove_one y l).
Proof.
  intros Hin Hne. induction l as [|z l IH]; [done|]. cbn [remove_one].
  destruct (String.eqb z y) eqn:E; cbn [default].
  - apply String.eqb_eq in E as ->.
    apply elem_of_cons in Hin as [->|Hin]; [done|]. exact Hin.
  - apply elem_of_cons in Hin as [->|Hin].
    + destruct (remove_one y l); cbn; left.
    + specialize (IH Hin). destruct (remove_one y l); cbn in *; [by right|by right].
Qed.

Lemma remove_one_appended (x : string) (l : list string) :
  x ∉ l → remove_one x (l ++ [x]) = Some l.
Proof.
  intros Hx. induction l as [|z l IH]; cbn [remove_one app].
  - by rewrite String.eqb_refl.
  - apply not_elem_of_cons in Hx as [Hne Hx].
    destruct (String.eqb z x) eqn:E; [apply String.eqb_eq in E; congruence|].
    by rewrite (IH Hx).
Qed.

Lemma updateToggleButton_document s :
  body_children (browser (updateToggleButton s).2) = body_children (browser s.2) ∧
  head_styles (browser (updateToggleButton s).2) = head_styles (browser s.2) ∧
  (is_Some (toggleButton (ext (comp s.2))) →
   is_Some (toggleButton (ext (comp (updateToggleButton s).2)))).
Proof.
  unfold updateToggleButton. destruct (toggleButton (ext (comp s.2))) as [b|]; [|done].
  destruct (flag "isTransitioning" s); (split; [done|]; split; [done|]; by eexists).
Qed.

Lemma styleToggleButton_document s :
  comp (styleToggleButton s).2 = comp s.2 ∧
  body_children (browser (styleToggleButton s).2) = body_children (browser s.2) ∧
  "theme-toggle-styles" ∈ head_styles (browser (styleToggleButton s).2).
Proof.
  unfold styleToggleButton. case_bool_decide; [done|].
  split; [done|]. split; [done|]. apply elem_of_app. right. by left.
Qed.

(** X17. The clean-up of the theme manager undoes only a part of what
    [createToggleButton()] did: [onDestroy()] takes the toggle button out
    of the document again, but the style sheet 'theme-toggle-styles' that
    came with it stays in the head. *)
Theorem onDestroy_leaves_toggle_styles s :
  "theme-toggle" ∉ body_children (browser s.2) →
  (onDestroy (createToggleButton s)).1 = Ok () ∧
  body_children (browser (onDestroy (createToggleButton s)).2.2)
  = body_children (browser s.2) ∧
  "theme-toggle-styles" ∈ head_styles (browser (onDestroy (createToggleButton s)).2.2).
Proof.
  intros Hb.
  assert (H : is_Some (toggleButton (ext (comp (createToggleButton s).2))) ∧
              body_children (browser (createToggleButton s).2)
              = body_children (browser s.2) ++ ["theme-toggle"] ∧
              "theme-toggle-styles" ∈ head_styles (browser (createToggleButton s).2)).
  { unfold createToggleButton. cbv zeta.
    match goal with |- context [styleToggleButton ?x] =>
      destruct (styleToggleButton_document x) as (V1 & V2 & V3)
    end.
    match goal with |- context [updateToggleButton ?x] =>
      destruct (updateToggleButton_document x) as (U1 & U2 & U3); set (s3 := x) in *
    end.
    cbn [say fst snd comp browser]. rewrite U1, U2.
    split; [|split].
    - apply U3. subst s3. cbn [on_browser fst snd comp]. rewrite V1. by eexists.
    - subst s3. cbn [on_browser fst snd browser body_children set_body_children].
      by rewrite V2.
    - subst s3. cbn [on_browser fst snd browser head_styles set_body_children]. exact V3. }
  destruct H as ([b Hbtn] & Hch & Hst).
  set (s1 := createToggleButton s) in *. clearbody s1.
  unfold onDestroy, m_bind, act. cbn [fst snd]. rewrite Hbtn.
  cbn [say on_browser fst snd browser body_children head_styles set_head_styles
       set_body_children].
  split; [done|]. split.
  - by rewrite Hch, (remove_one_appended _ _ Hb).
  - by apply remove_one_other.
Qed.

End ThemeOperations.

Lemma toggleTheme_cycles_witness :
  prop (BaseComponent.state (BaseComponent.comp
          (Nat.iter 3 (ThemeManager.toggleTheme (ThemeManager.run 3))
             Scenario.dark_manager).2)) "currentTheme" = VStr "dark".
Proof.
  refine (proj2 (toggleTheme_cycles 3 Scenario.dark_manager ["light"; "dark"; "auto"]
                   1%nat "dark" _ _ _ _ _ dark_manager_passive)).
  - vm_compute. reflexivity.
  - repeat constructor; set_solver.
  - reflexivity.
  - vm_compute. reflexivity.
  - vm_compute. reflexivity.
Defined.

Lemma system_preference_followed_when_auto_witness :
  data_theme (BaseComponent.browser
    (ThemeManager.handleSystemPreferenceChange (ThemeManager.run 3)
       [VObj {[ "matches" := VBool false ]}] Scenario.dark_manager).2.2)
  = data_theme (BaseComponent.browser Scenario.dark_manager.2).
Proof.
  refine (proj2 (proj2 (proj2 (proj2
            (system_preference_followed_when_auto 3
               [VObj {[ "matches" := VBool false ]}] (VBool false)
               Scenario.dark_manager _ _ dark_manager_passive)))) _);
    vm_compute; reflexivity.
Defined.

Lemma first_visit_passive : Spec.passive_bus Scenario.first_visit.1.
Proof.
  apply passive_bus_intro.
  - apply (good_on_by_callbacks _ _ _
             [ThemeManager.HandleStateChange; ThemeManager.HandleStateChange]).
    + vm_compute. reflexivity.
    + repeat constructor.
  - apply (good_on_by_callbacks _ _ _ []); [vm_compute; reflexivity|constructor].
  - apply (good_on_by_callbacks _ _ _ []); [vm_compute; reflexivity|constructor].
  - apply (good_on_by_callbacks _ _ _ []); [vm_compute; reflexivity|constructor].
Defined.

Lemma loadTheme_unusable_value_witness :
  prop (BaseComponent.state (BaseComponent.comp
          (ThemeManager.loadTheme (ThemeManager.run 3) Scenario.first_visit).2.2))
    "currentTheme" = VStr "auto".
Proof.
  refine (proj2 (loadTheme_unusable_value 3 Scenario.first_visit _ _ _
                   first_visit_passive)).
  - vm_compute. reflexivity.
  - vm_compute. exact I.
  - vm_compute. reflexivity.
Defined.

Lemma onDestroy_leaves_toggle_styles_witness :
  "theme-toggle-styles"
  ∈ head_styles (BaseComponent.browser
       (ThemeManager.onDestroy
          (ThemeManager.createToggleButton
             (ThemeManager.new 3 false "theme" ∅ (BaseComponent.default_Config false)
                None [] (EventBus.new_EventBus false Scenario.clock Scenario.entropy)
                (blank_page ∅ None Scenario.offline)))).2.2).
Proof.
  refine (proj2 (proj2 (onDestroy_leaves_toggle_styles _ _))).
  vm_compute. intros H. by apply elem_of_nil in H.
Defined.

(** ** The page script and the application core: what survives a reload *)

Section PageScriptFacts.

Import PageScript.

(** X18. A click on the theme toggle of the page script, with working
    storage: the page gets the other theme ('light' after 'dark', 'dark'
    after anything else) and the choice is stored, so that
    [setupThemeToggle()] on the next page load applies the same theme.
    Two clicks lead back to a theme that was 'light' or 'dark'. *)
Theorem themeToggle_click_survives_reload br br' :
  denied (localStorage br) = false →
  full (localStorage br) = false →
  localStorage br' = localStorage (themeToggle_click br).2 →
  (themeToggle_click br).1 = Ok () ∧
  data_theme (themeToggle_click br).2
  = Some (if bool_decide (data_theme br = Some "dark") then "light" else "dark") ∧
  (setupThemeToggle br').1 = Ok () ∧
  data_theme (setupThemeToggle br').2 = data_theme (themeToggle_click br).2 ∧
  (data_theme br = Some "light" ∨ data_theme br = Some "dark" →
   data_theme (themeToggle_click (themeToggle_click br).2).2 = data_theme br).
Proof.
  intros Hd Hf Hst.
  unfold setupThemeToggle. rewrite Hst. clear Hst.
  unfold themeToggle_click, setItem, getItem. cbn [localStorage set_data_theme].
  rewrite ?Hd, ?Hf.
  cbn [fst snd localStorage set_localStorage data_theme denied full items set_data_theme].
  rewrite ?Hd, ?Hf.
  cbn [fst snd localStorage set_localStorage data_theme denied full items set_data_theme].
  rewrite lookup_insert_eq.
  repeat split.
  - by case_bool_decide.
  - intros [H|H]; rewrite H; by repeat (case_bool_decide; try done).
Qed.

(** X19. The same click when storage refuses the write: the listener
    throws, the page has changed its theme all the same, and nothing is
    stored, so that the next page load comes back with the theme that was
    stored before. *)
Theorem themeToggle_click_not_stored br br' :
  denied (localStorage br) || full (localStorage br) = true →
  localStorage br' = localStorage (themeToggle_click br).2 →
  (∃ e, (themeToggle_click br).1 = Thrown e) ∧
  data_theme (themeToggle_click br).2
  = Some (if bool_decide (data_theme br = Some "dark") then "light" else "dark") ∧
  items (localStorage (themeToggle_click br).2) = items (localStorage br) ∧
  (denied (localStorage br) = false →
   (setupThemeToggle br').1 = Ok () ∧
   data_theme (setupThemeToggle br').2
   = Some (match items (localStorage br) !! "theme" with
           | Some v => if String.eqb v EmptyString then "light" else v
           | None => "light"
           end)).
Proof.
  intros Hdf Hst.
  unfold setupThemeToggle. rewrite Hst. clear Hst.
  unfold themeToggle_click, setItem, getItem. cbn [localStorage set_data_theme].
  destruct (denied (localStorage br)) eqn:Hd.
  - cbn [fst snd localStorage set_localStorage data_theme denied full items touch].
    repeat split; try done; by eexists.
  - cbn [orb] in Hdf. rewrite Hdf.
    cbn [fst snd localStorage set_localStorage data_theme denied full items touch].
    rewrite Hd.
    cbn [fst snd localStorage set_localStorage data_theme denied full items touch
           set_data_theme].
    repeat split; try done; by eexists.
Qed.

End PageScriptFacts.

Lemma themeToggle_click_survives_reload_witness :
  data_theme (PageScript.setupThemeToggle
                (PageScript.themeToggle_click (BaseComponent.browser Scenario.first_visit.2)).2).2
  = data_theme (PageScript.themeToggle_click
                  (BaseComponent.browser Scenario.first_visit.2)).2.
Proof.
  refine (proj1 (proj2 (proj2 (proj2
            (themeToggle_click_survives_reload
               (BaseComponent.browser Scenario.first_visit.2)
               (PageScript.themeToggle_click
                  (BaseComponent.browser Scenario.first_visit.2)).2 _ _ _)))));
    reflexivity.
Defined.

Lemma themeToggle_click_not_stored_witness :
  items (localStorage (PageScript.themeToggle_click Scenario.private_page).2)
  = items (localStorage Scenario.private_page).
Proof.
  refine (proj1 (proj2 (proj2
            (themeToggle_click_not_stored Scenario.private_page
               (PageScript.themeToggle_click Scenario.private_page).2 _ _))));
    reflexivity.
Defined.

Section AppFacts.

Import App.

Variable JSON_parse : string → result jsval.
Variable JSON_stringify : jsval → string.

(** X20. Preferences survive a reload: after [saveUserPreferences()] with
    working storage, [loadUserPreferences()] of an application that finds
    this storage sets theme and language to the saved ones, a falsy one
    being replaced by 'light' and 'tr', and leaves the other keys of its
    state alone, when [JSON.parse] gives back the object that
    [JSON.stringify] wrote. *)
Theorem preferences_survive_reload (a1 a2 : App.App) (st : Storage) :
  denied st = false →
  full st = false →
  JSON_stringify (VObj (<["theme" := prop (state a1) "theme"]>
                       (<["language" := prop (state a1) "language"]> ∅))) ≠ EmptyString →
  JSON_parse (JSON_stringify (VObj (<["theme" := prop (state a1) "theme"]>
                                   (<["language" := prop (state a1) "language"]> ∅))))
  = Ok (VObj (<["theme" := prop (state a1) "theme"]>
             (<["language" := prop (state a1) "language"]> ∅))) →
  (saveUserPreferences JSON_stringify (a1, st)).1 = Ok () ∧
  (loadUserPreferences JSON_parse
     (a2, (saveUserPreferences JSON_stringify (a1, st)).2.2)).1 = Ok () ∧
  prop (state (loadUserPreferences JSON_parse
                 (a2, (saveUserPreferences JSON_stringify (a1, st)).2.2)).2.1) "theme"
  = (if truthy (prop (state a1) "theme") then prop (state a1) "theme" else VStr "light") ∧
  prop (state (loadUserPreferences JSON_parse
                 (a2, (saveUserPreferences JSON_stringify (a1, st)).2.2)).2.1) "language"
  = (if truthy (prop (state a1) "language") then prop (state a1) "language" else VStr "tr") ∧
  ∀ k, k ≠ "theme" → k ≠ "language" →
       state (loadUserPreferences JSON_parse
                (a2, (saveUserPreferences JSON_stringify (a1, st)).2.2)).2.1 !! k
       = state a2 !! k.
Proof.
  intros Hd Hf Hne Hp.
  unfold saveUserPreferences, loadUserPreferences, try_catch, storage_set, storage_get,
    setItem, getItem, m_bind, lift, act, m_ret.
  cbn [fst snd]. rewrite ?Hd, ?Hf. cbn [fst snd items denied]. rewrite ?Hd.
  rewrite lookup_insert_eq. apply String.eqb_neq in Hne. rewrite Hne, Hp.
  unfold member_or, member.
  set (th := prop (state a1) "theme"). set (la := prop (state a1) "language").
  assert (P1 : prop (<["theme" := th]> (<["language" := la]> ∅)) "theme" = th).
  { unfold prop. by rewrite lookup_insert_eq. }
  assert (P2 : prop (<["theme" := th]> (<["language" := la]> ∅)) "language" = la).
  { unfold prop. rewrite lookup_insert_ne by done. by rewrite lookup_insert_eq. }
  rewrite P1, P2. cbn [fst snd with_state state].
  repeat split.
  - unfold prop. rewrite lookup_insert_ne by done. by rewrite lookup_insert_eq.
  - unfold prop. by rewrite lookup_insert_eq.
  - intros k K1 K2. by rewrite !lookup_insert_ne.
Qed.

(** X21. Whatever is stored, [loadConfig()] and [loadUserPreferences()]
    return normally, [JSON.parse] returning or throwing. [loadConfig()]
    loses no key of the configuration and leaves the state alone; when
    storage is refused, nothing is stored or the stored text does not
    parse, the configuration is what it was, and when the stored text
    parses to an object, the keys of that object overwrite the
    configuration. *)
Theorem loadConfig_keeps_defaults (s : App.Sys) :
  (∀ text, JSON_parse text ≠ Diverged) →
  (loadConfig JSON_parse s).1 = Ok () ∧
  (loadUserPreferences JSON_parse s).1 = Ok () ∧
  state (loadConfig JSON_parse s).2.1 = state s.1 ∧
  config (loadUserPreferences JSON_parse s).2.1 = config s.1 ∧
  (∀ k, is_Some (config s.1 !! k) → is_Some (config (loadConfig JSON_parse s).2.1 !! k)) ∧
  (denied s.2 = true ∨ items s.2 !! "codenexlify-config" = None
   ∨ (∃ text e, items s.2 !! "codenexlify-config" = Some text ∧
                JSON_parse text = Thrown e) →
   config (loadConfig JSON_parse s).2.1 = config s.1) ∧
  (∀ text o, denied s.2 = false →
     items s.2 !! "codenexlify-config" = Some text → text ≠ EmptyString →
     JSON_parse text = Ok (VObj o) →
     config (loadConfig JSON_parse s).2.1 = o ∪ config s.1).
Proof.
  intros Hp. destruct s as [a st].
  unfold loadConfig, loadUserPreferences, try_catch, storage_get, getItem, m_bind,
    lift, act, m_ret, member_or. cbn [fst snd].
  destruct (denied st) eqn:Hd; cbn [fst snd].
  { repeat split; done. }
  assert (U : ∀ v k, is_Some (config a !! k) → is_Some ((spread v ∪ config a) !! k)).
  { intros v k [x Hx]. destruct (spread v !! k) as [y|] eqn:E.
    - exists y. by apply lookup_union_Some_l.
    - exists x. rewrite lookup_union_r; done. }
  split; [|split; [|split; [|split; [|split; [|split]]]]].
  - destruct (items st !! "codenexlify-config") as [text|]; [|done].
    destruct (String.eqb text EmptyString); [done|].
    specialize (Hp text). by destruct (JSON_parse text).
  - destruct (items st !! "codenexlify-preferences") as [text|]; [|done].
    destruct (String.eqb text EmptyString); [done|].
    specialize (Hp text). destruct (JSON_parse text) as [v| |]; [|done|done].
    cbn [fst snd]. unfold member. by destruct v.
  - destruct (items st !! "codenexlify-config") as [text|]; [|done].
    destruct (String.eqb text EmptyString); [done|].
    by destruct (JSON_parse text).
  - destruct (items st !! "codenexlify-preferences") as [text|]; [|done].
    destruct (String.eqb text EmptyString); [done|].
    destruct (JSON_parse text) as [v| |]; [|done|done].
    cbn [fst snd]. unfold member. by destruct v.
  - intros k Hk.
    destruct (items st !! "codenexlify-config") as [text|]; [|done].
    destruct (String.eqb text EmptyString); [done|].
    destruct (JSON_parse text) as [v| |]; [|done|done].
    cbn [fst snd with_config config]. by apply U.
  - intros [?|[Hn|(text & e & Ht & He)]]; [done| |].
    + by rewrite Hn.
    + rewrite Ht. destruct (String.eqb text EmptyString); [done|]. by rewrite He.
  - intros text o _ Ht Hne Ho. rewrite Ht. apply String.eqb_neq in Hne.
    by rewrite Hne, Ho.
Qed.

End AppFacts.

Lemma preferences_survive_reload_witness :
  prop (App.state
          (App.loadUserPreferences
             (λ _, Ok (VObj (<["theme" := VStr "light"]> (<["language" := VStr "tr"]> ∅))))
             (Scenario.app.1,
              (App.saveUserPreferences (λ _, "{}") Scenario.app).2.2)).2.1) "theme"
  = VStr "light".
Proof.
  refine (proj1 (proj2 (proj2
            (preferences_survive_reload
               (λ _, Ok (VObj (<["theme" := VStr "light"]> (<["language" := VStr "tr"]> ∅))))
               (λ _, "{}") Scenario.app.1 Scenario.app.1 Scenario.app.2 _ _ _ _))));
    [reflexivity|reflexivity|done|reflexivity].
Defined.

Lemma loadConfig_keeps_defaults_witness :
  (App.loadConfig (λ _, Thrown (VErr "SyntaxError")) Scenario.app).1 = Ok ().
Proof.
  refine (proj1 (loadConfig_keeps_defaults (λ _, Thrown (VErr "SyntaxError"))
                   Scenario.app _)).
  done.
Defined.

(** ** Navigation manager: scroll throttling and the mobile menu *)

Section ObservedFacts.

Import BaseComponent.

Context {C X : Type} `{EqDecision C}.
Variable run : C → option string → list jsval → BaseComponent.Sys C X
               → option jsval * BaseComponent.Sys C X.
Hypothesis run_observes : ∀ c ctx a b w, Spec.observed w (run c ctx a (b, w)).2.2.

Implicit Types (s : BaseComponent.Sys C X).

#[local] Instance observed_preorder : PreOrder (@Spec.observed C X).
Proof.
  split.
  - by intros w.
  - intros w1 w2 w3 [A1 B1] [A2 B2]. split; congruence.
Qed.

(** Listeners that only observe: [emit] leaves the component and the
    page alone. *)
Lemma emit_observed ev d s : Spec.observed s.2 (BaseComponent.emit run ev d s).2.2.
Proof. unfold BaseComponent.emit. exact (emit_rel run Spec.observed run_observes ev _ s). Qed.

(** [setState] then changes the state, and nothing else. *)
Lemma setState_observed new s :
  cfg enableStateTracking s = true →
  comp (setState run new s).2 = with_state (new ∪ state (comp s.2)) (comp s.2) ∧
  browser (setState run new s).2 = browser s.2.
Proof.
  intros Ht. unfold setState. rewrite Ht. cbn [negb]. cbv zeta.
  match goal with |- context [BaseComponent.emit run ?ev ?d ?x] =>
    destruct (emit_observed ev d x) as [E1 E2]; rewrite E1, E2
  end.
  by destruct (cfg debugMode _).
Qed.

End ObservedFacts.

Section NavigationFacts.

Import BaseComponent NavigationManager.

Context {C : Type} `{EqDecision C}.
Variable run : C → option string → list jsval → BaseComponent.Sys C Fields
               → option jsval * BaseComponent.Sys C Fields.
Hypothesis run_observes : ∀ c ctx a b w, Spec.observed w (run c ctx a (b, w)).2.2.

Implicit Types (s : BaseComponent.Sys C Fields).

(** X22. Scroll events are throttled: with no frame pending,
    [handleScroll()] requests one animation frame, and any number of
    further scroll events before that frame runs change nothing at all.
    When the frame runs (state tracking on, listeners that only observe),
    the manager is ready for the next request, has recorded the scroll
    position, and its state says whether the page is scrolled beyond the
    sticky offset. *)
Theorem scroll_events_throttled k s :
  scrollThrottleId (fields s) = None →
  cfg enableStateTracking s = true →
  Nat.iter k handleScroll (handleScroll s) = handleScroll s ∧
  animationFrames (browser (handleScroll s).2)
  = animationFrames (browser s.2) ++ [next_frame (browser s.2)] ∧
  scrollThrottleId (fields (animationFrame run (next_frame (browser s.2))
                              (handleScroll s))) = None ∧
  lastScrollY (fields (animationFrame run (next_frame (browser s.2)) (handleScroll s)))
  = scrollY (browser s.2) ∧
  prop (state (comp (animationFrame run (next_frame (browser s.2)) (handleScroll s)).2))
    "scrolled"
  = VBool (bool_decide (stickyOffset (nconfig (fields s)) < scrollY (browser s.2))%Z).
Proof.
  intros Hn Ht.
  assert (Hp : scrollThrottleId (fields (handleScroll s)) = Some (next_frame (browser s.2))).
  { unfold handleScroll. by rewrite Hn. }
  split.
  { induction k as [|k IH]; [done|].
    change (handleScroll (Nat.iter k handleScroll (handleScroll s)) = handleScroll s).
    rewrite IH. unfold handleScroll at 1. by rewrite Hp. }
  assert (Hf : animationFrames (browser (handleScroll s).2)
               = animationFrames (browser s.2) ++ [next_frame (browser s.2)]).
  { unfold handleScroll. by rewrite Hn. }
  split; [exact Hf|].
  unfold animationFrame. rewrite Hf.
  rewrite bool_decide_eq_true_2 by (apply elem_of_app; right; apply list_elem_of_singleton; done).
  unfold handleScroll. rewrite Hn.
  set (i := next_frame (browser s.2)).
  set (s0 := on_browser (set_animationFrames (filter (λ j, j ≠ i)) 0)
               (with_fields (λ x, set_throttle (Some i) (lastScrollY x) x)
                  (on_browser (set_animationFrames (λ l, l ++ [i]) 1) s))).
  assert (Ht0 : cfg enableStateTracking s0 = true) by exact Ht.
  assert (Hy : scrollY (browser s0.2) = scrollY (browser s.2)) by done.
  assert (Hc : nconfig (fields s0) = nconfig (fields s)) by done.
  assert (Hs : state (comp s0.2) = state (comp s.2)) by done.
  clearbody s0. unfold scrollFrame. rewrite Hy, Hc. cbv zeta.
  set (y := scrollY (browser s.2)).
  set (scrolled := bool_decide (stickyOffset (nconfig (fields s)) < y)%Z).
  set (down := bool_decide (lastScrollY (fields s0) < y)%Z).
  assert (A1 : ∀ d z (x : BaseComponent.Sys C Fields),
            state (comp (handleMobileNavbarVisibility d z x).2)
                        = state (comp x.2)).
  { intros d z x. unfold handleMobileNavbarVisibility. by destruct (navbar _). }
  assert (A2 : ∀ x : BaseComponent.Sys C Fields,
            state (comp (updateNavbarAppearance x).2) = state (comp x.2)).
  { intros x. unfold updateNavbarAppearance. by destruct (navbar _). }
  match goal with |- context [BaseComponent.emit run ?ev ?d ?x] =>
    destruct (emit_observed run run_observes ev d x) as [E1 E2];
      unfold fields in E1 |- *; rewrite !E1
  end.
  cbn [snd comp with_fields on_comp with_ext ext state scrollThrottleId lastScrollY
         set_throttle].
  repeat split.
  match goal with |- context [if ?c then handleMobileNavbarVisibility ?d ?z ?x else _] =>
    transitivity (prop (state (comp x.2)) "scrolled");
      [destruct c; [by rewrite A1|done]|]
  end.
  match goal with |- context [if ?c then updateNavbarAppearance _ else _] =>
    destruct c eqn:Hch
  end.
  - rewrite A2.
    destruct (setState_observed run run_observes {[ "scrolled" := VBool scrolled ]}
                s0 Ht0) as [F1 F2].
    rewrite F1. cbn [state with_state]. by apply prop_union_l, lookup_singleton_eq.
  - destruct (prop (state (comp s0.2)) "scrolled"); try done.
    f_equal. apply negb_false_iff in Hch. by apply Bool.eqb_prop.
Qed.

(** X23. Opening the mobile menu marks the state, the body and the menu
    elements and blocks the scrolling of the body; closing it undoes all
    of this (state tracking on, listeners that only observe): the class
    lists that did not hold the marks before are what they were, and the
    [overflow] style of the body is empty, whatever it was before. *)
Theorem menu_open_then_close s :
  cfg enableStateTracking s = true →
  (flag "mobileMenuOpen" (openMobileMenu run s) = true ∧
   body_overflow (browser (openMobileMenu run s).2) = "hidden" ∧
   "menu-open" ∈ body_classList (browser (openMobileMenu run s).2)) ∧
  flag "mobileMenuOpen" (closeMobileMenu run (openMobileMenu run s)) = false ∧
  body_overflow (browser (closeMobileMenu run (openMobileMenu run s)).2) = EmptyString ∧
  ("menu-open" ∉ body_classList (browser s.2) →
   body_classList (browser (closeMobileMenu run (openMobileMenu run s)).2)
   = body_classList (browser s.2)) ∧
  (∀ l, hamburger (fields s) = Some l → "active" ∉ l →
        hamburger (fields (closeMobileMenu run (openMobileMenu run s))) = Some l) ∧
  (∀ l, navMenu (fields s) = Some l → "active" ∉ l →
        navMenu (fields (closeMobileMenu run (openMobileMenu run s))) = Some l).
Proof.
  intros Ht.
  assert (R : ∀ c (l : list string), c ∉ l → classList_remove c (classList_add c l) = l).
  { intros c l Hc. unfold classList_remove, classList_add.
    rewrite bool_decide_eq_false_2 by done.
    induction l as [|x l IH].
    - rewrite app_nil_l, filter_cons_False, filter_nil; [done|]. by intros ?.
    - apply not_elem_of_cons in Hc as [Hx Hl].
      rewrite <- app_comm_cons, filter_cons_True by done. f_equal. by apply IH. }
  assert (O : ∃ so,
    openMobileMenu run s = so ∧
    cfg enableStateTracking so = true ∧
    prop (state (comp so.2)) "mobileMenuOpen" = VBool true ∧
    body_overflow (browser so.2) = "hidden" ∧
    body_classList (browser so.2) = classList_add "menu-open" (body_classList (browser s.2)) ∧
    hamburger (fields so) = classList_add "active" <$> hamburger (fields s) ∧
    navMenu (fields so) = classList_add "active" <$> navMenu (fields s)).
  { eexists. split; [reflexivity|]. unfold openMobileMenu. cbv zeta.
    destruct (setState_observed run run_observes {[ "mobileMenuOpen" := VBool true ]}
                s Ht) as [E1 E2].
    match goal with |- context [BaseComponent.emit run ?ev ?d ?x] =>
      destruct (emit_observed run run_observes ev d x) as [F1 F2]
    end.
    unfold cfg, fields.
    cbn [snd say comp browser fst] in F1, F2 |- *. rewrite F1, F2.
    cbn [snd comp browser on_browser with_fields on_comp with_ext ext config state
           set_body_overflow set_body_classList body_overflow body_classList
           set_menu hamburger navMenu].
    rewrite E1, E2. cbn [with_state config state ext].
    repeat split; try done. by apply prop_union_l, lookup_singleton_eq. }
  destruct O as (so & -> & Hto & O1 & O2 & O3 & O4 & O5).
  assert (K : ∃ sc,
    closeMobileMenu run so = sc ∧
    prop (state (comp sc.2)) "mobileMenuOpen" = VBool false ∧
    body_overflow (browser sc.2) = EmptyString ∧
    body_classList (browser sc.2) = classList_remove "menu-open" (body_classList (browser so.2)) ∧
    hamburger (fields sc) = classList_remove "active" <$> hamburger (fields so) ∧
    navMenu (fields sc) = classList_remove "active" <$> navMenu (fields so)).
  { eexists. split; [reflexivity|]. unfold closeMobileMenu. cbv zeta.
    destruct (setState_observed run run_observes {[ "mobileMenuOpen" := VBool false ]}
                so Hto) as [E1 E2].
    match goal with |- context [BaseComponent.emit run ?ev ?d ?x] =>
      destruct (emit_observed run run_observes ev d x) as [F1 F2]
    end.
    unfold fields.
    cbn [snd say comp browser fst] in F1, F2 |- *. rewrite F1, F2.
    cbn [snd comp browser on_browser with_fields on_comp with_ext ext config state
           set_body_overflow set_body_classList body_overflow body_classList
           set_menu hamburger navMenu].
    rewrite E1, E2. cbn [with_state config state ext].
    repeat split; try done. by apply prop_union_l, lookup_singleton_eq. }
  destruct K as (sc & -> & K1 & K2 & K3 & K4 & K5).
  split; [|split; [|split; [|split; [|split]]]].
  - unfold flag. rewrite O1. split; [done|]. split; [done|].
    rewrite O3. unfold classList_add. case_bool_decide; [done|].
    apply elem_of_app. right. by apply list_elem_of_singleton.
  - unfold flag. by rewrite K1.
  - done.
  - intros Hb. rewrite K3, O3. by apply R.
  - intros l Hl Ha. rewrite K4, O4, Hl. cbn. f_equal. by apply R.
  - intros l Hl Ha. rewrite K5, O5, Hl. cbn. f_equal. by apply R.
Qed.

End NavigationFacts.

Lemma inert_observes {X} c ctx a b (w : BaseComponent.World unit X) :
  Spec.observed w (Scenario.inert c ctx a (b, w)).2.2.
Proof. done. Defined.

Lemma scroll_events_throttled_witness :
  Nat.iter 3 NavigationManager.handleScroll
    (NavigationManager.handleScroll Scenario.navigation)
  = NavigationManager.handleScroll Scenario.navigation.
Proof.
  refine (proj1 (scroll_events_throttled Scenario.inert inert_observes 3
                   Scenario.navigation _ _)); reflexivity.
Defined.

Lemma menu_open_then_close_witness :
  BaseComponent.flag "mobileMenuOpen"
    (NavigationManager.closeMobileMenu Scenario.inert
       (NavigationManager.openMobileMenu Scenario.inert Scenario.navigation)) = false.
Proof.
  refine (proj1 (proj2 (menu_open_then_close Scenario.inert inert_observes
                          Scenario.navigation _))); reflexivity.
Defined.

(** ** Internationalization manager: repeated loads, the built-in table
       and the saved language *)

Section I18nOperations.

Import BaseComponent I18nManager.

Context {C : Type} `{EqDecision C}.
Variable run : C → option string → list jsval → BaseComponent.Sys C Fields
               → option jsval * BaseComponent.Sys C Fields.

Implicit Types (s : BaseComponent.Sys C Fields).

Section Quiet.
Hypothesis run_quiet : ∀ c ctx a b w, Spec.i18n_quiet w (run c ctx a (b, w)).2.2.

(** X24. A language is requested at most once: after a first
    [loadTranslations(language)], whatever the network answered, a second
    call requests nothing and leaves the tables alone. A failed load is
    therefore final: when the request failed and the language is not
    'en', the language has the table it had before, if any, for good. *)
Theorem loadTranslations_never_retried language l s :
  prop (state (comp s.2)) "loadedLanguages" = VSet l →
  language ∉ l →
  (loadTranslations run language (loadTranslations run language s).2).1 = Ok () ∧
  requests (browser (loadTranslations run language (loadTranslations run language s).2).2.2)
  = requests (browser s.2) ++ [Spec.translationsUrl s language] ∧
  translations (ext (comp (loadTranslations run language
                             (loadTranslations run language s).2).2.2))
  = translations (ext (comp (loadTranslations run language s).2.2)) ∧
  (language ≠ "en" →
   (∀ status table, network (browser s.2) (Spec.translationsUrl s language)
                    ≠ HttpResponse true status (Some table)) →
   translations (ext (comp (loadTranslations run language
                              (loadTranslations run language s).2).2.2))
   = translations (ext (comp s.2))).
Proof.
  intros Hl Hin.
  destruct (loadTranslations_fresh run run_quiet language l s Hl Hin) as (F1 & F2 & F3 & F4).
  cbv zeta in F1, F2, F3, F4.
  assert (Hin' : language ∈ l ++ [language]).
  { apply elem_of_app. right. by apply list_elem_of_singleton. }
  rewrite (loadTranslations_cached run language (l ++ [language]) _ F3 Hin').
  cbn [fst snd say comp browser]. split; [done|]. split; [done|]. split; [done|].
  intros Hen Hfail. rewrite F4. unfold Spec.table_after.
  apply String.eqb_neq in Hen. rewrite Hen.
  destruct (network _ _) as [m|[] status [table|]]; try done.
  by destruct (Hfail status table).
Qed.

End Quiet.

Section Observed.
Hypothesis run_observes : ∀ c ctx a b w, Spec.observed w (run c ctx a (b, w)).2.2.

Lemma observes_quiet c ctx a b w : Spec.i18n_quiet w (run c ctx a (b, w)).2.2.
Proof.
  unfold Spec.i18n_quiet. destruct (run_observes c ctx a b w) as [E1 E2].
  rewrite E1, E2. by repeat split.
Qed.

(** [loadTranslations] keeps the configuration of the component. *)
Lemma loadTranslations_config language s :
  config (comp (loadTranslations run language s).2.2) = config (comp s.2).
Proof.
  unfold loadTranslations. destruct (prop _ "loadedLanguages"); try done.
  destruct (bool_decide _); [done|]. unfold try_finally.
  assert (K : ∀ new x, config (comp (setState run new x).2) = config (comp x.2)).
  { intros new x. unfold setState. destruct (negb _); [done|]. cbv zeta.
    match goal with |- context [BaseComponent.emit run ?ev ?d ?y] =>
      destruct (emit_observed run run_observes ev d y) as [E1 _]; rewrite E1
    end.
    by destruct (cfg debugMode _). }
  rewrite <- (K {[ "isLoading" := VBool true ]} s).
  generalize (setState run {[ "isLoading" := VBool true ]} s). intros s1.
  match goal with |- context [try_catch ?body ?h s1] =>
    assert (B : config (comp (try_catch body h s1).2.2) = config (comp s1.2));
    [|destruct (try_catch body h s1) as [r s2]; cbn [fst snd] in B |- *; by rewrite K]
  end.
  unfold try_catch, m_bind, act, when, fetchTranslations, fetch, markLoaded,
    loadBuiltInEnglishTranslations, i18n_config.
  generalize (list_to_map (M := gmap string string) englishTranslations). intros en.
  cbn -[pretty String.append prop insert].
  destruct (network (browser s1.2) _) as [m|[] status [table|]];
    [destruct (String.eqb language "en")
    | | destruct (String.eqb language "en")
    | destruct (String.eqb language "en") | destruct (String.eqb language "en") ];
    cbn -[pretty String.append prop insert];
    destruct (prop (state (comp s1.2)) "loadedLanguages"); done.
Qed.

(** X25. English without the network: when the request for 'en' fails,
    [loadTranslations('en')] installs the built-in table, and once the
    current language is set to 'en', as [setLanguage] does next, [t(key)]
    is the built-in text of every key of that table (state tracking on,
    listeners that only observe). Whatever the tables, [t(key)] of a
    non-empty key is never the empty string. *)
Theorem english_offline_uses_builtin l s :
  prop (state (comp s.2)) "loadedLanguages" = VSet l →
  "en" ∉ l →
  (∀ status table, network (browser s.2) (Spec.translationsUrl s "en")
                   ≠ HttpResponse true status (Some table)) →
  cfg enableStateTracking s = true →
  (∀ key text, (key, text) ∈ englishTranslations →
     t key (setState run {[ "currentLanguage" := VStr "en" ]}
              (loadTranslations run "en" s).2) = text) ∧
  (∀ key s', key ≠ EmptyString → t key s' ≠ EmptyString).
Proof.
  intros Hl Hin Hfail Ht. split.
  - destruct (loadTranslations_fresh run observes_quiet "en" l s Hl Hin) as (_ & _ & _ & F4).
    cbv zeta in F4. unfold Spec.table_after in F4.
    assert (Ht2 : cfg enableStateTracking (loadTranslations run "en" s).2 = true).
    { unfold cfg. by rewrite loadTranslations_config. }
    destruct (setState_observed run run_observes {[ "currentLanguage" := VStr "en" ]}
                _ Ht2) as [E1 _].
    set (s' := setState run _ _) in *.
    assert (Hcur : prop (state (comp s'.2)) "currentLanguage" = VStr "en").
    { rewrite E1. cbn [state with_state]. by apply prop_union_l, lookup_singleton_eq. }
    assert (Hen : translations (ext (comp s'.2)) !! "en"
                  = Some (list_to_map englishTranslations)).
    { rewrite E1. cbn [ext with_state]. rewrite F4.
      destruct (network _ _) as [m|[] status [table|]];
        try (by destruct (Hfail status table)); cbn [String.eqb Ascii.eqb Bool.eqb];
        by rewrite lookup_insert_eq. }
    clearbody s'. intros key text Hk. unfold t. rewrite Hcur, Hen.
    assert (ND : NoDup (englishTranslations.*1)).
    { apply (bool_decide_unpack _). vm_compute. exact I. }
    assert (NE : Forall (λ kv, kv.2 ≠ EmptyString) englishTranslations).
    { apply (bool_decide_unpack _). vm_compute. exact I. }
    rewrite (elem_of_list_to_map_1 _ _ _ ND Hk).
    rewrite Forall_forall in NE. specialize (NE _ Hk). cbn in NE.
    apply String.eqb_neq in NE. by rewrite NE.
  - intros key s' Hkey.
    assert (P : ∀ (table : option (gmap string string)) v,
              match table with
              | Some tb => match tb !! key with
                           | Some v => if String.eqb v EmptyString then None else Some v
                           | None => None
                           end
              | None => None
              end = Some v → v ≠ EmptyString).
    { intros [tb|] v; [|done]. destruct (tb !! key) as [w|]; [|done].
      destruct (String.eqb w EmptyString) eqn:E; [done|].
      intros [= <-]. by apply String.eqb_neq. }
    unfold t.
    repeat match goal with
           | |- context [match ?x with Some _ => _ | None => _ end] => destruct x eqn:?
           end; first [by eapply P|done].
Qed.

(** X26. The language survives a reload: after [saveLanguagePreference()]
    with working storage, [loadLanguagePreference()] of a manager that
    finds this storage under the same key makes the saved language its
    current one, when that language is one of its available languages;
    when it is not, the current language stays what it is (state tracking
    on, listeners that only observe). *)
Theorem language_survives_reload language s s' :
  persistChoice (i18n_config s) = true →
  persistChoice (i18n_config s') = true →
  storageKey (i18n_config s') = storageKey (i18n_config s) →
  denied (localStorage (browser s.2)) = false →
  full (localStorage (browser s.2)) = false →
  prop (state (comp s.2)) "currentLanguage" = VStr language →
  language ≠ EmptyString →
  localStorage (browser s'.2) = localStorage (browser (saveLanguagePreference s).2.2) →
  cfg enableStateTracking s' = true →
  is_Some (available s' language) →
  (loadLanguagePreference run s').1 = Ok () ∧
  prop (state (comp (loadLanguagePreference run s').2.2)) "currentLanguage"
  = (if bool_decide (available s' language = Some true) then VStr language
     else prop (state (comp s'.2)) "currentLanguage").
Proof.
  intros Hp Hp' Hk Hd Hf Hcur Hne Hst Ht [av Hav].
  assert (S : items (localStorage (browser (saveLanguagePreference s).2.2))
              !! storageKey (i18n_config s) = Some language ∧
              denied (localStorage (browser (saveLanguagePreference s).2.2)) = false).
  { unfold saveLanguagePreference. rewrite Hp. cbn [negb].
    unfold try_catch, m_bind, act, storage_set, setItem. rewrite Hd, Hf, Hcur.
    cbn [fst snd say comp browser on_browser set_localStorage localStorage items denied
           js_to_string].
    by rewrite lookup_insert_eq. }
  destruct S as [S1 S2]. rewrite <- Hst, <- Hk in S1. rewrite <- Hst in S2.
  unfold loadLanguagePreference. rewrite Hp'. cbn [negb].
  unfold try_catch, m_bind, storage_get, getItem. rewrite S2, S1.
  cbn [fst snd]. apply String.eqb_neq in Hne. rewrite Hne.
  set (s1 := on_browser _ s').
  assert (A1 : available s1 language = available s' language) by done.
  assert (T1 : cfg enableStateTracking s1 = true) by exact Ht.
  assert (C1 : state (comp s1.2) = state (comp s'.2)) by done.
  clearbody s1. rewrite A1, Hav. destruct av.
  - cbn [fst snd say comp]. split; [done|].
    destruct (setState_observed run run_observes {[ "currentLanguage" := VStr language ]}
                s1 T1) as [E1 _].
    rewrite E1. cbn [state with_state]. rewrite bool_decide_eq_true_2 by done.
    by apply prop_union_l, lookup_singleton_eq.
  - cbn [fst snd]. split; [done|]. rewrite bool_decide_eq_false_2 by done.
    by rewrite C1.
Qed.

End Observed.

End I18nOperations.

Lemma loadTranslations_never_retried_witness :
  (I18nManager.loadTranslations Scenario.inert "en"
     (I18nManager.loadTranslations Scenario.inert "en" Scenario.i18n).2).1 = Ok ().
Proof.
  refine (proj1 (loadTranslations_never_retried Scenario.inert inert_quiet "en" ["tr"]
                   Scenario.i18n _ _)).
  - reflexivity.
  - apply not_elem_of_cons. split; [done|apply not_elem_of_nil].
Defined.

Lemma english_offline_uses_builtin_witness :
  I18nManager.t "nav.home"
    (BaseComponent.setState Scenario.inert {[ "currentLanguage" := VStr "en" ]}
       (I18nManager.loadTranslations Scenario.inert "en" Scenario.i18n).2)
  = "Home".
Proof.
  refine (proj1 (english_offline_uses_builtin Scenario.inert inert_observes ["tr"]
                   Scenario.i18n _ _ _ _) "nav.home" "Home" _).
  - vm_compute. reflexivity.
  - apply not_elem_of_cons. split; [done|apply not_elem_of_nil].
  - intros status table. vm_compute. discriminate.
  - reflexivity.
  - apply (bool_decide_unpack _). vm_compute. exact I.
Defined.

Lemma language_survives_reload_witness :
  (I18nManager.loadLanguagePreference Scenario.inert
     (I18nManager.saveLanguagePreference Scenario.i18n).2).1 = Ok ().
Proof.
  refine (proj1 (language_survives_reload Scenario.inert inert_observes "tr"
                   Scenario.i18n (I18nManager.saveLanguagePreference Scenario.i18n).2
                   _ _ _ _ _ _ _ _ _ _));
    try (vm_compute; reflexivity); [discriminate|by eexists].
Defined.

(** ** [EventBus.waitFor]: the event arrives before the timeout *)

Section Resolving.

Import WaitFor EventBus.

Variables (p t : nat) (ev : string) (args : list jsval).

#[local] Instance undisturbed_preorder : PreOrder (Spec.undisturbed p t).
Proof.
  split.
  - by intros w.
  - intros w1 w2 w3 [A1 B1] [A2 B2]. split; [congruence|auto].
Qed.

(** Foreign callbacks leave the bus and the promise alone. *)
Lemma run_foreign c : Spec.foreign p c → ∀ ctx a b w,
  (WaitFor.run c ctx a (b, w)).2.1 = b ∧
  Spec.undisturbed p t w (WaitFor.run c ctx a (b, w)).2.2.
Proof.
  intros Hc ctx a b w. destruct c as [label throws|p' t']; [done|].
  split; [done|]. assert (Hp : p' ≠ p) by (intros ->; by apply (Hc t')).
  unfold WaitFor.run, settle, clearTimeout, Spec.undisturbed. cbn [fst snd promises timeouts].
  destruct (promises w !! p') as [[| |]|]; cbn [promises timeouts];
    rewrite ?lookup_insert_ne by done;
    (split; [done|]); intros Ht;
    (destruct (decide (t' = t)) as [->|Hne];
       [by rewrite lookup_delete_eq|by rewrite lookup_delete_ne]).
Qed.

Lemma resolvable_undisturbed w w' :
  Spec.undisturbed p t w w' →
  (Spec.resolvable p t args w → Spec.resolvable p t args w') ∧
  (Spec.resolved p t args w → Spec.resolved p t args w').
Proof.
  intros [A B]. unfold Spec.resolvable, Spec.resolved. rewrite A.
  split; [intros [?|[? ?]]; [by left|right; split; auto]|intros [? ?]; split; auto].
Qed.

(** The closure of [waitFor] resolves a promise that can be resolved. *)
Lemma run_resolver ctx b w :
  Spec.resolvable p t args w →
  WaitFor.run (Resolver p t) ctx args (b, w)
  = (None, (b, settle p (Fulfilled args) (clearTimeout t w))) ∧
  Spec.resolved p t args (settle p (Fulfilled args) (clearTimeout t w)).
Proof.
  intros Hw. split; [done|].
  unfold settle, clearTimeout, Spec.resolved. cbn [promises timeouts].
  destruct Hw as [Hp|[Hp Ht]]; rewrite Hp; cbn [promises timeouts].
  - by rewrite lookup_insert_eq, lookup_delete_eq.
  - by rewrite Hp, lookup_delete_eq.
Qed.

(** The loop of [emit] over listeners that are foreign or the closure of
    [waitFor]. *)
Lemma dispatch_resolves (ls : list (Listener WaitFor.callback)) hasError rm (s : WaitFor.Sys) :
  Forall (λ l, Spec.foreign p (callback l) ∨ callback l = Resolver p t) ls →
  ev = "error" ∨ Spec.good_on (Spec.foreign p) s.1 "error" →
  Spec.resolvable p t args s.2 →
  Spec.resolvable p t args
    (dispatch WaitFor.run (λ l e, emitError WaitFor.run ev e l) ev args ls hasError rm s).2.2 ∧
  (Spec.resolved p t args s.2 ∨ (∃ l, l ∈ ls ∧ callback l = Resolver p t) →
   Spec.resolved p t args
     (dispatch WaitFor.run (λ l e, emitError WaitFor.run ev e l) ev args ls hasError rm s).2.2).
Proof.
  revert hasError rm s.
  induction ls as [|l ls IH]; intros hasError rm s Hls Herr Hs; cbn [dispatch].
  { split; [done|]. intros [?|(l & Hl & _)]; [done|]. by apply elem_of_nil in Hl. }
  apply Forall_cons in Hls as [Hl Hls].
  destruct Hl as [Hl|Hl].
  - destruct (run_foreign _ Hl (lcontext l) args (record_call l s.1) s.2) as [Hb Hr].
    destruct (WaitFor.run _ _ _ _) as [[e|] s'] eqn:E; cbn [fst snd] in Hb, Hr.
    + set (s1 := (bus_log ERROR ("❌ Error in event listener for '" +:+ ev +:+ "':") s'.1,
                  s'.2)).
      assert (He : Spec.undisturbed p t s1.2 (emitError WaitFor.run ev e l s1).2 ∧
                   (ev = "error" ∨
                    Spec.good_on (Spec.foreign p) (emitError WaitFor.run ev e l s1).1 "error")).
      { destruct Herr as [->|Herr].
        - split; [|by left]. unfold emitError. by rewrite String.eqb_refl.
        - assert (G : Spec.good_on (Spec.foreign p) s1.1 "error").
          { intros ls'. subst s1. cbn [fst]. rewrite bus_log_events, Hb. apply Herr. }
          destruct (emitError_good WaitFor.run (Spec.undisturbed p t) (Spec.foreign p)
                      run_foreign ev e l s1 G) as [G1 G2].
          split; [exact G1|right; by apply G2]. }
      destruct He as [He1 He2].
      assert (Hu : Spec.undisturbed p t s.2 (emitError WaitFor.run ev e l s1).2).
      { etrans; [exact Hr|exact He1]. }
      destruct (resolvable_undisturbed _ _ Hu) as [U1 U2].
      destruct (IH true rm (emitError WaitFor.run ev e l s1) Hls He2 (U1 Hs)) as [I1 I2].
      split; [exact I1|].
      intros [Hd|(x & Hx & Hcx)]; apply I2; [left; by apply U2|right].
      exists x. split; [|done]. apply elem_of_cons in Hx as [->|Hx]; [|done].
      by destruct (Hl t).
    + destruct (resolvable_undisturbed _ _ Hr) as [U1 U2].
      assert (He2 : ev = "error" ∨ Spec.good_on (Spec.foreign p) s'.1 "error").
      { destruct Herr as [?|Herr]; [by left|right]. intros ls'. rewrite Hb. apply Herr. }
      destruct (IH hasError (if once l then rm ++ [l] else rm) s' Hls He2 (U1 Hs))
        as [I1 I2].
      split; [exact I1|].
      intros [Hd|(x & Hx & Hcx)]; apply I2; [left; by apply U2|right].
      exists x. split; [|done]. apply elem_of_cons in Hx as [->|Hx]; [|done].
      by destruct (Hl t).
  - rewrite Hl.
    destruct (run_resolver (lcontext l) (record_call l s.1) s.2 Hs) as [-> Hr].
    assert (He2 : ev = "error"
                  ∨ Spec.good_on (Spec.foreign p) (record_call l s.1) "error").
    { destruct Herr as [?|Herr]; [by left|right]. intros ls'. apply Herr. }
    destruct (IH hasError (if once l then rm ++ [l] else rm)
                (record_call l s.1, settle p (Fulfilled args) (clearTimeout t s.2))
                Hls He2 (or_intror Hr)) as [I1 I2].
    split; [exact I1|]. intros _. apply I2. by left.
Qed.

End Resolving.

(** X27. The event arrives first, on a page whose other listeners are
    plain ones, which return or throw and leave the bus alone, or the
    closures of other [waitFor] calls: when no listener of the bus
    resolves the promise that [waitFor(eventName, timeout)] is about to
    create, the next [emit] of that event fulfils the promise with the
    arguments of the event, also when other listeners of the event throw,
    and clears the timeout; the timeout elapsing later changes nothing. *)
Theorem waitFor_resolved_by_emit ev timeout args (s : WaitFor.Sys) :
  Spec.fresh_promise (WaitFor.next_promise s.2) s.1 →
  WaitFor.promises (WaitFor.emit ev args (WaitFor.waitFor ev timeout s).2).2.2
    !! WaitFor.next_promise s.2 = Some (WaitFor.Fulfilled args) ∧
  WaitFor.timeouts (WaitFor.emit ev args (WaitFor.waitFor ev timeout s).2).2.2
    !! WaitFor.next_timeout s.2 = None ∧
  WaitFor.elapse (WaitFor.next_timeout s.2)
    (WaitFor.emit ev args (WaitFor.waitFor ev timeout s).2).2
  = (WaitFor.emit ev args (WaitFor.waitFor ev timeout s).2).2.
Proof.
  intros Hfresh.
  set (p := WaitFor.next_promise s.2). set (t := WaitFor.next_timeout s.2).
  assert (R : Spec.resolved p t args
                (WaitFor.emit ev args (WaitFor.waitFor ev timeout s).2).2.2).
  { unfold WaitFor.waitFor, EventBus.once_. fold p t.
    destruct (EventBus.on ev _ _ s.1) as [li b1] eqn:E. cbn [snd].
    unfold EventBus.on in E. injection E as _ E.
    set (l0 := {| EventBus.callback := WaitFor.Resolver p t |}) in E.
    assert (Hev : ∀ ev', EventBus.events b1 !! ev'
                         = if decide (ev' = ev)
                           then Some (EventBus.sort_by_priority
                                        (default [] (EventBus.events s.1 !! ev) ++ [l0]))
                           else EventBus.events s.1 !! ev').
    { intros ev'. rewrite <- E, bus_debug_events. cbn [EventBus.events EventBus.set_events
                                                         EventBus.advance].
      destruct (decide (ev' = ev)) as [->|Hne].
      - rewrite lookup_insert_eq. by destruct (bool_decide _).
      - rewrite lookup_insert_ne by done. by destruct (bool_decide _). }
    clear E. unfold WaitFor.emit, EventBus.emit, EventBus.emit_with. cbn [fst snd].
    rewrite (Hev ev), decide_True by done.
    match goal with |- context [EventBus.dispatch _ ?oe ev args ?ls false [] ?x] =>
      destruct (dispatch_resolves p t ev args ls false [] x) as [_ D]
    end.
    - apply Forall_forall. intros l Hl.
      rewrite sort_by_priority_perm in Hl. apply elem_of_app in Hl as [Hl|Hl].
      + left. destruct (EventBus.events s.1 !! ev) as [old|] eqn:Eo.
        * specialize (Hfresh ev old Eo). rewrite Forall_forall in Hfresh. by apply Hfresh.
        * by apply elem_of_nil in Hl.
      + right. apply list_elem_of_singleton in Hl. by subst l.
    - destruct (decide (ev = "error")) as [?|Hne]; [by left|right].
      intros ls'. cbn [fst]. rewrite bus_debug_events, (Hev "error").
      rewrite decide_False by done. apply Hfresh.
    - left. cbn [snd WaitFor.promises]. by rewrite lookup_insert_eq.
    - destruct (EventBus.dispatch _ _ _ _ _ _ _ _) as [[hasError rm] s1].
      cbn [fst snd] in D |- *. apply D. right. exists l0. split; [|done].
      rewrite sort_by_priority_perm. apply elem_of_app. right.
      by apply list_elem_of_singleton. }
  destruct R as [R1 R2]. split; [exact R1|]. split; [exact R2|].
  unfold WaitFor.elapse. fold t. by rewrite R2.
Qed.

Lemma faulty_fresh : Spec.fresh_promise 0 Scenario.faulty.1.
Proof.
  intros ev ls Hls.
  assert (E : EventBus.events Scenario.faulty.1
              = {[ "tick" := default [] (EventBus.events Scenario.faulty.1 !! "tick") ]})
    by (vm_compute; reflexivity).
  rewrite E in Hls. destruct (decide (ev = "tick")) as [->|Hne].
  - rewrite lookup_singleton_eq in Hls. apply (inj Some) in Hls. subst ls.
    vm_compute. repeat constructor; intros t; discriminate.
  - rewrite lookup_singleton_ne in Hls by done. discriminate Hls.
Defined.

Lemma waitFor_resolved_by_emit_witness :
  EventBus.callback <$> default [] (EventBus.events Scenario.faulty.1 !! "tick")
  = [WaitFor.Plain "broken" true; WaitFor.Plain "sound" false] ∧
  WaitFor.promises
    (WaitFor.emit "tick" [VStr "now"] (WaitFor.waitFor "tick" 5000 Scenario.faulty).2).2.2
    !! 0%nat
  = Some (WaitFor.Fulfilled [VStr "now"]).
Proof.
  split; [vm_compute; reflexivity|].
  exact (proj1 (waitFor_resolved_by_emit "tick" 5000 [VStr "now"] Scenario.faulty
                  faulty_fresh)).
Defined.

(** ** Component registry: the load order *)

Section Loops.

Import DependencyGraph.

Context {Σ A : Type}.
Implicit Types (f : A → M Σ ()) (l : list A) (s : Σ).

(** A relation every step keeps is kept by the loop, whatever its
    outcome. *)
Lemma forEach_keeps (R : Σ → Σ → Prop) `{!PreOrder R} f l s :
  (∀ x s', x ∈ l → R s' (f x s').2) → R s (forEach f l s).2.
Proof.
  revert s. induction l as [|x l IH]; intros s Hf; cbn [forEach]; [done|].
  unfold m_bind. pose proof (Hf x s ltac:(by left)) as H1.
  destruct (f x s) as [[[]|e|] s1]; cbn [fst snd] in *; [|done|done].
  etrans; [exact H1|]. apply IH. intros y s' Hy. apply Hf. by right.
Qed.

(** An invariant of the steps that return holds when the loop returns. *)
Lemma forEach_inv (I : Σ → Prop) f l s :
  (∀ x s', x ∈ l → I s' → (f x s').1 = Ok () → I (f x s').2) →
  I s → (forEach f l s).1 = Ok () → I (forEach f l s).2.
Proof.
  revert s. induction l as [|x l IH]; intros s Hf Hs Hr; cbn [forEach] in *; [done|].
  unfold m_bind in *. pose proof (Hf x s ltac:(by left) Hs) as H1.
  destruct (f x s) as [[[]|e|] s1]; cbn [fst snd] in *; [|done|done].
  apply IH; [|by apply H1|done]. intros y s' Hy. apply Hf. by right.
Qed.

(** What the step for [x] establishes, and later steps keep, holds for
    every element when the loop returns. *)
Lemma forEach_all (I : Σ → Prop) (Q : A → Σ → Prop) f l s :
  (∀ x s', x ∈ l → I s' → (f x s').1 = Ok () → I (f x s').2 ∧ Q x (f x s').2) →
  (∀ x y s', y ∈ l → I s' → Q x s' → (f y s').1 = Ok () → Q x (f y s').2) →
  I s → (forEach f l s).1 = Ok () →
  ∀ x, x ∈ l ∨ Q x s → Q x (forEach f l s).2.
Proof.
  revert s. induction l as [|x l IH]; intros s Hf Hq Hs Hr y Hy; cbn [forEach] in *.
  { destruct Hy as [Hy|Hy]; [by apply elem_of_nil in Hy|done]. }
  unfold m_bind in *. pose proof (Hf x s ltac:(by left) Hs) as H1.
  pose proof (Hq y x s ltac:(by left) Hs) as H2.
  destruct (f x s) as [[[]|e|] s1] eqn:E; cbn [fst snd] in *; [|done|done].
  destruct (H1 eq_refl) as [I1 Q1].
  apply IH; [| |done|done|].
  - intros z s' Hz. apply Hf. by right.
  - intros z z' s' Hz. apply Hq. by right.
  - destruct Hy as [Hy|Hy]; [|right; by apply H2].
    apply elem_of_cons in Hy as [->|Hy]; [by right|by left].
Qed.

(** The loop returns when its steps do. *)
Lemma forEach_returns (I : Σ → Prop) f l s :
  (∀ x s', x ∈ l → I s' → (f x s').1 = Ok () ∧ I (f x s').2) →
  I s → (forEach f l s).1 = Ok () ∧ I (forEach f l s).2.
Proof.
  revert s. induction l as [|x l IH]; intros s Hf Hs; cbn [forEach]; [done|].
  unfold m_bind. destruct (Hf x s ltac:(by left) Hs) as [H1 H2].
  destruct (f x s) as [[[]|e|] s1]; cbn [fst snd] in *; [|done|done].
  apply IH; [|done]. intros y s' Hy. apply Hf. by right.
Qed.

(** The loop does not diverge when its steps do not. *)
Lemma forEach_ends f l s :
  (∀ x s', (f x s').1 ≠ Diverged) → (forEach f l s).1 ≠ Diverged.
Proof.
  intros Hf. revert s. induction l as [|x l IH]; intros s; cbn [forEach]; [done|].
  unfold m_bind. pose proof (Hf x s) as H1.
  destruct (f x s) as [[[]|e|] s1]; cbn [fst snd] in *; [apply IH|done|done].
Qed.

(** The loop throws when one of its steps does not return normally and
    none diverges. *)
Lemma forEach_throws (I : Σ → Prop) f l s :
  (∀ x s', x ∈ l → I s' →
           (f x s').1 ≠ Diverged ∧ ((f x s').1 = Ok () → I (f x s').2)) →
  (∃ x, x ∈ l ∧ ∀ s', I s' → (f x s').1 ≠ Ok ()) →
  I s → ∃ e, (forEach f l s).1 = Thrown e.
Proof.
  revert s. induction l as [|y l IH]; intros s Hf (x & Hx & Hbad) Hs; cbn [forEach].
  { by apply elem_of_nil in Hx. }
  unfold m_bind. destruct (Hf y s ltac:(by left) Hs) as [H1 H2].
  destruct (f y s) as [[[]|e|] s1] eqn:E; cbn [fst snd] in *; [|by eexists|done].
  apply IH; [|..|by apply H2].
  - intros z s' Hz. apply Hf. by right.
  - exists x. split; [|done]. apply elem_of_cons in Hx as [->|Hx]; [|done].
    exfalso. apply (Hbad s Hs). by rewrite E.
Qed.

End Loops.

Section Visit.

Import DependencyGraph.

Variable graph : Graph.
Implicit Types (w : Walk) (name : string) (stack : list string).

#[local] Instance grows_preorder : PreOrder Spec.grows.
Proof.
  split; [intros w x Hx; exact Hx|].
  intros w1 w2 w3 H1 H2 x Hx. apply H2, H1, Hx.
Qed.

#[local] Instance extends_preorder : PreOrder Spec.extends.
Proof.
  split; [intros w; exists []; by rewrite app_nil_r|].
  intros w1 w2 w3 [a1 H1] [a2 H2]. exists (a1 ++ a2). by rewrite H2, H1, app_assoc.
Qed.

(** [visit] only adds to the set of visited names. *)
Lemma visit_grows fuel name w : Spec.grows w (visit fuel graph name w).2.
Proof.
  revert name w. induction fuel as [|fuel IH]; intros name w; cbn [visit]; [done|].
  case_bool_decide; [done|]. unfold m_bind, act.
  set (w1 := {| visited := visited w ++ [name]; loadOrder := loadOrder w |}).
  assert (G1 : Spec.grows w w1).
  { unfold Spec.grows. cbn. intros x Hx. apply elem_of_app. by left. }
  match goal with |- context [match ?body w1 with _ => _ end] =>
    assert (B : Spec.grows w1 (body w1).2); [|destruct (body w1) as [[[]|e|] s2]]
  end.
  - destruct (get graph name); [|done|done].
    apply (forEach_keeps Spec.grows). intros x s' _.
    destruct (get graph x); [apply IH|apply IH|done].
  - cbn [fst snd] in *. etrans; [exact G1|]. exact B.
  - cbn [fst snd] in *. by etrans.
  - cbn [fst snd] in *. by etrans.
Qed.

(** [visit] of a name that is not an entry, but an inherited member,
    does not return normally. *)
Lemma visit_inherited fuel name w :
  get graph name = Inherited → name ∉ visited w →
  (visit fuel graph name w).1 ≠ Ok ().
Proof.
  intros Hg Hv. destruct fuel as [|fuel]; cbn [visit]; [done|].
  rewrite bool_decide_eq_false_2 by done. unfold m_bind. by rewrite Hg.
Qed.

Lemma get_own name node : get graph name = Own node → nodes graph !! name = Some node.
Proof.
  unfold get. destruct (nodes graph !! name); [by intros [= ->]|].
  by destruct (bool_decide _).
Qed.

Lemma get_inherited name : get graph name = Inherited → nodes graph !! name = None.
Proof. unfold get. by destruct (nodes graph !! name). Qed.

Lemma get_undefined name : get graph name = Undefined → nodes graph !! name = None.
Proof. unfold get. by destruct (nodes graph !! name). Qed.

(** With fuel for the entries not visited yet, [visit] returns. *)
Lemma visit_returns fuel name w :
  Spec.closed graph → get graph name ≠ Inherited →
  (size (Spec.unvisited graph w) < fuel)%nat →
  (visit fuel graph name w).1 = Ok ().
Proof.
  intros Hc. revert name w. induction fuel as [|fuel IH]; intros name w Hn Hm; [lia|].
  cbn [visit]. case_bool_decide as Hv; [done|]. unfold m_bind, act.
  set (w1 := {| visited := visited w ++ [name]; loadOrder := loadOrder w |}).
  destruct (get graph name) as [component| |] eqn:Hg; [|done|done].
  apply get_own in Hg.
  assert (Hm1 : (size (Spec.unvisited graph w1) < fuel)%nat).
  { assert (Hs : Spec.unvisited graph w1 ⊂ Spec.unvisited graph w);
      [|apply subset_size in Hs; lia].
    unfold Spec.unvisited, w1. cbn [visited]. rewrite list_to_set_app_L.
    assert (name ∈ dom (nodes graph)) by (apply elem_of_dom; by eexists).
    assert (name ∉ (list_to_set (visited w) : gset string))
      by (by rewrite elem_of_list_to_set).
    set_solver. }
  destruct (forEach_returns (λ s, Spec.grows w1 s)
              (λ dep, match get graph dep with
                      | Undefined => m_ret ()
                      | _ => visit fuel graph dep
                      end) (dependencies component) w1) as [H1 _];
    [|done|destruct (forEach _ _ w1) as [r s2]; cbn [fst] in H1; by subst r].
  intros x s' Hx Hs'.
  assert (V : (visit fuel graph x s').1 = Ok () ∧ Spec.grows w1 (visit fuel graph x s').2).
  { split.
    - apply IH.
      + apply (Hc name (dependencies component)); [|done].
        unfold Spec.dependencies_of. by rewrite Hg.
      + assert (Hs : Spec.unvisited graph s' ⊆ Spec.unvisited graph w1).
        { unfold Spec.unvisited. unfold Spec.grows in Hs'.
          assert ((list_to_set (visited w1) : gset string) ⊆ list_to_set (visited s')).
          { intros y. rewrite !elem_of_list_to_set. apply Hs'. }
          set_solver. }
        apply subseteq_size in Hs. lia.
    - etrans; [exact Hs'|apply visit_grows]. }
  by destruct (get graph x).
Qed.

(** The state in which [visit] looks at the dependencies of [name]. *)
Lemma walk_inv_enter name w stack node :
  Spec.walk_inv graph stack w → nodes graph !! name = Some node → name ∉ visited w →
  Spec.walk_inv graph (name :: stack)
    {| visited := visited w ++ [name]; loadOrder := loadOrder w |}.
Proof.
  intros (W1 & W2 & W3 & W4) Hg Hv. split; [done|]. split; [|split]; cbn [visited loadOrder].
  - intros x. rewrite elem_of_app, list_elem_of_singleton, elem_of_cons, W2. tauto.
  - intros x Hx. apply elem_of_cons in Hx as [->|Hx]; [|by apply W3].
    intros Hl. apply Hv, W2. by left.
  - intros x. rewrite elem_of_app, list_elem_of_singleton.
    intros [Hx| ->]; [by apply W4|by eexists].
Qed.

(** The state after [name] was pushed. *)
Lemma walk_inv_leave name w s stack :
  Spec.walk_inv graph stack w → name ∉ visited w →
  Spec.walk_inv graph (name :: stack) s →
  Spec.walk_inv graph stack {| visited := visited s; loadOrder := loadOrder s ++ [name] |}.
Proof.
  intros (_ & W2 & _) Hv (S1 & S2 & S3 & S4).
  split; [|split; [|split]]; cbn [visited loadOrder].
  - apply NoDup_app. split; [done|]. split; [|apply NoDup_singleton].
    intros x Hx Hn. apply list_elem_of_singleton in Hn as ->.
    apply (S3 name); [by left|done].
  - intros x. rewrite S2, elem_of_app, list_elem_of_singleton, elem_of_cons. tauto.
  - intros x Hx. rewrite elem_of_app, list_elem_of_singleton. intros [Hl| ->].
    + apply (S3 x); [by right|done].
    + apply Hv, W2. by right.
  - done.
Qed.

(** [visit] for an entry of the graph: the name is pushed, or its call is
    in progress. *)
Lemma visit_walk fuel name w stack :
  Spec.walk_inv graph stack w → is_Some (nodes graph !! name) →
  (visit fuel graph name w).1 = Ok () →
  Spec.walk_inv graph stack (visit fuel graph name w).2 ∧
  Spec.extends w (visit fuel graph name w).2 ∧
  (name ∈ loadOrder (visit fuel graph name w).2 ∨ name ∈ stack).
Proof.
  revert name w stack.
  induction fuel as [|fuel IH]; intros name w stack Hw Hown; cbn [visit]; [done|].
  case_bool_decide as Hv.
  { intros _. split; [done|]. split; [reflexivity|].
    destruct Hw as (_ & W2 & _). by apply W2. }
  unfold m_bind, act. destruct Hown as [component Hg].
  assert (Hget : get graph name = Own component) by (unfold get; by rewrite Hg).
  rewrite Hget.
  pose proof (walk_inv_enter name w stack component Hw Hg Hv) as W1.
  set (w1 := {| visited := visited w ++ [name]; loadOrder := loadOrder w |}) in *.
  assert (E1 : Spec.extends w w1) by (exists []; by rewrite app_nil_r).
  pose proof (forEach_inv (λ s, Spec.walk_inv graph (name :: stack) s ∧ Spec.extends w s)
                (λ dep, match get graph dep with
                        | Undefined => m_ret ()
                        | _ => visit fuel graph dep
                        end) (dependencies component) w1) as L.
  destruct (forEach _ _ w1) as [r s2]. cbn [fst snd] in L.
  destruct r as [[]|e|]; [|done|done]. intros _. cbn [fst snd].
  destruct L as [S1 Sx]; [|by split|done|].
  - intros x s' Hx [Hs' He] Hr. destruct (get graph x) as [n| |] eqn:Gx.
    + apply get_own in Gx.
      destruct (IH x s' (name :: stack) Hs' ltac:(by eexists) Hr) as (A & B & _).
      split; [done|by etrans].
    + exfalso. apply (visit_inherited fuel x s' Gx); [|done].
      intros Hin. destruct Hs' as (_ & _ & _ & W4). destruct (W4 x Hin) as [? Hno].
      apply get_inherited in Gx. congruence.
    + done.
  - split; [by apply (walk_inv_leave name w)|]. split.
    + destruct Sx as [added Ha]. exists (added ++ [name]). cbn [loadOrder].
      by rewrite Ha, app_assoc.
    + left. cbn [loadOrder]. apply elem_of_app. right. by apply list_elem_of_singleton.
Qed.

(** The loop of [getLoadOrder] over the keys of the graph. *)
Lemma walk_keys fuel (ks : list string) w :
  (∀ k, k ∈ ks → is_Some (nodes graph !! k)) →
  Spec.walk_inv graph [] w →
  (forEach (visit fuel graph) ks w).1 = Ok () →
  Spec.walk_inv graph [] (forEach (visit fuel graph) ks w).2 ∧
  ∀ k, k ∈ ks → k ∈ loadOrder (forEach (visit fuel graph) ks w).2.
Proof.
  intros Hks Hw Hr.
  assert (Step : ∀ x s', x ∈ ks → Spec.walk_inv graph [] s' →
            (visit fuel graph x s').1 = Ok () →
            Spec.walk_inv graph [] (visit fuel graph x s').2 ∧
            Spec.extends s' (visit fuel graph x s').2 ∧
            x ∈ loadOrder (visit fuel graph x s').2).
  { intros x s' Hx Hs' Hrx.
    destruct (visit_walk fuel x s' [] Hs' (Hks x Hx) Hrx) as (A & B & [D|D]); [done|].
    by apply elem_of_nil in D. }
  split.
  - apply (forEach_inv (Spec.walk_inv graph [])); [|done|done].
    intros x s' Hx Hs' Hrx. by apply Step.
  - intros k Hk.
    apply (forEach_all (Spec.walk_inv graph []) (λ k s, k ∈ loadOrder s));
      [| |done|done|by left].
    + intros x s' Hx Hs' Hrx. destruct (Step x s' Hx Hs' Hrx) as (A & _ & D). by split.
    + intros x y s' Hy Hs' Hq Hry. destruct (Step y s' Hy Hs' Hry) as (_ & [added Ha] & _).
      rewrite Ha. apply elem_of_app. by left.
Qed.

Lemma walk_returns fuel (ks : list string) w :
  Spec.closed graph →
  (∀ k, k ∈ ks → is_Some (nodes graph !! k)) →
  (size (dom (nodes graph)) < fuel)%nat →
  (forEach (visit fuel graph) ks w).1 = Ok ().
Proof.
  intros Hc Hks Hf.
  apply (forEach_returns (λ _, True)); [|done].
  intros x s' Hx _. split; [|done]. apply visit_returns; [done| |].
  - destruct (Hks x Hx) as [n Hn]. unfold get. by rewrite Hn.
  - assert (Hs : Spec.unvisited graph s' ⊆ dom (nodes graph))
      by (unfold Spec.unvisited; set_solver).
    apply subseteq_size in Hs. lia.
Qed.

Section Acyclic.

Variable rank : string → nat.
Hypothesis graph_acyclic : ∀ n deps d,
  Spec.dependencies_of graph n = Some deps → d ∈ deps → is_Some (nodes graph !! d) →
  (rank d < rank n)%nat.

Lemma before_extends a b (o added : list string) :
  Spec.before a b o → Spec.before a b (o ++ added).
Proof.
  intros (o1 & o2 & -> & Ha). exists o1, (o2 ++ added).
  split; [by rewrite <- app_assoc|done].
Qed.

(** Without cycles, [visit] pushes the name after its dependencies. *)
Lemma visit_topo fuel name w stack :
  Spec.walk_inv graph stack w → is_Some (nodes graph !! name) →
  (∀ x, x ∈ stack → (rank name < rank x)%nat) →
  Spec.dependencies_first graph (loadOrder w) →
  (visit fuel graph name w).1 = Ok () →
  Spec.dependencies_first graph (loadOrder (visit fuel graph name w).2) ∧
  name ∈ loadOrder (visit fuel graph name w).2.
Proof.
  revert name w stack.
  induction fuel as [|fuel IH]; intros name w stack Hw Hown Hrank Hdf; cbn [visit]; [done|].
  case_bool_decide as Hv.
  { intros _. split; [done|]. destruct Hw as (_ & W2 & _).
    apply W2 in Hv as [?|Hs]; [done|]. specialize (Hrank _ Hs). lia. }
  unfold m_bind, act. destruct Hown as [component Hg].
  assert (Hget : get graph name = Own component) by (unfold get; by rewrite Hg).
  rewrite Hget.
  pose proof (walk_inv_enter name w stack component Hw Hg Hv) as W1.
  set (w1 := {| visited := visited w ++ [name]; loadOrder := loadOrder w |}) in *.
  set (step := λ dep, match get graph dep with
                      | Undefined => m_ret ()
                      | _ => visit fuel graph dep
                      end).
  set (I := λ s, Spec.walk_inv graph (name :: stack) s ∧
                 Spec.dependencies_first graph (loadOrder s)).
  set (Q := λ (d : string) (s : Walk), is_Some (nodes graph !! d) → d ∈ loadOrder s).
  assert (Step : ∀ x s', x ∈ dependencies component → I s' → (step x s').1 = Ok () →
            I (step x s').2 ∧ Q x (step x s').2 ∧ Spec.extends s' (step x s').2).
  { intros x s' Hx [Hs' Hd'] Hr. unfold step in *. destruct (get graph x) as [n| |] eqn:Gx.
    - apply get_own in Gx.
      destruct (visit_walk fuel x s' (name :: stack) Hs' ltac:(by eexists) Hr)
        as (A & B & _).
      destruct (IH x s' (name :: stack) Hs' ltac:(by eexists)) as [T1 T2]; [|done|done|].
      + assert (Hlt : (rank x < rank name)%nat).
        { apply (graph_acyclic name (dependencies component)); [|done|by eexists].
          unfold Spec.dependencies_of. by rewrite Hg. }
        intros y Hy. apply elem_of_cons in Hy as [->|Hy]; [done|].
        specialize (Hrank _ Hy). lia.
      + split; [by split|]. split; [by intros _|done].
    - exfalso. apply (visit_inherited fuel x s' Gx); [|done].
      intros Hin. destruct Hs' as (_ & _ & _ & W4). destruct (W4 x Hin) as [? Hno].
      apply get_inherited in Gx. congruence.
    - split; [by split|]. split; [|reflexivity].
      intros [? Hn]. apply get_undefined in Gx. cbn [snd m_ret] in *. congruence. }
  pose proof (forEach_inv I step (dependencies component) w1) as L1.
  pose proof (forEach_all I Q step (dependencies component) w1) as L2.
  fold step. destruct (forEach step _ w1) as [r s2]. cbn [fst snd] in L1, L2.
  destruct r as [[]|e|]; [|done|done]. intros _. cbn [fst snd loadOrder].
  destruct L1 as [S1 Sdf]; [|by split|done|].
  { intros x s' Hx Hs' Hr. by apply Step. }
  assert (S2 : ∀ d, d ∈ dependencies component → Q d s2).
  { intros d Hd. apply L2; [| |by split|done|by left].
    - intros x s' Hx Hs' Hr. destruct (Step x s' Hx Hs' Hr) as (A & B & _). by split.
    - intros x y s' Hy Hs' Hq Hr. destruct (Step y s' Hy Hs' Hr) as (_ & _ & [added Ha]).
      intros Hox. rewrite Ha. apply elem_of_app. left. by apply Hq. }
  split.
  - intros n deps d Hn Hd Hod Hin. apply elem_of_app in Hin as [Hin|Hin].
    + apply before_extends. by apply (Sdf n deps d).
    + apply list_elem_of_singleton in Hin as ->.
      unfold Spec.dependencies_of in Hn. rewrite Hg in Hn. injection Hn as <-.
      exists (loadOrder s2), []. split; [done|]. by apply S2.
  - apply elem_of_app. right. by apply list_elem_of_singleton.
Qed.

Lemma walk_keys_topo fuel (ks : list string) w :
  (∀ k, k ∈ ks → is_Some (nodes graph !! k)) →
  Spec.walk_inv graph [] w →
  Spec.dependencies_first graph (loadOrder w) →
  (forEach (visit fuel graph) ks w).1 = Ok () →
  Spec.dependencies_first graph (loadOrder (forEach (visit fuel graph) ks w).2).
Proof.
  intros Hks Hw Hdf Hr.
  apply (forEach_inv (λ s, Spec.walk_inv graph [] s ∧
                           Spec.dependencies_first graph (loadOrder s))
           (visit fuel graph) ks w); [|by split|done].
  intros x s' Hx [Hs' Hd'] Hrx.
  destruct (visit_walk fuel x s' [] Hs' (Hks x Hx) Hrx) as (A & _ & _).
  destruct (visit_topo fuel x s' [] Hs' (Hks x Hx)) as [T1 _]; [|done|done|done].
  intros y Hy. by apply elem_of_nil in Hy.
Qed.

End Acyclic.

End Visit.

Section GraphFacts.

Import DependencyGraph.

Implicit Types (instances : list (string * list string)) (graph : Graph).

Lemma insert_index_perm k l : insert_index k l ≡ₚ k :: l.
Proof.
  induction l as [|x l IH]; cbn [insert_index]; [done|].
  destruct (_ <=? _)%N; [done|]. rewrite IH. apply Permutation_swap.
Qed.

(** [Object.keys] lists the names of the entries, each once. *)
Lemma own_keys_perm (names : list string) : own_keys names ≡ₚ names.
Proof.
  unfold own_keys, omap. induction names as [|k names IH]; [done|].
  cbn [list_omap]. rewrite filter_cons.
  destruct (array_index k) as [n|] eqn:E; cbn [fmap option_fmap option_map foldr].
  - rewrite decide_False by done. rewrite insert_index_perm, fmap_cons.
    cbn [snd]. rewrite <- app_comm_cons. by rewrite IH.
  - rewrite decide_True by done. rewrite <- Permutation_middle. by rewrite IH.
Qed.

#[global] Instance same_entries_preorder : PreOrder Spec.same_entries.
Proof.
  split; [by intros g|].
  intros g1 g2 g3 [A1 B1] [A2 B2]. split; [congruence|]. intros n. by rewrite B2, B1.
Qed.

Lemma same_entries_own graph graph' name :
  Spec.same_entries graph graph' →
  is_Some (nodes graph' !! name) ↔ is_Some (nodes graph !! name).
Proof.
  intros [_ H]. specialize (H name). unfold Spec.dependencies_of in H.
  rewrite <- !(fmap_is_Some dependencies). by rewrite H.
Qed.

Lemma add_entries_keys instances graph :
  NoDup (keys graph ++ instances.*1) →
  keys (foldl add_entry graph instances) = keys graph ++ instances.*1.
Proof.
  revert graph. induction instances as [|[n d] l IH]; intros graph Hnd; cbn [foldl].
  { by rewrite app_nil_r. }
  cbn [fmap list_fmap fst] in Hnd.
  assert (Hn : n ∉ keys graph).
  { apply NoDup_app in Hnd as (_ & Hd & _). intros Hin. apply (Hd n Hin). by left. }
  assert (Hk : keys (add_entry graph (n, d)) = keys graph ++ [n]).
  { unfold add_entry. cbn [keys fst]. by rewrite bool_decide_eq_false_2. }
  rewrite IH; rewrite Hk; rewrite <- app_assoc; done.
Qed.

Lemma add_entries_nodes instances graph name :
  NoDup (instances.*1) →
  nodes (foldl add_entry graph instances) !! name
  = match (list_to_map instances : gmap string (list string)) !! name with
    | Some deps => Some {| dependencies := deps; dependents := [] |}
    | None => nodes graph !! name
    end.
Proof.
  revert graph. induction instances as [|[n d] l IH]; intros graph Hnd; cbn [foldl].
  { by rewrite list_to_map_nil, lookup_empty. }
  rewrite fmap_cons in Hnd. cbn [fst] in Hnd. apply NoDup_cons in Hnd as [Hn Hnd].
  rewrite IH by done. rewrite list_to_map_cons. unfold add_entry. cbn [nodes fst snd].
  destruct (decide (name = n)) as [->|Hne].
  - rewrite (not_elem_of_list_to_map_1 _ _ Hn). by rewrite !lookup_insert_eq.
  - rewrite !lookup_insert_ne by done. done.
Qed.

(** Recording a dependent changes no entry but the list of dependents. *)
Lemma add_dependent_entries name dep graph :
  Spec.same_entries graph (add_dependent name dep graph).2.
Proof.
  unfold add_dependent. destruct (get graph dep) as [node| |] eqn:E; [|done|done].
  apply get_own in E. split; [done|]. intros n. unfold Spec.dependencies_of. cbn [snd nodes].
  destruct (decide (n = dep)) as [->|Hne].
  - by rewrite lookup_insert_eq, E.
  - by rewrite lookup_insert_ne.
Qed.

Lemma add_dependent_returns name dep graph :
  get graph dep ≠ Inherited → (add_dependent name dep graph).1 = Ok ().
Proof. unfold add_dependent. by destruct (get graph dep). Qed.

Lemma get_inherited_entries graph graph' name :
  Spec.same_entries graph graph' → get graph' name = Inherited → get graph name = Inherited.
Proof.
  intros He. pose proof (same_entries_own graph graph' name He) as Ho.
  unfold get. destruct (nodes graph' !! name) as [n|]; [done|].
  destruct (nodes graph !! name) as [n|].
  - destruct (proj2 Ho) as [? ?]; [by eexists|done].
  - done.
Qed.

(** The graph of instances with plain names. *)
Lemma getDependencyGraph_plain instances :
  Spec.plain instances →
  ∃ graph, getDependencyGraph instances = Ok graph ∧
           keys graph = instances.*1 ∧
           ∀ name, Spec.dependencies_of graph name
                   = (list_to_map instances : gmap string (list string)) !! name.
Proof.
  intros (Hnd & _ & Hin). unfold getDependencyGraph.
  set (g0 := foldl add_entry {| keys := []; nodes := ∅ |} instances).
  assert (K0 : keys g0 = instances.*1).
  { unfold g0. by rewrite add_entries_keys. }
  assert (N0 : ∀ name, Spec.dependencies_of g0 name
                       = (list_to_map instances : gmap string (list string)) !! name).
  { intros name. unfold Spec.dependencies_of, g0. rewrite add_entries_nodes by done.
    cbn [nodes]. rewrite lookup_empty. by destruct (_ !! name). }
  assert (G0 : ∀ name deps dep, Spec.dependencies_of g0 name = Some deps → dep ∈ deps →
                                get g0 dep ≠ Inherited).
  { intros name deps dep Hn Hd Hg. rewrite N0 in Hn. apply elem_of_list_to_map_2 in Hn.
    assert (Hi : dep ∈ inherited).
    { unfold get in Hg. destruct (nodes g0 !! dep); [done|]. by case_bool_decide. }
    specialize (Hin name deps dep Hn Hd Hi).
    apply get_inherited in Hg.
    assert (Hs : Spec.dependencies_of g0 dep = None)
      by (unfold Spec.dependencies_of; by rewrite Hg).
    rewrite N0 in Hs. apply not_elem_of_list_to_map in Hs. done. }
  destruct (forEach_returns (Spec.same_entries g0)
              (λ name, forEach (add_dependent name)
                         (match nodes g0 !! name with
                          | Some data => dependencies data
                          | None => []
                          end)) (Object_keys g0) g0) as [R1 R2]; [|done|].
  - intros name g Hname Hg.
    apply (forEach_returns (Spec.same_entries g0)); [|done].
    intros dep g' Hdep Hg'. split.
    + apply add_dependent_returns. intros Hi.
      apply (get_inherited_entries g0) in Hi; [|done].
      destruct (nodes g0 !! name) as [data|] eqn:Ed; [|by apply elem_of_nil in Hdep].
      apply (G0 name (dependencies data) dep); [|done|done].
      unfold Spec.dependencies_of. by rewrite Ed.
    + etrans; [exact Hg'|apply add_dependent_entries].
  - destruct (forEach _ _ g0) as [r g]. cbn [fst snd] in R1, R2. subst r.
    exists g. split; [done|]. destruct R2 as [A B]. split; [congruence|].
    intros name. by rewrite B.
Qed.

(** What [getLoadOrder] computes for instances with plain names. *)
Lemma getLoadOrder_plain instances :
  Spec.plain instances →
  ∃ graph w,
    getLoadOrder instances = Ok (loadOrder w) ∧
    (∀ name, Spec.dependencies_of graph name
             = (list_to_map instances : gmap string (list string)) !! name) ∧
    Spec.walk_inv graph [] w ∧
    (∀ k, k ∈ instances.*1 → k ∈ loadOrder w) ∧
    (∀ rank, Spec.acyclic rank instances → Spec.dependencies_first graph (loadOrder w)).
Proof.
  intros Hp. destruct (getDependencyGraph_plain instances Hp) as (graph & HG & HK & HN).
  pose proof Hp as (Hnd & _ & Hin).
  assert (Own : ∀ k, is_Some (nodes graph !! k) ↔ k ∈ instances.*1).
  { intros k. rewrite <- (fmap_is_Some dependencies).
    change (dependencies <$> nodes graph !! k) with (Spec.dependencies_of graph k).
    rewrite HN. split.
    - intros [deps Hd]. apply elem_of_list_to_map_2 in Hd.
      apply list_elem_of_fmap. by exists (k, deps).
    - intros Hk. destruct (list_to_map instances !! k) eqn:E; [by eexists|].
      by apply not_elem_of_list_to_map in E. }
  assert (Hkeys : ∀ k, k ∈ Object_keys graph → is_Some (nodes graph !! k)).
  { intros k Hk. apply Own. unfold Object_keys in Hk. by rewrite own_keys_perm, HK in Hk. }
  assert (Hclosed : Spec.closed graph).
  { intros name deps dep Hn Hd Hg. rewrite HN in Hn. apply elem_of_list_to_map_2 in Hn.
    assert (Hi : dep ∈ inherited).
    { unfold get in Hg. destruct (nodes graph !! dep); [done|]. by case_bool_decide. }
    specialize (Hin name deps dep Hn Hd Hi). apply Own in Hin as [n Hn'].
    apply get_inherited in Hg. congruence. }
  assert (Hsize : (size (dom (nodes graph)) < S (length (keys graph)))%nat).
  { assert (E : dom (nodes graph) = list_to_set (instances.*1)).
    { apply set_eq. intros k. rewrite elem_of_dom, elem_of_list_to_set. apply Own. }
    rewrite E, size_list_to_set, HK by done. lia. }
  set (w0 := {| visited := []; loadOrder := [] |}).
  assert (W0 : Spec.walk_inv graph [] w0).
  { split; [apply NoDup_nil_2|]. split; [|split]; cbn.
    - intros x. split; [by intros ?%elem_of_nil|by intros [?%elem_of_nil|?%elem_of_nil]].
    - by intros x ?%elem_of_nil.
    - by intros x ?%elem_of_nil. }
  pose proof (walk_returns graph (S (length (keys graph))) (Object_keys graph) w0
                Hclosed Hkeys Hsize) as R.
  destruct (walk_keys graph _ _ w0 Hkeys W0 R) as [W1 W2].
  pose proof (λ rank H, walk_keys_topo graph rank H (S (length (keys graph)))
                          (Object_keys graph) w0 Hkeys W0) as W3.
  unfold getLoadOrder. rewrite HG. fold w0.
  destruct (forEach _ _ w0) as [r w]. cbn [fst snd] in *. subst r.
  exists graph, w. split; [done|]. split; [done|]. split; [done|]. split.
  - intros k Hk. apply W2. unfold Object_keys. by rewrite own_keys_perm, HK.
  - intros rank Hacyc. apply (W3 rank); [|by intros n deps d _ _ _ ?%elem_of_nil|done].
    intros n deps d Hn Hd Hod. rewrite HN in Hn. apply elem_of_list_to_map_2 in Hn.
    apply (Hacyc n deps d Hn Hd). by apply Own.
Qed.

End GraphFacts.

(** X28. [getLoadOrder()] returns, and lists every instance exactly once,
    also when instances depend on each other in a circle: the result is a
    rearrangement of the names of the instances. The names are taken to be
    distinct and other than '__proto__', and a dependency named like a
    member of [Object.prototype] to be the name of an instance. *)
Theorem getLoadOrder_each_once instances :
  Spec.plain instances →
  ∃ order, DependencyGraph.getLoadOrder instances = Ok order ∧ order ≡ₚ instances.*1.
Proof.
  intros Hp.
  destruct (getLoadOrder_plain instances Hp) as (graph & w & HL & HN & HW & Hall & _).
  exists (DependencyGraph.loadOrder w). split; [done|].
  destruct Hp as (Hnd & _). destruct HW as (W1 & W2 & _ & W4).
  apply list.NoDup_Permutation; [exact W1|exact Hnd|]. intros k. split; [|apply Hall].
  intros Hk. assert (Hv : k ∈ DependencyGraph.visited w) by (apply W2; by left).
  apply W4 in Hv. rewrite <- (fmap_is_Some DependencyGraph.dependencies) in Hv.
  change (is_Some (Spec.dependencies_of graph k)) in Hv. rewrite HN in Hv.
  destruct Hv as [deps Hd]. apply elem_of_list_to_map_2 in Hd.
  apply list_elem_of_fmap. by exists (k, deps).
Qed.

(** X29. When no instance depends on itself through a chain of
    instances, the load order puts every instance after the instances it
    depends on. *)
Theorem getLoadOrder_dependencies_first instances rank order :
  Spec.plain instances →
  Spec.acyclic rank instances →
  DependencyGraph.getLoadOrder instances = Ok order →
  ∀ name deps dep, (name, deps) ∈ instances → dep ∈ deps → dep ∈ instances.*1 →
                   Spec.before dep name order.
Proof.
  intros Hp Hacyc Ho name deps dep Hn Hd Hdep.
  destruct (getLoadOrder_plain instances Hp) as (graph & w & HL & HN & HW & Hall & Hdf).
  rewrite HL in Ho. injection Ho as <-.
  destruct Hp as (Hnd & _).
  apply (Hdf rank Hacyc name deps dep); [| done | |].
  - rewrite HN. by apply elem_of_list_to_map_1.
  - rewrite <- (fmap_is_Some DependencyGraph.dependencies).
    change (is_Some (Spec.dependencies_of graph dep)). rewrite HN.
    destruct (list_to_map instances !! dep) eqn:E; [by eexists|].
    by apply not_elem_of_list_to_map in E.
  - apply Hall. apply list_elem_of_fmap. by exists (name, deps).
Qed.

(** X30. A dependency named like a member of [Object.prototype], such as
    'constructor' or 'toString', that is not the name of an instance makes
    [getDependencyGraph()] throw a [TypeError], and [getLoadOrder()] with
    it: the lookup [graph[dep]] finds the inherited member, which has no
    list of dependents. *)
Theorem getLoadOrder_inherited_dependency instances name deps dep :
  NoDup (instances.*1) →
  "__proto__" ∉ instances.*1 →
  (name, deps) ∈ instances → dep ∈ deps →
  dep ∈ DependencyGraph.inherited → dep ∉ instances.*1 →
  ∃ e, DependencyGraph.getDependencyGraph instances = Thrown e ∧
       DependencyGraph.getLoadOrder instances = Thrown e.
Proof.
  intros Hnd _ Hn Hd Hi Hno.
  assert (G : ∃ e, DependencyGraph.getDependencyGraph instances = Thrown e).
  { unfold DependencyGraph.getDependencyGraph.
    set (g0 := foldl DependencyGraph.add_entry _ instances).
    assert (K0 : DependencyGraph.keys g0 = instances.*1).
    { unfold g0. by rewrite add_entries_keys. }
    assert (N0 : ∀ n, DependencyGraph.nodes g0 !! n
                      = match (list_to_map instances : gmap string (list string)) !! n with
                        | Some deps => Some {| DependencyGraph.dependencies := deps;
                                               DependencyGraph.dependents := [] |}
                        | None => None
                        end).
    { intros n. unfold g0. rewrite add_entries_nodes by done.
      cbn [DependencyGraph.nodes]. by rewrite lookup_empty. }
    destruct (forEach_throws (Spec.same_entries g0)
                (λ name, DependencyGraph.forEach (DependencyGraph.add_dependent name)
                           (match DependencyGraph.nodes g0 !! name with
                            | Some data => DependencyGraph.dependencies data
                            | None => []
                            end))
                (DependencyGraph.Object_keys g0) g0) as [e He]; [| |done|].
    - intros x g Hx Hg. split.
      + apply forEach_ends. intros y g'. unfold DependencyGraph.add_dependent.
        by destruct (DependencyGraph.get g' y).
      + intros _. etrans; [exact Hg|].
        apply (forEach_keeps Spec.same_entries). intros y g' _.
        apply add_dependent_entries.
    - exists name. split.
      + unfold DependencyGraph.Object_keys. rewrite own_keys_perm, K0.
        apply list_elem_of_fmap. by exists (name, deps).
      + intros g Hg Hok. rewrite N0, (elem_of_list_to_map_1 _ _ _ Hnd Hn) in Hok.
        cbn [DependencyGraph.dependencies] in Hok.
        destruct (forEach_throws (Spec.same_entries g0)
                    (DependencyGraph.add_dependent name) deps g) as [e He]; [| |done|].
        * intros y g' Hy Hg'. split.
          -- unfold DependencyGraph.add_dependent. by destruct (DependencyGraph.get g' y).
          -- intros _. etrans; [exact Hg'|apply add_dependent_entries].
        * exists dep. split; [done|]. intros g' Hg'.
          assert (Hget : DependencyGraph.get g' dep = DependencyGraph.Inherited).
          { unfold DependencyGraph.get.
            destruct (DependencyGraph.nodes g' !! dep) as [n|] eqn:En.
            - destruct (proj1 (same_entries_own g0 g' dep Hg')) as [n0 Hn0]; [by eexists|].
              rewrite N0 in Hn0.
              destruct (list_to_map instances !! dep) eqn:El; [|done].
              apply elem_of_list_to_map_2 in El. destruct Hno.
              apply list_elem_of_fmap. by eexists (dep, _).
            - by rewrite bool_decide_eq_true_2. }
          unfold DependencyGraph.add_dependent. by rewrite Hget.
        * rewrite Hok in He. done.
    - destruct (DependencyGraph.forEach _ _ g0) as [r g]. cbn [fst] in He. subst r.
      by exists e. }
  destruct G as [e He]. exists e. split; [done|].
  unfold DependencyGraph.getLoadOrder. by rewrite He.
Qed.

Lemma plain_Forall instances :
  NoDup (instances.*1) →
  "__proto__" ∉ instances.*1 →
  Forall (λ entry, Forall (λ dep, dep ∈ DependencyGraph.inherited → dep ∈ instances.*1)
                     entry.2) instances →
  Spec.plain instances.
Proof.
  intros Hnd Hp Hf. split; [done|]. split; [done|].
  intros name deps dep Hn Hd. rewrite Forall_forall in Hf. specialize (Hf _ Hn).
  cbn [snd] in Hf. rewrite Forall_forall in Hf. by apply Hf.
Defined.

Lemma acyclic_Forall rank instances :
  Forall (λ entry, Forall (λ dep, dep ∈ instances.*1 → (rank dep < rank entry.1)%nat)
                     entry.2) instances →
  Spec.acyclic rank instances.
Proof.
  intros Hf name deps dep Hn Hd. rewrite Forall_forall in Hf. specialize (Hf _ Hn).
  cbn [fst snd] in Hf. rewrite Forall_forall in Hf. by apply Hf.
Defined.

Lemma site_plain : Spec.plain Scenario.site.
Proof.
  apply plain_Forall; apply (bool_decide_unpack _); vm_compute; exact I.
Defined.

Lemma site_acyclic : Spec.acyclic Scenario.layer Scenario.site.
Proof. apply acyclic_Forall. apply (bool_decide_unpack _). vm_compute. exact I. Defined.

Lemma getLoadOrder_each_once_witness :
  ∃ order, DependencyGraph.getLoadOrder Scenario.site = Ok order ∧
           order ≡ₚ Scenario.site.*1.
Proof. exact (getLoadOrder_each_once Scenario.site site_plain). Defined.

Lemma getLoadOrder_dependencies_first_witness :
  Spec.before "theme" "navigation" ["theme"; "navigation"; "app"; "i18n"].
Proof.
  refine (getLoadOrder_dependencies_first Scenario.site Scenario.layer
            ["theme"; "navigation"; "app"; "i18n"] site_plain site_acyclic _
            "navigation" ["theme"] "theme" _ _ _).
  - vm_compute. reflexivity.
  - apply (bool_decide_unpack _). vm_compute. exact I.
  - apply (bool_decide_unpack _). vm_compute. exact I.
  - apply (bool_decide_unpack _). vm_compute. exact I.
Defined.

Lemma getLoadOrder_inherited_dependency_witness :
  ∃ e, DependencyGraph.getDependencyGraph Scenario.printer = Thrown e ∧
       DependencyGraph.getLoadOrder Scenario.printer = Thrown e.
Proof.
  refine (getLoadOrder_inherited_dependency Scenario.printer "printer" ["toString"]
            "toString" _ _ _ _ _ _);
    apply (bool_decide_unpack _); vm_compute; exact I.
Defined.

(** ** Failures: the claim on error handling *)




(** ** Internationalization manager: requests and fall-back *)

Section I18nFallback.

Import BaseComponent I18nManager.

Context {C : Type} `{EqDecision C}.
Variable run : C → option string → list jsval → BaseComponent.Sys C Fields
               → option jsval * BaseComponent.Sys C Fields.
Hypothesis run_observes : ∀ c ctx a b w, Spec.observed w (run c ctx a (b, w)).2.2.

Implicit Types (s : BaseComponent.Sys C Fields).

Lemma setState_ext new s : ext (comp (setState run new s).2) = ext (comp s.2).
Proof.
  unfold setState. destruct (negb _); [done|]. cbv zeta.
  match goal with |- context [BaseComponent.emit run ?ev ?d ?y] =>
    destruct (emit_observed run run_observes ev d y) as [E1 _]; rewrite E1
  end.
  by destruct (cfg debugMode _).
Qed.

(** The built-in tables have no key twice and no empty text. *)
Lemma builtin_lookup language key text :
  (key, text) ∈ Spec.builtin language →
  (list_to_map (Spec.builtin language) : gmap string string) !! key = Some text ∧
  String.eqb text EmptyString = false.
Proof.
  intros Hk.
  assert (ND : NoDup ((Spec.builtin language).*1)).
  { unfold Spec.builtin. destruct (String.eqb language "en");
      apply (bool_decide_unpack _); vm_compute; exact I. }
  assert (NE : Forall (λ kv, kv.2 ≠ EmptyString) (Spec.builtin language)).
  { unfold Spec.builtin. destruct (String.eqb language "en");
      apply (bool_decide_unpack _); vm_compute; exact I. }
  split; [by apply elem_of_list_to_map_1|].
  rewrite Forall_forall in NE. specialize (NE _ Hk). by apply String.eqb_neq.
Qed.

(** C5, amended. With listeners that only observe (they leave the
    component, the page and the listener lists alone) and
    [state.loadedLanguages] a [Set]: [loadTranslations(language)] requests
    nothing for a language that is in the set already (as 'tr' is from
    the start) and only logs; otherwise it requests
    [translationsPath/language.json] once, whatever the answer, returns
    normally and adds the language to the set. The table of an answer
    with status ok is stored. After a failed request the translations in
    use are built-in ones: the built-in English table is stored for 'en'
    and nothing is stored for another language, so that, once the current
    language is set to the language (state tracking on), on a manager
    whose fallback language 'tr' has its built-in table and which holds
    no table for the language, [t(key)] is the text of the built-in
    English table for 'en' and of the built-in Turkish table for any other
    language, for every key of that table. *)
Theorem loadTranslations_requests language l s :
  Spec.lists_kept run →
  prop (state (comp s.2)) "loadedLanguages" = VSet l →
  (language ∈ l →
     loadTranslations run language s
     = (Ok (), say DEBUG ("📚 Translations already loaded for: " +:+ language) s)) ∧
  (language ∉ l →
     (loadTranslations run language s).1 = Ok () ∧
     requests (browser (loadTranslations run language s).2.2)
     = requests (browser s.2) ++ [Spec.translationsUrl s language] ∧
     prop (state (comp (loadTranslations run language s).2.2)) "loadedLanguages"
     = VSet (l ++ [language]) ∧
     translations (ext (comp (loadTranslations run language s).2.2))
     = Spec.table_after (network (browser s.2) (Spec.translationsUrl s language)) language
         (translations (ext (comp s.2)))) ∧
  (language ∉ l →
     Spec.failed (network (browser s.2) (Spec.translationsUrl s language)) →
     cfg enableStateTracking s = true →
     fallbackLanguage (i18n_config s) = "tr" →
     translations (ext (comp s.2)) !! "tr" = Some (list_to_map defaultTranslations) →
     (language ≠ "en" → language ≠ "tr" →
      translations (ext (comp s.2)) !! language = None) →
     ∀ key text, (key, text) ∈ Spec.builtin language →
       t key (setState run {[ "currentLanguage" := VStr language ]}
                (loadTranslations run language s).2) = text).
Proof.
  intros _ Hl. split; [|split].
  - intros Hin. by apply (loadTranslations_cached run language l).
  - intros Hin.
    exact (loadTranslations_fresh run (observes_quiet run run_observes) language l s Hl Hin).
  - intros Hin Hfail Ht Hfb Htr Hnone key text Hk.
    destruct (loadTranslations_fresh run (observes_quiet run run_observes) language l s
                Hl Hin) as (_ & _ & _ & F4).
    cbv zeta in F4.
    assert (Ht2 : cfg enableStateTracking (loadTranslations run language s).2 = true).
    { unfold cfg. by rewrite (loadTranslations_config run run_observes). }
    assert (Hfb2 : fallbackLanguage (i18n_config (loadTranslations run language s).2)
                   = "tr").
    { rewrite <- Hfb. unfold i18n_config, loadTranslations. rewrite Hl.
      rewrite bool_decide_eq_false_2 by done. unfold try_finally.
      rewrite <- (setState_ext {[ "isLoading" := VBool true ]} s).
      generalize (setState run {[ "isLoading" := VBool true ]} s). intros s1.
      match goal with |- context [try_catch ?body ?h s1] =>
        assert (B : iconfig (ext (comp (try_catch body h s1).2.2))
                    = iconfig (ext (comp s1.2)));
        [|destruct (try_catch body h s1) as [r s2]; cbn [fst snd] in B |- *;
          by rewrite setState_ext, B]
      end.
      unfold try_catch, m_bind, act, when, fetchTranslations, fetch, markLoaded,
        loadBuiltInEnglishTranslations, i18n_config.
      generalize (list_to_map (M := gmap string string) englishTranslations). intros en.
      cbn -[pretty String.append prop insert].
      destruct (network (browser s1.2) _) as [m|[] status [table|]];
        [destruct (String.eqb language "en")
        | | destruct (String.eqb language "en")
        | destruct (String.eqb language "en") | destruct (String.eqb language "en") ];
        cbn -[pretty String.append prop insert];
        destruct (prop (state (comp s1.2)) "loadedLanguages"); done. }
    destruct (setState_observed run run_observes {[ "currentLanguage" := VStr language ]}
                _ Ht2) as [E1 _].
    set (s' := setState run _ _) in *.
    assert (Hcur : prop (state (comp s'.2)) "currentLanguage" = VStr language).
    { rewrite E1. cbn [state with_state]. by apply prop_union_l, lookup_singleton_eq. }
    assert (Htb : translations (ext (comp s'.2))
                  = if String.eqb language "en"
                    then <["en" := list_to_map englishTranslations]>
                           (translations (ext (comp s.2)))
                    else translations (ext (comp s.2))).
    { rewrite E1. cbn [ext with_state]. rewrite F4. unfold Spec.table_after.
      destruct (network _ _) as [m|[] status [table|]]; try done.
      by destruct (Hfail status table). }
    assert (Hfb3 : fallbackLanguage (i18n_config s') = "tr").
    { unfold i18n_config. rewrite E1. exact Hfb2. }
    clearbody s'. destruct (builtin_lookup language key text Hk) as [Lk Ne].
    unfold t. rewrite Hcur, Htb, Hfb3. unfold Spec.builtin in Lk.
    destruct (String.eqb language "en") eqn:Een.
    + apply String.eqb_eq in Een. subst language.
      rewrite lookup_insert_eq, Lk, Ne. done.
    + apply String.eqb_neq in Een. destruct (decide (language = "tr")) as [->|Htr'].
      * rewrite Htr, Lk, Ne. done.
      * rewrite (Hnone Een Htr'), Htr, Lk, Ne. done.
Qed.

(** A new manager holds the built-in Turkish table. *)
Lemma new_has_turkish development id' initialState config' container' dependencies'
    bus br :
  translations (ext (comp (I18nManager.new run development id' initialState config'
                             container' dependencies' bus br).2)) !! "tr"
  = Some (list_to_map defaultTranslations).
Proof.
  unfold I18nManager.new, initializeDefaultTranslations, with_fallbackTranslations,
    with_translations, on_comp.
  cbn [fst snd comp ext with_ext translations]. apply lookup_insert_eq.
Defined.

End I18nFallback.

(** C5, as stated, fails: 'tr' counts as loaded from the start, so
    [loadTranslations('tr')] on a new manager requests nothing. *)
Lemma loadTranslations_tr_not_fetched :
  (I18nManager.loadTranslations Scenario.inert "tr" Scenario.i18n).1 = Ok () ∧
  requests (BaseComponent.browser Scenario.i18n.2) = [] ∧
  requests (BaseComponent.browser
              (I18nManager.loadTranslations Scenario.inert "tr" Scenario.i18n).2.2) = [].
Proof. vm_compute. done. Qed.

Lemma loadTranslations_requests_witness :
  requests (BaseComponent.browser
              (I18nManager.loadTranslations Scenario.inert "de" Scenario.i18n).2.2)
  = requests (BaseComponent.browser Scenario.i18n.2)
    ++ [Spec.translationsUrl Scenario.i18n "de"] ∧
  I18nManager.t "nav.home"
    (BaseComponent.setState Scenario.inert {[ "currentLanguage" := VStr "de" ]}
       (I18nManager.loadTranslations Scenario.inert "de" Scenario.i18n).2)
  = "Ana Sayfa".
Proof.
  assert (Hl : prop (BaseComponent.state (BaseComponent.comp Scenario.i18n.2))
                 "loadedLanguages" = VSet ["tr"]) by (vm_compute; reflexivity).
  assert (Hin : "de" ∉ ["tr"]).
  { apply not_elem_of_cons. split; [done|apply not_elem_of_nil]. }
  split.
  - exact (proj1 (proj2 (proj1 (proj2
             (loadTranslations_requests Scenario.inert inert_observes "de" ["tr"]
                Scenario.i18n inert_lists_kept Hl)) Hin))).
  - refine (proj2 (proj2
              (loadTranslations_requests Scenario.inert inert_observes "de" ["tr"]
                 Scenario.i18n inert_lists_kept Hl)) Hin _ _ _ _ _ "nav.home" "Ana Sayfa" _).
    + intros status table. vm_compute. discriminate.
    + reflexivity.
    + reflexivity.
    + unfold Scenario.i18n. apply new_has_turkish.
    + intros _ _. vm_compute. reflexivity.
    + apply (bool_decide_unpack _). vm_compute. exact I.
Defined.

(** ** Timers: who sets them and who clears them *)

Section Schedules.

Import BaseComponent.

#[local] Instance same_schedule_preorder : PreOrder Spec.same_schedule.
Proof.
  split.
  - intros br. by repeat split.
  - intros b1 b2 b3 (A1 & A2 & A3) (B1 & B2 & B3). unfold Spec.same_schedule.
    by rewrite B1, B2, B3.
Qed.

Context {C X : Type} `{EqDecision C}.
Variable run : C → option string → list jsval → BaseComponent.Sys C X
               → option jsval * BaseComponent.Sys C X.
Hypothesis run_observes : ∀ c ctx a b w, Spec.observed w (run c ctx a (b, w)).2.2.

Implicit Types (s : BaseComponent.Sys C X).

Lemma setState_browser new s : browser (setState run new s).2 = browser s.2.
Proof.
  unfold setState. destruct (negb _); [done|]. cbv zeta.
  match goal with |- context [BaseComponent.emit run ?ev ?d ?y] =>
    destruct (emit_observed run run_observes ev d y) as [_ E2]; rewrite E2
  end.
  by destruct (cfg debugMode _).
Qed.

End Schedules.

Section QuietModules.

Import BaseComponent.

Context {C : Type} `{EqDecision C}.

(** The internationalization manager sets and clears nothing. *)
Lemma i18n_schedule
    (run : C → option string → list jsval → BaseComponent.Sys C I18nManager.Fields
           → option jsval * BaseComponent.Sys C I18nManager.Fields)
    (run_observes : ∀ c ctx a b w, Spec.observed w (run c ctx a (b, w)).2.2)
    language (s : BaseComponent.Sys C I18nManager.Fields) :
  Spec.same_schedule (browser s.2)
    (browser (I18nManager.loadTranslations run language s).2.2) ∧
  Spec.same_schedule (browser s.2)
    (browser (I18nManager.loadLanguagePreference run s).2.2) ∧
  Spec.same_schedule (browser s.2)
    (browser (I18nManager.saveLanguagePreference s).2.2).
Proof.
  split; [|split].
  - unfold I18nManager.loadTranslations.
    destruct (prop _ "loadedLanguages"); try done.
    destruct (bool_decide _); [done|]. unfold try_finally.
    rewrite <- (setState_browser run run_observes {[ "isLoading" := VBool true ]} s).
    generalize (setState run {[ "isLoading" := VBool true ]} s). intros s1.
    match goal with |- context [try_catch ?body ?h s1] =>
      assert (B : Spec.same_schedule (browser s1.2) (browser (try_catch body h s1).2.2));
      [|destruct (try_catch body h s1) as [r s2]; cbn [fst snd] in B |- *;
        by rewrite (setState_browser run run_observes)]
    end.
    unfold try_catch, m_bind, act, when, I18nManager.fetchTranslations, fetch,
      I18nManager.markLoaded, I18nManager.loadBuiltInEnglishTranslations,
      I18nManager.i18n_config.
    generalize (list_to_map (M := gmap string string) I18nManager.englishTranslations).
    intros en.
    cbn -[pretty String.append prop insert].
    destruct (network (browser s1.2) _) as [m|[] status [table|]];
      [destruct (String.eqb language "en")
      | | destruct (String.eqb language "en")
      | destruct (String.eqb language "en") | destruct (String.eqb language "en") ];
      cbn -[pretty String.append prop insert];
      destruct (prop (state (comp s1.2)) "loadedLanguages"); done.
  - unfold I18nManager.loadLanguagePreference. destruct (negb _); [done|].
    unfold try_catch, m_bind, storage_get, getItem.
    destruct (denied _); [done|]. cbn [fst snd].
    destruct (items _ !! _) as [l|]; [|done].
    destruct (String.eqb l EmptyString); [done|].
    match goal with |- context [I18nManager.available ?x l] =>
      destruct (I18nManager.available x l) as [[]|]; try done
    end.
    cbn [fst snd say browser]. by rewrite (setState_browser run run_observes).
  - unfold I18nManager.saveLanguagePreference. destruct (negb _); [done|].
    unfold try_catch, m_bind, act, storage_set, setItem.
    destruct (denied _); [done|]. destruct (full _); done.
Qed.

(** The progressive web app manager sets an interval and a timer, and
    clears nothing, not even in its clean-up. *)
Lemma pwa_schedule
    (run : C → option string → list jsval → BaseComponent.Sys C PWAManager.Fields
           → option jsval * BaseComponent.Sys C PWAManager.Fields)
    (run_observes : ∀ c ctx a b w, Spec.observed w (run c ctx a (b, w)).2.2)
    (s : BaseComponent.Sys C PWAManager.Fields) :
  (serviceWorker (browser s.2) = true →
   (PWAManager.setupUpdateHandling s).1 = Ok () ∧
   timers (browser (PWAManager.setupUpdateHandling s).2.2) = timers (browser s.2) ∧
   animationFrames (browser (PWAManager.setupUpdateHandling s).2.2)
   = animationFrames (browser s.2) ∧
   intervals (browser (PWAManager.setupUpdateHandling s).2.2)
   = intervals (browser s.2)
     ++ (if bool_decide (is_Some (PWAManager.swRegistration (PWAManager.fields s)))
         then [(60000%Z, CheckForUpdates)] else [])) ∧
  (timers (browser (PWAManager.applyUpdate run s).2)
   = timers (browser s.2)
     ++ (if bool_decide (is_Some (PWAManager.swRegistration (PWAManager.fields s)))
            && flag "swUpdateReady" s
         then [(1000%Z, ReloadPage)] else []) ∧
   intervals (browser (PWAManager.applyUpdate run s).2) = intervals (browser s.2) ∧
   animationFrames (browser (PWAManager.applyUpdate run s).2)
   = animationFrames (browser s.2)) ∧
  ((PWAManager.onDestroy s).1 = Ok () ∧
   Spec.same_schedule (browser s.2) (browser (PWAManager.onDestroy s).2.2)).
Proof.
  split; [|split].
  - intros Hsw. unfold PWAManager.setupUpdateHandling. rewrite Hsw. cbn [negb].
    unfold PWAManager.fields, PWAManager.with_fields.
    cbn [on_comp fst snd comp ext with_ext PWAManager.swRegistration].
    destruct (PWAManager.swRegistration (ext (comp s.2))) as [r|].
    + rewrite bool_decide_eq_true_2 by (by eexists). by repeat split.
    + rewrite bool_decide_eq_false_2 by (by intros [? ?]).
      cbn [fst snd on_comp browser]. rewrite app_nil_r. by repeat split.
  - unfold PWAManager.applyUpdate, PWAManager.fields.
    destruct (PWAManager.swRegistration (ext (comp s.2))) as [r|].
    + rewrite bool_decide_eq_true_2 by (by eexists). cbn [andb].
      destruct (flag "swUpdateReady" s); cbn [negb].
      * match goal with |- context [BaseComponent.emit run ?ev ?d ?y] =>
          destruct (emit_observed run run_observes ev d y) as [_ E2]; rewrite E2
        end.
        unfold PWAManager.hideUpdateBanner, PWAManager.fields, PWAManager.with_fields.
        destruct (PWAManager.waiting r);
          cbn [on_comp on_browser say fst snd comp ext with_ext browser
                 PWAManager.updateBanner];
          destruct (PWAManager.updateBanner (ext (comp s.2))); by repeat split.
      * cbn [say fst snd browser]. rewrite app_nil_r. by repeat split.
    + rewrite bool_decide_eq_false_2 by (by intros [? ?]). cbn [andb].
      cbn [say fst snd browser]. rewrite app_nil_r. by repeat split.
  - unfold PWAManager.onDestroy, m_bind, act, PWAManager.hideOfflineIndicator,
      PWAManager.fields, PWAManager.with_fields.
    cbn [on_comp fst snd comp ext with_ext PWAManager.offlineIndicator].
    by destruct (PWAManager.offlineIndicator (ext (comp s.2))).
Qed.

End QuietModules.

(** C7, amended. Two modules do have such logic. The event bus has a
    timeout: [waitFor(eventName, timeout)], on a bus with sorted listener
    lists for which the id of the next listener is new, registers a
    one-time listener that resolves its promise, the promise is pending
    with a timer of that delay, and when the timer elapses this listener
    is removed (the list of the event is again what it was before
    [waitFor]) and the promise rejected with 'Timeout waiting for event:
    eventName'. The navigation manager cancels: [onDestroy()], with the
    menu closed, cancels the pending animation frame, whose callback then
    never runs. The other three modules have none. The theme manager's
    [setTheme] and [toggleTheme] only add timers. With listeners that only
    observe: the progressive web app manager only sets
    ([setupUpdateHandling()] starts an interval of 60000 ms when a service
    worker is registered, [applyUpdate()] a timer of 1000 ms when an
    update is ready) and its [onDestroy()] clears neither; the
    internationalization manager's [loadTranslations],
    [loadLanguagePreference] and [saveLanguagePreference] leave timers,
    intervals and animation frames as they are. *)
Theorem timeouts_and_cancellation :
  (∀ ev t (s : WaitFor.Sys),
     Spec.bus_sorted s.1 →
     Spec.fresh_id ev s.1 →
     WaitFor.promises (WaitFor.waitFor ev t s).2.2 !! WaitFor.next_promise s.2
     = Some WaitFor.Pending ∧
     WaitFor.delay <$>
       WaitFor.timeouts (WaitFor.waitFor ev t s).2.2 !! WaitFor.next_timeout s.2
     = Some t ∧
     (∃ l, default [] (EventBus.events (WaitFor.waitFor ev t s).2.1 !! ev)
           ≡ₚ default [] (EventBus.events s.1 !! ev) ++ [l] ∧
           EventBus.callback l
           = WaitFor.Resolver (WaitFor.next_promise s.2) (WaitFor.next_timeout s.2) ∧
           EventBus.once l = true) ∧
     WaitFor.promises
       (WaitFor.elapse (WaitFor.next_timeout s.2) (WaitFor.waitFor ev t s).2).2
       !! WaitFor.next_promise s.2
     = Some (WaitFor.Rejected (VErr ("Timeout waiting for event: " +:+ ev))) ∧
     default [] (EventBus.events
                   (WaitFor.elapse (WaitFor.next_timeout s.2)
                      (WaitFor.waitFor ev t s).2).1 !! ev)
     = default [] (EventBus.events s.1 !! ev)) ∧
  (∀ run (s : BaseComponent.Sys unit NavigationManager.Fields) i,
     BaseComponent.flag "mobileMenuOpen" s = false →
     NavigationManager.scrollThrottleId (NavigationManager.fields s) = Some i →
     (NavigationManager.onDestroy run s).1 = Ok () ∧
     animationFrames (BaseComponent.browser (NavigationManager.onDestroy run s).2.2)
     = filter (λ j, j ≠ i) (animationFrames (BaseComponent.browser s.2)) ∧
     NavigationManager.animationFrame run i (NavigationManager.onDestroy run s).2
     = (NavigationManager.onDestroy run s).2) ∧
  (∀ depth theme s,
     ∃ ts, timers (BaseComponent.browser
                     (ThemeManager.setTheme (ThemeManager.run depth) theme s).2.2)
           = timers (BaseComponent.browser s.2) ++ ts) ∧
  (∀ depth s,
     ∃ ts, timers (BaseComponent.browser
                     (ThemeManager.toggleTheme (ThemeManager.run depth) s).2)
           = timers (BaseComponent.browser s.2) ++ ts) ∧
  (∀ (run : unit → option string → list jsval
            → BaseComponent.Sys unit PWAManager.Fields
            → option jsval * BaseComponent.Sys unit PWAManager.Fields) s,
     (∀ c ctx a b w, Spec.observed w (run c ctx a (b, w)).2.2) →
     (serviceWorker (BaseComponent.browser s.2) = true →
      (PWAManager.setupUpdateHandling s).1 = Ok () ∧
      timers (BaseComponent.browser (PWAManager.setupUpdateHandling s).2.2)
      = timers (BaseComponent.browser s.2) ∧
      animationFrames (BaseComponent.browser (PWAManager.setupUpdateHandling s).2.2)
      = animationFrames (BaseComponent.browser s.2) ∧
      intervals (BaseComponent.browser (PWAManager.setupUpdateHandling s).2.2)
      = intervals (BaseComponent.browser s.2)
        ++ (if bool_decide (is_Some (PWAManager.swRegistration (PWAManager.fields s)))
            then [(60000%Z, CheckForUpdates)] else [])) ∧
     (timers (BaseComponent.browser (PWAManager.applyUpdate run s).2)
      = timers (BaseComponent.browser s.2)
        ++ (if bool_decide (is_Some (PWAManager.swRegistration (PWAManager.fields s)))
               && BaseComponent.flag "swUpdateReady" s
            then [(1000%Z, ReloadPage)] else []) ∧
      intervals (BaseComponent.browser (PWAManager.applyUpdate run s).2)
      = intervals (BaseComponent.browser s.2) ∧
      animationFrames (BaseComponent.browser (PWAManager.applyUpdate run s).2)
      = animationFrames (BaseComponent.browser s.2)) ∧
     ((PWAManager.onDestroy s).1 = Ok () ∧
      Spec.same_schedule (BaseComponent.browser s.2)
        (BaseComponent.browser (PWAManager.onDestroy s).2.2))) ∧
  (∀ (run : unit → option string → list jsval
            → BaseComponent.Sys unit I18nManager.Fields
            → option jsval * BaseComponent.Sys unit I18nManager.Fields) language s,
     (∀ c ctx a b w, Spec.observed w (run c ctx a (b, w)).2.2) →
     Spec.same_schedule (BaseComponent.browser s.2)
       (BaseComponent.browser (I18nManager.loadTranslations run language s).2.2) ∧
     Spec.same_schedule (BaseComponent.browser s.2)
       (BaseComponent.browser (I18nManager.loadLanguagePreference run s).2.2) ∧
     Spec.same_schedule (BaseComponent.browser s.2)
       (BaseComponent.browser (I18nManager.saveLanguagePreference s).2.2)).
Proof.
  split; [|split; [|split; [|split; [|split]]]].
  - intros ev t s Hb Hf.
    destruct (waitFor_timeout ev t s Hb Hf) as (H1 & H2 & H3 & H4 & _ & H5). done.
  - intros run s i. apply onDestroy_cancels_frame.
  - intros depth theme s.
    apply (footprint_setTheme (ThemeManager.run depth) (footprint_run depth) theme s).
  - intros depth s.
    apply (footprint_toggleTheme (ThemeManager.run depth) (footprint_run depth) s).
  - intros run s Hrun. by apply pwa_schedule.
  - intros run language s Hrun. by apply i18n_schedule.
Qed.

Lemma timeouts_and_cancellation_witness :
  default [] (EventBus.events
                (WaitFor.elapse 1
                   (WaitFor.waitFor "tick" 5000 Scenario.ticking).2).1 !! "tick")
  = default [] (EventBus.events Scenario.ticking.1 !! "tick") ∧
  animationFrames
    (BaseComponent.browser
       (NavigationManager.onDestroy Scenario.inert Scenario.scrolling).2.2)
  = filter (λ j, j ≠ 1%nat) (animationFrames (BaseComponent.browser Scenario.scrolling.2)).
Proof.
  split.
  - refine (proj2 (proj2 (proj2 (proj2
              (proj1 timeouts_and_cancellation "tick" 5000%Z Scenario.ticking
                 ticking_sorted _))))).
    unfold Spec.fresh_id. apply (bool_decide_unpack _). vm_compute. exact I.
  - refine (proj1 (proj2 (proj1 (proj2 timeouts_and_cancellation)
                            Scenario.inert Scenario.scrolling 1%nat _ _)));
      vm_compute; reflexivity.
Defined.
